(* ===== verification/_CoqProject ===== *)
-Q . S2P
Prelude.v
Doubles.v
Utils.v
TransferPlan.v
Observation.v
ParallelIo.v
BounceBuffer.v
PosixIo.v
RequestLimiter.v
BounceBufferCache.v
HttpRetry.v
Aggregate.v
Reactor.v
Transfers.v
Wakeup.v
RemoteCallback.v
Regex.v
Numerals.v
TextFormat.v
Defaults.v
FileHandle.v
Cuda.v
FileIo.v
FileIoSpec.v
PageCache.v
BlockDevice.v
Driver.v
CudaShim.v
Batch.v
Stream.v
Events.v
CurlShare.v
Tls.v
Mmap.v
MmapSpec.v
Url.v
UrlBuilder.v
Endpoint.v
EasyHandles.v
RemoteHandle.v
MultiPollRead.v
MultiPollBytes.v
Flights.v
MultiPollDevice.v
Summary.v
Atomics.v
Json.v
Report.v
SizeProbe.v
Serial.v
Nic.v
Logger.v
PoolStart.v
Jni.v
