(* ===== verification/Prelude.v ===== *)
(** * KvikIO: a verification development

    KvikIO moves bytes between files (local or remote) and host or device
    memory.  This library models the C++ code under [src/cpp/] as executable
    definitions and proves what makes each part of it correct.  This file is
    the root of the library and the prelude that the others share.

    ** The program and its models

    A call of the public interface meets these layers; each is a file here,
    and file names under [src/cpp/src/] (or [include/kvikio/] for headers) stand
    in the comment that opens it.

    Local files.
    - [FileHandle]: opening, closing and moving a handle, its two descriptors
      and its registration with cuFile ([file_handle.cpp], [file_utils.cpp],
      [compat_mode_manager.cpp]).
    - [FileIo], [FileIoSpec]: [read], [write], [pread], [pwrite]: the choice of
      a path, the tasks, and what the tasks achieve together.
    - [ParallelIo]: the tasks of one operation and the future they complete
      ([detail/parallel_operation.hpp]).
    - [PosixIo]: POSIX and Direct I/O of one task, to host and to device memory
      ([detail/posix_io.hpp]).
    - [BounceBuffer]: the pools of page-aligned and pinned buffers it uses.
    - [Stream]: [read_async] and [write_async] and their futures ([stream.cpp]).
    - [Mmap], [MmapSpec]: memory-mapped handles ([mmap.cpp]).
    - [Batch]: batches and registered buffers; [Driver]: the cuFile library and
      its properties; [PageCache], [BlockDevice]: residency of files and the
      devices they are on ([file_utils.cpp]).
    - [Cuda]: pointers, contexts and the error checks ([utils.cpp],
      [error.hpp]).

    Remote files.
    - [Url], [UrlBuilder], [Regex], [Endpoint]: URLs and the handles they are
      read and built with, how a URL selects an endpoint, and what an endpoint
      sets on a libcurl handle ([detail/url.cpp], [remote_handle.cpp],
      [hdfs.cpp]).
    - [RemoteHandle]: the blocking read and both kinds of [pread].
    - [RemoteCallback]: what becomes of the bytes libcurl delivers.
    - [HttpRetry], [EasyHandles], [CurlShare], [Tls]: retries, easy handles and
      their pool, DNS caches, certificates ([shim/libcurl.cpp],
      [detail/http_retry.cpp], [detail/curl_share.cpp], [detail/tls.cpp]).
    - [SizeProbe]: the size requests through the retry loop and the counters.
    - [Reactor], [PoolStart], [Wakeup], [Transfers], [Aggregate]: the multi-poll
      backend: its queue and threads, how they start, when they sleep and wake,
      what each transfer owns, and the read that its transfers report to
      ([detail/multi_poll_reactor.cpp]).
    - [RequestLimiter], [BounceBufferCache], [Events]: the resources it waits
      for ([detail/concurrent_request_limiter.cpp],
      [detail/bounce_buffer_cache.cpp], [detail/event.cpp], [detail/stream.cpp],
      [detail/io_event_barrier.cpp]).
    - [MultiPollRead]: [pread] on that backend, from the call to its future;
      [MultiPollBytes] and [MultiPollDevice]: the bytes it leaves in host and in
      device memory, over what [Flights] says of transfers on the wire.

    Shared.
    - [Utils], [Defaults], [Logger]: alignment, conversions, settings and the
      environment, the logger it configures.
    - [CudaShim]: the CUDA driver library and batched copies ([shim/cuda.cpp]).
    - [TransferPlan]: the planner that groups, merges and splits many requests.
    - [Observation], [Summary], [Atomics], [Serial], [Report]: who is told of an
      operation, the statistics kept of it, the counters under concurrency,
      their serialised form, and their reports as text and as JSON; [Doubles],
      [Numerals], [TextFormat] and [Json] are what the reports are made of
      ([detail/string_utils.cpp] and the arithmetic of [double]).
    - [Nic]: the plugin that samples network interfaces
      ([nsys_plugins/nic/]).
    - [Jni]: the native half of the Java binding ([CuFileJni.cpp] of the Java
      sources).

    ** How the code is rendered

    - A [size_t] or [uint64_t] is an integer in [[0, 2^64)]; its arithmetic is
      [+%], [-%] and [*%], which wrap.  A vector index is a [nat].  Addresses and
      times are plain integers.
    - An exception is a value of [exn].  Where nothing survives it a function
      returns a [result]; where the state it leaves behind matters, it is a
      [st], which keeps the state in both cases, and is specified with [ends].
    - A loop is [while_loop] with fuel; each loop has a bound computed from its
      input, and the theorems say that it ends within it.
    - What is not under [src/] is a parameter: a variable of a section or a
      class of operations ([HostMemory], [Platform], ...), its documented
      behaviour a class of laws.  Every theorem with such laws is applied by its
      witness to a concrete instance.
    - Threads interleave at critical sections and atomic operations: step
      relations, or sequences of steps, whose order is quantified over.

    ** What the theorems show

    - Bytes: reads and writes, local ([FileIoSpec], [PosixIo]), mapped
      ([MmapSpec]), planned ([TransferPlan]) and remote ([RemoteHandle],
      [RemoteCallback], [MultiPollBytes], [MultiPollDevice]) move exactly the
      bytes that were asked for, whatever the order of tasks, transfers, chunks,
      retries and device copies and however short each system call.
    - Ownership: descriptors, buffers, slots, handles, batches, mappings,
      arguments of asynchronous transfers and events are released exactly once
      and used by one owner at a time ([FileHandle], [BounceBuffer],
      [BounceBufferCache], [Transfers], [Batch], [Stream], [Events],
      [CurlShare], [MmapSpec], [Jni]).
    - Concurrency: futures are completed once and always ([ParallelIo],
      [Aggregate]), no transfer is lost ([Reactor]), no wakeup is ([Wakeup]), and
      put together a multi-poll read returns what its transfers did
      ([MultiPollRead]); limits hold in every interleaving ([RequestLimiter],
      [Reactor]).
    - Termination and errors: every loop ends ([ParallelIo], [PosixIo],
      [HttpRetry]), and which error is thrown when, and what it leaves behind,
      is part of the statements ([RemoteHandle], [Defaults], [Endpoint],
      [FileHandle], [PoolStart]).
    - Agreement with a simpler account: the registry and the recorders
      ([Observation]), the cached driver properties ([Driver]), pooled easy
      handles and handles of one's own ([EasyHandles]), size probes and one
      exchange with the server ([SizeProbe]), a batched copy and its single
      copies ([CudaShim]), the time a summary calls busy ([Summary]), the loop of
      a reactor as steps of the pool ([Reactor]).
    - Round trips: serialised summaries ([Serial]), reports as JSON ([Report]),
      percent-encoding ([Url]), command lines ([Nic]).

    The examples beside them pin down behaviour at the edges; where one shows the
    code to differ from its comments or its intent, its name says how.

    ** Not modelled

    - The bodies of cuFile, CUDA, libcurl, the kernel and the thread pool: they
      are parameters, with what the code relies on as laws.
    - NVTX ranges, and the levels and sinks of the logging library: they have no
      effect on I/O.
    - Memory ordering below the level of sequential consistency: the atomics of
      the code are used for counters and flags that the steps update at once.
    - The Java classes and the Python binding, which call the library, and the
      tests, benchmarks and examples. *)

From stdpp Require Import base list strings gmap.
From Stdlib Require Import ZArith Lia.

(** ** Machine words

    [std::size_t] and [std::uint64_t] values are integers in [[0, 2^64)].
    Arithmetic on them wraps; the wrap is written out by [wrap64]. *)
Declare Scope word_scope.
Delimit Scope word_scope with word.

Abbreviation SIZE_MOD := (18446744073709551616)%Z (only parsing).
Abbreviation SSIZE_MAX := (9223372036854775807)%Z (only parsing).

Definition wrap64 (x : Z) : Z := (x mod SIZE_MOD)%Z.

Notation "a +% b" := (wrap64 (a + b)%Z) (at level 50, left associativity) : word_scope.
Notation "a -% b" := (wrap64 (a - b)%Z) (at level 50, left associativity) : word_scope.
Notation "a *% b" := (wrap64 (a * b)%Z) (at level 40, left associativity) : word_scope.

#[global] Open Scope word_scope.
#[local] Open Scope Z_scope.

(** The conversion to [int]. *)
Definition to_int32 (x : Z) : Z := (x + 2147483648) mod 4294967296 - 2147483648.

Definition is_size (x : Z) : Prop := 0 <= x < SIZE_MOD.

Lemma wrap64_small x : 0 <= x < SIZE_MOD -> wrap64 x = x.
Proof. apply Z.mod_small. Qed.

Lemma wrap64_range x : 0 <= wrap64 x < SIZE_MOD.
Proof. apply Z.mod_pos_bound. lia. Qed.

Lemma wrap64_over x : SIZE_MOD <= x < 2 * SIZE_MOD -> wrap64 x = x - SIZE_MOD.
Proof.
  intros. unfold wrap64. replace x with (x - SIZE_MOD + 1 * SIZE_MOD) at 1 by lia.
  rewrite Z.mod_add by lia. apply Z.mod_small. lia.
Qed.

Lemma wrap64_under x : - SIZE_MOD <= x < 0 -> wrap64 x = x + SIZE_MOD.
Proof.
  intros. unfold wrap64. replace x with (x + SIZE_MOD + (-1) * SIZE_MOD) at 1 by lia.
  rewrite Z.mod_add by lia. apply Z.mod_small. lia.
Qed.

(** Only the last wrap of a sum counts. *)
Lemma wrap64_add_l a b : wrap64 (wrap64 a + b) = wrap64 (a + b).
Proof. apply Zplus_mod_idemp_l. Qed.

Lemma wrap64_add_r a b : wrap64 (a + wrap64 b) = wrap64 (a + b).
Proof. apply Zplus_mod_idemp_r. Qed.

Lemma wrap64_sub_l a b : wrap64 (wrap64 a - b) = wrap64 (a - b).
Proof. apply Zminus_mod_idemp_l. Qed.

(** An equation between wrapped sums that holds without the inner wraps. *)
Ltac wrap_eq := rewrite ?wrap64_add_l, ?wrap64_add_r; f_equal; lia.

(** Discharge the wraps of a goal that stay inside the word. *)
Ltac word_simpl :=
  repeat match goal with
  | |- context [wrap64 ?x] => rewrite (wrap64_small x) by lia
  end.
Ltac word_simpl_in H :=
  repeat match type of H with
  | context [wrap64 ?x] => rewrite (wrap64_small x) in H by lia
  end.
Ltac word_lia := word_simpl; lia.

(** ** Errors

    The exception types the library throws.  [KVIKIO_EXPECT] and [KVIKIO_FAIL]
    throw [CUfileException] unless told otherwise. *)
Inductive exn :=
  | CUfileException (msg : string)
  | InvalidArgument (msg : string)
  | RuntimeError (msg : string)
  | OutOfRange (msg : string)
  | OverflowError (msg : string)
  | LengthError (msg : string)
  | LogicError (msg : string)
  | GenericSystemError (msg : string).

#[global] Instance exn_eq_dec : EqDecision exn.
Proof. solve_decision. Defined.

(** A computation returns, throws, or exhausts the fuel of one of its loops.
    [NoFuel] is not a behaviour of the code: each loop comes with a theorem
    that its fuel is enough. *)
Inductive result (A : Type) :=
  | Ok (a : A)
  | Err (e : exn)
  | NoFuel.
Arguments Ok {A} _.
Arguments Err {A} _.
Arguments NoFuel {A}.

#[global] Instance result_ret : MRet result := fun A a => Ok a.
#[global] Instance result_bind : MBind result := fun A B f m =>
  match m with Ok a => f a | Err e => Err e | NoFuel => NoFuel end.
#[global] Instance result_fmap : FMap result := fun A B f m =>
  match m with Ok a => Ok (f a) | Err e => Err e | NoFuel => NoFuel end.

(** [KVIKIO_EXPECT(cond, msg, exception)]. *)
Definition expect (cond : bool) (e : exn) : result unit :=
  if cond then Ok tt else Err e.

(** [returns m Q E]: [m] does not run out of fuel, what it returns satisfies
    [Q] and what it throws satisfies [E]. *)
Definition returns {A} (m : result A) (Q : A -> Prop) (E : exn -> Prop) : Prop :=
  match m with Ok a => Q a | Err e => E e | NoFuel => False end.

Lemma returns_bind {A B} (m : result A) (f : A -> result B) Q E :
  returns m (fun a => returns (f a) Q E) E -> returns (m ≫= f) Q E.
Proof. by destruct m. Qed.

Lemma returns_mono {A} (m : result A) (Q Q' : A -> Prop) (E E' : exn -> Prop) :
  returns m Q E -> (forall a, Q a -> Q' a) -> (forall e, E e -> E' e) ->
  returns m Q' E'.
Proof. destruct m; simpl; eauto. Qed.

Lemma returns_expect (b : bool) e (Q : unit -> Prop) (E : exn -> Prop) :
  (b = true -> Q tt) -> (b = false -> E e) -> returns (expect b e) Q E.
Proof. destruct b; simpl; auto. Qed.

Lemma returns_ok {A} (m : result A) (Q : A -> Prop) :
  returns m Q (fun _ => False) -> exists a, m = Ok a /\ Q a.
Proof. destruct m; simpl; [eauto | done | done]. Qed.

(** Whether a run returned; evaluating it does not evaluate the value. *)
Definition is_ok {A} (m : result A) : bool := match m with Ok _ => true | _ => false end.

Lemma is_ok_inv {A} (m : result A) : is_ok m = true -> exists a, m = Ok a.
Proof. destruct m; [by eexists|done..]. Qed.

(** ** Stateful computations

    An operation that acts on a state of type [S] and may throw; the state it
    leaves behind counts also when it throws. *)
Definition st (S A : Type) : Type := S -> (exn + A) * S.

#[global] Instance st_ret {S} : MRet (st S) := fun A a s => (inr a, s).
#[global] Instance st_bind {S} : MBind (st S) := fun A B f m s =>
  match m s with (inr a, s') => f a s' | (inl e, s') => (inl e, s') end.

Definition throw {S A} (e : exn) : st S A := fun s => (inl e, s).
Definition get_st {S} : st S S := fun s => (inr s, s).
Definition put_st {S} (s : S) : st S unit := fun _ => (inr tt, s).
Definition modify {S} (f : S -> S) : st S unit := fun s => (inr tt, f s).
Definition require {S} (cond : bool) (e : exn) : st S unit :=
  if cond then mret tt else throw e.

(** [try]: the exception as a value. *)
Definition attempt {S A} (m : st S A) : st S (exn + A) := fun s =>
  let '(r, s') := m s in (inr r, s').

(** A [result] that does not depend on the state. *)
Definition of_result {S A} (m : result A) : st S A := fun s =>
  match m with Ok a => (inr a, s) | Err e => (inl e, s) | NoFuel => (inl (RuntimeError ""), s) end.

(** What a client sees that does not survive an exception. *)
Definition run_st {S A} (m : st S A) (s : S) : result (A * S) :=
  match m s with (inr a, s') => Ok (a, s') | (inl e, _) => Err e end.

(** [m] ends in [Q] when it returns and in [E] when it throws. *)
Definition ends {S A} (m : st S A) (s : S) (Q : A -> S -> Prop) (E : exn -> S -> Prop) : Prop :=
  match m s with (inr a, s') => Q a s' | (inl e, s') => E e s' end.

Lemma run_st_returns {S A} (m : st S A) s Q (E : exn -> Prop) :
  ends m s Q (fun e _ => E e) -> returns (run_st m s) (fun r => Q r.1 r.2) E.
Proof. unfold ends, run_st. by destruct (m s) as [[e|a] s']. Qed.

Lemma ends_bind {S A B} (m : st S A) (f : A -> st S B) s Q E :
  ends m s (fun a s' => ends (f a) s' Q E) E -> ends (m ≫= f) s Q E.
Proof. unfold ends, mbind, st_bind. by destruct (m s) as [[e|a] s']. Qed.

Lemma ends_mono {S A} (m : st S A) s (Q Q' : A -> S -> Prop) (E E' : exn -> S -> Prop) :
  ends m s Q E -> (forall a s', Q a s' -> Q' a s') -> (forall e s', E e s' -> E' e s') ->
  ends m s Q' E'.
Proof. unfold ends. destruct (m s) as [[e|a] s']; eauto. Qed.

Lemma ends_inv {S A} (m : st S A) s a s' (Q : A -> S -> Prop) E : m s = (inr a, s') -> ends m s Q E -> Q a s'.
Proof. unfold ends. by intros ->. Qed.

Lemma ends_attempt {S A} (m : st S A) s (Q : (exn + A) -> S -> Prop) E :
  ends m s (fun a => Q (inr a)) (fun e => Q (inl e)) -> ends (attempt m) s Q E.
Proof. unfold ends, attempt. by destruct (m s) as [[e|a] s']. Qed.

(** ** Loops *)

(** [while (cond s) { s = body(s); }], at most [fuel] times round. *)
Fixpoint while_loop {S : Type} (fuel : nat) (cond : S -> bool)
    (body : S -> result S) (s : S) : result S :=
  if cond s then
    match fuel with
    | O => NoFuel
    | Datatypes.S fuel' => body s ≫= while_loop fuel' cond body
    end
  else Ok s.

(** Total-correctness rule: an invariant, a measure that each round lowers,
    and enough fuel for the measure. *)
Lemma while_rule {S : Type} (I : S -> Prop) (m : S -> Z) (E : exn -> Prop) cond body :
  (forall s, I s -> cond s = true ->
     0 < m s /\ returns (body s) (fun s' => I s' /\ 0 <= m s' < m s) E) ->
  forall fuel s, I s -> 0 <= m s <= Z.of_nat fuel ->
  returns (while_loop fuel cond body s) (fun s' => I s' /\ cond s' = false) E.
Proof.
  intros Hbody fuel. induction fuel as [|fuel IH]; intros s HI Hm; simpl;
    destruct (cond s) eqn:Hc; try (simpl; tauto).
  - destruct (Hbody s HI Hc). simpl in *. lia.
  - apply returns_bind. eapply returns_mono; [by apply Hbody | | done].
    intros s' [HI' Hm']. apply IH; [done | lia].
Qed.

(** Partial correctness. *)
Lemma while_preserves {S : Type} (I : S -> Prop) cond (body : S -> result S) :
  (forall s s', I s -> cond s = true -> body s = Ok s' -> I s') ->
  forall fuel s s', I s -> while_loop fuel cond body s = Ok s' -> I s'.
Proof.
  intros Hbody fuel. induction fuel as [|fuel IH]; intros s s' HI; simpl; destruct (cond s) eqn:Hc; try done; try naive_solver.
  destruct (body s) eqn:Hb; simpl; try done. apply IH. by eapply Hbody.
Qed.

(** More fuel does not change what a loop that ended computed. *)
Lemma while_fuel_mono {S : Type} cond (body : S -> result S) fuel fuel' s :
  (fuel <= fuel')%nat ->
  while_loop fuel cond body s <> NoFuel ->
  while_loop fuel' cond body s = while_loop fuel cond body s.
Proof.
  revert fuel' s. induction fuel as [|fuel IH]; intros fuel' s Hle; simpl.
  - destruct fuel'; simpl; destruct (cond s); done.
  - destruct fuel' as [|fuel']; [lia|]. simpl. destruct (cond s); [|done].
    destruct (body s); simpl; try done. apply IH. lia.
Qed.

(** ** Lists *)

Fixpoint sumZ (l : list Z) : Z :=
  match l with [] => 0 | x :: l' => x + sumZ l' end.

Lemma sumZ_app l k : sumZ (l ++ k) = sumZ l + sumZ k.
Proof. induction l; simpl; lia. Qed.

Lemma sumZ_cons x l : sumZ (x :: l) = x + sumZ l.
Proof. done. Qed.

Lemma sumZ_nil : sumZ [] = 0.
Proof. done. Qed.

Lemma sumZ_perm l k : Permutation l k -> sumZ l = sumZ k.
Proof. induction 1; simpl; lia. Qed.

Lemma sumZ_nonneg l : Forall (fun x => 0 <= x) l -> 0 <= sumZ l.
Proof. induction 1; simpl; lia. Qed.

Lemma bind_ext_Forall {A B} (f g : A -> list B) l :
  Forall (fun x => f x = g x) l -> l ≫= f = l ≫= g.
Proof. induction 1 as [|x l Hx _ IH]; [done|]. simpl. f_equal; [apply Hx | apply IH]. Qed.

(** How many entries of a map have a property. *)
Definition map_count {K A} `{Countable K} (P : A -> Prop) `{!forall x, Decision (P x)} (m : gmap K A) : Z :=
  Z.of_nat (size (filter (fun kv : K * A => P kv.2) m)).

Section map_count.
Context {K A : Type} `{Countable K} (P : A -> Prop) `{!forall x, Decision (P x)}.
Implicit Type m : gmap K A.

Lemma map_count_insert m k x :
  m !! k = None -> map_count P (<[k := x]> m) = map_count P m + (if decide (P x) then 1 else 0).
Proof.
  intros Hk. unfold map_count. case_decide as Hx.
  - rewrite map_filter_insert_True by done. rewrite map_size_insert_None; [lia|].
    apply map_lookup_filter_None. by left.
  - rewrite map_filter_insert_False by done. rewrite delete_id by done. lia.
Qed.

Lemma map_count_delete m k x :
  m !! k = Some x -> map_count P (delete k m) = map_count P m - (if decide (P x) then 1 else 0).
Proof.
  intros Hk. assert (Hd : delete k m !! k = None) by apply lookup_delete_eq.
  pose proof (map_count_insert _ k x Hd) as Hi. rewrite insert_delete_id in Hi by done. lia.
Qed.

Lemma map_count_replace m k x y :
  m !! k = Some x ->
  map_count P (<[k := y]> m)
  = map_count P m - (if decide (P x) then 1 else 0) + (if decide (P y) then 1 else 0).
Proof.
  intros Hk. rewrite <- insert_delete_eq, map_count_insert by apply lookup_delete_eq.
  by rewrite (map_count_delete _ _ x).
Qed.

Lemma map_count_none m : (forall k x, m !! k = Some x -> ~ P x) -> map_count P m = 0.
Proof.
  intros Hn. unfold map_count. rewrite (proj2 (map_size_empty_iff _)); [done|].
  apply map_empty_filter_2. intros k x Hk Hx. by apply (Hn k x Hk).
Qed.

Lemma map_count_nonneg m : 0 <= map_count P m.
Proof. unfold map_count. lia. Qed.

Lemma map_count_pos m k x : m !! k = Some x -> P x -> 0 < map_count P m.
Proof.
  intros Hk Hx. pose proof (map_count_delete m k x Hk) as Hd. rewrite decide_True in Hd by done.
  pose proof (map_count_nonneg (delete k m)). lia.
Qed.
End map_count.

(** How often a value is in a list. *)
Definition occurs {A} `{EqDecision A} (x : A) (l : list A) : Z := Z.of_nat (length (filter (fun y => y = x) l)).

Section occurs.
Context {A : Type} `{EqDecision A}.
Implicit Types (x y : A) (l k : list A).

Lemma occurs_nil x : occurs x [] = 0.
Proof. done. Qed.

Lemma occurs_cons x y l : occurs x (y :: l) = (if decide (y = x) then 1 else 0) + occurs x l.
Proof. unfold occurs. rewrite filter_cons. case_decide; simpl; lia. Qed.

Lemma occurs_app x l k : occurs x (l ++ k) = occurs x l + occurs x k.
Proof. unfold occurs. rewrite filter_app, length_app. lia. Qed.

Lemma occurs_nonneg x l : 0 <= occurs x l.
Proof. unfold occurs. lia. Qed.

Lemma occurs_pos x l : x ∈ l <-> 0 < occurs x l.
Proof.
  induction l as [|y l IH].
  - rewrite occurs_nil. split; [by intros ?%not_elem_of_nil|lia].
  - rewrite occurs_cons, elem_of_cons, IH. pose proof (occurs_nonneg x l).
    case_decide; split; intros Hx; [lia|by left| |by right; lia].
    destruct Hx as [->|Hx]; [done|lia].
Qed.
End occurs.

(** A number that is not in a list. *)
Definition next_id (l : list Z) : Z := 1 + foldr Z.max 0 l.

Lemma next_id_above l x : x ∈ l -> x < next_id l.
Proof.
  unfold next_id. induction l as [|y l IH]; intros Hx; [by apply not_elem_of_nil in Hx|].
  apply elem_of_cons in Hx as [->|Hx]; simpl; [lia|]. specialize (IH Hx). lia.
Qed.

Lemma next_id_fresh l : next_id l ∉ l.
Proof. intros Hx%next_id_above. lia. Qed.

Lemma next_id_pos l : 0 < next_id l.
Proof. unfold next_id. assert (0 <= foldr Z.max 0 l) by (induction l; simpl; lia). lia. Qed.

Create HintDb kvikio.
#[export] Hint Rewrite @sumZ_app sumZ_cons sumZ_nil @length_app @fmap_app : kvikio.
#[export] Hint Resolve wrap64_range : kvikio.

(** Destruct every boolean comparison of the context into its proposition. *)
Ltac bool_to_prop :=
  repeat match goal with
  | H : (_ && _)%bool = true |- _ => apply andb_true_iff in H as [? ?]
  | H : (_ || _)%bool = false |- _ => apply orb_false_iff in H as [? ?]
  | H : negb _ = true |- _ => apply negb_true_iff in H
  | H : negb _ = false |- _ => apply negb_false_iff in H
  | H : (_ <? _) = true |- _ => apply Z.ltb_lt in H
  | H : (_ <? _) = false |- _ => apply Z.ltb_ge in H
  | H : (_ <=? _) = true |- _ => apply Z.leb_le in H
  | H : (_ <=? _) = false |- _ => apply Z.leb_gt in H
  | H : (_ =? _) = true |- _ => apply Z.eqb_eq in H
  | H : (_ =? _) = false |- _ => apply Z.eqb_neq in H
  | H : (_ >? _) = true |- _ => rewrite Z.gtb_ltb in H; apply Z.ltb_lt in H
  | H : (_ >? _) = false |- _ => rewrite Z.gtb_ltb in H; apply Z.ltb_ge in H
  | H : (_ >=? _) = true |- _ => rewrite Z.geb_leb in H; apply Z.leb_le in H
  | H : (_ >=? _) = false |- _ => rewrite Z.geb_leb in H; apply Z.leb_gt in H
  | H : bool_decide _ = true |- _ => apply bool_decide_eq_true in H
  | H : bool_decide _ = false |- _ => apply bool_decide_eq_false in H
  end.

(** Case on the test at the head of the goal. *)
Ltac case_bool :=
  match goal with
  | |- context [if ?b then _ else _] => destruct b eqn:?; bool_to_prop
  end.

(** A loop over a list that threads a state and stops at the first error. *)
Fixpoint foldM {A S : Type} (f : S -> A -> result S) (s : S) (l : list A) : result S :=
  match l with
  | [] => Ok s
  | x :: l' => f s x ≫= fun s' => foldM f s' l'
  end.

Lemma foldM_app {A S : Type} (f : S -> A -> result S) s l k :
  foldM f s (l ++ k) = foldM f s l ≫= fun s' => foldM f s' k.
Proof.
  revert s. induction l as [|x l IH]; intros s; [done|]. simpl.
  destruct (f s x); simpl; [apply IH | done | done].
Qed.

(** A step that never fails makes the loop a left fold. *)
Lemma foldM_total {A S : Type} (f : S -> A -> result S) (g : S -> A -> S)
    (I : S -> Prop) l s :
  I s -> (forall s x, I s -> x ∈ l -> f s x = Ok (g s x) /\ I (g s x)) ->
  foldM f s l = Ok (foldl g s l) /\ I (foldl g s l).
Proof.
  revert s. induction l as [|x l IH]; intros s HI Hf; [done|]. simpl.
  destruct (Hf s x HI) as [-> HI']; [left|]. simpl.
  apply IH; [done|]. intros s' y Hs' Hy. apply Hf; [done | by right].
Qed.

Lemma foldM_fuel {A S : Type} (f : S -> A -> result S) s l :
  (forall s x, f s x <> NoFuel) -> foldM f s l <> NoFuel.
Proof.
  intros Hf. revert s. induction l as [|x l IH]; intros s; [done|]. simpl.
  pose proof (Hf s x). destruct (f s x); simpl; [apply IH|done|done].
Qed.
