(* ===== verification/Doubles.v ===== *)
(** * Doubles

    The [double] of the code is an IEEE 754 binary64 number: [spec_float] of the
    Standard Library at 53 bits of precision, whose operations round to the
    nearest, ties to even.  This file has the operations the code uses, how the
    C++ streams print a double, and what a conversion from an integer and a
    division by a power of two come to. *)

From stdpp Require Import base list strings pretty.
From Stdlib Require Import ZArith Lia Ascii SpecFloat.
From S2P Require Import Prelude.

#[local] Open Scope Z_scope.

(** ** Operations *)

Definition double : Set := spec_float.

Definition double_of (z : Z) : double := binary_normalize 53 1024 z 0 false.
Definition fadd (x y : double) : double := SFadd 53 1024 x y.
Definition fmul (x y : double) : double := SFmul 53 1024 x y.
Definition fdiv (x y : double) : double := SFdiv 53 1024 x y.
Definition fabs (x : double) : double := SFabs x.
Definition fltb (x y : double) : bool := SFltb x y.
Definition fgeb (x y : double) : bool := SFleb y x.

Definition isfinite (x : double) : bool :=
  match x with S754_zero _ | S754_finite _ _ _ => true | _ => false end.

(** ** Text *)

(** [num / den] to the nearest integer, a tie to the even one. *)
Definition round_half_even (num den : Z) : Z :=
  let q := num / den in
  match 2 * (num mod den) ?= den with
  | Lt => q
  | Eq => if Z.even q then q else q + 1
  | Gt => q + 1
  end.

Fixpoint zeros (k : nat) : string := match k with O => "" | S k => String "0"%char (zeros k) end.

Definition padded (k : nat) (n : Z) : string :=
  let s := pretty n in zeros (k - String.length s) +:+ s.

(** [q / 10^d] with [d] decimals. *)
Definition decimals (d : nat) (q : Z) : string :=
  let one := 10 ^ Z.of_nat d in
  if (d =? 0)%nat then pretty q else pretty (q / one) +:+ "." +:+ padded d (q mod one).

(** The magnitude of a finite double times [10^d], rounded. *)
Definition scaled (m : positive) (e : Z) (d : nat) : Z :=
  if 0 <=? e then Zpos m * 2 ^ e * 10 ^ Z.of_nat d
  else round_half_even (Zpos m * 10 ^ Z.of_nat d) (2 ^ (- e)).

Definition sign_text (s : bool) : string := if s then "-" else "".

(** [std::fixed << std::setprecision(d)]; a negative precision means six. *)
Definition fixed (d : Z) (x : double) : string :=
  let d := Z.to_nat (if d <? 0 then 6 else d) in
  match x with
  | S754_zero s => sign_text s +:+ decimals d 0
  | S754_infinity s => sign_text s +:+ "inf"
  | S754_nan => "nan"
  | S754_finite s m e => sign_text s +:+ decimals d (scaled m e d)
  end.

(** ** Rounding to 53 bits *)

Definition round53 (n : Z) : Z :=
  let k := Z.log2 n - 52 in
  if k <=? 0 then n else round_half_even n (2 ^ k) * 2 ^ k.

Lemma round_half_even_scale a b c : 0 < b -> 0 < c -> round_half_even (a * c) (b * c) = round_half_even a b.
Proof.
  intros Hb Hc. unfold round_half_even. rewrite Z.div_mul_cancel_r, Z.mul_mod_distr_r by lia.
  replace (2 * (a mod b * c)) with ((2 * (a mod b)) * c) by lia.
  by rewrite <- Zmult_compare_compat_r by lia.
Qed.

Lemma round_half_even_exact a b : 0 < b -> round_half_even (a * b) b = a.
Proof.
  intros Hb. unfold round_half_even. rewrite Z.mod_mul, Z.div_mul by lia.
  destruct (Z.compare_spec (2 * 0) b); [lia|done|lia].
Qed.

(** At most half a unit from the true value. *)
Lemma round_half_even_near a b : 0 < b -> 2 * Z.abs (round_half_even a b * b - a) <= b.
Proof.
  intros Hb. unfold round_half_even. pose proof (Z.div_mod a b ltac:(lia)) as Hd.
  pose proof (Z.mod_pos_bound a b Hb). destruct (Z.compare_spec (2 * (a mod b)) b); [destruct (Z.even _)| |]; lia.
Qed.

(** ** What the operations come to *)

Lemma digits2_log2 p : Zpos (digits2_pos p) = Z.log2 (Zpos p) + 1.
Proof.
  induction p as [p IH|p IH|]; [| |done]; simpl digits2_pos; rewrite Pos2Z.inj_succ, IH.
  - change (Zpos p~1) with (2 * Zpos p + 1). rewrite Z.log2_succ_double; lia.
  - change (Zpos p~0) with (2 * Zpos p). rewrite Z.log2_double; lia.
Qed.

Lemma fexp_64 e : fexp 53 1024 e = Z.max (e - 53) (-1074).
Proof. done. Qed.

Lemma iter_xO p k : Zpos (Pos.iter xO p k) = Zpos p * 2 ^ Zpos k.
Proof.
  rewrite Pos2Nat.inj_iter, <- (positive_nat_Z k). induction (Pos.to_nat k) as [|n IH]; [by rewrite Z.mul_1_r|].
  cbn [nat_rect]. rewrite Pos2Z.inj_xO.
  rewrite IH, Nat2Z.inj_succ, Z.pow_succ_r; lia.
Qed.

Lemma iter_pos_nat {A} (f : A -> A) p x : iter_pos f p x = Nat.iter (Pos.to_nat p) f x.
Proof.
  revert x. induction p as [p IH|p IH|]; intros x; simpl iter_pos; [| |done].
  - rewrite !IH, Pos2Nat.inj_xI, <- Nat.iter_add, Nat.iter_succ_r. do 2 f_equal. lia.
  - rewrite !IH, Pos2Nat.inj_xO, <- Nat.iter_add. f_equal. lia.
Qed.

Lemma shr_1_halves m r s :
  0 <= m -> shr_1 (Build_shr_record m r s) = Build_shr_record (m / 2) (Z.odd m) (r || s).
Proof.
  intros Hm. destruct m as [|[p|p|]|]; simpl; try done; try lia; f_equal.
  - change (Zpos p~1) with (1 + 2 * Zpos p). by rewrite (Z.mul_comm 2), Z.div_add.
  - change (Zpos p~0) with (2 * Zpos p). by rewrite (Z.mul_comm 2), Z.div_mul.
Qed.

(** Shifting right keeps the first bit that is lost, and whether any other is. *)
Lemma shr_iter m k : 0 <= m ->
  Nat.iter (S k) shr_1 (Build_shr_record m false false)
  = Build_shr_record (m / 2 ^ Z.of_nat (S k)) (Z.odd (m / 2 ^ Z.of_nat k)) (negb (m mod 2 ^ Z.of_nat k =? 0)).
Proof.
  intros Hm. induction k as [|k IH].
  - cbn [Nat.iter nat_rect]. rewrite shr_1_halves by done. change (2 ^ Z.of_nat 0) with 1.
    by rewrite Z.mod_1_r, Z.div_1_r.
  - rewrite Nat.iter_succ, IH, shr_1_halves by (apply Z.div_pos; lia).
    rewrite Z.div_div by lia. rewrite (Z.mul_comm _ 2), <- (Z.pow_succ_r 2), <- Nat2Z.inj_succ by lia. f_equal.
    rewrite (Nat2Z.inj_succ k), Z.pow_succ_r, (Z.mul_comm 2), Z.rem_mul_r by lia.
    rewrite Zodd_mod. pose proof (Z.mod_pos_bound m (2 ^ Z.of_nat k) ltac:(lia)).
    pose proof (Z.mod_pos_bound (m / 2 ^ Z.of_nat k) 2 ltac:(lia)).
    destruct (Z.eqb_spec (m mod 2 ^ Z.of_nat k) 0), (Z.eqb_spec ((m / 2 ^ Z.of_nat k) mod 2) 1); simpl;
      symmetry; first [apply negb_true_iff, Z.eqb_neq|apply negb_false_iff, Z.eqb_eq]; nia.
Qed.

Lemma round_shifted m k : 0 <= m ->
  let r := Nat.iter (S k) shr_1 (Build_shr_record m false false) in
  round_nearest_even (shr_m r) (loc_of_shr_record r) = round_half_even m (2 ^ Z.of_nat (S k)).
Proof.
  intros Hm. rewrite shr_iter by done. simpl shr_m. unfold round_half_even.
  rewrite (Nat2Z.inj_succ k), Z.pow_succ_r by lia. set (b := 2 ^ Z.of_nat k).
  assert (0 < b) as Hb by (apply Z.pow_pos_nonneg; lia).
  assert (m mod (2 * b) = m mod b + b * ((m / b) mod 2)) as Hmod
    by (rewrite (Z.mul_comm 2), Z.rem_mul_r; lia).
  pose proof (Z.mod_pos_bound m b Hb). rewrite Zodd_mod.
  pose proof (Z.mod_pos_bound (m / b) 2 ltac:(lia)).
  destruct (Z.eqb_spec ((m / b) mod 2) 1) as [Ho|Ho], (Z.eqb_spec (m mod b) 0) as [Hz|Hz];
    simpl; destruct (Z.compare_spec (2 * (m mod (2 * b))) (2 * b)); try done; nia.
Qed.

(** [x] is the normal number of value [v]. *)
Definition represents (x : double) (v : Z) : Prop :=
  exists m e, x = S754_finite false m e /\ 2 ^ 52 <= Zpos m < 2 ^ 53 /\ -1074 <= e <= 971 /\
    if 0 <=? e then Zpos m * 2 ^ e = v else Zpos m = v * 2 ^ (- e).

Lemma normal_log2 m : 2 ^ 52 <= m < 2 ^ 53 -> Z.log2 m = 52.
Proof. intros. apply Z.log2_unique; simpl; lia. Qed.

Lemma round_aux_53 m e l : 2 ^ 52 <= Zpos m < 2 ^ 53 -> -1074 <= e <= 971 ->
  l = loc_Exact -> binary_round_aux 53 1024 false (Zpos m) e l = S754_finite false m e.
Proof.
  intros Hm He ->. unfold binary_round_aux, shr_fexp. cbn [Zdigits2 shr_record_of_loc].
  rewrite fexp_64, digits2_log2, (normal_log2 _ Hm).
  replace (Z.max (52 + 1 + e - 53) (-1074) - e) with 0 by lia. cbn [shr shr_m loc_of_shr_record round_nearest_even].
  cbn [Zdigits2 shr_record_of_loc]. rewrite fexp_64, digits2_log2, (normal_log2 _ Hm).
  replace (Z.max (52 + 1 + e - 53) (-1074) - e) with 0 by lia. cbn [shr shr_m].
  rewrite (proj2 (Z.leb_le _ _)); [done|lia].
Qed.

Lemma double_of_small n : 0 < n < 2 ^ 53 -> represents (double_of n) n.
Proof.
  intros Hn. destruct n as [|p|]; try lia. unfold double_of, binary_normalize, binary_round.
  rewrite fexp_64, digits2_log2. pose proof (Z.log2_nonneg (Zpos p)).
  assert (Z.log2 (Zpos p) < 53) by (apply Z.log2_lt_pow2; lia).
  set (k := 52 - Z.log2 (Zpos p)). replace (Z.max _ _) with (- k) by lia.
  pose proof (Z.log2_spec (Zpos p) ltac:(lia)) as [Hl Hu].
  assert (2 ^ 52 <= Zpos p * 2 ^ k < 2 ^ 53) as Hr.
  { replace 52 with (Z.log2 (Zpos p) + k) by lia. replace 53 with (Z.succ (Z.log2 (Zpos p)) + k) by lia.
    rewrite !Z.pow_add_r by lia. nia. }
  assert (exists m, shl_align p 0 (- k) = (m, - k) /\ Zpos m = Zpos p * 2 ^ k) as (m & -> & Hm).
  { unfold shl_align. destruct k as [|q|q] eqn:Hk; [|simpl|lia].
    - exists p. simpl. split; [done|lia].
    - exists (Pos.iter xO p q). split; [done|]. apply iter_xO. }
  exists m, (- k). rewrite round_aux_53 by (rewrite ?Hm; try done; lia).
  split_and!; try lia; [done|]. destruct (Z.leb_spec 0 (- k)) as [Hk|Hk]; [|by rewrite Z.opp_involutive].
  replace k with 0 in * by lia. rewrite Hm. simpl. lia.
Qed.

(** A larger integer loses its low bits; rounding may carry into the next power
    of two. *)
Lemma double_of_large n : 2 ^ 53 <= n < 2 ^ 900 -> represents (double_of n) (round53 n).
Proof.
  intros Hn. destruct n as [|p|]; try lia. unfold double_of, binary_normalize, binary_round.
  rewrite fexp_64, digits2_log2.
  assert (53 <= Z.log2 (Zpos p)) by (apply Z.log2_le_pow2; lia).
  assert (Z.log2 (Zpos p) < 900) by (apply Z.log2_lt_pow2; lia).
  unfold round53. set (k := Z.log2 (Zpos p) - 52). rewrite (proj2 (Z.leb_gt _ _)) by lia.
  replace (Z.max _ _) with k by lia. unfold shl_align. replace (k - 0) with k by lia.
  destruct k as [|q|] eqn:Hk; try lia. subst k.
  unfold binary_round_aux, shr_fexp. cbn [Zdigits2 shr_record_of_loc].
  rewrite fexp_64, digits2_log2. replace (Z.max _ _ - 0) with (Zpos q) by lia. cbn [shr].
  rewrite iter_pos_nat. destruct (Pos.to_nat q) as [|j] eqn:Hj; [lia|].
  rewrite round_shifted by lia. replace (Z.of_nat (S j)) with (Zpos q) by lia.
  set (b := 2 ^ Zpos q). set (r := round_half_even (Zpos p) b).
  assert (0 < b) as Hb by (apply Z.pow_pos_nonneg; lia).
  pose proof (Z.log2_spec (Zpos p) ltac:(lia)) as [Hl Hu].
  replace (Z.succ (Z.log2 (Zpos p))) with (53 + Zpos q) in Hu by lia.
  replace (Z.log2 (Zpos p)) with (52 + Zpos q) in Hl by lia. rewrite Z.pow_add_r in Hl, Hu by lia.
  fold b in Hl, Hu. pose proof (round_half_even_near (Zpos p) b Hb) as Hnear. fold r in Hnear.
  assert (2 ^ 52 <= r <= 2 ^ 53) as Hr by nia.
  destruct (decide (r = 2 ^ 53)) as [Hr53|Hr53].
  - rewrite Hr53. exists 4503599627370496%positive, (Zpos q + 1). change (0 + Zpos q) with (Zpos q).
    cbn [Zdigits2 shr_record_of_loc]. rewrite fexp_64. change (Zdigits2 (2 ^ 53)) with 54.
    replace (Z.max _ _ - _) with 1 by lia. cbn. rewrite (proj2 (Z.leb_le _ _)) by lia.
    split_and!; try lia; [done|]. rewrite (proj2 (Z.leb_le _ _)), Z.pow_add_r by lia. subst b. lia.
  - destruct r as [|m|m] eqn:Hm; try lia. exists m, (Zpos q). change (0 + Zpos q) with (Zpos q).
    cbn [Zdigits2 shr_record_of_loc]. rewrite fexp_64, digits2_log2, normal_log2 by lia.
    replace (Z.max _ _ - _) with 0 by lia. cbn [shr shr_m]. rewrite (proj2 (Z.leb_le _ _)) by lia.
    split_and!; try lia; [done|]. by rewrite (proj2 (Z.leb_le _ _)) by lia.
Qed.

Lemma double_of_spec n : 0 < n < 2 ^ 900 -> represents (double_of n) (round53 n).
Proof.
  intros Hn. destruct (decide (n < 2 ^ 53)); [|apply double_of_large; lia].
  unfold round53. rewrite (proj2 (Z.leb_le _ _)); [apply double_of_small; lia|].
  assert (Z.log2 n < 53) by (apply Z.log2_lt_pow2; lia). lia.
Qed.

(** ** Powers of two *)

Definition pow2_double (k : Z) : double := S754_finite false 4503599627370496 (k - 52).

Lemma double_of_1024 : double_of 1024 = pow2_double 10.
Proof. reflexivity. Qed.

Lemma round_aux_54 m e : 2 ^ 52 <= Zpos m < 2 ^ 53 -> -1074 <= e <= 971 ->
  binary_round_aux 53 1024 false (Zpos (xO m)) (e - 1) loc_Exact = S754_finite false m e.
Proof.
  intros Hm He. assert (Zpos (digits2_pos m~0) = 54) as Hd.
  { rewrite digits2_log2, Pos2Z.inj_xO, Z.log2_double, (normal_log2 _ Hm) by lia. done. }
  unfold binary_round_aux, shr_fexp. cbn [Zdigits2 shr_record_of_loc]. rewrite fexp_64, Hd.
  replace (Z.max _ _ - _) with 1 by lia. cbn [shr iter_pos shr_1 shr_m loc_of_shr_record round_nearest_even].
  cbn [orb round_nearest_even Zdigits2 shr_record_of_loc]. rewrite fexp_64, digits2_log2, (normal_log2 _ Hm).
  replace (Z.max _ _ - _) with 0 by lia. cbn [shr shr_m]. rewrite (proj2 (Z.leb_le _ _)) by lia.
  by replace (e - 1 + 1) with e by lia.
Qed.

(** Division by a power of two is exact. *)
Lemma fdiv_pow2 m e k : 2 ^ 52 <= Zpos m < 2 ^ 53 -> -1000 <= e - k <= 900 ->
  fdiv (S754_finite false m e) (pow2_double k) = S754_finite false m (e - k).
Proof.
  intros Hm He. unfold fdiv, SFdiv, pow2_double, SFdiv_core_binary. cbn [Zdigits2 xorb].
  rewrite digits2_log2, (normal_log2 _ Hm). change (Zpos (digits2_pos 4503599627370496)) with 53.
  rewrite fexp_64. replace (Z.min _ _) with (e - k - 1) by lia.
  replace (e - (k - 52) - (e - k - 1)) with 53 by lia. rewrite Z.shiftl_mul_pow2 by lia.
  change (Z.div_eucl (Zpos m * 2 ^ 53) (Zpos 4503599627370496)) with (Z.div_eucl (Zpos m * 2 ^ 53) (2 ^ 52)).
  replace (Zpos m * 2 ^ 53) with (Zpos (xO m) * 2 ^ 52) by lia.
  pose proof (Z_div_mod (Zpos (xO m) * 2 ^ 52) (2 ^ 52) ltac:(lia)) as Hd.
  destruct (Z.div_eucl _ _) as [q r]. destruct Hd as [Hd Hr].
  assert (q = Zpos (xO m) /\ r = 0) as [-> ->] by lia.
  unfold new_location. cbn. apply round_aux_54; lia.
Qed.

(** The exponent decides a comparison with a power of two. *)
Lemma fgeb_pow2 m e k : 2 ^ 52 <= Zpos m < 2 ^ 53 ->
  fgeb (S754_finite false m e) (pow2_double k) = (k - 52 <=? e).
Proof.
  intros Hm. unfold fgeb, SFleb, SFcompare, pow2_double.
  destruct (Z.compare_spec (k - 52) e) as [<-|Hl|Hl].
  - assert (forall a, Zpos a <= Zpos m -> Pos.compare_cont Eq a m <> Gt) as Hc
      by (intros a Ha Hg; apply Pos.compare_gt_iff in Hg; lia).
    specialize (Hc 4503599627370496%positive ltac:(lia)). rewrite Z.leb_refl.
    destruct (Pos.compare_cont Eq 4503599627370496 m); [reflexivity|reflexivity|contradiction].
  - symmetry. apply Z.leb_le. lia.
  - symmetry. apply Z.leb_gt. lia.
Qed.

(** The text of a finite double depends on its value only. *)
Lemma scaled_represents m e v d : 0 < v ->
  (if 0 <=? e then Zpos m * 2 ^ e = v else Zpos m = v * 2 ^ (- e)) ->
  forall k, 0 <= k -> e - k < 0 ->
  scaled m (e - k) d = round_half_even (v * 10 ^ Z.of_nat d) (2 ^ k).
Proof.
  intros Hv Hm k Hk He. unfold scaled. rewrite (proj2 (Z.leb_gt _ _)) by lia.
  destruct (Z.leb_spec 0 e) as [Hpos|Hneg].
  - rewrite <- (round_half_even_scale _ _ (2 ^ e)) by (apply Z.pow_pos_nonneg; lia).
    rewrite <- Z.pow_add_r by lia. replace (- (e - k) + e) with k by lia. f_equal. lia.
  - rewrite Hm. rewrite <- (round_half_even_scale (v * 10 ^ Z.of_nat d) _ (2 ^ (- e)))
      by (apply Z.pow_pos_nonneg; lia).
    rewrite <- Z.pow_add_r by lia. replace (k + - e) with (- (e - k)) by lia. f_equal. lia.
Qed.

(** ** Default precision

    A stream that was told nothing prints six significant digits ([%g]):
    positional while the decimal exponent is between -5 and 6, and without
    trailing zeros. *)

(** The exponent of ten of [num / den]: 10^k <= num/den < 10^(k+1). *)
Fixpoint exponent_up (fuel : nat) (k num den : Z) : Z :=
  match fuel with
  | O => k
  | S fuel => if num <? 10 * den then k else exponent_up fuel (k + 1) num (10 * den)
  end.

Fixpoint exponent_down (fuel : nat) (k num den : Z) : Z :=
  match fuel with
  | O => k
  | S fuel => if den <=? num then k else exponent_down fuel (k - 1) (10 * num) den
  end.

Definition decimal_exponent (num den : Z) : Z :=
  if den <=? num then exponent_up (Z.to_nat (Z.log2 num)) 0 num den
  else exponent_down (Z.to_nat (Z.log2 den)) 0 num den.

(** [num / den * 10^k], rounded. *)
Definition shifted (num den k : Z) : Z :=
  if 0 <=? k then round_half_even (num * 10 ^ k) den else round_half_even num (den * 10 ^ (- k)).

(** Six digits and their exponent; rounding may carry. *)
Definition six_digits (num den : Z) : Z * Z :=
  let x := decimal_exponent num den in
  let q := shifted num den (5 - x) in
  if q =? 1000000 then (100000, x + 1) else (q, x).

(** [q / 10^d] without trailing zeros. *)
Fixpoint without_zeros (d : nat) (q : Z) : string :=
  match d with
  | O => pretty q
  | S d' => if q mod 10 =? 0 then without_zeros d' (q / 10) else decimals d q
  end.

Definition two_digits (n : Z) : string := (if n <? 10 then "0" else "") +:+ pretty n.

Definition general_positive (num den : Z) : string :=
  let '(q, x) := six_digits num den in
  if (-4 <=? x) && (x <? 6) then without_zeros (Z.to_nat (5 - x)) q
  else without_zeros 5 q +:+ "e" +:+ (if x <? 0 then "-" else "+") +:+ two_digits (Z.abs x).

Definition general (x : double) : string :=
  match x with
  | S754_zero s => sign_text s +:+ "0"
  | S754_infinity s => sign_text s +:+ "inf"
  | S754_nan => "nan"
  | S754_finite s m e =>
      sign_text s +:+ (if 0 <=? e then general_positive (Zpos m * 2 ^ e) 1 else general_positive (Zpos m) (2 ^ (- e)))
  end.

Example general_texts :
  general (double_of 0) = "0" /\ general (double_of 1234567) = "1.23457e+06" /\
  general (fdiv (double_of 1) (double_of 2)) = "0.5" /\ general (double_of 100) = "100" /\
  general (fdiv (double_of 1) (double_of 30000)) = "3.33333e-05" /\
  general (fdiv (double_of 1) (double_of 3)) = "0.333333" /\ general (double_of 999999) = "999999" /\
  general (fdiv (double_of 9999995) (double_of 10)) = "1e+06" /\ general (double_of 1000000) = "1e+06".
Proof. by vm_compute. Qed.

(** ** No overflow

    [within lo hi x]: [x] is zero, or has at most 53 bits and an exponent from
    [lo] to [hi]. *)

Definition within_exponents (lo hi : Z) (x : double) : Prop :=
  match x with
  | S754_zero _ => True
  | S754_finite _ m e => Z.log2 (Zpos m) < 53 /\ lo <= e <= hi
  | _ => False
  end.

Lemma within_finite lo hi x : within_exponents lo hi x -> isfinite x = true.
Proof. by destruct x. Qed.

Lemma within_weaken lo hi lo' hi' x : lo' <= lo -> hi <= hi' -> within_exponents lo hi x -> within_exponents lo' hi' x.
Proof. destruct x; simpl; [done..|]. intros ?? [??]. split; [done|lia]. Qed.

Lemma Zdigits2_log2 m : 0 < m -> Zdigits2 m = Z.log2 m + 1.
Proof. destruct m as [|p|p]; try lia. intros _. apply digits2_log2. Qed.

Lemma record_of_loc_m m l : shr_m (shr_record_of_loc m l) = m.
Proof. by destruct l as [|[]]. Qed.

Lemma shr_nat_m k r : 0 <= shr_m r -> shr_m (Nat.iter k shr_1 r) = shr_m r / 2 ^ Z.of_nat k.
Proof.
  intros Hr. induction k as [|k IH]; [by rewrite Z.div_1_r|]. rewrite Nat.iter_succ.
  destruct (Nat.iter k shr_1 r) as [m' r' s'] eqn:He. simpl in IH. subst m'.
  assert (0 < 2 ^ Z.of_nat k) by (apply Z.pow_pos_nonneg; lia).
  rewrite shr_1_halves by (apply Z.div_pos; lia). simpl. rewrite Z.div_div by lia.
  by rewrite (Z.mul_comm _ 2), Nat2Z.inj_succ, Z.pow_succ_r by lia.
Qed.

(** One normalisation: at most 53 bits are left, and the exponent grows by no
    more than the bits that go. *)
Lemma shr_fexp_bounds m e l : 0 < m -> -1000 <= e ->
  let '(r, e') := shr_fexp 53 1024 m e l in
  0 <= shr_m r < 2 ^ 53 /\ e <= e' <= Z.max e (e + Z.log2 m - 52).
Proof.
  intros Hm He. unfold shr_fexp. rewrite fexp_64, Zdigits2_log2 by done.
  pose proof (Z.log2_nonneg m). pose proof (Z.log2_spec m Hm) as [_ Hu].
  set (n := Z.max _ _ - e). destruct n as [|p|p] eqn:Hn; simpl shr; cbn iota.
  - rewrite record_of_loc_m. split; [|lia]. split; [lia|].
    apply (Z.lt_le_trans _ _ _ Hu), Z.pow_le_mono_r; lia.
  - rewrite iter_pos_nat, shr_nat_m, record_of_loc_m by (rewrite record_of_loc_m; lia).
    rewrite positive_nat_Z. split; [|lia]. assert (0 < 2 ^ Zpos p) by (apply Z.pow_pos_nonneg; lia).
    split; [apply Z.div_pos; lia|]. apply Z.div_lt_upper_bound; [done|].
    apply (Z.lt_le_trans _ _ _ Hu). rewrite <- Z.pow_add_r by lia. apply Z.pow_le_mono_r; lia.
  - rewrite record_of_loc_m. split; [|lia]. split; [lia|].
    apply (Z.lt_le_trans _ _ _ Hu), Z.pow_le_mono_r; lia.
Qed.

Lemma round_nearest_bounds m l : 0 <= m -> m <= round_nearest_even m l <= m + 1.
Proof. intros Hm. destruct l as [|[]]; simpl; try lia. destruct (Z.even m); lia. Qed.

Lemma round_aux_within s m e l : 0 < m -> -900 <= e <= 600 -> Z.log2 m < 200 ->
  within_exponents e (e + 150) (binary_round_aux 53 1024 s m e l).
Proof.
  intros Hm He Hl. unfold binary_round_aux.
  pose proof (shr_fexp_bounds m e l Hm ltac:(lia)) as H1. destruct (shr_fexp 53 1024 m e l) as [r1 e1].
  destruct H1 as [Hr1 He1]. pose proof (Z.log2_nonneg m).
  pose proof (round_nearest_bounds (shr_m r1) (loc_of_shr_record r1) ltac:(lia)) as Hround.
  set (m2 := round_nearest_even _ _) in *.
  destruct (decide (m2 = 0)) as [->|Hm2].
  - unfold shr_fexp. rewrite fexp_64. simpl Zdigits2. cbn [shr_record_of_loc].
    destruct (Z.max _ _ - e1) as [|p|p]; simpl shr; cbn iota beta; [done| |done].
    rewrite iter_pos_nat, shr_nat_m by done. simpl shr_m. by rewrite Z.div_0_l by (apply Z.pow_nonzero; lia).
  - assert (Z.log2 m2 <= 53) as Hl2.
    { change 53 with (Z.log2 (2 ^ 53)). apply Z.log2_le_mono. lia. }
    pose proof (shr_fexp_bounds m2 e1 loc_Exact ltac:(lia) ltac:(lia)) as H2.
    destruct (shr_fexp 53 1024 m2 e1 loc_Exact) as [r2 e2]. destruct H2 as [Hr2 He2].
    destruct (shr_m r2) as [|q|q]; [done| |lia]. rewrite (proj2 (Z.leb_le _ _)) by lia.
    split; [apply Z.log2_lt_pow2; lia|lia].
Qed.

Lemma binary_round_within s p : Z.log2 (Zpos p) < 100 -> within_exponents (-52) 150 (binary_round 53 1024 s p 0).
Proof.
  intros Hp. unfold binary_round. rewrite fexp_64, digits2_log2. pose proof (Z.log2_nonneg (Zpos p)).
  unfold shl_align. set (ex := Z.max _ _). assert (-52 <= ex <= 48) as Hex by lia.
  destruct (ex - 0) as [|q|q] eqn:Hq.
  - apply (within_weaken 0 150); [lia..|]. apply (round_aux_within s (Zpos p) 0); lia.
  - apply (within_weaken 0 150); [lia..|]. apply (round_aux_within s (Zpos p) 0); lia.
  - apply (within_weaken ex (ex + 150)); [lia..|]. apply round_aux_within; [lia..|].
    rewrite iter_xO, Z.log2_mul_pow2 by lia. lia.
Qed.

Lemma double_of_within z : Z.abs z < 2 ^ 99 -> within_exponents (-52) 150 (double_of z).
Proof.
  intros Hz. destruct z as [|p|p]; [done| |]; apply binary_round_within; apply Z.log2_lt_pow2; simpl; lia.
Qed.

(** The quotient of two doubles of moderate exponents, the second not zero. *)
Lemma fdiv_within lo1 hi1 lo2 hi2 x y :
  within_exponents lo1 hi1 x -> within_exponents lo2 hi2 y -> fltb (double_of 0) y = true ->
  -700 <= lo1 - hi2 -> hi1 - lo2 <= 600 ->
  within_exponents (lo1 - hi2 - 110) (hi1 - lo2 + 150) (fdiv x y).
Proof.
  intros Hx Hy Hpos Hlo Hhi.
  destruct y as [sy|sy| |sy m2 e2]; try done; destruct x as [sx|sx| |sx m1 e1]; try done.
  destruct Hx as [Hm1 He1], Hy as [Hm2 He2]. unfold fdiv, SFdiv, SFdiv_core_binary. cbn [Zdigits2].
  rewrite !digits2_log2, fexp_64. pose proof (Z.log2_nonneg (Zpos m1)). pose proof (Z.log2_nonneg (Zpos m2)).
  set (l1 := Z.log2 (Zpos m1)) in *. set (l2 := Z.log2 (Zpos m2)) in *.
  replace (Z.min _ _) with (e1 - e2 - (53 + l2 - l1)) by lia.
  replace (e1 - e2 - (e1 - e2 - (53 + l2 - l1))) with (53 + l2 - l1) by lia.
  set (s := 53 + l2 - l1). assert (0 < s) as Hs by lia.
  assert (match s with Z0 => Zpos m1 | Zpos _ => Z.shiftl (Zpos m1) s | Zneg _ => 0 end
          = Zpos m1 * 2 ^ s) as ->.
  { destruct s; try lia. by rewrite Z.shiftl_mul_pow2 by lia. }
  pose proof (Z.log2_spec (Zpos m1) ltac:(lia)) as [Hl1 Hu1]. pose proof (Z.log2_spec (Zpos m2) ltac:(lia)) as [Hl2 Hu2].
  fold l1 in Hl1, Hu1. fold l2 in Hl2, Hu2.
  pose proof (Z_div_mod (Zpos m1 * 2 ^ s) (Zpos m2) ltac:(lia)) as Hd.
  destruct (Z.div_eucl _ _) as [q r]. destruct Hd as [Hd Hr].
  assert (2 ^ l1 * 2 ^ s = 2 ^ 52 * 2 ^ Z.succ l2) as Hpow
    by (rewrite <- !Z.pow_add_r by lia; f_equal; lia).
  assert (0 < 2 ^ s) by (apply Z.pow_pos_nonneg; lia).
  assert (0 < q) as Hq by nia.
  assert (q <= Zpos m1 * 2 ^ s) as Hqu by nia.
  assert (Z.log2 q < 200) as Hlq.
  { apply Z.log2_lt_pow2; [done|]. apply (Z.le_lt_trans _ _ _ Hqu).
    apply (Z.lt_le_trans _ (2 ^ Z.succ l1 * 2 ^ s)); [nia|]. rewrite <- Z.pow_add_r by lia.
    apply Z.pow_le_mono_r; lia. }
  apply (within_weaken (e1 - e2 - s) (e1 - e2 - s + 150)); [lia..|].
  apply round_aux_within; [done|lia|done].
Qed.
