(* ===== verification/Utils.v ===== *)
(** * Shared utilities

    [src/detail/utils.cpp] (power-of-two alignment of sizes and addresses, the
    normalisation of environment values) and the integer conversions of
    [src/utils.cpp].  Addresses are their [uintptr_t]. *)

From stdpp Require Import base list strings.
From Stdlib Require Import ZArith Lia Bool.
From S2P Require Import Prelude.

#[local] Open Scope Z_scope.

(** ** Alignment *)

(** [~x] on a 64-bit word. *)
Definition not64 (x : Z) : Z := Z.land (Z.lnot x) (Z.ones 64).

(** The argument check shared by every alignment function. *)
Definition alignment_ok (alignment : Z) : bool :=
  (alignment >? 0) && (Z.land alignment (alignment -% 1) =? 0).

Definition bad_alignment : exn := CUfileException "Alignment must be a power of 2".

Definition align_up (value alignment : Z) : result Z :=
  _ ← expect (alignment_ok alignment) bad_alignment;
  mret (Z.land (value +% alignment -% 1) (not64 (alignment -% 1))).

Definition align_up_addr (addr alignment : Z) : result Z :=
  _ ← expect (alignment_ok alignment) bad_alignment;
  mret (Z.land (addr +% alignment -% 1) (not64 (alignment -% 1))).

Definition align_down (value alignment : Z) : result Z :=
  _ ← expect (alignment_ok alignment) bad_alignment;
  mret (Z.land value (not64 (alignment -% 1))).

Definition align_down_addr (addr alignment : Z) : result Z :=
  _ ← expect (alignment_ok alignment) bad_alignment;
  mret (Z.land addr (not64 (alignment -% 1))).

Definition is_aligned (value alignment : Z) : result bool :=
  _ ← expect (alignment_ok alignment) bad_alignment;
  mret (Z.land value (alignment -% 1) =? 0).

Definition is_aligned_addr (addr alignment : Z) : result bool :=
  _ ← expect (alignment_ok alignment) bad_alignment;
  mret (Z.land addr (alignment -% 1) =? 0).

(** ** Conversions *)

Definition convert_size2off (x : Z) : result Z :=
  _ ← expect (x <? SSIZE_MAX) (CUfileException "size_t argument too large to fit off_t");
  mret x.

Definition convert_size2ssize (x : Z) : result Z :=
  _ ← expect (x <? SSIZE_MAX) (CUfileException "size_t argument too large to fit ssize_t");
  mret x.

(** ** Environment values *)

(** [std::tolower] in the C locale. *)
Definition tolower (c : Ascii.ascii) : Ascii.ascii :=
  let n := Ascii.nat_of_ascii c in
  if (65 <=? n)%nat && (n <=? 90)%nat then Ascii.ascii_of_nat (n + 32) else c.

(** [std::isspace] in the C locale. *)
Definition isspace (c : Ascii.ascii) : bool :=
  let n := Ascii.nat_of_ascii c in
  (n =? 32)%nat || ((9 <=? n)%nat && (n <=? 13)%nat).

Fixpoint drop_spaces (s : list Ascii.ascii) : list Ascii.ascii :=
  match s with
  | c :: s' => if isspace c then drop_spaces s' else s
  | [] => []
  end.

Fixpoint take_token (s : list Ascii.ascii) : list Ascii.ascii :=
  match s with
  | c :: s' => if isspace c then [] else c :: take_token s'
  | [] => []
  end.

(** [stringstream >> str]: skip leading white space, stop at the next one. *)
Definition extract_token (s : list Ascii.ascii) : list Ascii.ascii :=
  take_token (drop_spaces s).

Definition normalize_env_value (s : string) : string :=
  String.string_of_list_ascii
    (extract_token (tolower <$> String.list_ascii_of_string s)).

(** ** Lemmas *)

Lemma land_pred_pow2 a : 0 < a -> Z.land a (a - 1) = 0 -> exists k, 0 <= k /\ a = 2 ^ k.
Proof.
  intros Ha Hl. exists (Z.log2 a). split; [apply Z.log2_nonneg|].
  destruct (Z.log2_spec a Ha) as [Hlo Hhi].
  destruct (Z.eq_dec a (2 ^ Z.log2 a)) as [|Hne]; [done|exfalso].
  assert (Hlog : Z.log2 (a - 1) = Z.log2 a).
  { apply Z.log2_unique; [apply Z.log2_nonneg|]. lia. }
  assert (Hb : Z.testbit (Z.land a (a - 1)) (Z.log2 a) = true).
  { rewrite Z.land_spec, Z.bit_log2 by done.
    rewrite <- Hlog, Z.bit_log2; [done|].
    assert (1 <= 2 ^ Z.log2 a) by (apply (Z.pow_le_mono_r 2 0); [lia|apply Z.log2_nonneg]).
    lia. }
  by rewrite Hl, Z.testbit_0_l in Hb.
Qed.

Lemma pow2_land_pred k : 0 <= k -> Z.land (2 ^ k) (2 ^ k - 1) = 0.
Proof.
  intros Hk. rewrite Z.sub_1_r, <- Z.ones_equiv, Z.land_ones by done.
  apply Z.mod_same. apply Z.pow_nonzero; lia.
Qed.

Lemma pow2_pos k : 0 <= k -> 0 < 2 ^ k.
Proof. intros. apply Z.pow_pos_nonneg; lia. Qed.

(** The check accepts exactly the powers of two. *)
Lemma alignment_ok_spec a :
  is_size a -> alignment_ok a = true <-> exists k, 0 <= k < 64 /\ a = 2 ^ k.
Proof.
  intros Hs. unfold is_size in Hs. unfold alignment_ok.
  rewrite andb_true_iff, Z.gtb_lt, Z.eqb_eq. split.
  - intros [Ha Hl]. rewrite wrap64_small in Hl by lia.
    destruct (land_pred_pow2 a Ha Hl) as (k & Hk & ->). exists k. split; [|done].
    split; [done|]. apply (Z.pow_lt_mono_r_iff 2); lia.
  - intros (k & Hk & ->). pose proof (pow2_pos k ltac:(lia)).
    rewrite wrap64_small by lia. split; [lia|]. apply pow2_land_pred; lia.
Qed.

Lemma pow2_is_size k : 0 <= k < 64 -> is_size (2 ^ k).
Proof.
  intros. split; [apply Z.pow_nonneg; lia|].
  change SIZE_MOD with (2 ^ 64). apply Z.pow_lt_mono_r; lia.
Qed.

Lemma alignment_ok_pow2 k : 0 <= k < 64 -> alignment_ok (2 ^ k) = true.
Proof. intros. apply alignment_ok_spec; [by apply pow2_is_size|]. by exists k. Qed.

(** Masking with [~(2^k - 1)] clears the low [k] bits. *)
Lemma land_not64_mask k v :
  0 <= k < 64 -> is_size v ->
  Z.land v (not64 (2 ^ k -% 1)) = 2 ^ k * (v / 2 ^ k).
Proof.
  intros Hk Hv. pose proof (pow2_is_size k Hk) as Hp. unfold is_size in *.
  pose proof (pow2_pos k ltac:(lia)).
  rewrite wrap64_small by lia. unfold not64.
  rewrite Z.land_assoc, <- Z.ldiff_land.
  rewrite Z.sub_1_r, <- Z.ones_equiv, Z.ldiff_ones_r by lia.
  rewrite Z.shiftr_div_pow2, Z.shiftl_mul_pow2 by lia.
  rewrite Z.land_ones by lia. rewrite Z.mod_small; [lia|].
  pose proof (Z.mul_div_le v (2 ^ k)). pose proof (Z.div_pos v (2 ^ k)). nia.
Qed.

Lemma land_mask k v :
  0 <= k < 64 -> Z.land v (2 ^ k -% 1) = v mod 2 ^ k.
Proof.
  intros Hk. pose proof (pow2_is_size k Hk) as Hp. unfold is_size in *.
  pose proof (pow2_pos k ltac:(lia)).
  rewrite wrap64_small by lia.
  by rewrite Z.sub_1_r, <- Z.ones_equiv, Z.land_ones by lia.
Qed.

Lemma align_down_ok k v :
  0 <= k < 64 -> is_size v -> align_down v (2 ^ k) = Ok (2 ^ k * (v / 2 ^ k)).
Proof.
  intros. unfold align_down. rewrite alignment_ok_pow2 by done. simpl.
  by rewrite land_not64_mask.
Qed.

Lemma align_up_ok k v :
  0 <= k < 64 -> is_size v -> v + 2 ^ k - 1 < SIZE_MOD ->
  align_up v (2 ^ k) = Ok (2 ^ k * ((v + 2 ^ k - 1) / 2 ^ k)).
Proof.
  intros Hk Hv Hno. pose proof (pow2_is_size k Hk) as Hp. unfold is_size in *.
  pose proof (pow2_pos k ltac:(lia)).
  unfold align_up. rewrite alignment_ok_pow2 by done. simpl.
  replace (v +% 2 ^ k -% 1) with (v + 2 ^ k - 1).
  - by rewrite land_not64_mask by (unfold is_size; lia).
  - destruct (decide (v + 2 ^ k < SIZE_MOD)); [word_lia|].
    rewrite (wrap64_over (v + 2 ^ k)) by lia.
    rewrite wrap64_under by lia. lia.
Qed.

Lemma is_aligned_ok k v :
  0 <= k < 64 -> is_aligned v (2 ^ k) = Ok (v mod 2 ^ k =? 0).
Proof.
  intros. unfold is_aligned. rewrite alignment_ok_pow2 by done. simpl.
  by rewrite land_mask.
Qed.

(** ** Correctness *)

(** Rounding is exact on every in-range argument: [align_down] returns the
    largest multiple of the alignment that is at most [value], and [align_up],
    when [value + alignment - 1] fits a word, the least multiple that is at
    least [value]; [is_aligned] recognises exactly the multiples. *)
Theorem align_spec (alignment value : Z) :
  is_size value -> is_size alignment -> alignment_ok alignment = true ->
  (exists d, align_down value alignment = Ok d /\ (alignment | d) /\ d <= value
     /\ (forall m, (alignment | m) -> m <= value -> m <= d)) /\
  (value + alignment - 1 < SIZE_MOD ->
   exists u, align_up value alignment = Ok u /\ (alignment | u) /\ value <= u
     /\ (forall m, (alignment | m) -> value <= m -> u <= m)) /\
  (is_aligned value alignment = Ok true <-> (alignment | value)).
Proof.
  intros Hv Ha Hok. apply alignment_ok_spec in Hok as (k & Hk & ->); [|done].
  pose proof (pow2_pos k ltac:(lia)) as Hp. unfold is_size in *.
  split; [|split].
  - exists (2 ^ k * (value / 2 ^ k)). split; [by apply align_down_ok|].
    split; [apply Z.divide_factor_l|]. split; [apply Z.mul_div_le; lia|].
    intros m [q ->] Hm. assert (q <= value / 2 ^ k) by (apply Z.div_le_lower_bound; lia). nia.
  - intros Hno. exists (2 ^ k * ((value + 2 ^ k - 1) / 2 ^ k)).
    split; [by apply align_up_ok|]. split; [apply Z.divide_factor_l|].
    pose proof (Z.mod_pos_bound (value + 2 ^ k - 1) (2 ^ k)).
    pose proof (Z.div_mod (value + 2 ^ k - 1) (2 ^ k)).
    split; [lia|]. intros m [q ->] Hm.
    assert ((value + 2 ^ k - 1) / 2 ^ k < q + 1); [|nia].
    apply Z.div_lt_upper_bound; nia.
  - rewrite is_aligned_ok by done. split.
    + intros H. injection H as H. apply Z.eqb_eq in H. apply Z.mod_divide in H; [done|lia].
    + intros H. apply Z.mod_divide in H; [|lia]. by rewrite H.
Qed.

Example align_spec_witness :
  is_size 5000 /\ is_size 4096 /\ alignment_ok 4096 = true /\
  align_down 5000 4096 = Ok 4096 /\ align_up 5000 4096 = Ok 8192 /\
  (is_aligned 5000 4096 = Ok true <-> (4096 | 5000)).
Proof.
  assert (is_size 5000) as H1 by (unfold is_size; lia).
  assert (is_size 4096) as H2 by (unfold is_size; lia).
  assert (alignment_ok 4096 = true) as H3 by reflexivity.
  do 3 (split; [assumption|]). do 2 (split; [reflexivity|]).
  apply (align_spec 4096 5000 H1 H2 H3).
Defined.

(** The conversions refuse the greatest [off_t] and [ssize_t] too. *)
Example conversions_refuse_the_maximum :
  convert_size2off (SSIZE_MAX - 1) = Ok (SSIZE_MAX - 1) /\
  convert_size2off SSIZE_MAX = Err (CUfileException "size_t argument too large to fit off_t").
Proof. by vm_compute. Qed.
