(* ===== verification/TransferPlan.v ===== *)
(** * The transfer planner

    [src/detail/transfer_plan.cpp]: N read requests are grouped by
    [(handle, context)], sorted, merged over small gaps and split at
    [task_size] into M transfers.  A vector index and a vector length are a
    [nat]; file offsets, sizes and gaps are words, and every addition or
    subtraction the code makes on them wraps.  Addresses are integers. *)

From stdpp Require Import base list strings gmap sorting.
From Stdlib Require Import ZArith Lia.
From S2P Require Import Prelude.

#[local] Open Scope Z_scope.

(** ** Data *)

Record TransferPlanRequest := mkRequest {
  req_handle : Z;          (* RemoteHandle* *)
  req_cuda_context : Z;    (* CUcontext, 0 for a host buffer *)
  req_buf : Z;
  req_file_offset : Z;
  req_size : Z }.

#[global] Instance request_inhabited : Inhabited TransferPlanRequest :=
  populate (mkRequest 0 0 0 0 0).

Record TransferPlanOptions := mkOptions {
  task_size : Z;
  coalesce_max_gap : option Z }.

Record TransferSegment := mkSegment {
  span_offset : Z;
  seg_length : Z;
  seg_buf : Z;
  request_index : nat }.

Record PlannedTransfer := mkTransfer {
  xfer_handle : Z;
  xfer_cuda_context : Z;
  xfer_file_offset : Z;
  xfer_size : Z;
  segment_begin : nat;
  segment_end : nat }.

Record TransferPlan := mkPlan {
  transfers : list PlannedTransfer;
  segments : list TransferSegment;
  transfers_per_request : list nat;
  overread_bytes : Z }.

(** ** Appending to the plan *)

Definition push_segment (s : TransferSegment) (plan : TransferPlan) : TransferPlan :=
  mkPlan (transfers plan) (segments plan ++ [s])
    (transfers_per_request plan) (overread_bytes plan).

Definition push_transfer (t : PlannedTransfer) (plan : TransferPlan) : TransferPlan :=
  mkPlan (transfers plan ++ [t]) (segments plan)
    (transfers_per_request plan) (overread_bytes plan).

Definition bump_request (i : nat) (plan : TransferPlan) : TransferPlan :=
  mkPlan (transfers plan) (segments plan)
    (alter S i (transfers_per_request plan)) (overread_bytes plan).

Definition add_overread (n : Z) (plan : TransferPlan) : TransferPlan :=
  mkPlan (transfers plan) (segments plan)
    (transfers_per_request plan) (overread_bytes plan +% n).

Section planner.
Variable requests : list TransferPlanRequest.
Variable opts : TransferPlanOptions.

(** One round of the loop of [merge_requests]. *)
Definition merge_one (span_begin : Z) (acc : TransferPlan * Z) (ri : nat)
    : TransferPlan * Z :=
  let '(plan, wanted_bytes) := acc in
  let request := requests !!! ri in
  let plan := push_segment
    (mkSegment (req_file_offset request -% span_begin) (req_size request)
               (req_buf request) ri) plan in
  (bump_request ri plan, wanted_bytes +% req_size request).

Definition merge_requests (run_indices : list nat) (plan : TransferPlan) : TransferPlan :=
  let first := requests !!! default 0%nat (head run_indices) in
  let last := requests !!! default 0%nat (last run_indices) in
  let span_begin := req_file_offset first in
  let span_end := req_file_offset last +% req_size last in
  let seg_begin := length (segments plan) in
  let '(plan, wanted_bytes) := foldl (merge_one span_begin) (plan, 0) run_indices in
  let plan := push_transfer
    (mkTransfer (req_handle first) (req_cuda_context first) span_begin
       (span_end -% span_begin) seg_begin (length (segments plan))) plan in
  add_overread ((span_end -% span_begin) -% wanted_bytes) plan.

(** One round of the loop of [split_request]. *)
Definition split_one (ri : nat) (s : Z * TransferPlan) : Z * TransferPlan :=
  let '(chunk_begin, plan) := s in
  let request := requests !!! ri in
  let file_end := req_file_offset request +% req_size request in
  let chunk_size := Z.min (file_end -% chunk_begin) (task_size opts) in
  let seg_begin := length (segments plan) in
  let offset_in_request := chunk_begin -% req_file_offset request in
  let plan := push_segment
    (mkSegment 0 chunk_size (req_buf request + offset_in_request) ri) plan in
  let plan := push_transfer
    (mkTransfer (req_handle request) (req_cuda_context request) chunk_begin
       chunk_size seg_begin (length (segments plan))) plan in
  (chunk_begin +% chunk_size, bump_request ri plan).

Definition split_fuel (ri : nat) : nat :=
  S (Z.to_nat (req_size (requests !!! ri) / task_size opts)).

Definition split_request (ri : nat) (plan : TransferPlan) : result TransferPlan :=
  let request := requests !!! ri in
  let file_end := req_file_offset request +% req_size request in
  snd <$> while_loop (split_fuel ri) (fun s => s.1 <? file_end)
            (fun s => mret (split_one ri s)) (req_file_offset request, plan).

(** The guard of the merge loop: its condition and its three breaks. *)
Definition can_merge (group_indices : list nat) (span_begin : Z) (s : nat * Z) : bool :=
  let '(i, span_end) := s in
  match coalesce_max_gap opts with
  | None => false
  | Some gap =>
      bool_decide (i < length group_indices)%nat &&
      let candidate := requests !!! (group_indices !!! i) in
      negb (req_file_offset candidate <? span_end) &&
      negb (req_file_offset candidate -% span_end >? gap) &&
      negb (req_file_offset candidate +% req_size candidate -% span_begin
              >? task_size opts)
  end.

Definition merge_step (group_indices : list nat) (s : nat * Z) : nat * Z :=
  let candidate := requests !!! (group_indices !!! s.1) in
  (S s.1, req_file_offset candidate +% req_size candidate).

(** One round of the outer loop of [plan_group]. *)
Definition plan_run (group_indices : list nat) (s : nat * TransferPlan)
    : result (nat * TransferPlan) :=
  let '(i, plan) := s in
  let run_begin := i in
  let run_head := requests !!! (group_indices !!! i) in
  let span_begin := req_file_offset run_head in
  let span_end := req_file_offset run_head +% req_size run_head in
  s' ← while_loop (length group_indices) (can_merge group_indices span_begin)
         (fun s => mret (merge_step group_indices s)) (S i, span_end);
  let i := s'.1 in
  let run_indices := take (i - run_begin) (drop run_begin group_indices) in
  plan' ← (if bool_decide (1 < length run_indices)%nat
           then mret (merge_requests run_indices plan)
           else split_request (default 0%nat (head run_indices)) plan);
  mret (i, plan').

Definition plan_group (group_indices : list nat) (plan : TransferPlan)
    : result TransferPlan :=
  snd <$> while_loop (length group_indices)
            (fun s => bool_decide (s.1 < length group_indices)%nat)
            (plan_run group_indices) (0%nat, plan).

(** The grouping loop: [groups] in order of first appearance, [group_slot]
    the slot of each key. *)
Definition group_one (acc : list (list nat) * gmap (Z * Z) nat) (ri : nat)
    : list (list nat) * gmap (Z * Z) nat :=
  let '(groups, group_slot) := acc in
  let request := requests !!! ri in
  if req_size request =? 0 then (groups, group_slot)
  else
    let key := (req_handle request, req_cuda_context request) in
    match group_slot !! key with
    | Some slot => (alter (fun g => g ++ [ri]) slot groups, group_slot)
    | None => (groups ++ [[ri]], <[key := length groups]> group_slot)
    end.

Definition group_requests : list (list nat) :=
  fst (foldl group_one ([], ∅) (seq 0 (length requests))).

Definition by_file_offset (a b : nat) : bool :=
  let oa := req_file_offset (requests !!! a) in
  let ob := req_file_offset (requests !!! b) in
  if negb (oa =? ob) then oa <? ob else bool_decide (a < b)%nat.

(** The order [std::sort] establishes: no element is before its predecessor. *)
Definition not_after (a b : nat) : Prop := by_file_offset b a = false.

#[local] Instance not_after_dec : RelDecision not_after.
Proof. intros a b. unfold not_after. apply _. Defined.

Fixpoint is_sorted (l : list nat) : bool :=
  match l with
  | a :: (b :: _) as l' => negb (by_file_offset b a) && is_sorted l'
  | _ => true
  end.

Definition sort_group (g : list nat) : list nat :=
  if is_sorted g then g else merge_sort not_after g.

Definition plan_groups (groups : list (list nat)) (plan : TransferPlan)
    : result TransferPlan :=
  foldl (fun acc g => plan ← acc; plan_group (sort_group g) plan) (mret plan) groups.

Definition build_transfer_plan : result TransferPlan :=
  _ ← expect (task_size opts >? 0) (InvalidArgument "`task_size` must be positive");
  let plan := mkPlan [] [] (replicate (length requests) 0%nat) 0 in
  if bool_decide (length requests = 0%nat) then mret plan
  else plan_groups group_requests plan.
End planner.

#[global] Arguments split_one : simpl never.
#[global] Arguments merge_requests : simpl never.
#[global] Arguments split_request : simpl never.
#[global] Arguments can_merge : simpl never.
#[global] Arguments plan_run : simpl never.
#[global] Arguments plan_group : simpl never.

(** The example of the header file, one character being five bytes. *)
Definition header_requests : list TransferPlanRequest :=
  [mkRequest 1 0 1000 0 20; mkRequest 1 0 2000 25 20;
   mkRequest 1 0 3000 70 15; mkRequest 1 0 4000 100 100].

Example header_plan :
  build_transfer_plan header_requests (mkOptions 60 (Some 10)) =
  Ok (mkPlan
    [mkTransfer 1 0 0 45 0 2; mkTransfer 1 0 70 15 2 3;
     mkTransfer 1 0 100 60 3 4; mkTransfer 1 0 160 40 4 5]
    [mkSegment 0 20 1000 0; mkSegment 25 20 2000 1; mkSegment 0 15 3000 2;
     mkSegment 0 60 4000 3; mkSegment 0 40 4060 3]
    [1; 1; 1; 2]%nat 5).
Proof. reflexivity. Qed.

(** ** What a plan promises *)

(** One contiguous copy the plan asks for: file bytes
    [[p_pos, p_pos + p_len)] of [p_handle] go to [p_buf]. *)
Record piece := mkPiece {
  p_index : nat; p_handle : Z; p_ctx : Z; p_pos : Z; p_buf : Z; p_len : Z }.

Definition piece_of (handle ctx offset : Z) (s : TransferSegment) : piece :=
  mkPiece (request_index s) handle ctx (offset + span_offset s) (seg_buf s) (seg_length s).

Definition xfer_segments (plan : TransferPlan) (t : PlannedTransfer) : list TransferSegment :=
  take (segment_end t - segment_begin t) (drop (segment_begin t) (segments plan)).

Definition xfer_pieces (plan : TransferPlan) (t : PlannedTransfer) : list piece :=
  piece_of (xfer_handle t) (xfer_cuda_context t) (xfer_file_offset t)
    <$> xfer_segments plan t.

Definition pieces (plan : TransferPlan) : list piece :=
  transfers plan ≫= xfer_pieces plan.

Definition pieces_of (ri : nat) (ps : list piece) : list piece :=
  filter (fun p => p_index p = ri) ps.

(** [covers r n ps]: in order and without holes, [ps] carry the first [n] bytes
    of request [r] to the right addresses. *)
Inductive covers (r : TransferPlanRequest) : Z -> list piece -> Prop :=
  | covers_nil : covers r 0 []
  | covers_snoc n ps p :
      covers r n ps ->
      p_handle p = req_handle r -> p_ctx p = req_cuda_context r ->
      p_pos p = req_file_offset r + n -> p_buf p = req_buf r + n -> 0 < p_len p ->
      covers r (n + p_len p) (ps ++ [p]).

(** The widest gap a span may contain. *)
Definition gap_limit (opts : TransferPlanOptions) : Z := default 0 (coalesce_max_gap opts).

(** Segments of a span of [size] bytes: nonempty, sorted, disjoint, at most
    [gap] bytes apart, the last one ending where the span does. *)
Fixpoint segs_sorted (gap cursor size : Z) (segs : list TransferSegment) : Prop :=
  match segs with
  | [] => cursor = size
  | s :: segs' => cursor <= span_offset s <= cursor + gap /\ 0 < seg_length s /\
                  segs_sorted gap (span_offset s + seg_length s) size segs'
  end.

Definition transfer_ok (opts : TransferPlanOptions) (plan : TransferPlan)
    (t : PlannedTransfer) : Prop :=
  (segment_begin t < segment_end t <= length (segments plan))%nat /\
  0 < xfer_size t <= task_size opts /\
  segs_sorted (gap_limit opts) 0 (xfer_size t) (xfer_segments plan t) /\
  (span_offset <$> head (xfer_segments plan t)) = Some 0 /\
  (coalesce_max_gap opts = None -> length (xfer_segments plan t) = 1%nat).

(** The transfers own consecutive slices of the segments. *)
Fixpoint slices (b : nat) (ts : list PlannedTransfer) (e : nat) : Prop :=
  match ts with
  | [] => b = e
  | t :: ts' => segment_begin t = b /\ slices (segment_end t) ts' e
  end.

Definition valid_request (r : TransferPlanRequest) : Prop :=
  0 <= req_file_offset r /\ 0 <= req_size r /\ req_file_offset r + req_size r < SIZE_MOD.

(** The state of a plan in which [prog ri] bytes of request [ri] are planned. *)
Record plan_inv (requests : list TransferPlanRequest) (opts : TransferPlanOptions)
    (prog : nat -> Z) (plan : TransferPlan) : Prop := {
  inv_transfers : Forall (transfer_ok opts plan) (transfers plan);
  inv_slices : slices 0 (transfers plan) (length (segments plan));
  inv_covers : forall ri, covers (requests !!! ri) (prog ri) (pieces_of ri (pieces plan));
  inv_counts_length : length (transfers_per_request plan) = length requests;
  inv_counts : forall ri, (ri < length requests)%nat ->
    transfers_per_request plan !!! ri = length (pieces_of ri (pieces plan));
  inv_overread : overread_bytes plan =
    wrap64 (sumZ (xfer_size <$> transfers plan) - sumZ (seg_length <$> segments plan)) }.

(** ** Emitting one transfer *)

Definition emit (t : PlannedTransfer) (segs : list TransferSegment) (over : Z)
    (plan : TransferPlan) : TransferPlan :=
  mkPlan (transfers plan ++ [t]) (segments plan ++ segs)
    (foldl (fun l s => alter S (request_index s) l) (transfers_per_request plan) segs)
    (overread_bytes plan +% over).

Lemma segs_sorted_snoc gap c size segs s :
  segs_sorted gap c size segs -> size <= span_offset s <= size + gap -> 0 < seg_length s ->
  segs_sorted gap c (span_offset s + seg_length s) (segs ++ [s]).
Proof.
  revert c. induction segs as [|s' segs IH]; intros c; simpl; [lia|].
  intros (?&?&?) ??. auto.
Qed.

Lemma xfer_segments_old plan t segs tpr over ts :
  (segment_end t <= length (segments plan))%nat ->
  xfer_segments (mkPlan ts (segments plan ++ segs) tpr over) t = xfer_segments plan t.
Proof.
  intros Hle. unfold xfer_segments. simpl.
  destruct (decide (segment_begin t <= length (segments plan))%nat).
  - rewrite drop_app_le by done. rewrite take_app_le; [done|].
    rewrite length_drop. lia.
  - by replace (segment_end t - segment_begin t)%nat with 0%nat by lia.
Qed.

Lemma xfer_segments_new plan t segs tpr over ts :
  segment_begin t = length (segments plan) ->
  segment_end t = (length (segments plan) + length segs)%nat ->
  xfer_segments (mkPlan ts (segments plan ++ segs) tpr over) t = segs.
Proof.
  intros Hb He. unfold xfer_segments. simpl. rewrite Hb, He, drop_app_length.
  apply take_ge. lia.
Qed.

Lemma slices_snoc b ts e t :
  slices b ts e -> segment_begin t = e -> slices b (ts ++ [t]) (segment_end t).
Proof.
  revert b. induction ts as [|t' ts IH]; intros b; simpl; [by intros ->|].
  intros [-> ?] ?. auto.
Qed.

Lemma pieces_emit t segs over plan :
  Forall (fun t => segment_end t <= length (segments plan))%nat (transfers plan) ->
  segment_begin t = length (segments plan) ->
  segment_end t = (length (segments plan) + length segs)%nat ->
  pieces (emit t segs over plan) =
  pieces plan ++ (piece_of (xfer_handle t) (xfer_cuda_context t) (xfer_file_offset t) <$> segs).
Proof.
  intros Hold Hb He. unfold pieces, emit. simpl. rewrite bind_app. f_equal.
  - eapply bind_ext_Forall, Forall_impl; [done|]. intros t' Ht'.
    unfold xfer_pieces. by rewrite xfer_segments_old.
  - simpl. rewrite app_nil_r. unfold xfer_pieces. by rewrite xfer_segments_new.
Qed.

Lemma bumps_length segs tpr :
  length (foldl (fun l s => alter S (request_index s) l) tpr segs) = length tpr.
Proof.
  revert tpr. induction segs as [|s segs IH]; intros; simpl; [done|].
  by rewrite IH, length_alter.
Qed.

Lemma bumps_lookup segs tpr ri :
  (ri < length tpr)%nat ->
  foldl (fun l s => alter S (request_index s) l) tpr segs !!! ri =
  (tpr !!! ri + length (filter (fun s => request_index s = ri) segs))%nat.
Proof.
  revert tpr. induction segs as [|s segs IH]; intros tpr Hri; simpl; [lia|].
  rewrite IH by (by rewrite length_alter). rewrite filter_cons.
  rewrite !list_lookup_total_alt.
  destruct (decide (request_index s = ri)) as [<-|Hne].
  - rewrite list_lookup_alter_eq.
    destruct (lookup_lt_is_Some_2 tpr (request_index s)) as [x Hx]; [done|].
    rewrite Hx. simpl. lia.
  - rewrite list_lookup_alter_ne by done. lia.
Qed.

Lemma pieces_of_fmap h c fo segs ri :
  pieces_of ri (piece_of h c fo <$> segs) =
  piece_of h c fo <$> filter (fun s => request_index s = ri) segs.
Proof.
  unfold pieces_of. induction segs as [|s segs IH]; [done|].
  rewrite fmap_cons, !filter_cons. cbn [p_index piece_of].
  case_decide; [rewrite fmap_cons; f_equal|]; apply IH.
Qed.

Section correctness.
Variable requests : list TransferPlanRequest.
Variable opts : TransferPlanOptions.
Hypothesis Hrequests : Forall valid_request requests.
Hypothesis Htask : 0 < task_size opts < SIZE_MOD.
Hypothesis Hgap : 0 <= gap_limit opts.

Abbreviation req ri := (requests !!! ri).
Abbreviation inv := (plan_inv requests opts).

Lemma request_valid ri : valid_request (req ri).
Proof.
  rewrite list_lookup_total_alt. destruct (requests !! ri) as [q|] eqn:E; simpl.
  - by eapply Forall_lookup_1 in E.
  - unfold valid_request. simpl. lia.
Qed.

(** A transfer whose segments advance the progress from [prog] to [prog']. *)
Lemma inv_emit prog prog' t segs over plan :
  inv prog plan ->
  segment_begin t = length (segments plan) ->
  segment_end t = (length (segments plan) + length segs)%nat ->
  0 < xfer_size t <= task_size opts ->
  segs_sorted (gap_limit opts) 0 (xfer_size t) segs ->
  (span_offset <$> head segs) = Some 0 ->
  (coalesce_max_gap opts = None -> length segs = 1%nat) ->
  wrap64 over = wrap64 (xfer_size t - sumZ (seg_length <$> segs)) ->
  (forall ri ps, covers (req ri) (prog ri) ps ->
     covers (req ri) (prog' ri)
       (ps ++ (piece_of (xfer_handle t) (xfer_cuda_context t) (xfer_file_offset t)
                 <$> filter (fun s => request_index s = ri) segs))) ->
  inv prog' (emit t segs over plan).
Proof.
  intros [Ht Hsl Hcov Hlen Hcnt Hover] Hb He Hsz Hsorted Hhead Hone Hov Hprog.
  assert (Hends : Forall (fun t => segment_end t <= length (segments plan))%nat
                    (transfers plan)).
  { apply (Forall_impl _ _ _ Ht). intros t' [? _]. lia. }
  assert (Hpieces := pieces_emit t segs over plan Hends Hb He).
  assert (length segs <> 0)%nat by (destruct segs; done).
  split.
  - apply Forall_app. split.
    + apply (Forall_impl _ _ _ Ht). intros t' [Hr Hrest]. unfold transfer_ok, emit.
      simpl. rewrite xfer_segments_old by lia. rewrite length_app.
      split; [lia|done].
    + constructor; [|done]. unfold transfer_ok, emit. simpl.
      rewrite xfer_segments_new by done. rewrite length_app. split; [lia|done].
  - unfold emit. simpl. rewrite length_app, <- He. by eapply slices_snoc.
  - intros ri. rewrite Hpieces. unfold pieces_of. rewrite filter_app.
    fold (pieces_of ri (pieces plan)).
    fold (pieces_of ri (piece_of (xfer_handle t) (xfer_cuda_context t)
                          (xfer_file_offset t) <$> segs)).
    rewrite pieces_of_fmap. by apply Hprog.
  - unfold emit. simpl. by rewrite bumps_length.
  - intros ri Hri. rewrite Hpieces. unfold pieces_of. rewrite filter_app, length_app.
    fold (pieces_of ri (pieces plan)).
    fold (pieces_of ri (piece_of (xfer_handle t) (xfer_cuda_context t)
                          (xfer_file_offset t) <$> segs)).
    rewrite pieces_of_fmap, length_fmap. unfold emit. simpl.
    rewrite bumps_lookup by lia. by rewrite Hcnt.
  - unfold emit. simpl. rewrite Hover. rewrite !fmap_app, !sumZ_app. simpl.
    unfold wrap64 in *. rewrite Zplus_mod_idemp_l. rewrite <- Zplus_mod_idemp_r.
    rewrite Hov. rewrite Zplus_mod_idemp_r. f_equal. lia.
Qed.

Lemma inv_ext prog prog' plan :
  (forall ri, prog ri = prog' ri) -> inv prog plan -> inv prog' plan.
Proof.
  intros Heq [Ht Hsl Hcov Hlen Hcnt Hover]. split; try done.
  intros ri. by rewrite <- Heq.
Qed.

(** *** Merging *)

Definition seg_of (sb : Z) (ri : nat) : TransferSegment :=
  mkSegment (req_file_offset (req ri) -% sb) (req_size (req ri)) (req_buf (req ri)) ri.

Lemma merge_fold sb run plan w :
  foldl (merge_one requests sb) (plan, w) run =
  (mkPlan (transfers plan) (segments plan ++ (seg_of sb <$> run))
     (foldl (fun l s => alter S (request_index s) l) (transfers_per_request plan)
        (seg_of sb <$> run)) (overread_bytes plan),
   foldl (fun w ri => w +% req_size (req ri)) w run).
Proof.
  revert plan w. induction run as [|ri run IH]; intros plan w.
  - simpl. rewrite app_nil_r. by destruct plan.
  - simpl. rewrite IH. simpl. by rewrite <- app_assoc.
Qed.

Lemma merge_wanted run w sb :
  wrap64 (foldl (fun w ri => w +% req_size (req ri)) w run) =
  wrap64 (w + sumZ (seg_length <$> (seg_of sb <$> run))).
Proof.
  revert w. induction run as [|ri run IH]; intros w; csimpl; [f_equal; lia|].
  rewrite IH. unfold wrap64. rewrite Zplus_mod_idemp_l. f_equal. lia.
Qed.

Lemma merge_requests_emit run plan :
  let first := req (default 0%nat (head run)) in
  let last := req (default 0%nat (last run)) in
  let sb := req_file_offset first in
  let size := (req_file_offset last +% req_size last) -% sb in
  merge_requests requests run plan =
  emit (mkTransfer (req_handle first) (req_cuda_context first) sb size
          (length (segments plan)) (length (segments plan) + length (seg_of sb <$> run)))
    (seg_of sb <$> run)
    (size -% foldl (fun w ri => w +% req_size (req ri)) 0 run) plan.
Proof. simpl. unfold merge_requests. rewrite merge_fold. simpl. by rewrite length_app. Qed.

Lemma filter_seg_of sb run ri :
  NoDup run ->
  filter (fun s => request_index s = ri) (seg_of sb <$> run) =
  if decide (ri ∈ run) then [seg_of sb ri] else [].
Proof.
  induction 1 as [|k run Hk Hnd IH]; [done|].
  rewrite fmap_cons, filter_cons. cbn [request_index seg_of]. rewrite IH.
  destruct (decide (k = ri)) as [<-|Hne].
  - rewrite decide_False by done. by rewrite decide_True by set_solver.
  - destruct (decide (ri ∈ run)); [rewrite decide_True by set_solver|
      rewrite decide_False by set_solver]; done.
Qed.

(** What a run of requests must satisfy to be merged into one span. *)
Record run_ok (prog : nat -> Z) (run : list nat) (span_end : Z) : Prop := {
  run_nodup : NoDup run;
  run_fresh : forall ri, ri ∈ run -> prog ri = 0 /\ 0 < req_size (req ri);
  run_key : forall ri rj, ri ∈ run -> rj ∈ run ->
    req_handle (req ri) = req_handle (req rj) /\
    req_cuda_context (req ri) = req_cuda_context (req rj);
  run_begin : forall ri, ri ∈ run ->
    req_file_offset (req (default 0%nat (head run))) <= req_file_offset (req ri);
  run_end : exists ri, last run = Some ri /\
    span_end = req_file_offset (req ri) + req_size (req ri);
  run_sorted : segs_sorted (gap_limit opts) 0 (span_end - req_file_offset (req (default 0%nat (head run))))
    (seg_of (req_file_offset (req (default 0%nat (head run)))) <$> run) }.

Definition progress (done : list nat) (prog : nat -> Z) (ri : nat) : Z :=
  if decide (ri ∈ done) then req_size (req ri) else prog ri.

Lemma head_elem (run : list nat) x : last run = Some x ->
  exists h, head run = Some h /\ h ∈ run /\ x ∈ run.
Proof.
  intros Hl. assert (x ∈ run) by (by apply last_Some_elem_of).
  destruct run as [|h run]; [done|]. exists h. split; [done|]. set_solver.
Qed.

Lemma inv_merge prog run span_end plan :
  inv prog plan -> run_ok prog run span_end ->
  span_end - req_file_offset (req (default 0%nat (head run))) <= task_size opts ->
  coalesce_max_gap opts <> None ->
  inv (progress run prog) (merge_requests requests run plan).
Proof.
  intros Hinv [Hnd Hfresh Hkey Hbegin (l & Hlast & ->) Hsorted] Hfit Hsome.
  rewrite merge_requests_emit. rewrite Hlast in *. simpl in *.
  destruct (head_elem _ _ Hlast) as (h & Hh & Hhin & Hlin). rewrite Hh in *. simpl in *.
  destruct (request_valid h) as (?&?&?), (request_valid l) as (?&?&?).
  pose proof (Hbegin l Hlin). pose proof (Hfresh l Hlin).
  assert (Hsz : (req_file_offset (req l) +% req_size (req l)) -% req_file_offset (req h)
            = req_file_offset (req l) + req_size (req l) - req_file_offset (req h))
    by word_lia.
  eapply inv_emit; [exact Hinv | done | done | simpl; rewrite Hsz; lia | | | done | |].
  - simpl. by rewrite Hsz.
  - destruct run as [|? run]; [done|]. injection Hh as ->. simpl. f_equal. word_lia.
  - cbn [xfer_size]. rewrite Hsz. unfold wrap64 at 1 2. rewrite Z.mod_mod by lia.
    rewrite <- Zminus_mod_idemp_r. fold (wrap64 (foldl
      (fun w ri => w +% req_size (req ri)) 0 run)).
    rewrite (merge_wanted run 0 (req_file_offset (req h))). unfold wrap64.
    rewrite Zminus_mod_idemp_r. f_equal.
  - intros ri ps Hcov. rewrite filter_seg_of by done. unfold progress.
    destruct (decide (ri ∈ run)) as [Hin|]; [|by rewrite app_nil_r].
    destruct (Hfresh ri Hin) as [Hz ?]. rewrite Hz in Hcov.
    destruct (Hkey ri h Hin Hhin) as [? ?]. pose proof (Hbegin ri Hin).
    destruct (request_valid ri) as (?&?&?).
    replace (req_size (req ri)) with (0 + req_size (req ri)) by lia.
    eapply (covers_snoc _ 0 ps (piece_of _ _ _ (seg_of _ ri))); simpl; try done; try lia.
    word_lia.
Qed.

(** *** Splitting *)

Lemma split_one_emit prog ri cb plan :
  inv prog plan ->
  let q := req ri in
  let chunk := Z.min ((req_file_offset q +% req_size q) -% cb) (task_size opts) in
  split_one requests opts ri (cb, plan) =
  (cb +% chunk,
   emit (mkTransfer (req_handle q) (req_cuda_context q) cb chunk
           (length (segments plan)) (length (segments plan) + 1))
     [mkSegment 0 chunk (req_buf q + (cb -% req_file_offset q)) ri] 0 plan).
Proof.
  intros Hinv. simpl. unfold split_one, emit, push_segment, push_transfer, bump_request.
  simpl. do 2 f_equal; [by rewrite length_app|].
  rewrite Z.add_0_r. by rewrite (inv_overread _ _ _ _ Hinv), (wrap64_small (wrap64 _))
    by apply wrap64_range.
Qed.

Definition split_progress (ri : nat) (n : Z) (prog : nat -> Z) (k : nat) : Z :=
  if decide (k = ri) then n else prog k.

Lemma split_one_inv prog ri cb plan :
  prog ri = 0 ->
  req_file_offset (req ri) <= cb < req_file_offset (req ri) + req_size (req ri) ->
  inv (split_progress ri (cb - req_file_offset (req ri)) prog) plan ->
  let chunk := Z.min (req_file_offset (req ri) + req_size (req ri) - cb) (task_size opts) in
  exists plan', split_one requests opts ri (cb, plan) = (cb + chunk, plan') /\
    inv (split_progress ri (cb + chunk - req_file_offset (req ri)) prog) plan'.
Proof.
  intros Hz Hcb Hinv chunk. destruct (request_valid ri) as (?&?&?).
  eexists. split.
  { rewrite (split_one_emit _ _ _ _ Hinv). simpl.
    rewrite (wrap64_small (req_file_offset (req ri) + _)) by lia.
    rewrite (wrap64_small (_ - cb)) by lia. fold chunk.
    rewrite (wrap64_small (cb + chunk)) by lia. done. }
  eapply inv_emit; [exact Hinv | done | done | simpl; lia | simpl; lia | done | done | |].
  - cbn [xfer_size]. csimpl. f_equal. lia.
  - intros k ps Hcov. unfold split_progress in *. rewrite filter_cons, filter_nil.
    cbn [request_index xfer_handle xfer_cuda_context xfer_file_offset].
    destruct (decide (k = ri)) as [->|Hne].
    + rewrite decide_True by done. csimpl.
      replace (cb + chunk - req_file_offset (req ri))
        with (cb - req_file_offset (req ri) + chunk) by lia.
      eapply (covers_snoc _ _ ps (piece_of _ _ _ (mkSegment 0 chunk _ ri)));
        simpl; try done; try lia. rewrite wrap64_small by lia. lia.
    + rewrite decide_False by congruence. csimpl. by rewrite app_nil_r.
Qed.

(** One chunk less to go. *)
Lemma chunks_left rem T :
  0 < rem -> 0 < T ->
  0 < (rem + T - 1) / T /\
  0 <= (rem - Z.min rem T + T - 1) / T < (rem + T - 1) / T.
Proof.
  intros Hr HT. assert (0 < (rem + T - 1) / T) by (apply Z.div_str_pos; lia).
  split; [done|]. split; [apply Z.div_pos; lia|].
  destruct (Z.min_spec rem T) as [[? ->]|[? ->]].
  - rewrite (Z.div_small (rem - rem + T - 1)); lia.
  - assert (Hd : (rem + T - 1) / T = (rem - T + T - 1) / T + 1).
    { rewrite <- Z.div_add by lia. f_equal. lia. }
    lia.
Qed.

Lemma inv_split prog ri plan :
  inv prog plan -> prog ri = 0 -> 0 < req_size (req ri) ->
  returns (split_request requests opts ri plan) (inv (progress [ri] prog)) (fun _ => False).
Proof.
  intros Hinv Hz Hsize. destruct (request_valid ri) as (?&?&?).
  unfold split_request. set (q := req ri) in *. set (T := task_size opts) in *.
  rewrite (wrap64_small (req_file_offset q + req_size q)) by lia.
  pose (I := fun s : Z * TransferPlan =>
    req_file_offset q <= s.1 <= req_file_offset q + req_size q /\
    inv (split_progress ri (s.1 - req_file_offset q) prog) s.2).
  pose (m := fun s : Z * TransferPlan =>
    (req_file_offset q + req_size q - s.1 + T - 1) / T).
  assert (Hw : returns (while_loop (split_fuel requests opts ri)
      (fun s => s.1 <? req_file_offset q + req_size q)
      (fun s => mret (split_one requests opts ri s)) (req_file_offset q, plan))
      (fun s' => I s' /\ (s'.1 <? req_file_offset q + req_size q) = false)
      (fun _ => False)).
  { apply (while_rule I m).
    - intros [cb pl] [Hcb Hpl] Hc. simpl in *. apply Z.ltb_lt in Hc.
      destruct (split_one_inv prog ri cb pl Hz ltac:(fold q; lia) Hpl) as (pl' & -> & Hpl').
      fold q T in Hpl' |- *. unfold I, m. simpl.
      set (rem := req_file_offset q + req_size q - cb) in *.
      destruct (chunks_left rem T) as [Hpos Hless]; [lia|lia|].
      split; [exact Hpos|]. split; [split; [lia|done]|].
      by replace (req_file_offset q + req_size q - (cb + Z.min rem T)) with (rem - Z.min rem T) by lia.
    - split; [simpl; lia|]. simpl. eapply inv_ext, Hinv. intros k.
      unfold split_progress. case_decide; subst; lia.
    - unfold m, split_fuel. fold q T. simpl fst.
      rewrite Nat2Z.inj_succ, Z2Nat.id by (apply Z.div_pos; lia).
      split; [apply Z.div_pos; lia|].
      replace (Z.succ (req_size q / T)) with ((req_size q + 1 * T) / T)
        by (rewrite Z.div_add by lia; lia).
      apply Z.div_le_mono; lia. }
  destruct (while_loop _ _ _ _) as [[cb pl]| |]; simpl in *; try done.
  destruct Hw as [[Hcb Hpl] Hc]. simpl in *. apply Z.ltb_ge in Hc.
  eapply inv_ext, Hpl. intros k. unfold split_progress, progress.
  destruct (decide (k = ri)) as [->|Hne].
  - rewrite decide_True by set_solver. fold q. lia.
  - by rewrite decide_False by set_solver.
Qed.

(** *** One group *)

Lemma run_ok_singleton prog ri :
  prog ri = 0 -> 0 < req_size (req ri) ->
  run_ok prog [ri] (req_file_offset (req ri) + req_size (req ri)).
Proof.
  intros Hz Hs. destruct (request_valid ri) as (?&?&?).
  split; simpl.
  - apply NoDup_singleton.
  - intros k ->%list_elem_of_singleton. done.
  - by intros i j ->%list_elem_of_singleton ->%list_elem_of_singleton.
  - intros k ->%list_elem_of_singleton. lia.
  - by exists ri.
  - rewrite Z.sub_diag, wrap64_small by lia. lia.
Qed.

Lemma head_snoc (run : list nat) x y : last run = Some y ->
  head (run ++ [x]) = head run.
Proof. by destruct run. Qed.

Lemma run_ok_snoc prog run se ri :
  run_ok prog run se -> ri ∉ run -> prog ri = 0 -> 0 < req_size (req ri) ->
  (forall rj, rj ∈ run -> req_handle (req ri) = req_handle (req rj) /\
                        req_cuda_context (req ri) = req_cuda_context (req rj)) ->
  se <= req_file_offset (req ri) <= se + gap_limit opts ->
  run_ok prog (run ++ [ri]) (req_file_offset (req ri) + req_size (req ri)).
Proof.
  intros [Hnd Hfresh Hkey Hbegin (l & Hlast & ->) Hsorted] Hni Hz Hs Hk Hse.
  destruct (head_elem _ _ Hlast) as (h & Hh & Hhin & Hlin).
  destruct (request_valid ri) as (?&?&?), (request_valid l) as (?&?&?),
    (request_valid h) as (?&?&?).
  assert (Hhd : head (run ++ [ri]) = Some h) by (by erewrite head_snoc).
  rewrite Hh in *. pose proof (Hbegin l Hlin).
  split; rewrite ?Hhd; simpl in *.
  - apply NoDup_app. split; [done|]. split; [set_solver|apply NoDup_singleton].
  - intros k [Hin| ->%list_elem_of_singleton]%elem_of_app; auto.
  - intros i j [Hi| ->%list_elem_of_singleton]%elem_of_app
      [Hj| ->%list_elem_of_singleton]%elem_of_app; auto.
    destruct (Hk i Hi). auto.
  - intros k [Hin| ->%list_elem_of_singleton]%elem_of_app; [auto|lia].
  - exists ri. by rewrite last_snoc.
  - rewrite fmap_app. simpl.
    replace (req_file_offset (req ri) + req_size (req ri) - req_file_offset (req h))
      with (span_offset (seg_of (req_file_offset (req h)) ri) +
            seg_length (seg_of (req_file_offset (req h)) ri)) by (simpl; word_lia).
    eapply segs_sorted_snoc; [exact Hsorted| |done]. simpl. word_lia.
Qed.

(** The requests of one group share a key and are not planned yet. *)
Record group_ok (prog : nat -> Z) (g : list nat) : Prop := {
  group_nodup : NoDup g;
  group_fresh : forall ri, ri ∈ g -> prog ri = 0 /\ 0 < req_size (req ri);
  group_key : forall ri rj, ri ∈ g -> rj ∈ g ->
    req_handle (req ri) = req_handle (req rj) /\
    req_cuda_context (req ri) = req_cuda_context (req rj) }.

Lemma progress_app done1 done2 prog ri :
  progress done2 (progress done1 prog) ri = progress (done1 ++ done2) prog ri.
Proof.
  unfold progress. destruct (decide (ri ∈ done2)), (decide (ri ∈ done1));
    [rewrite decide_True by set_solver|rewrite decide_True by set_solver|
     rewrite decide_True by set_solver|rewrite decide_False by set_solver]; done.
Qed.

Lemma group_lookup (g : list nat) i : (i < length g)%nat -> g !! i = Some (g !!! i).
Proof. apply list_lookup_lookup_total_lt. Qed.

Lemma take_drop_snoc (g : list nat) b i :
  (b <= i < length g)%nat ->
  take (S i - b) (drop b g) = take (i - b) (drop b g) ++ [g !!! i].
Proof.
  intros. replace (S i - b)%nat with (S (i - b)) by lia. apply take_S_r.
  rewrite lookup_drop. replace (b + (i - b))%nat with i by lia.
  apply group_lookup. lia.
Qed.

Lemma elem_of_run (g : list nat) b i x : x ∈ take (i - b) (drop b g) -> x ∈ g.
Proof. intros Hx. eapply subseteq_drop, subseteq_take, Hx. Qed.

Lemma take_disjoint_drop (g : list nat) b x :
  NoDup g -> x ∈ drop b g -> x ∉ take b g.
Proof.
  intros Hnd. rewrite <- (take_drop b g) in Hnd.
  apply NoDup_app in Hnd as (_ & Hdis & _). intros Hd Ht. by apply (Hdis x).
Qed.

Definition merge_inv (prog : nat -> Z) (g : list nat) (b : nat) (s : nat * Z) : Prop :=
  (b < s.1 <= length g)%nat /\
  run_ok (progress (take b g) prog) (take (s.1 - b) (drop b g)) s.2 /\
  ((S b < s.1)%nat -> s.2 - req_file_offset (req (g !!! b)) <= task_size opts /\
                      coalesce_max_gap opts <> None).

Lemma fresh_after prog g b x :
  group_ok prog g -> x ∈ drop b g -> progress (take b g) prog x = 0 /\ 0 < req_size (req x).
Proof.
  intros [Hnd Hfresh _] Hx. unfold progress.
  rewrite decide_False by by apply take_disjoint_drop.
  apply Hfresh. by eapply subseteq_drop.
Qed.

Lemma head_run (g : list nat) b i :
  (b < i <= length g)%nat -> head (take (i - b) (drop b g)) = Some (g !!! b).
Proof.
  intros. rewrite head_lookup, lookup_take_lt, lookup_drop by lia.
  rewrite Nat.add_0_r. apply group_lookup. lia.
Qed.

Lemma can_merge_true g sb i se :
  can_merge requests opts g sb (i, se) = true ->
  (i < length g)%nat /\ coalesce_max_gap opts <> None /\
  let c := req (g !!! i) in
  se <= req_file_offset c /\ req_file_offset c -% se <= gap_limit opts /\
  (req_file_offset c +% req_size c) -% sb <= task_size opts.
Proof.
  unfold can_merge, gap_limit. destruct (coalesce_max_gap opts) as [gap|]; [|done].
  intros. bool_to_prop. simpl. by repeat split; try lia.
Qed.

Lemma merge_step_inv prog g b s :
  group_ok prog g -> merge_inv prog g b s ->
  can_merge requests opts g (req_file_offset (req (g !!! b))) s = true ->
  merge_inv prog g b (merge_step requests g s).
Proof.
  destruct s as [i se]. intros Hg (Hi & Hrun & _) (Hlt & Hsome & Hse & Hgp & Hfit)%can_merge_true.
  simpl in *. set (c := g !!! i) in *.
  assert (Hc : c ∈ drop b g).
  { apply (list_elem_of_lookup_2 _ (i - b)). rewrite lookup_drop.
    replace (b + (i - b))%nat with i by lia. by apply group_lookup. }
  destruct (fresh_after _ _ _ _ Hg Hc) as [Hz Hs].
  destruct (request_valid c) as (?&?&?), (request_valid (g !!! b)) as (?&?&?).
  assert (Hsb : req_file_offset (req (g !!! b)) <= se).
  { destruct Hrun as [_ Hf _ Hb (l & Hl & ->) _].
    apply last_Some_elem_of in Hl. specialize (Hb _ Hl). specialize (Hf _ Hl).
    rewrite head_run in Hb by lia. simpl in Hb. lia. }
  unfold merge_inv, merge_step. simpl. fold c.
  rewrite (wrap64_small (req_file_offset (req c) + _)) in Hfit |- * by lia.
  rewrite wrap64_small in Hfit, Hgp by lia.
  split; [lia|]. split; [|intros; split; [lia|done]].
  rewrite take_drop_snoc by lia. fold c.
  apply (run_ok_snoc _ _ _ _ Hrun); try done.
  - pose proof (NoDup_app (take (i - b) (drop b g)) [c]) as [Hnd _].
    rewrite <- take_drop_snoc in Hnd by lia.
    destruct Hnd as (_ & Hdis & _); [|intros Hin; apply (Hdis c Hin); set_solver].
    eapply sublist_NoDup; [apply (group_nodup _ _ Hg)|].
    etrans; [apply sublist_take|apply sublist_drop].
  - intros rj Hrj%elem_of_run. apply (group_key _ _ Hg); [|done].
    by eapply subseteq_drop.
  - lia.
Qed.

Lemma merge_loop_spec prog g b :
  group_ok prog g -> (b < length g)%nat ->
  let head := req (g !!! b) in
  returns (while_loop (length g) (can_merge requests opts g (req_file_offset head))
             (fun s => mret (merge_step requests g s))
             (S b, req_file_offset head +% req_size head))
    (merge_inv prog g b) (fun _ => False).
Proof.
  intros Hg Hb hd. eapply returns_mono.
  - apply (while_rule (merge_inv prog g b)
             (fun s => Z.of_nat (length g) - Z.of_nat s.1) (fun _ => False)).
    + intros s Hs Hc. pose proof (merge_step_inv _ _ _ _ Hg Hs Hc) as Hs'.
      destruct Hs as [? _], Hs' as [? Hrest] eqn:E. simpl in *.
      split; [|split; [exact Hs'|]].
      * destruct s as [i se]. apply can_merge_true in Hc as [? _]. simpl in *. lia.
      * lia.
    + unfold merge_inv. simpl. split; [lia|]. split; [|lia].
      destruct (request_valid (g !!! b)) as (?&?&?).
      assert (Hin : g !!! b ∈ drop b g).
      { apply (list_elem_of_lookup_2 _ 0). rewrite lookup_drop, Nat.add_0_r.
        by apply group_lookup. }
      rewrite take_drop_snoc by lia. rewrite Nat.sub_diag. simpl.
      unfold hd. rewrite wrap64_small by lia.
      destruct (fresh_after _ _ _ _ Hg Hin). by apply run_ok_singleton.
    + simpl. lia.
  - by intros s [? _].
  - done.
Qed.

Lemma plan_run_spec prog g b plan :
  group_ok prog g -> (b < length g)%nat -> inv (progress (take b g) prog) plan ->
  returns (plan_run requests opts g (b, plan))
    (fun s => (b < s.1 <= length g)%nat /\ inv (progress (take s.1 g) prog) s.2)
    (fun _ => False).
Proof.
  intros Hg Hb Hinv. unfold plan_run. apply returns_bind.
  eapply returns_mono; [by apply merge_loop_spec| |done].
  intros [i se] (Hi & Hrun & Hfit). simpl in *.
  assert (Htake : take i g = take b g ++ take (i - b) (drop b g)).
  { rewrite <- (take_drop b g) at 1. rewrite take_app, take_take, length_take.
    rewrite (Nat.min_r i b), (Nat.min_l b) by lia. done. }
  assert (Hhead := head_run g b i Hi).
  apply returns_bind. eapply returns_mono with
    (Q := inv (progress (take i g) prog)) (E := fun _ => False); [|done|done].
  assert (Hlen : length (take (i - b) (drop b g)) = (i - b)%nat)
    by (rewrite length_take, length_drop; lia).
  case_bool_decide as Hone; rewrite Hlen in Hone.
  - simpl. eapply inv_ext, (inv_merge _ _ _ _ Hinv Hrun).
    + intros ri. rewrite Htake. apply progress_app.
    + rewrite Hhead. simpl. apply Hfit. lia.
    + apply Hfit. lia.
  - rewrite Hhead. simpl.
    assert (Hin : g !!! b ∈ drop b g).
    { apply (list_elem_of_lookup_2 _ 0). rewrite lookup_drop, Nat.add_0_r.
      by apply group_lookup. }
    destruct (fresh_after _ _ _ _ Hg Hin) as [Hz Hs].
    eapply returns_mono; [by apply (inv_split _ _ _ Hinv Hz Hs)| |done].
    intros plan' Hinv'. eapply inv_ext, Hinv'. intros ri. rewrite Htake.
    replace (take (i - b) (drop b g)) with [g !!! b]; [apply progress_app|].
    replace (i - b)%nat with 1%nat in * by lia.
    destruct (take 1 (drop b g)) as [|? [|]] eqn:E; try done.
    by injection Hhead as ->.
Qed.

Lemma plan_group_spec prog g plan :
  group_ok prog g -> inv prog plan ->
  returns (plan_group requests opts g plan) (inv (progress g prog)) (fun _ => False).
Proof.
  intros Hg Hinv. unfold plan_group.
  pose (I := fun s : nat * TransferPlan =>
    (s.1 <= length g)%nat /\ inv (progress (take s.1 g) prog) s.2).
  assert (Hw : returns (while_loop (length g)
                 (fun s => bool_decide (s.1 < length g)%nat)
                 (plan_run requests opts g) (0%nat, plan))
    (fun s => I s /\ bool_decide (s.1 < length g)%nat = false) (fun _ => False)).
  { apply (while_rule I (fun s => Z.of_nat (length g) - Z.of_nat s.1)).
    - intros [b pl] [Hle Hpl] Hc. bool_to_prop. simpl in *. split; [lia|].
      eapply returns_mono; [by apply plan_run_spec| |done].
      intros s [? ?]. unfold I. split; [split; [lia|done]|lia].
    - split; simpl; [lia|]. eapply inv_ext, Hinv. intros ri. unfold progress.
      by rewrite decide_False by set_solver.
    - simpl. lia. }
  destruct (while_loop _ _ _ _) as [[i pl]| |]; simpl in *; try done.
  destruct Hw as [[Hle Hpl] Hc]. bool_to_prop. simpl in *.
  by rewrite take_ge in Hpl by lia.
Qed.

(** *** Grouping *)

Definition key_of (ri : nat) : Z * Z :=
  (req_handle (req ri), req_cuda_context (req ri)).

Record grouping_ok (done : list nat) (groups : list (list nat))
    (group_slot : gmap (Z * Z) nat) : Prop := {
  grp_elems : concat groups ≡ₚ filter (fun ri => req_size (req ri) <> 0) done;
  grp_slots : forall key slot, group_slot !! key = Some slot ->
    exists g, groups !! slot = Some g /\ Forall (fun ri => key_of ri = key) g;
  grp_keys : Forall (fun g => g <> [] /\ exists key, Forall (fun ri => key_of ri = key) g)
               groups }.

Lemma concat_alter_snoc (groups : list (list nat)) slot g ri :
  groups !! slot = Some g ->
  concat (alter (fun g => g ++ [ri]) slot groups) ≡ₚ concat groups ++ [ri].
Proof.
  revert slot. induction groups as [|g' groups IH]; intros [|slot] Hg; simpl; try done.
  - rewrite <- !app_assoc. apply Permutation_app_head, Permutation_app_comm.
  - rewrite (IH _ Hg). by rewrite app_assoc.
Qed.

Lemma group_one_ok done groups group_slot ri :
  grouping_ok done groups group_slot ->
  let '(groups', group_slot') := group_one requests (groups, group_slot) ri in
  grouping_ok (done ++ [ri]) groups' group_slot'.
Proof.
  intros [Hel Hsl Hk]. unfold group_one.
  destruct (Z.eqb_spec (req_size (req ri)) 0) as [Hz|Hnz].
  { split; [|done|done]. rewrite filter_app, filter_cons, filter_nil.
    rewrite decide_False by (intros []; done). by rewrite app_nil_r. }
  fold (key_of ri).
  assert (Hel' : filter (fun ri => req_size (req ri) <> 0) (done ++ [ri]) =
                 filter (fun ri => req_size (req ri) <> 0) done ++ [ri]).
  { by rewrite filter_app, filter_cons, filter_nil, decide_True by done. }
  destruct (group_slot !! key_of ri) as [slot|] eqn:Hslot.
  - destruct (Hsl _ _ Hslot) as (g & Hg & Hgk). split.
    + rewrite Hel', (concat_alter_snoc _ _ _ _ Hg). by rewrite Hel.
    + intros key slot' Hs'. destruct (Hsl _ _ Hs') as (g' & Hg' & Hgk').
      destruct (decide (slot = slot')) as [<-|Hne].
      * rewrite Hg in Hg'. injection Hg' as <-. exists (g ++ [ri]).
        split; [by rewrite list_lookup_alter_eq, Hg|].
        apply Forall_app. split; [done|]. constructor; [|done].
        eapply Forall_lookup_1 in Hk as [Hne _]; [|exact Hg].
        destruct g as [|x g]; [done|]. inversion Hgk; inversion Hgk'; congruence.
      * exists g'. by rewrite list_lookup_alter_ne.
    + apply Forall_alter; [done|]. intros g' Hg' [? _]. rewrite Hg in Hg'.
      injection Hg' as <-. split; [by destruct g|]. exists (key_of ri).
      apply Forall_app. split; [done|by constructor].
  - split.
    + rewrite Hel', concat_app. simpl. by rewrite Hel.
    + intros key slot'. rewrite lookup_insert. case_decide as Heq.
      * intros [= <-]. subst key. exists [ri]. split; [|by constructor].
        by rewrite lookup_app_r, Nat.sub_diag by lia.
      * intros Hs'. destruct (Hsl _ _ Hs') as (g' & Hg' & Hgk').
        exists g'. split; [|done]. by apply lookup_app_l_Some.
    + apply Forall_app. split; [done|]. constructor; [|done]. split; [done|].
      exists (key_of ri). by constructor.
Qed.

Lemma group_requests_ok :
  exists group_slot, grouping_ok (seq 0 (length requests)) (group_requests requests) group_slot.
Proof.
  unfold group_requests.
  assert (Hgen : forall l done groups slots, grouping_ok done groups slots ->
    exists m, grouping_ok (done ++ l)
      (fst (foldl (group_one requests) (groups, slots) l)) m).
  { induction l as [|ri l IH]; intros done groups slots H.
    - exists slots. by rewrite app_nil_r.
    - pose proof (group_one_ok _ _ _ ri H) as H'. cbn [foldl].
      destruct (group_one requests (groups, slots) ri) as [groups' slots'].
      destruct (IH _ _ _ H') as [m Hm]. exists m. by rewrite <- app_assoc in Hm. }
  apply (Hgen _ [] [] ∅). split; [done| |done].
  intros key slot. by rewrite lookup_empty.
Qed.

Lemma sort_group_perm g : sort_group requests g ≡ₚ g.
Proof. unfold sort_group. case_bool; [done|]. apply merge_sort_Permutation. Qed.

Lemma group_ok_perm prog g g' : g ≡ₚ g' -> group_ok prog g -> group_ok prog g'.
Proof.
  intros Hp [Hnd Hf Hk]. split.
  - by rewrite <- Hp.
  - intros ri. rewrite <- Hp. apply Hf.
  - intros ri rj. rewrite <- Hp. apply Hk.
Qed.

Lemma plan_groups_spec groups prog acc :
  NoDup (concat groups) ->
  (forall ri, ri ∈ concat groups -> prog ri = 0 /\ 0 < req_size (req ri)) ->
  Forall (fun g => exists key, Forall (fun ri => key_of ri = key) g) groups ->
  returns acc (inv prog) (fun _ => False) ->
  returns (foldl (fun acc g => plan ← acc; plan_group requests opts (sort_group requests g) plan)
             acc groups)
    (inv (progress (concat groups) prog)) (fun _ => False).
Proof.
  revert prog acc. induction groups as [|g groups IH]; intros prog acc Hnd Hfresh Hk Hacc;
    cbn [foldl concat].
  - eapply returns_mono; [done| |done]. intros plan. apply inv_ext. intros ri.
    unfold progress. by rewrite decide_False by set_solver.
  - apply Forall_cons in Hk as [[key Hkey] Hk]. simpl in Hnd.
    apply NoDup_app in Hnd as (Hndg & Hdis & Hnd).
    assert (Hg : group_ok prog g).
    { split; [done|intros; apply Hfresh; set_solver|].
      intros ri rj Hi Hj. rewrite Forall_forall in Hkey.
      pose proof (Hkey ri Hi). pose proof (Hkey rj Hj). unfold key_of in *.
      split; congruence. }
    eapply returns_mono.
    + apply (IH (progress (sort_group requests g) prog)); [done| |done|].
      * intros ri Hri. unfold progress. rewrite decide_False.
        -- apply Hfresh. set_solver.
        -- rewrite sort_group_perm. intros Hin. by apply (Hdis ri Hin).
      * apply returns_bind. eapply returns_mono; [exact Hacc| |done].
        intros plan Hplan. apply plan_group_spec; [|done].
        eapply group_ok_perm; [|done]. by rewrite sort_group_perm.
    + intros plan. apply inv_ext. intros ri. rewrite progress_app. unfold progress.
      apply decide_ext. rewrite !elem_of_app. by rewrite sort_group_perm.
    + done.
Qed.

Lemma build_transfer_plan_inv :
  exists plan, build_transfer_plan requests opts = Ok plan /\
    inv (fun ri => req_size (req ri)) plan.
Proof.
  apply returns_ok. unfold build_transfer_plan.
  apply returns_bind, returns_expect; intros Ht; [|bool_to_prop; lia].
  assert (Hinit : inv (fun _ => 0) (mkPlan [] [] (replicate (length requests) 0%nat) 0)).
  { split; try done.
    - intros ri. constructor.
    - simpl. by rewrite length_replicate.
    - intros ri Hri. simpl. by rewrite lookup_total_replicate_2. }
  case_bool_decide as Hempty.
  { simpl. eapply inv_ext, Hinit. intros ri. rewrite list_lookup_total_alt.
    by rewrite lookup_ge_None_2 by lia. }
  destruct group_requests_ok as [m [Hel Hsl Hk]].
  unfold plan_groups. eapply returns_mono.
  - apply plan_groups_spec; [| | |exact Hinit].
    + rewrite Hel. apply NoDup_filter, NoDup_seq.
    + intros ri. rewrite Hel, list_elem_of_filter. intros [? _]. split; [done|].
      destruct (request_valid ri) as (?&?&?). lia.
    + eapply Forall_impl; [exact Hk|]. by intros g [_ ?].
  - intros plan. apply inv_ext. intros ri. unfold progress. case_decide as Hin; [done|].
    rewrite Hel, list_elem_of_filter, elem_of_seq in Hin.
    destruct (decide (ri < length requests)%nat).
    + destruct (Z.eq_dec (req_size (req ri)) 0); [done|]. exfalso. apply Hin. split; [done|lia].
    + rewrite list_lookup_total_alt. by rewrite lookup_ge_None_2 by lia.
  - done.
Qed.
End correctness.

(** ** The planner's contract *)

Lemma covers_length r n ps : covers r n ps -> 0 <= n.
Proof. induction 1; lia. Qed.

Definition carries (x : Z) (p : piece) : Prop := p_pos p <= x < p_pos p + p_len p.

#[global] Instance carries_dec x p : Decision (carries x p).
Proof. unfold carries. apply _. Defined.

(** Byte [k] of a covered request travels in exactly one piece. *)
Lemma covers_byte r n ps k :
  covers r n ps -> 0 <= k < n ->
  exists p, filter (carries (req_file_offset r + k)) ps = [p] /\
    p_handle p = req_handle r /\ p_ctx p = req_cuda_context r /\
    p_buf p + (req_file_offset r + k - p_pos p) = req_buf r + k.
Proof.
  intros Hc. assert (Hout : forall n ps, covers r n ps -> forall k, n <= k ->
    filter (carries (req_file_offset r + k)) ps = []).
  { clear. induction 1 as [|n ps p Hc IH Hh Hx Hp Hb Hl]; intros k Hk; [done|].
    rewrite filter_app, IH by lia. rewrite filter_cons, filter_nil.
    rewrite decide_False; [done|]. unfold carries. lia. }
  induction Hc as [|n ps p Hc IH Hh Hx Hp Hb Hl]; intros Hk; [lia|].
  rewrite filter_app, filter_cons, filter_nil.
  destruct (decide (k < n)).
  - destruct IH as (q & -> & ?&?&?); [lia|]. exists q.
    rewrite decide_False by (unfold carries; lia). done.
  - rewrite (Hout _ _ Hc) by lia. rewrite decide_True by (unfold carries; lia).
    exists p. repeat split; try done. lia.
Qed.

Definition valid_options (opts : TransferPlanOptions) : Prop :=
  0 < task_size opts < SIZE_MOD /\ 0 <= gap_limit opts.

(** C4. Planning is total and delivers every requested byte exactly once: for
    any requests whose ranges end below [2^64], [build_transfer_plan] returns a
    plan in which the pieces cut for request [ri] cover its range in order and
    without holes, and byte [k] of the request lies in exactly one piece, fetched
    from the request's own handle and written to [req_buf + k]. *)
Theorem build_transfer_plan_delivers requests opts :
  Forall valid_request requests -> valid_options opts ->
  exists plan, build_transfer_plan requests opts = Ok plan /\
  forall ri r, requests !! ri = Some r ->
    covers r (req_size r) (pieces_of ri (pieces plan)) /\
    forall k, 0 <= k < req_size r ->
      exists p, filter (carries (req_file_offset r + k)) (pieces_of ri (pieces plan)) = [p] /\
        p_handle p = req_handle r /\ p_ctx p = req_cuda_context r /\
        p_buf p + (req_file_offset r + k - p_pos p) = req_buf r + k.
Proof.
  intros Hv [Ht Hg]. destruct (build_transfer_plan_inv _ _ Hv Ht Hg) as (plan & Hb & Hinv).
  exists plan. split; [done|]. intros ri r Hr.
  pose proof (inv_covers _ _ _ _ Hinv ri) as Hc.
  cbn beta in Hc. rewrite (list_lookup_total_correct _ _ _ Hr) in Hc.
  split; [done|]. intros k Hk. by eapply covers_byte.
Qed.

Example build_transfer_plan_delivers_witness :
  Forall valid_request header_requests /\ valid_options (mkOptions 60 (Some 10)) /\
  exists plan, build_transfer_plan header_requests (mkOptions 60 (Some 10)) = Ok plan /\
    covers (mkRequest 1 0 4000 100 100) 100 (pieces_of 3 (pieces plan)).
Proof.
  assert (Hv : Forall valid_request header_requests).
  { unfold header_requests, valid_request.
    repeat (constructor; [simpl; lia|]). constructor. }
  assert (Ho : valid_options (mkOptions 60 (Some 10))).
  { unfold valid_options, gap_limit. simpl. lia. }
  split; [exact Hv|]. split; [exact Ho|].
  destruct (build_transfer_plan_delivers _ _ Hv Ho) as (plan & Hb & Hd).
  exists plan. split; [exact Hb|].
  exact (proj1 (Hd 3%nat (mkRequest 1 0 4000 100 100) eq_refl)).
Defined.

(** Every planned transfer is well formed: its span is nonempty and at most
    [task_size], begins and ends on wanted bytes, its segments are nonempty,
    sorted, disjoint and at most [coalesce_max_gap] bytes apart (one segment per
    transfer when coalescing is disabled), and the transfers own consecutive
    slices that partition the segment array. *)
Theorem build_transfer_plan_transfers requests opts :
  Forall valid_request requests -> valid_options opts ->
  exists plan, build_transfer_plan requests opts = Ok plan /\
    Forall (transfer_ok opts plan) (transfers plan) /\
    slices 0 (transfers plan) (length (segments plan)).
Proof.
  intros Hv [Ht Hg]. destruct (build_transfer_plan_inv _ _ Hv Ht Hg) as (plan & Hb & Hinv).
  exists plan. split; [done|]. by destruct Hinv.
Qed.

Example build_transfer_plan_transfers_witness :
  Forall valid_request header_requests /\ valid_options (mkOptions 60 (Some 10)) /\
  exists plan, build_transfer_plan header_requests (mkOptions 60 (Some 10)) = Ok plan /\
    slices 0 (transfers plan) 5.
Proof.
  assert (Hv : Forall valid_request header_requests).
  { unfold header_requests, valid_request.
    repeat (constructor; [simpl; lia|]). constructor. }
  assert (Ho : valid_options (mkOptions 60 (Some 10))).
  { unfold valid_options, gap_limit. simpl. lia. }
  split; [exact Hv|]. split; [exact Ho|].
  destruct (build_transfer_plan_transfers _ _ Hv Ho) as (plan & Hb & _ & Hs).
  exists plan. split; [exact Hb|]. rewrite header_plan in Hb. injection Hb as <-. exact Hs.
Defined.

(** The plan's counters are right: [transfers_per_request] has one entry per
    request, the number of pieces cut for it, and [overread_bytes] is the bytes
    fetched less the bytes copied, as a word. *)
Theorem build_transfer_plan_accounting requests opts :
  Forall valid_request requests -> valid_options opts ->
  exists plan, build_transfer_plan requests opts = Ok plan /\
    length (transfers_per_request plan) = length requests /\
    (forall ri, (ri < length requests)%nat ->
       transfers_per_request plan !!! ri = length (pieces_of ri (pieces plan))) /\
    overread_bytes plan =
      sumZ (xfer_size <$> transfers plan) -% sumZ (seg_length <$> segments plan).
Proof.
  intros Hv [Ht Hg]. destruct (build_transfer_plan_inv _ _ Hv Ht Hg) as (plan & Hb & Hinv).
  exists plan. split; [done|]. by destruct Hinv.
Qed.

Example build_transfer_plan_accounting_witness :
  Forall valid_request header_requests /\ valid_options (mkOptions 60 (Some 10)) /\
  exists plan, build_transfer_plan header_requests (mkOptions 60 (Some 10)) = Ok plan /\
    transfers_per_request plan !!! 3%nat = length (pieces_of 3 (pieces plan)).
Proof.
  assert (Hv : Forall valid_request header_requests).
  { unfold header_requests, valid_request.
    repeat (constructor; [simpl; lia|]). constructor. }
  assert (Ho : valid_options (mkOptions 60 (Some 10))).
  { unfold valid_options, gap_limit. simpl. lia. }
  split; [exact Hv|]. split; [exact Ho|].
  destruct (build_transfer_plan_accounting _ _ Hv Ho) as (plan & Hb & _ & Hc & _).
  exists plan. split; [exact Hb|]. apply Hc. simpl. lia.
Defined.

(** The transfers of a group are not sorted by [file_offset] when a split
    request overlaps another one. *)
Example overlap_unsorted :
  (fun plan => xfer_file_offset <$> transfers plan) <$>
    build_transfer_plan [mkRequest 1 0 0 0 30; mkRequest 1 0 500 5 10]
      (mkOptions 10 (Some 0)) = Ok [0; 10; 20; 5].
Proof. reflexivity. Qed.
