(* ===== verification/Observation.v ===== *)
(** * Observations and their recorders

    [src/observation.cpp] (the registry of monitors and the notification path)
    and [src/detail/observation_recorder.cpp] (the two recorders).  The
    process-wide state of the code is one record, [world]; the thread-local
    flag [t_in_monitor] is the set of threads that have it set.  A monitor is
    an address, and its callbacks are user code: [script m] lists the calls
    back into the library that monitor [m] makes from them.  A callback is
    [noexcept], so a script catches what its calls throw.  Time points are
    integers in nanoseconds; each operation that reads the clock takes the
    reading as an argument.  The exclusive lock of the registry makes
    [add] and [remove] atomic. *)

From stdpp Require Import base list strings gmap.
From Stdlib Require Import ZArith Lia.
From S2P Require Import Prelude.

#[local] Open Scope Z_scope.

(** ** Data *)

Inductive IoBackend := POSIX | GDS | MMAP | REMOTE_HTTP | REMOTE_HDFS.
Inductive TransferDirection := READ | WRITE.
Inductive MemoryKind := HOST | DEVICE.
Inductive ObservationKind := LOGICAL | PHYSICAL.
Inductive Phase := Start | Finish.

#[global] Instance IoBackend_eq_dec : EqDecision IoBackend.
Proof. solve_decision. Defined.
#[global] Instance TransferDirection_eq_dec : EqDecision TransferDirection.
Proof. solve_decision. Defined.
#[global] Instance MemoryKind_eq_dec : EqDecision MemoryKind.
Proof. solve_decision. Defined.
#[global] Instance ObservationKind_eq_dec : EqDecision ObservationKind.
Proof. solve_decision. Defined.
#[global] Instance Phase_eq_dec : EqDecision Phase.
Proof. solve_decision. Defined.

Definition backend_index (b : IoBackend) : nat :=
  match b with POSIX => 0 | GDS => 1 | MMAP => 2 | REMOTE_HTTP => 3 | REMOTE_HDFS => 4 end.

Definition num_io_backends : nat := S (backend_index REMOTE_HDFS).

Definition kind_index (k : ObservationKind) : nat :=
  match k with LOGICAL => 0 | PHYSICAL => 1 end.

Definition num_observation_kinds : nat := S (kind_index PHYSICAL).

Definition backend_to_string (b : IoBackend) : string :=
  match b with
  | POSIX => "POSIX" | GDS => "GDS" | MMAP => "MMAP"
  | REMOTE_HTTP => "REMOTE_HTTP" | REMOTE_HDFS => "REMOTE_HDFS"
  end.

Definition direction_to_string (d : TransferDirection) : string :=
  match d with READ => "READ" | WRITE => "WRITE" end.

Definition memory_kind_to_string (m : MemoryKind) : string :=
  match m with HOST => "HOST" | DEVICE => "DEVICE" end.

Definition kind_to_string (k : ObservationKind) : string :=
  match k with LOGICAL => "LOGICAL" | PHYSICAL => "PHYSICAL" end.

Record ClockAnchor := mkAnchor { steady : Z; wall : Z }.

(** Both clocks of libstdc++ count nanoseconds, so [duration_cast] is the
    identity. *)
Definition to_wall_clock (a : ClockAnchor) (time : Z) : Z := wall a + (time - steady a).

Record Observation := mkObservation {
  obs_start : Z;
  obs_end : Z;
  obs_offset : Z;
  obs_size : Z;
  bytes_transferred : Z;
  obs_id : Z;
  parent_id : option Z;
  http_method : option string;
  obs_source : string;
  obs_kind : ObservationKind;
  obs_backend : IoBackend;
  obs_direction : TransferDirection;
  obs_memory_kind : MemoryKind;
  obs_ok : bool }.

(** The value of a default-constructed [Observation]. *)
Definition default_observation : Observation :=
  mkObservation 0 0 0 0 0 0 None None "" LOGICAL POSIX READ HOST true.

#[global] Instance observation_inhabited : Inhabited Observation :=
  populate default_observation.

Definition duration (o : Observation) : Z :=
  if obs_end o >? obs_start o then obs_end o - obs_start o else 0.

(** ** The registry *)

Record Entry := mkEntry { entry_id : Z; entry_kind : ObservationKind; entry_monitor : Z }.

(** One call of [on_start] or [on_finish], as the monitor sees it. *)
Record delivery := mkDelivery { to_monitor : Z; in_phase : Phase; seen : Observation }.

Record world := mkWorld {
  monitor_counts : list Z;         (* per kind, 32-bit *)
  monitors : list Entry;
  next_id : Z;
  t_in_monitor : gset Z;
  id_counter : Z;
  delivered : list delivery }.

Definition initial_world : world :=
  mkWorld (replicate num_observation_kinds 0) [] 1 ∅ 1 [].

Definition in_monitor (thread : Z) (w : world) : bool := bool_decide (thread ∈ t_in_monitor w).

Definition set_monitors (es : list Entry) (w : world) : world :=
  mkWorld (monitor_counts w) es (next_id w) (t_in_monitor w) (id_counter w) (delivered w).
Definition set_counts (c : list Z) (w : world) : world :=
  mkWorld c (monitors w) (next_id w) (t_in_monitor w) (id_counter w) (delivered w).
Definition set_in_monitor (ts : gset Z) (w : world) : world :=
  mkWorld (monitor_counts w) (monitors w) (next_id w) ts (id_counter w) (delivered w).
Definition deliver (d : delivery) (w : world) : world :=
  mkWorld (monitor_counts w) (monitors w) (next_id w) (t_in_monitor w) (id_counter w)
    (delivered w ++ [d]).

Definition count_kind (k : nat) (es : list Entry) : Z :=
  Z.of_nat (length (filter (fun e => kind_index (entry_kind e) = k) es)).

Definition publish_count (w : world) : world :=
  set_counts ((fun k => count_kind k (monitors w) mod 4294967296)
                <$> seq 0 num_observation_kinds) w.

Definition monitoring_enabled (k : ObservationKind) (w : world) : bool :=
  negb (monitor_counts w !!! kind_index k =? 0).

Definition add (thread : Z) (monitor : Z) (kind : ObservationKind) (w : world)
    : result (Z * world) :=
  _ ← expect (negb (monitor =? 0)) (InvalidArgument "the monitor must not be null");
  _ ← expect (negb (in_monitor thread w))
        (RuntimeError "cannot register a monitor from inside a monitor callback");
  let id := next_id w in
  let w := mkWorld (monitor_counts w) (monitors w ++ [mkEntry id kind monitor])
             (next_id w +% 1) (t_in_monitor w) (id_counter w) (delivered w) in
  mret (id, publish_count w).

(** [std::find_if] followed by [erase]. *)
Fixpoint erase_id (id : Z) (es : list Entry) : option (list Entry) :=
  match es with
  | [] => None
  | e :: es' => if entry_id e =? id then Some es' else cons e <$> erase_id id es'
  end.

Definition remove (thread : Z) (id : Z) (w : world) : result world :=
  _ ← expect (negb (in_monitor thread w))
        (RuntimeError "cannot unregister a monitor from inside a monitor callback");
  mret match erase_id id (monitors w) with
       | None => w
       | Some es => publish_count (set_monitors es w)
       end.

Definition expect_not_in_monitor (thread : Z) (w : world) : result unit :=
  expect (negb (in_monitor thread w))
    (RuntimeError "a monitor must not call back into KvikIO").

(** A call a monitor may make from inside its callbacks. *)
Inductive call :=
  | RegisterCall (monitor : Z) (kind : ObservationKind)
  | UnregisterCall (id : Z)
  | NotifyCall (phase : Phase) (o : Observation).

(** What a caller that catches exceptions makes of one call, given the
    notification path. *)
Definition perform (notify_ : Phase -> Observation -> world -> result world)
    (thread : Z) (w : world) (c : call) : result world :=
  match c with
  | RegisterCall m k =>
      match add thread m k w with Ok (_, w') => Ok w' | Err _ => Ok w | NoFuel => NoFuel end
  | UnregisterCall id =>
      match remove thread id w with Ok w' => Ok w' | Err _ => Ok w | NoFuel => NoFuel end
  | NotifyCall phase o => notify_ phase o w
  end.

Section notification.
Variable script : Z -> list call.

(** The body of the loop of [Registry::notify]: one entry. *)
Definition visit (notify_ : Phase -> Observation -> world -> result world)
    (thread : Z) (phase : Phase) (o : Observation) (w : world) (e : Entry) : result world :=
  if decide (entry_kind e = obs_kind o) then
    foldM (perform notify_ thread) (deliver (mkDelivery (entry_monitor e) phase o) w)
      (script (entry_monitor e))
  else mret w.

(** [Registry::notify].  A callback may emit observations of its own, so the
    function is recursive; [depth] bounds the nesting of callbacks. *)
Fixpoint notify (depth : nat) (thread : Z) (phase : Phase) (o : Observation) (w : world)
    : result world :=
  if negb (monitoring_enabled (obs_kind o) w) then mret w
  else if in_monitor thread w then mret w
  else
    match depth with
    | O => NoFuel
    | S depth' =>
        w1 ← foldM (visit (notify depth' thread) thread phase o)
               (set_in_monitor ({[thread]} ∪ t_in_monitor w) w) (monitors w);
        mret (set_in_monitor (t_in_monitor w1 ∖ {[thread]}) w1)
    end.

(** One level of callbacks is enough, see [notify_ok]. *)
Definition started (thread : Z) (o : Observation) : world -> result world :=
  notify 1 thread Start o.
Definition finished (thread : Z) (o : Observation) : world -> result world :=
  notify 1 thread Finish o.

(** ** The recorders *)

(** [next_observation_id] *)
Definition next_observation_id (w : world) : Z * world :=
  (id_counter w, mkWorld (monitor_counts w) (monitors w) (next_id w) (t_in_monitor w)
     (id_counter w +% 1) (delivered w)).

Record LogicalObservationRecorder := mkLogical {
  log_observation : Observation;
  log_active : bool;
  log_emitted : bool }.

(** The constructor and [begin]; [now] is the reading of the clock. *)
Definition logical_new (thread now : Z) (backend : IoBackend) (direction : TransferDirection)
    (memory_kind : MemoryKind) (offset size : Z) (source : string) (method : option string)
    (w : world) : result (LogicalObservationRecorder * world) :=
  if monitoring_enabled LOGICAL w then
    let '(id, w) := next_observation_id w in
    let o := mkObservation now 0 offset size 0 id None method source LOGICAL backend
               direction memory_kind true in
    w ← started thread o w;
    mret (mkLogical o true false, w)
  else mret (mkLogical default_observation false false, w).

(** [_observation] with the fields [finish] and [finish_with_failure] set. *)
Definition complete (o : Observation) (now n : Z) (ok : bool) : Observation :=
  mkObservation (obs_start o) now (obs_offset o) (obs_size o) n (obs_id o) (parent_id o)
    (http_method o) (obs_source o) (obs_kind o) (obs_backend o) (obs_direction o)
    (obs_memory_kind o) ok.

Definition logical_finish (thread now n : Z) (r : LogicalObservationRecorder) (w : world)
    : result (LogicalObservationRecorder * world) :=
  if negb (log_active r) then mret (r, w)
  else if log_emitted r then mret (r, w)
  else
    let o := complete (log_observation r) now n (obs_ok (log_observation r)) in
    w ← finished thread o w;
    mret (mkLogical o (log_active r) true, w).

Definition logical_finish_with_failure (thread now : Z) (r : LogicalObservationRecorder)
    (w : world) : result (LogicalObservationRecorder * world) :=
  if negb (log_active r) then mret (r, w)
  else if log_emitted r then mret (r, w)
  else
    let o := complete (log_observation r) now 0 false in
    w ← finished thread o w;
    mret (mkLogical o (log_active r) true, w).

(** [~LogicalObservationRecorder] *)
Definition logical_destroy (thread now : Z) (r : LogicalObservationRecorder) (w : world)
    : result (LogicalObservationRecorder * world) :=
  logical_finish_with_failure thread now r w.

Definition logical_id (r : LogicalObservationRecorder) : option Z :=
  if negb (log_active r) then None else Some (obs_id (log_observation r)).

Record PhysicalObservationContext := mkContext {
  ctx_backend : IoBackend;
  ctx_direction : TransferDirection;
  ctx_memory_kind : MemoryKind;
  ctx_parent_id : option Z;
  ctx_source : string;
  ctx_http_method : option string }.

Record PhysicalObservationRecorder := mkPhysical {
  phy_observation : Observation;
  phy_active : bool;
  phy_emitted : bool }.

Definition physical_new (thread now : Z) (c : PhysicalObservationContext) (offset size : Z)
    (w : world) : result (PhysicalObservationRecorder * world) :=
  if negb (monitoring_enabled PHYSICAL w) then
    mret (mkPhysical default_observation false false, w)
  else
    let '(id, w) := next_observation_id w in
    let o := mkObservation now 0 offset size 0 id (ctx_parent_id c) (ctx_http_method c)
               (ctx_source c) PHYSICAL (ctx_backend c) (ctx_direction c)
               (ctx_memory_kind c) true in
    w ← started thread o w;
    mret (mkPhysical o true false, w).

Definition physical_finish (thread now n : Z) (r : PhysicalObservationRecorder) (w : world)
    : result (PhysicalObservationRecorder * world) :=
  if negb (phy_active r) || phy_emitted r then mret (r, w)
  else
    let o := complete (phy_observation r) now n (obs_ok (phy_observation r)) in
    w ← finished thread o w;
    mret (mkPhysical o (phy_active r) true, w).

(** [~PhysicalObservationRecorder] *)
Definition physical_destroy (thread now : Z) (r : PhysicalObservationRecorder) (w : world)
    : result (PhysicalObservationRecorder * world) :=
  if negb (phy_active r) || phy_emitted r then mret (r, w)
  else
    let o := complete (phy_observation r) now 0 false in
    w ← finished thread o w;
    mret (mkPhysical o (phy_active r) true, w).

End notification.

(** ** The notification path *)

(** What a notification delivers: one call per registered monitor of the
    observation's kind, in registration order. *)
Definition deliveries (es : list Entry) (phase : Phase) (o : Observation) : list delivery :=
  (fun e => mkDelivery (entry_monitor e) phase o)
    <$> filter (fun e => entry_kind e = obs_kind o) es.

Definition append_deliveries (ds : list delivery) (w : world) : world :=
  mkWorld (monitor_counts w) (monitors w) (next_id w) (t_in_monitor w) (id_counter w)
    (delivered w ++ ds).

(** The counts agree with the registered monitors, which a 32-bit count can
    represent. *)
Definition counts_ok (w : world) : Prop :=
  monitor_counts w = (fun k => count_kind k (monitors w)) <$> seq 0 num_observation_kinds.

Lemma append_deliveries_nil w : append_deliveries [] w = w.
Proof. destruct w. unfold append_deliveries. simpl. by rewrite app_nil_r. Qed.

Lemma append_deliveries_app a b w :
  append_deliveries b (append_deliveries a w) = append_deliveries (a ++ b) w.
Proof. destruct w. unfold append_deliveries. simpl. by rewrite <- app_assoc. Qed.

Lemma monitoring_enabled_spec k w :
  counts_ok w ->
  monitoring_enabled k w = false <-> filter (fun e => entry_kind e = k) (monitors w) = [].
Proof.
  intros Hc. unfold monitoring_enabled. rewrite Hc, negb_false_iff, Z.eqb_eq.
  assert (Hk : forall es : list Entry,
    count_kind (kind_index k) es = Z.of_nat (length (filter (fun e => entry_kind e = k) es))).
  { intros es. unfold count_kind. do 2 f_equal. apply list_filter_iff. intros e.
    split; [|congruence]. by destruct (entry_kind e), k. }
  replace (((fun k0 => count_kind k0 (monitors w)) <$> seq 0 num_observation_kinds)
             !!! kind_index k) with (count_kind (kind_index k) (monitors w))
    by (by destruct k).
  rewrite Hk. rewrite <- length_zero_iff_nil. lia.
Qed.

(** From inside a callback nothing gets through: the calls that change the
    registry throw and an observation is dropped. *)
Lemma perform_in_monitor script depth thread w c :
  in_monitor thread w = true -> perform (notify script depth thread) thread w c = Ok w.
Proof.
  intros Hin. destruct c as [m k|id|ph o]; simpl.
  - unfold add. rewrite Hin. by destruct (m =? 0).
  - unfold remove. by rewrite Hin.
  - destruct depth; simpl; rewrite Hin; by destruct (negb _).
Qed.

Lemma script_in_monitor script depth thread w cs :
  in_monitor thread w = true ->
  foldM (perform (notify script depth thread) thread) w cs = Ok w.
Proof.
  intros Hin. induction cs as [|c cs IH]; [done|]. simpl.
  by rewrite perform_in_monitor.
Qed.

Lemma visit_one script depth thread ph o e w :
  in_monitor thread w = true ->
  visit script (notify script depth thread) thread ph o w e
    = Ok (append_deliveries (deliveries [e] ph o) w).
Proof.
  intros Hin. unfold visit, deliveries. rewrite filter_cons, filter_nil.
  destruct (decide (entry_kind e = obs_kind o)) as [He|He].
  - by rewrite script_in_monitor.
  - by rewrite append_deliveries_nil.
Qed.

Lemma deliveries_cons e es ph o :
  deliveries (e :: es) ph o = deliveries [e] ph o ++ deliveries es ph o.
Proof. unfold deliveries. rewrite <- fmap_app, <- filter_app. done. Qed.

Lemma visit_all script depth thread ph o es w :
  in_monitor thread w = true ->
  foldM (visit script (notify script depth thread) thread ph o) w es
    = Ok (append_deliveries (deliveries es ph o) w).
Proof.
  revert w. induction es as [|e es IH]; intros w Hin.
  - cbn. by rewrite append_deliveries_nil.
  - cbn [foldM]. rewrite visit_one by done. cbn [mbind result_bind].
    rewrite IH by done. by rewrite append_deliveries_app, <- deliveries_cons.
Qed.

(** Notifying delivers the observation once to each monitor of its kind, and
    changes nothing else, whatever the monitors call back. *)
Lemma notify_ok script depth thread ph o w :
  counts_ok w -> in_monitor thread w = false ->
  notify script (S depth) thread ph o w
    = Ok (append_deliveries (deliveries (monitors w) ph o) w).
Proof.
  intros Hc Hin. cbn [notify].
  destruct (monitoring_enabled (obs_kind o) w) eqn:He; simpl.
  - rewrite Hin. rewrite visit_all.
    + simpl. unfold append_deliveries, set_in_monitor. simpl.
      unfold in_monitor in Hin. apply bool_decide_eq_false in Hin.
      replace (({[thread]} ∪ t_in_monitor w) ∖ {[thread]}) with (t_in_monitor w); [done|].
      set_solver.
    + unfold in_monitor. apply bool_decide_eq_true. simpl. set_solver.
  - apply monitoring_enabled_spec in He; [|done]. unfold deliveries. rewrite He. simpl.
    by rewrite append_deliveries_nil.
Qed.

(** ** The registry against its specification

    What the registry promises: a list of subscriptions, and a log of what each
    subscriber was told. *)
Record subscriptions := mkSubs { subs : list Entry; subs_next : Z; subs_log : list delivery }.

Definition no_subscriptions : subscriptions := mkSubs [] 1 [].

Definition subs_step (s : subscriptions) (c : call) : subscriptions :=
  match c with
  | RegisterCall m k =>
      if m =? 0 then s
      else mkSubs (subs s ++ [mkEntry (subs_next s) k m]) (subs_next s + 1) (subs_log s)
  | UnregisterCall id =>
      mkSubs (filter (fun e => entry_id e <> id) (subs s)) (subs_next s) (subs_log s)
  | NotifyCall ph o =>
      mkSubs (subs s) (subs_next s) (subs_log s ++ deliveries (subs s) ph o)
  end.

(** One call from a thread that is outside every callback. *)
Definition top_call (script : Z -> list call) (w : world) (tc : Z * call) : result world :=
  perform (notify script 1 tc.1) tc.1 w tc.2.

Record simulates (s : subscriptions) (w : world) : Prop := mkSim {
  sim_subs : monitors w = subs s;
  sim_log : delivered w = subs_log s;
  sim_next : next_id w = subs_next s;
  sim_quiet : t_in_monitor w = ∅;
  sim_counts : counts_ok w;
  sim_nodup : NoDup (entry_id <$> monitors w);
  sim_ids : Forall (fun e => 1 <= entry_id e < next_id w) (monitors w);
  sim_len : Z.of_nat (length (monitors w)) < next_id w }.

Lemma count_kind_bound k es : 0 <= count_kind k es <= Z.of_nat (length es).
Proof.
  unfold count_kind. pose proof (length_filter (fun e => kind_index (entry_kind e) = k) es). lia.
Qed.

Lemma publish_counts_ok w :
  Z.of_nat (length (monitors w)) < 4294967296 -> counts_ok (publish_count w).
Proof.
  intros Hl. unfold counts_ok, publish_count. simpl.
  repeat (rewrite Z.mod_small by
    (match goal with |- context [count_kind ?k ?es] => pose proof (count_kind_bound k es) end; lia)).
  assert (Hm : forall k, count_kind k (monitors w) mod 4294967296 = count_kind k (monitors w)).
  { intros k. apply Z.mod_small. pose proof (count_kind_bound k (monitors w)). lia. }
  by rewrite ?Hm.
Qed.

Lemma erase_id_none id es :
  id ∉ entry_id <$> es -> erase_id id es = None /\ filter (fun e => entry_id e <> id) es = es.
Proof.
  induction es as [|e es IH]; intros Hn; [done|]. csimpl in Hn.
  apply not_elem_of_cons in Hn as [Hne Hn]. destruct (IH Hn) as [IH1 IH2]. cbn [erase_id].
  destruct (entry_id e =? id) eqn:He; [lia|].
  rewrite IH1, filter_cons_True, IH2 by lia. done.
Qed.

Lemma erase_id_filter id es :
  NoDup (entry_id <$> es) ->
  default es (erase_id id es) = filter (fun e => entry_id e <> id) es.
Proof.
  induction es as [|e es IH]; intros Hnd; [done|]. csimpl in Hnd.
  apply NoDup_cons in Hnd as [Hn Hnd]. cbn [erase_id].
  destruct (entry_id e =? id) eqn:He; bool_to_prop; subst.
  - rewrite filter_cons_False by lia. simpl. symmetry. by apply erase_id_none.
  - rewrite filter_cons_True by lia. rewrite <- IH by done. by destruct (erase_id id es).
Qed.

Lemma filter_sub_props (P : Entry -> Prop) `{!forall e, Decision (P e)} es (Q : Entry -> Prop) :
  NoDup (entry_id <$> es) -> Forall Q es ->
  NoDup (entry_id <$> filter P es) /\ Forall Q (filter P es) /\
  (length (filter P es) <= length es)%nat.
Proof.
  intros Hnd HQ. split; [|split].
  - eapply sublist_NoDup; [exact Hnd|]. apply fmap_sublist, sublist_filter.
  - apply Forall_forall. intros e He. apply list_elem_of_filter in He as [_ He].
    by eapply Forall_forall.
  - apply length_filter.
Qed.

Lemma top_call_sim script s w tc :
  simulates s w -> next_id w < 4294967295 ->
  exists w', top_call script w tc = Ok w' /\ simulates (subs_step s tc.2) w' /\
    next_id w <= next_id w' <= next_id w + 1.
Proof.
  intros [H1 H2 H3 H4 H5 H6 H7 H8] Hb. destruct tc as [t [m k|id|ph o]];
    unfold top_call; cbn [perform fst snd subs_step].
  - unfold add. destruct (m =? 0) eqn:Hm; simpl;
      [exists w; split; [done|]; split; [by constructor|lia]|].
    unfold in_monitor. rewrite H4, bool_decide_eq_false_2 by set_solver. simpl.
    eexists. split; [done|]. pose proof (Zle_0_nat (length (monitors w))).
    rewrite wrap64_small by lia.
    split; [|simpl; lia]. constructor; simpl; try congruence.
    + apply publish_counts_ok. simpl. rewrite length_app. simpl. lia.
    + rewrite fmap_app. apply NoDup_app. split; [done|]. split; [|apply NoDup_singleton].
      intros i Hi Hi'. simpl in Hi'. apply list_elem_of_singleton in Hi' as ->.
      apply list_elem_of_fmap in Hi as (e & He & Hin).
      eapply Forall_forall in H7; [|done]. simpl in H7. lia.
    + apply Forall_app. split; [|repeat constructor; simpl; lia].
      eapply Forall_impl; [exact H7|]. simpl. lia.
    + rewrite length_app. simpl. lia.
  - unfold remove, in_monitor. rewrite H4, bool_decide_eq_false_2 by set_solver. simpl.
    pose proof (erase_id_filter id (monitors w) H6) as He.
    destruct (filter_sub_props (fun e => entry_id e <> id) (monitors w) _ H6 H7) as (Ha & Hb' & Hc).
    destruct (erase_id id (monitors w)) as [es|]; simpl in He.
    + eexists. split; [done|]. split; [|simpl; lia]. subst es.
      constructor; simpl; try congruence; try lia; try done.
      apply publish_counts_ok. simpl. lia.
    + exists w. split; [done|]. split; [|lia]. constructor; simpl; try congruence; done.
  - rewrite notify_ok; [|done|unfold in_monitor; rewrite H4; apply bool_decide_eq_false_2; set_solver].
    eexists. split; [done|]. split; [|simpl; lia]. constructor; simpl; try congruence; done.
Qed.

(** C34. The registry does what its interface says, for every sequence of calls
    from any threads and whatever the monitors call back: the registered
    monitors are those subscribed and not yet unsubscribed, each observation
    is delivered exactly once to each monitor subscribed to its kind at that
    moment, and nothing hangs or is left marked as inside a callback. *)
Theorem registry_refines (script : Z -> list call) (calls : list (Z * call)) :
  Z.of_nat (length calls) < 4294967295 ->
  exists w, foldM (top_call script) initial_world calls = Ok w /\
    monitors w = subs (foldl subs_step no_subscriptions calls.*2) /\
    delivered w = subs_log (foldl subs_step no_subscriptions calls.*2) /\
    t_in_monitor w = ∅.
Proof.
  intros Hlen.
  assert (Hgen : forall calls s w,
    simulates s w -> next_id w + Z.of_nat (length calls) <= 4294967295 ->
    exists w', foldM (top_call script) w calls = Ok w' /\
      simulates (foldl subs_step s calls.*2) w').
  { clear. induction calls as [|c calls IH]; intros s w Hs Hb; [by exists w|].
    cbn [length] in Hb.
    destruct (top_call_sim script s w c Hs) as (w' & Hw' & Hs' & Hn); [lia|].
    cbn [foldM]. rewrite Hw'. apply IH; [done|lia]. }
  destruct (Hgen calls no_subscriptions initial_world) as (w & Hw & Hs).
  - constructor; simpl; try done; constructor.
  - simpl. lia.
  - exists w. destruct Hs. auto.
Qed.

#[global] Arguments started : simpl never.
#[global] Arguments finished : simpl never.

Example registry_refines_witness :
  Z.of_nat 3 < 4294967295 /\
  exists w, foldM (top_call (fun _ => [UnregisterCall 1; NotifyCall Start default_observation]))
              initial_world
              [(7, RegisterCall 100 LOGICAL); (7, RegisterCall 200 PHYSICAL);
               (8, NotifyCall Finish default_observation)] = Ok w /\
    monitors w = [mkEntry 1 LOGICAL 100; mkEntry 2 PHYSICAL 200] /\
    delivered w = [mkDelivery 100 Finish default_observation] /\ t_in_monitor w = ∅.
Proof.
  split; [lia|].
  apply (registry_refines (fun _ => [UnregisterCall 1; NotifyCall Start default_observation])
           [(7, RegisterCall 100 LOGICAL); (7, RegisterCall 200 PHYSICAL);
            (8, NotifyCall Finish default_observation)]).
  simpl. lia.
Defined.

(** ** The recorders emit once *)

(** What may happen to a shared recorder, and around it, before it dies. *)
Inductive recorder_action :=
  | RFinish (thread now n : Z)
  | RFail (thread now : Z)
  | ROther (tc : Z * call).

Definition recorder_step (script : Z -> list call)
    (s : LogicalObservationRecorder * world) (a : recorder_action)
    : result (LogicalObservationRecorder * world) :=
  match a with
  | RFinish thread now n => logical_finish script thread now n s.1 s.2
  | RFail thread now => logical_finish_with_failure script thread now s.1 s.2
  | ROther tc => w ← top_call script s.2 tc; mret (s.1, w)
  end.

(** The finish that must be delivered: that of the first completion, or the
    destructor's failure. *)
Fixpoint the_finish (o : Observation) (dead : Z) (s : subscriptions)
    (actions : list recorder_action) : list delivery :=
  match actions with
  | [] => deliveries (subs s) Finish (complete o dead 0 false)
  | RFinish _ now n :: _ => deliveries (subs s) Finish (complete o now n (obs_ok o))
  | RFail _ now :: _ => deliveries (subs s) Finish (complete o now 0 false)
  | ROther tc :: rest => the_finish o dead (subs_step s tc.2) rest
  end.

Definition is_finish_of (id : Z) (d : delivery) : bool :=
  bool_decide (in_phase d = Finish) && (obs_id (seen d) =? id).

Definition finishes (id : Z) (w : world) : list delivery :=
  filter (fun d => is_finish_of id d) (delivered w).

Definition foreign (id : Z) (a : recorder_action) : Prop :=
  match a with ROther (_, NotifyCall _ o) => obs_id o <> id | _ => True end.

Lemma simulates_quiet s w thread : simulates s w -> in_monitor thread w = false.
Proof.
  intros Hs. unfold in_monitor. rewrite (sim_quiet _ _ Hs).
  apply bool_decide_eq_false_2. set_solver.
Qed.

(** A notification is a step of the specification. *)
Lemma notify_sim script s w thread ph o :
  simulates s w ->
  notify script 1 thread ph o w = Ok (append_deliveries (deliveries (monitors w) ph o) w) /\
  simulates (subs_step s (NotifyCall ph o)) (append_deliveries (deliveries (monitors w) ph o) w).
Proof.
  intros Hs. split.
  - apply notify_ok; [apply Hs | by eapply simulates_quiet].
  - destruct Hs as [H1 H2 H3 H4 H5 H6 H7 H8]. constructor; simpl; try congruence; done.
Qed.

Lemma filter_deliveries_own (o : Observation) es ph :
  filter (fun d => is_finish_of (obs_id o) d) (deliveries es ph o)
    = match ph with Finish => deliveries es ph o | Start => [] end.
Proof.
  unfold deliveries.
  induction (filter (fun e => entry_kind e = obs_kind o) es) as [|e l IH]; [by destruct ph|].
  csimpl. rewrite filter_cons, IH. unfold is_finish_of. simpl. rewrite Z.eqb_refl.
  by destruct ph.
Qed.

Lemma filter_deliveries_foreign (o : Observation) id es ph :
  obs_id o <> id -> filter (fun d => is_finish_of id d) (deliveries es ph o) = [].
Proof.
  intros Hne. unfold deliveries.
  induction (filter (fun e => entry_kind e = obs_kind o) es) as [|e l IH]; [done|].
  csimpl. rewrite filter_cons, IH. unfold is_finish_of. simpl.
  destruct (obs_id o =? id) eqn:He; [lia|]. by rewrite andb_false_r.
Qed.

Lemma finishes_append id ds w :
  finishes id (append_deliveries ds w)
    = finishes id w ++ filter (fun d => is_finish_of id d) ds.
Proof. unfold finishes. simpl. by rewrite filter_app. Qed.

(** The completion of an unfinished recorder, whichever way it is reached. *)
Lemma finish_sim script s w thread (o : Observation) :
  simulates s w -> exists w', finished script thread o w = Ok w' /\
    simulates (subs_step s (NotifyCall Finish o)) w' /\
    next_id w' = next_id w /\
    finishes (obs_id o) w' = finishes (obs_id o) w ++ deliveries (subs s) Finish o.
Proof.
  intros Hs. destruct (notify_sim script s w thread Finish o Hs) as [Hn Hs'].
  eexists. split; [exact Hn|]. split; [exact Hs'|]. split; [done|].
  rewrite finishes_append, filter_deliveries_own, (sim_subs _ _ Hs). done.
Qed.

Lemma top_call_foreign script s w tc id w' :
  simulates s w -> foreign id (ROther tc) -> top_call script w tc = Ok w' ->
  finishes id w' = finishes id w.
Proof.
  intros Hs Hf Hc. unfold finishes. destruct tc as [t [m k|i|ph o]];
    unfold top_call in Hc; cbn [perform fst snd] in Hc.
  - unfold add in Hc. destruct (m =? 0), (in_monitor t w); simpl in Hc; by injection Hc as <-.
  - unfold remove in Hc. destruct (in_monitor t w); simpl in Hc; [by injection Hc as <-|].
    injection Hc as <-. by destruct (erase_id i (monitors w)).
  - destruct (notify_sim script s w t ph o Hs) as [Hn _]. rewrite Hn in Hc.
    injection Hc as <-. simpl in Hf |- *.
    by rewrite filter_app, filter_deliveries_foreign, app_nil_r.
Qed.

(** A recorder that has emitted, or was never active, is inert. *)
Lemma recorder_inert script o act w a :
  match a with ROther _ => False | _ => True end ->
  recorder_step script (mkLogical o act true, w) a = Ok (mkLogical o act true, w).
Proof. by destruct a, act. Qed.

Lemma recorder_after script s o id actions w :
  simulates s w -> Forall (foreign id) actions ->
  next_id w + Z.of_nat (length actions) <= 4294967295 ->
  exists w', foldM (recorder_step script) (mkLogical o true true, w) actions
               = Ok (mkLogical o true true, w') /\ finishes id w' = finishes id w.
Proof.
  revert s w. induction actions as [|a actions IH]; intros s w Hs Hf Hb; [by exists w|].
  apply Forall_cons in Hf as [Hfa Hf]. cbn [length foldM] in *.
  destruct a as [| |tc]; try (rewrite recorder_inert by done; apply (IH s); [done|done|lia]).
  cbn [recorder_step fst snd].
  destruct (top_call_sim script s w tc Hs) as (w1 & Hw1 & Hs1 & Hn1); [lia|]. rewrite Hw1.
  destruct (IH _ w1 Hs1 Hf) as (w' & Hw' & Hfin); [lia|].
  exists w'. split; [exact Hw'|]. rewrite Hfin. by eapply top_call_foreign.
Qed.

(** C35. Every operation that reports a start reports exactly one finish:
    whatever sequence of completions, failures and unrelated registry traffic
    a recorder sees before it is destroyed, each monitor subscribed at the
    moment of the first completion gets one finish, carrying that
    completion's outcome, and no monitor ever gets another. *)
Theorem recorder_exactly_one_finish (script : Z -> list call) (s : subscriptions) (w : world)
    (o : Observation) (actions : list recorder_action) (thread dead : Z) :
  simulates s w -> Forall (foreign (obs_id o)) actions ->
  next_id w + Z.of_nat (length actions) <= 4294967295 ->
  exists r' w',
    (foldM (recorder_step script) (mkLogical o true false, w) actions
       ≫= fun s => logical_destroy script thread dead s.1 s.2) = Ok (r', w') /\
    log_emitted r' = true /\
    finishes (obs_id o) w' = finishes (obs_id o) w ++ the_finish o dead s actions.
Proof.
  revert s w. induction actions as [|a actions IH]; intros s w Hs Hf Hb.
  - destruct (finish_sim script s w thread (complete o dead 0 false) Hs)
      as (w' & Hw' & _ & _ & Hfin).
    unfold logical_destroy, logical_finish_with_failure. simpl. rewrite Hw'. by eexists _, _.
  - apply Forall_cons in Hf as [Hfa Hf]. cbn [length] in Hb.
    assert (Hone : forall t now n ok,
      exists w1, finished script t (complete o now n ok) w = Ok w1 /\
      exists r' w', (foldM (recorder_step script)
          (mkLogical (complete o now n ok) true true, w1) actions
          ≫= fun s => logical_destroy script thread dead s.1 s.2) = Ok (r', w') /\
        log_emitted r' = true /\
        finishes (obs_id o) w' = finishes (obs_id o) w
          ++ deliveries (subs s) Finish (complete o now n ok)).
    { intros t now n ok.
      destruct (finish_sim script s w t (complete o now n ok) Hs) as (w1 & Hw1 & Hs1 & Hn1 & Hfin).
      exists w1. split; [done|].
      destruct (recorder_after script _ (complete o now n ok) (obs_id o) actions w1 Hs1 Hf)
        as (w' & Hw' & Hfin'); [lia|].
      rewrite Hw'. exists (mkLogical (complete o now n ok) true true), w'.
      split; [done|]. split; [done|]. change (obs_id (complete o now n ok)) with (obs_id o) in Hfin.
      by rewrite Hfin', Hfin. }
    destruct a as [t now n|t now|tc]; cbn [foldM recorder_step the_finish fst snd].
    + destruct (Hone t now n (obs_ok o)) as (w1 & Hw1 & Hrest).
      unfold logical_finish. simpl. rewrite Hw1. exact Hrest.
    + destruct (Hone t now 0 false) as (w1 & Hw1 & Hrest).
      unfold logical_finish_with_failure. simpl. rewrite Hw1. exact Hrest.
    + destruct (top_call_sim script s w tc Hs) as (w1 & Hw1 & Hs1 & Hn1); [lia|].
      rewrite Hw1. simpl. destruct (IH _ w1 Hs1 Hf) as (r' & w' & Hr & He & Hfin); [lia|].
      exists r', w'. split; [exact Hr|]. split; [done|]. rewrite Hfin.
      f_equal. by eapply top_call_foreign.
Qed.

(** A registry with one monitor of each kind. *)
Definition two_monitors : world :=
  mkWorld [1; 1] [mkEntry 1 LOGICAL 100; mkEntry 2 PHYSICAL 200] 3 ∅ 1 [].

Definition two_subscriptions : subscriptions :=
  mkSubs [mkEntry 1 LOGICAL 100; mkEntry 2 PHYSICAL 200] 3 [].

Lemma two_monitors_sim : simulates two_subscriptions two_monitors.
Proof.
  constructor; try done; simpl.
  - repeat constructor; set_solver.
  - repeat constructor; simpl; lia.
Qed.

Example recorder_exactly_one_finish_witness :
  let o := default_observation in
  let actions := [ROther (9, RegisterCall 300 LOGICAL); RFinish 8 50 4096; RFail 8 60] in
  simulates two_subscriptions two_monitors /\ Forall (foreign (obs_id o)) actions /\
  next_id two_monitors + Z.of_nat (length actions) <= 4294967295 /\
  exists r' w',
    (foldM (recorder_step (fun _ => [])) (mkLogical o true false, two_monitors) actions
       ≫= fun s => logical_destroy (fun _ => []) 8 70 s.1 s.2) = Ok (r', w') /\
    log_emitted r' = true /\
    finishes (obs_id o) w' = finishes (obs_id o) two_monitors
      ++ the_finish o 70 two_subscriptions actions.
Proof.
  cbv zeta. split; [exact two_monitors_sim|]. split; [repeat constructor|].
  split; [simpl; lia|].
  apply (recorder_exactly_one_finish (fun _ => []) two_subscriptions two_monitors
           default_observation
           [ROther (9, RegisterCall 300 LOGICAL); RFinish 8 50 4096; RFail 8 60] 8 70
           two_monitors_sim).
  - repeat constructor.
  - simpl. lia.
Defined.

(** The life of a physical recorder: one thread makes it, may complete it, and
    destroys it. *)
Definition physical_life (script : Z -> list call) (thread : Z) (now dead : Z)
    (c : PhysicalObservationContext) (offset size : Z) (completions : list (Z * Z)) (w : world)
    : result (PhysicalObservationRecorder * world) :=
  '(r, w) ← physical_new script thread now c offset size w;
  '(r, w) ← foldM (fun s tn => physical_finish script thread tn.1 tn.2 s.1 s.2)
              (r, w) completions;
  physical_destroy script thread dead r w.

Lemma physical_inert script thread o act cs w :
  foldM (fun s tn => physical_finish script thread tn.1 tn.2 s.1 s.2)
    (mkPhysical o act true, w) cs = Ok (mkPhysical o act true, w).
Proof.
  induction cs as [|c cs IH]; [done|]. cbn [foldM].
  replace (physical_finish script thread c.1 c.2 (mkPhysical o act true, w).1
             (mkPhysical o act true, w).2) with (Ok (mkPhysical o act true, w)) by (by destruct act).
  exact IH.
Qed.

Lemma physical_finish_fresh script thread t n o w w' :
  finished script thread (complete o t n (obs_ok o)) w = Ok w' ->
  physical_finish script thread t n (mkPhysical o true false) w
    = Ok (mkPhysical (complete o t n (obs_ok o)) true true, w').
Proof. intros H. unfold physical_finish. simpl. by rewrite H. Qed.

Definition bump_id (w : world) : world := (next_observation_id w).2.

Lemma bump_id_sim s w : simulates s w -> simulates s (bump_id w).
Proof. intros []. by constructor. Qed.

(** A physical recorder with a subscriber brackets its transfer: its
    monitors see one start and then one finish under the same fresh id, the
    finish being that of the first completion or, without one, a failure that
    moved nothing; with no subscriber it touches nothing. *)
Theorem physical_recorder_brackets (script : Z -> list call) (s : subscriptions) (w : world)
    (thread now dead offset size : Z) (c : PhysicalObservationContext)
    (completions : list (Z * Z)) :
  simulates s w ->
  exists r w', physical_life script thread now dead c offset size completions w = Ok (r, w') /\
    if monitoring_enabled PHYSICAL w then
      exists o, obs_id o = id_counter w /\ obs_ok o = true /\ bytes_transferred o = 0 /\
        id_counter w' = id_counter w +% 1 /\
        delivered w' = delivered w ++ deliveries (monitors w) Start o ++
          deliveries (monitors w) Finish
            match completions with
            | [] => complete o dead 0 false
            | (t, n) :: _ => complete o t n true
            end
    else w' = w.
Proof.
  intros Hs. unfold physical_life, physical_new.
  destruct (monitoring_enabled PHYSICAL w) eqn:He; cbn [negb].
  - cbn [next_observation_id].
    set (o := mkObservation _ _ _ _ _ _ _ _ _ _ _ _ _ _).
    pose proof (bump_id_sim s w Hs) as Hs0. unfold bump_id, next_observation_id in Hs0.
    cbn [snd] in Hs0. set (w0 := mkWorld _ _ _ _ _ _) in *.
    destruct (notify_sim script s w0 thread Start o Hs0) as [Hn1 Hs1].
    unfold started. rewrite Hn1. cbn [mbind result_bind mret result_ret].
    set (w1 := append_deliveries _ w0) in *.
    destruct completions as [|[t n] cs]; cbn [foldM].
    + cbn [mbind result_bind mret result_ret]. unfold physical_destroy. cbn [phy_active phy_emitted
        phy_observation negb orb].
      destruct (notify_sim script _ w1 thread Finish (complete o dead 0 false) Hs1) as [Hn2 _].
      unfold finished. rewrite Hn2. eexists _, _. split; [done|].
      exists o. split; [done|]. split; [done|]. split; [done|]. split; [done|].
      simpl. by rewrite <- app_assoc.
    + destruct (notify_sim script _ w1 thread Finish (complete o t n (obs_ok o)) Hs1) as [Hn2 _].
      cbn [fst snd]. rewrite (physical_finish_fresh _ _ _ _ _ _ _ Hn2).
      cbn [mbind result_bind mret result_ret].
      rewrite physical_inert. cbn [mbind result_bind mret result_ret].
      unfold physical_destroy. cbn [phy_active phy_emitted negb orb].
      eexists _, _. split; [done|].
      exists o. split; [done|]. split; [done|]. split; [done|]. split; [done|].
      simpl. by rewrite <- app_assoc.
  - cbn [mbind result_bind mret result_ret]. eexists _, w. split; [|done].
    assert (Hin : forall cs, foldM (fun s tn => physical_finish script thread tn.1 tn.2 s.1 s.2)
       (mkPhysical default_observation false false, w) cs
       = Ok (mkPhysical default_observation false false, w)) by (induction cs; done).
    rewrite Hin. done.
Qed.

Example physical_recorder_brackets_witness :
  simulates two_subscriptions two_monitors /\
  exists r w', physical_life (fun _ => []) 1 10 30 (mkContext POSIX READ HOST None "f" None)
                 0 4096 [(20, 4096)] two_monitors = Ok (r, w') /\
    if monitoring_enabled PHYSICAL two_monitors then
      exists o, obs_id o = id_counter two_monitors /\ obs_ok o = true /\
        bytes_transferred o = 0 /\ id_counter w' = id_counter two_monitors +% 1 /\
        delivered w' = delivered two_monitors ++ deliveries (monitors two_monitors) Start o ++
          deliveries (monitors two_monitors) Finish (complete o 20 4096 true)
    else w' = two_monitors.
Proof.
  split; [exact two_monitors_sim|].
  apply (physical_recorder_brackets (fun _ => []) two_subscriptions two_monitors 1 10 30 0 4096
           (mkContext POSIX READ HOST None "f" None) [(20, 4096)] two_monitors_sim).
Defined.

(** ** Recorders in a quiet world *)

(** Between calls: some history of the registry has led here. *)
Definition quiet (w : world) : Prop := exists s, simulates s w.

Lemma quiet_monitor w thread : quiet w -> in_monitor thread w = false.
Proof. intros [s Hs]. by eapply simulates_quiet. Qed.

Lemma notify_quiet script w thread ph o :
  quiet w -> exists w', notify script 1 thread ph o w = Ok w' /\ quiet w'.
Proof.
  intros [s Hs]. destruct (notify_sim script s w thread ph o Hs) as [Hn Hs']. rewrite Hn.
  eexists. split; [done|]. by eexists.
Qed.

Lemma bump_id_quiet w : quiet w -> quiet (bump_id w).
Proof. intros [s Hs]. exists s. by apply bump_id_sim. Qed.

(** A recorder never fails, and leaves the world quiet. *)
Ltac quiet_step :=
  match goal with
  | Hq : quiet ?w |- context [notify ?script 1 ?thread ?ph ?o ?w] =>
      destruct (notify_quiet script w thread ph o Hq) as (? & -> & ?)
  end; cbn [mbind result_bind mret result_ret]; by eexists _, _.

Lemma logical_new_quiet script thread now b dir k off size src m w :
  quiet w -> exists r w', logical_new script thread now b dir k off size src m w = Ok (r, w') /\ quiet w'.
Proof.
  intros Hq. unfold logical_new, started. destruct (monitoring_enabled _ w); [|by eexists _, _].
  pose proof (bump_id_quiet w Hq) as Hb. unfold bump_id in Hb.
  destruct (next_observation_id w) as [id w0]. cbn [snd] in Hb. clear Hq. quiet_step.
Qed.

Lemma physical_new_quiet script thread now c off size w :
  quiet w -> exists r w', physical_new script thread now c off size w = Ok (r, w') /\ quiet w'.
Proof.
  intros Hq. unfold physical_new, started. destruct (negb _); [by eexists _, _|].
  pose proof (bump_id_quiet w Hq) as Hb. unfold bump_id in Hb.
  destruct (next_observation_id w) as [id w0]. cbn [snd] in Hb. clear Hq. quiet_step.
Qed.

Lemma logical_finish_quiet script thread now n r w :
  quiet w -> exists r' w', logical_finish script thread now n r w = Ok (r', w') /\ quiet w'.
Proof.
  intros Hq. unfold logical_finish, finished. destruct (negb _); [by eexists _, _|].
  destruct (log_emitted r); [by eexists _, _|]. quiet_step.
Qed.

Lemma physical_finish_quiet script thread now n r w :
  quiet w -> exists r' w', physical_finish script thread now n r w = Ok (r', w') /\ quiet w'.
Proof.
  intros Hq. unfold physical_finish, finished. destruct (_ || _); [by eexists _, _|]. quiet_step.
Qed.

Lemma initial_quiet : quiet initial_world.
Proof. exists no_subscriptions. constructor; simpl; try done; constructor. Qed.
