(* ===== verification/ParallelIo.v ===== *)
(** * Parallel I/O

    [include/kvikio/detail/parallel_operation.hpp]: [parallel_io] cuts one
    operation into tasks and submits them to a thread pool; the last task also
    waits for the others and completes the operation.

    The submission is a function, with the offsets and sizes as words.  The
    execution is a step relation: the pool runs the submitted tasks in any
    order and the last task reads the futures of the others one by one,
    blocking on each.  An outcome of [op] is the number of bytes it returned or
    the exception it threw. *)

From stdpp Require Import base list strings gmap.
From Stdlib Require Import ZArith Lia Relations Bool.
From S2P Require Import Prelude Observation.

#[local] Open Scope Z_scope.

(** ** Submission *)

(** The arguments [op] is called with, besides the buffer. *)
Record IoTask := mkTask {
  tk_size : Z;
  tk_file_offset : Z;
  tk_devPtr_offset : Z }.

#[global] Instance io_task_inhabited : Inhabited IoTask := populate (mkTask 0 0 0).

Record TaskOptions := mkTaskOptions {
  to_thread_pool : Z;
  nvtx_payload : Z;
  to_nvtx_color : Z }.

Record ParallelIoOptions := mkParallelIoOptions {
  pio_thread_pool : Z;          (* 0 for nullptr *)
  call_idx : Z;
  pio_nvtx_color : Z;
  first_task_size : option Z;
  recorder : bool }.            (* whether there is one *)

Definition to_task_options (opts : ParallelIoOptions) : TaskOptions :=
  mkTaskOptions (pio_thread_pool opts) (call_idx opts) (pio_nvtx_color opts).

(** [get_next_color_and_call_idx] with [NvtxManager::get_color_by_index]: the
    index into the palette of 16, the call index, the counter afterwards. *)
Definition get_color_by_index (idx : Z) : Z := Z.land idx (16 -% 1).

Definition get_next_color_and_call_idx (call_counter : Z) : (Z * Z) * Z :=
  ((get_color_by_index call_counter, call_counter), call_counter +% 1).

(** [submit_task], as far as the submitting thread sees it. *)
Definition submit_task (w : world) (thread : Z) (t : IoTask) : result IoTask :=
  _ ← expect_not_in_monitor thread w;
  mret t.

(** [submit_move_only_task]: the same checks; the callable takes no argument,
    it has captured [t]. *)
Definition submit_move_only_task (w : world) (thread : Z) (t : IoTask) : result IoTask :=
  _ ← expect_not_in_monitor thread w;
  mret t.

Lemma submit_task_ok w thread t : in_monitor thread w = false -> submit_task w thread t = Ok t.
Proof. intros Hm. unfold submit_task, expect_not_in_monitor. by rewrite Hm. Qed.

(** What was submitted: one task that is the whole operation, or some tasks
    and a last one that also collects the futures of the others. *)
Inductive submission :=
  | SingleTask (t : IoTask)
  | SplitTasks (tasks : list IoTask) (last : IoTask).

Definition split_cond (task_size : Z) (s : list IoTask * IoTask) : bool :=
  tk_size s.2 >? task_size.

(** One round of the loop that submits the middle tasks; [rest] is the part of
    the operation that has not been submitted. *)
Definition split_body (w : world) (thread task_size : Z) (s : list IoTask * IoTask)
    : result (list IoTask * IoTask) :=
  let '(tasks, rest) := s in
  t ← submit_task w thread (mkTask task_size (tk_file_offset rest) (tk_devPtr_offset rest));
  mret (tasks ++ [t],
        mkTask (tk_size rest -% task_size) (tk_file_offset rest +% task_size)
               (tk_devPtr_offset rest +% task_size)).

Definition parallel_io_fuel (size task_size : Z) : nat := Z.to_nat (size / task_size).

Definition parallel_io (w : world) (thread page_size : Z)
    (size file_offset task_size devPtr_offset : Z) (opts : ParallelIoOptions)
    : result submission :=
  _ ← expect (task_size >? 0) (InvalidArgument "`task_size` must be positive");
  _ ← expect (negb (pio_thread_pool opts =? 0))
        (CUfileException "The thread pool must not be nullptr");
  if (task_size >=? size) || (page_size >=? size) then
    t ← submit_task w thread (mkTask size file_offset devPtr_offset);
    mret (SingleTask t)
  else
    let actual_first_task_size := default task_size (first_task_size opts) in
    let cur_size := Z.min actual_first_task_size size in
    first ← submit_task w thread (mkTask cur_size file_offset devPtr_offset);
    let rest := mkTask (size -% cur_size) (file_offset +% cur_size)
                  (devPtr_offset +% cur_size) in
    '(tasks, rest) ← while_loop (parallel_io_fuel size task_size) (split_cond task_size)
                       (split_body w thread task_size) ([first], rest);
    last ← submit_move_only_task w thread rest;
    mret (SplitTasks tasks last).

(** Every task of a submission, in submission order. *)
Definition all_tasks (s : submission) : list IoTask :=
  match s with SingleTask t => [t] | SplitTasks ts t => ts ++ [t] end.

(** [ts] covers [[off, off + n)] of the file from left to right without gap or
    overlap, the device offsets keeping step. *)
Fixpoint tiles (off dev n : Z) (ts : list IoTask) : Prop :=
  match ts with
  | [] => n = 0
  | t :: ts' =>
      tk_file_offset t = off /\ tk_devPtr_offset t = dev /\ 0 <= tk_size t <= n /\
      tiles (off + tk_size t) (dev + tk_size t) (n - tk_size t) ts'
  end.

Lemma tiles_snoc off dev n ts t :
  tiles off dev (n - tk_size t) ts -> 0 <= tk_size t ->
  tk_file_offset t = off + (n - tk_size t) -> tk_devPtr_offset t = dev + (n - tk_size t) ->
  tiles off dev n (ts ++ [t]).
Proof.
  revert off dev n. induction ts as [|u ts IH]; intros off dev n Ht Hs Ho Hd; simpl in *.
  - repeat split; lia.
  - destruct Ht as (H1 & H2 & H3 & H4). split; [done|]. split; [done|]. split; [lia|].
    apply IH; [|done|lia|lia].
    by replace (n - tk_size u - tk_size t) with (n - tk_size t - tk_size u) by lia.
Qed.

Lemma tiles_sum off dev n ts : tiles off dev n ts -> sumZ (tk_size <$> ts) = n.
Proof.
  revert off dev n. induction ts as [|t ts IH]; intros off dev n; csimpl; [done|].
  intros (_ & _ & _ & H). apply IH in H. lia.
Qed.

(** The task's part of the destination. *)
Definition covers (t : IoTask) (a : Z) : Prop :=
  tk_devPtr_offset t <= a < tk_devPtr_offset t + tk_size t.

#[export] Instance covers_dec t a : Decision (covers t a).
Proof. unfold covers. apply _. Defined.

Lemma tiles_cover off dev n ts a :
  tiles off dev n ts -> (Exists (fun t => covers t a) ts <-> dev <= a < dev + n).
Proof.
  revert off dev n. induction ts as [|t ts IH]; intros off dev n; simpl.
  - intros ->. split; [by intros []%Exists_nil|lia].
  - intros (Ho & Hd & Hn & Ht). rewrite Exists_cons, (IH _ _ _ Ht). unfold covers. lia.
Qed.

Lemma tiles_in_step off dev n ts t :
  tiles off dev n ts -> t ∈ ts -> tk_devPtr_offset t - dev = tk_file_offset t - off.
Proof.
  revert off dev n. induction ts as [|u ts IH]; intros off dev n; simpl.
  - intros _ Ht. by apply not_elem_of_nil in Ht.
  - intros (Ho & Hd & Hn & Hts) [->|Ht]%elem_of_cons; [lia|]. specialize (IH _ _ _ Hts Ht). lia.
Qed.

Lemma tiles_within off dev n ts t :
  tiles off dev n ts -> t ∈ ts ->
  0 <= tk_size t /\ dev <= tk_devPtr_offset t /\ tk_devPtr_offset t + tk_size t <= dev + n.
Proof.
  revert off dev n. induction ts as [|u ts IH]; intros off dev n; simpl.
  - intros _ Ht. by apply not_elem_of_nil in Ht.
  - intros (Ho & Hd & Hn & Hts) [->|Ht]%elem_of_cons; [lia|]. specialize (IH _ _ _ Hts Ht). lia.
Qed.

(** The state of the submission loop. *)
Definition split_inv (size file_offset devPtr_offset task_size first_size : Z)
    (s : list IoTask * IoTask) : Prop :=
  let '(tasks, rest) := s in
  tiles file_offset devPtr_offset (size - tk_size rest) tasks /\
  0 <= tk_size rest <= size - first_size /\
  (0 < size - first_size -> 0 < tk_size rest) /\
  tk_file_offset rest = file_offset + (size - tk_size rest) /\
  tk_devPtr_offset rest = devPtr_offset + (size - tk_size rest) /\
  (exists first middle, tasks = first :: middle /\ tk_size first = first_size /\
     Forall (fun t => tk_size t = task_size) middle).

Lemma split_body_inv w thread size off dev ts fs s :
  in_monitor thread w = false -> 0 < ts -> 0 <= fs <= size ->
  0 <= off -> 0 <= dev -> off + size < SIZE_MOD -> dev + size < SIZE_MOD ->
  split_inv size off dev ts fs s -> split_cond ts s = true ->
  returns (split_body w thread ts s)
    (fun s' => split_inv size off dev ts fs s' /\ tk_size s'.2 = tk_size s.2 - ts)
    (fun _ => False).
Proof.
  intros Hm Hts Hfs Ho Hd Hov Hdv Hinv Hc. destruct s as [tasks rest].
  destruct Hinv as (Ht & Hr & Hp & Hfo & Hdo & first & middle & -> & Hf & Hmid).
  unfold split_cond in Hc. simpl in Hc. bool_to_prop.
  unfold split_body. rewrite submit_task_ok by done. simpl.
  rewrite !wrap64_small by lia. split; [|done].
  split.
  { apply (tiles_snoc _ _ _ (first :: middle)); simpl; try lia.
    by replace (size - (tk_size rest - ts) - ts) with (size - tk_size rest) by lia. }
  split; [lia|]. split; [lia|]. split; [lia|]. split; [lia|].
  exists first, (middle ++ [mkTask ts (tk_file_offset rest) (tk_devPtr_offset rest)]).
  split; [done|]. split; [done|]. apply Forall_app. split; [done|]. by constructor.
Qed.

Lemma parallel_loop w thread size off dev ts fs s fuel :
  in_monitor thread w = false -> 0 < ts -> 0 <= fs <= size ->
  0 <= off -> 0 <= dev -> off + size < SIZE_MOD -> dev + size < SIZE_MOD ->
  split_inv size off dev ts fs s -> (Z.to_nat (size / ts) <= fuel)%nat ->
  returns (while_loop fuel (split_cond ts) (split_body w thread ts) s)
    (fun s' => split_inv size off dev ts fs s' /\ split_cond ts s' = false)
    (fun _ => False).
Proof.
  intros Hm Hts Hfs Ho Hd Hov Hdv Hinv Hfuel.
  assert (Hle : tk_size s.2 / ts <= size / ts).
  { apply Z.div_le_mono; [lia|]. destruct s as [tasks rest].
    destruct Hinv as (_ & ? & _). simpl. lia. }
  assert (Hge : 0 <= tk_size s.2 / ts).
  { apply Z.div_pos; [|lia]. destruct s as [tasks rest]. destruct Hinv as (_ & ? & _). simpl. lia. }
  apply (while_rule (split_inv size off dev ts fs) (fun s => tk_size s.2 / ts)
           (fun _ => False)); [|done|lia].
  intros s' Hs' Hc. pose proof (split_body_inv w thread size off dev ts fs s' Hm Hts Hfs
    Ho Hd Hov Hdv Hs' Hc) as Hb.
  unfold split_cond in Hc. bool_to_prop.
  assert (1 <= tk_size s'.2 / ts) by (apply Z.div_le_lower_bound; lia).
  split; [lia|]. eapply returns_mono; [exact Hb| |done].
  intros s'' [Hi Hsz]. split; [done|]. rewrite Hsz.
  replace (tk_size s'.2 - ts) with (tk_size s'.2 + (-1) * ts) by lia.
  rewrite Z.div_add by lia. lia.
Qed.

(** The sizes of a split: the first as asked, the middle ones [task_size], the
    last at most [task_size] and positive unless the first took everything. *)
Definition split_sizes (size task_size first_size : Z) (s : submission) : Prop :=
  match s with
  | SingleTask t => tk_size t = size
  | SplitTasks tasks last =>
      exists first middle, tasks = first :: middle /\ tk_size first = first_size /\
        Forall (fun t => tk_size t = task_size) middle /\
        0 <= tk_size last <= task_size /\ (first_size < size -> 0 < tk_size last)
  end.

Lemma parallel_io_splits (w : world) (thread page_size : Z)
    (size file_offset task_size devPtr_offset : Z) (opts : ParallelIoOptions) :
  in_monitor thread w = false -> pio_thread_pool opts <> 0 ->
  0 < task_size -> 0 <= size -> 0 <= file_offset -> 0 <= devPtr_offset ->
  0 <= default task_size (first_task_size opts) ->
  file_offset + size < SIZE_MOD -> devPtr_offset + size < SIZE_MOD ->
  exists s, parallel_io w thread page_size size file_offset task_size devPtr_offset opts = Ok s /\
    tiles file_offset devPtr_offset size (all_tasks s) /\
    split_sizes size task_size (Z.min (default task_size (first_task_size opts)) size) s /\
    ((exists t, s = SingleTask t) <-> size <= task_size \/ size <= page_size).
Proof.
  intros Hm Hpool Hts Hsz Ho Hd Hfs Hov Hdv. unfold parallel_io.
  replace (task_size >? 0) with true by lia.
  destruct (pio_thread_pool opts =? 0) eqn:Hp; [lia|]. simpl.
  destruct ((task_size >=? size) || (page_size >=? size)) eqn:Hg.
  - rewrite submit_task_ok by done. simpl. eexists. split; [done|]. simpl. split; [repeat split; lia|]. split; [done|].
    split; [intros _|by eexists]. apply orb_true_iff in Hg. lia.
  - bool_to_prop. set (fs := Z.min (default task_size (first_task_size opts)) size).
    assert (0 <= fs <= size) by lia. rewrite !wrap64_small by lia.
    pose proof (parallel_loop w thread size file_offset devPtr_offset task_size fs
      ([mkTask fs file_offset devPtr_offset],
       mkTask (size - fs) (file_offset + fs) (devPtr_offset + fs))
      (parallel_io_fuel size task_size) Hm Hts ltac:(lia) Ho Hd Hov Hdv) as Hl.
    apply returns_ok in Hl as ([tasks rest] & Hl & Hinv & Hc).
    + rewrite submit_task_ok by done. simpl. rewrite Hl. simpl.
      change (submit_move_only_task w thread rest) with (submit_task w thread rest).
      rewrite submit_task_ok by done. simpl.
      eexists. split; [done|].
      destruct Hinv as (Ht & Hr & Hpos & Hfo & Hdo & first & middle & -> & Hf & Hmid).
      unfold split_cond in Hc. simpl in Hc. bool_to_prop.
      split; [|split].
      * simpl all_tasks. change (first :: middle ++ [rest]) with ((first :: middle) ++ [rest]).
        apply tiles_snoc; [done|lia|lia|lia].
      * simpl. exists first, middle. repeat split; try done; lia.
      * split; [intros [t Hd']; discriminate|lia].
    + simpl. replace (size - (size - fs)) with fs by lia.
      repeat split; simpl; try lia. by eexists _, [].
    + done.
Qed.

(** C2. [parallel_io] terminates and its tasks partition the operation: they
    cover [[file_offset, file_offset + size)] from left to right with neither
    gap nor overlap, device offsets in step, and every task after the first
    but the last moves exactly [task_size] bytes, the last at most that. *)
Theorem parallel_io_partitions (w : world) (thread page_size : Z)
    (size file_offset task_size devPtr_offset : Z) (opts : ParallelIoOptions) :
  in_monitor thread w = false -> pio_thread_pool opts <> 0 ->
  0 < task_size -> 0 <= size -> 0 <= file_offset -> 0 <= devPtr_offset ->
  0 <= default task_size (first_task_size opts) ->
  file_offset + size < SIZE_MOD -> devPtr_offset + size < SIZE_MOD ->
  exists s, parallel_io w thread page_size size file_offset task_size devPtr_offset opts = Ok s /\
    tiles file_offset devPtr_offset size (all_tasks s) /\
    split_sizes size task_size (Z.min (default task_size (first_task_size opts)) size) s /\
    ((exists t, s = SingleTask t) <-> size <= task_size \/ size <= page_size).
Proof. exact (parallel_io_splits w thread page_size size file_offset task_size devPtr_offset opts). Qed.

Example parallel_io_partitions_witness :
  let opts := mkParallelIoOptions 1 0 0 (Some 1000) true in
  in_monitor 1 initial_world = false /\ pio_thread_pool opts <> 0 /\
  exists s, parallel_io initial_world 1 4096 20000 3096 8192 0 opts = Ok s /\
    tiles 3096 0 20000 (all_tasks s) /\ split_sizes 20000 8192 1000 s /\
    ((exists t, s = SingleTask t) <-> 20000 <= 8192 \/ 20000 <= 4096).
Proof.
  cbv zeta. split; [reflexivity|]. split; [done|].
  apply (parallel_io_partitions initial_world 1 4096 20000 3096 8192 0
           (mkParallelIoOptions 1 0 0 (Some 1000) true)); try done; simpl; lia.
Defined.

Example parallel_io_run :
  parallel_io initial_world 1 4096 20000 3096 8192 0 (mkParallelIoOptions 1 0 0 (Some 1000) true)
  = Ok (SplitTasks [mkTask 1000 3096 0; mkTask 8192 4096 1000; mkTask 8192 12288 9192]
          (mkTask 2616 20480 17384)).
Proof. reflexivity. Qed.

(** ** Execution *)

(** What [op] did: an exception, or the bytes it says it moved. *)
Abbreviation outcome := (exn + Z)%type (only parsing).

(** Where the last task is. *)
Inductive phase :=
  | Waiting                      (* not started *)
  | Collecting (k : nat) (ret : Z)   (* about to call [tasks[k].get()] *)
  | Draining (k : nat) (e : exn)     (* in the catch block, at [tasks[k]] *)
  | Settling (r : outcome)       (* the recorder has been told *)
  | Settled (r : outcome).       (* the caller's future is ready *)

Record execution := mkExec {
  ran : list (option outcome);   (* per task, once the pool has run it *)
  valid : list bool;             (* per future, until [get] is called *)
  last_ran : option outcome;     (* what [op] did in the last task *)
  at_phase : phase;
  told : list (option Z) }.      (* [finish(n)] or [finish_with_failure()] *)

Definition submitted (n : nat) : execution :=
  mkExec (replicate n None) (replicate n true) None Waiting [].

Definition tell (rec : bool) (x : option Z) (l : list (option Z)) : list (option Z) :=
  if rec then l ++ [x] else l.

(** The wrapper around [op] when the operation is a single task: what it tells
    the recorder and what its future holds. *)
Definition single_task (rec : bool) (r : outcome) : list (option Z) * outcome :=
  (tell rec match r with inl _ => None | inr n => Some n end [], r).

Inductive exec_step (rec : bool) : execution -> execution -> Prop :=
  | run_task i r s :
      ran s !! i = Some None ->
      exec_step rec s (mkExec (<[i := Some r]> (ran s)) (valid s) (last_ran s) (at_phase s) (told s))
  | last_op n s :
      at_phase s = Waiting ->
      exec_step rec s (mkExec (ran s) (valid s) (Some (inr n)) (Collecting 0 n) (told s))
  | last_op_throws e s :
      at_phase s = Waiting ->
      exec_step rec s (mkExec (ran s) (valid s) (Some (inl e)) (Draining 0 e) (told s))
  | get_ok k ret n s :
      at_phase s = Collecting k ret -> ran s !! k = Some (Some (inr n)) ->
      exec_step rec s (mkExec (ran s) (<[k := false]> (valid s)) (last_ran s)
                         (Collecting (S k) (ret +% n)) (told s))
  | get_throws k ret e s :
      at_phase s = Collecting k ret -> ran s !! k = Some (Some (inl e)) ->
      exec_step rec s (mkExec (ran s) (<[k := false]> (valid s)) (last_ran s)
                         (Draining 0 e) (told s))
  | collected k ret s :
      at_phase s = Collecting k ret -> k = length (ran s) ->
      exec_step rec s (mkExec (ran s) (valid s) (last_ran s) (Settling (inr ret))
                         (tell rec (Some ret) (told s)))
  | drain_skip k e s :
      at_phase s = Draining k e -> valid s !! k = Some false ->
      exec_step rec s (mkExec (ran s) (valid s) (last_ran s) (Draining (S k) e) (told s))
  | drain_get k e r s :
      at_phase s = Draining k e -> valid s !! k = Some true -> ran s !! k = Some (Some r) ->
      exec_step rec s (mkExec (ran s) (<[k := false]> (valid s)) (last_ran s)
                         (Draining (S k) e) (told s))
  | drained k e s :
      at_phase s = Draining k e -> k = length (ran s) ->
      exec_step rec s (mkExec (ran s) (valid s) (last_ran s) (Settling (inl e))
                         (tell rec None (told s)))
  | settle r s :
      at_phase s = Settling r ->
      exec_step rec s (mkExec (ran s) (valid s) (last_ran s) (Settled r) (told s)).

(** What the caller must see: the sum when nothing failed, else the failure of
    the last task's own transfer, else the first failure in task order. *)
Fixpoint collect (ret : Z) (outs : list outcome) : outcome :=
  match outs with
  | [] => inr ret
  | inl e :: _ => inl e
  | inr n :: outs' => collect (ret +% n) outs'
  end.

Definition expected (last : outcome) (outs : list outcome) : outcome :=
  match last with inl e => inl e | inr n => collect n outs end.

Definition verdict (r : outcome) : option Z :=
  match r with inl _ => None | inr n => Some n end.

(** [outs] is a way the tasks that have not run yet may still turn out. *)
Definition agrees (s : execution) (outs : list outcome) : Prop :=
  length outs = length (ran s) /\
  forall i r, ran s !! i = Some (Some r) -> outs !! i = Some r.

Definition has_run (s : execution) (k : nat) : Prop :=
  forall i, (i < k)%nat -> exists r, ran s !! i = Some (Some r).

(** What an execution has established so far. *)
Definition phase_inv (n : nat) (rec : bool) (s : execution) : Prop :=
  match at_phase s with
  | Waiting => last_ran s = None /\ told s = []
  | Collecting k ret =>
      told s = [] /\ (k <= n)%nat /\ has_run s k /\
      exists m, last_ran s = Some (inr m) /\
        forall outs, agrees s outs -> collect m outs = collect ret (drop k outs)
  | Draining k e =>
      told s = [] /\ (k <= n)%nat /\ has_run s k /\
      exists l, last_ran s = Some l /\
        forall outs, agrees s outs -> expected l outs = inl e
  | Settling r | Settled r =>
      told s = tell rec (verdict r) [] /\ has_run s n /\
      exists l, last_ran s = Some l /\ forall outs, agrees s outs -> expected l outs = r
  end.

Record exec_inv (n : nat) (rec : bool) (s : execution) : Prop := mkExecInv {
  ei_ran : length (ran s) = n;
  ei_valid : length (valid s) = n;
  ei_read : forall k, valid s !! k = Some false -> exists r, ran s !! k = Some (Some r);
  ei_phase : phase_inv n rec s }.

Lemma agrees_run s i r outs va la ph tl :
  ran s !! i = Some None ->
  agrees (mkExec (<[i := Some r]> (ran s)) va la ph tl) outs -> agrees s outs.
Proof.
  intros Hi [Hl Hr]. simpl in *. rewrite length_insert in Hl. split; [done|].
  intros j r' Hj. apply Hr. rewrite list_lookup_insert_ne; [done|]. intros ->. congruence.
Qed.

Lemma has_run_run s i r k va la ph tl :
  ran s !! i = Some None -> has_run s k ->
  has_run (mkExec (<[i := Some r]> (ran s)) va la ph tl) k.
Proof.
  intros Hi Hk j Hj. destruct (Hk j Hj) as [r' Hr']. simpl. exists r'.
  rewrite list_lookup_insert_ne; [done|]. intros ->. congruence.
Qed.

Lemma phase_inv_run n rec s i r :
  ran s !! i = Some None -> phase_inv n rec s ->
  phase_inv n rec (mkExec (<[i := Some r]> (ran s)) (valid s) (last_ran s) (at_phase s) (told s)).
Proof.
  intros Hi. unfold phase_inv. simpl. destruct (at_phase s); [done| | | |].
  - intros (? & ? & Hr & m & ? & Hm). split_and!; [done|done|by apply has_run_run|].
    exists m. split; [done|]. intros outs Ho. eapply Hm, agrees_run; [exact Hi|exact Ho].
  - intros (? & ? & Hr & l & ? & Hm). split_and!; [done|done|by apply has_run_run|].
    exists l. split; [done|]. intros outs Ho. eapply Hm, agrees_run; [exact Hi|exact Ho].
  - intros (? & Hr & l & ? & Hm). split_and!; [done|by apply has_run_run|].
    exists l. split; [done|]. intros outs Ho. eapply Hm, agrees_run; [exact Hi|exact Ho].
  - intros (? & Hr & l & ? & Hm). split_and!; [done|by apply has_run_run|].
    exists l. split; [done|]. intros outs Ho. eapply Hm, agrees_run; [exact Hi|exact Ho].
Qed.

Lemma has_run_S s k r : has_run s k -> ran s !! k = Some (Some r) -> has_run s (S k).
Proof.
  intros Hk Hr j Hj. destruct (decide (j = k)) as [->|]; [eauto|]. apply Hk. lia.
Qed.

(** Reading a future marks it; it was ready. *)
Lemma valid_read (s : execution) k r :
  (forall k, valid s !! k = Some false -> exists r, ran s !! k = Some (Some r)) ->
  ran s !! k = Some (Some r) ->
  forall j, <[k := false]> (valid s) !! j = Some false -> exists r, ran s !! j = Some (Some r).
Proof.
  intros Hv Hr j. destruct (decide (j = k)) as [->|Hne]; [eauto|].
  rewrite list_lookup_insert_ne by done. apply Hv.
Qed.

Lemma exec_step_inv n rec s s' : exec_inv n rec s -> exec_step rec s s' -> exec_inv n rec s'.
Proof.
  intros [Hn Hv Hrd Hph] Hstep. unfold phase_inv in Hph. destruct Hstep.
  - constructor; simpl; [by rewrite length_insert|done| |by apply phase_inv_run].
    intros k Hk. destruct (Hrd k Hk) as [r' Hr']. exists r'.
    rewrite list_lookup_insert_ne; [done|]. intros ->. congruence.
  - rewrite H in Hph. destruct Hph as [_ Ht]. constructor; simpl; try done.
    split_and!; simpl; try done; try lia. { intros j ?. lia. }
    exists n0. split; [done|]. intros outs _. by rewrite drop_0.
  - rewrite H in Hph. destruct Hph as [_ Ht]. constructor; simpl; try done.
    split_and!; simpl; try done; try lia. { intros j ?. lia. } by eexists.
  - rewrite H in Hph. destruct Hph as (Ht & Hk & Hr & m & Hl & Hm).
    pose proof (lookup_lt_Some _ _ _ H0).
    constructor; simpl; [done|by rewrite length_insert|by eapply valid_read|].
    split_and!; simpl; [done|lia|by eapply has_run_S|]. exists m. split; [done|].
    intros outs Ho. rewrite Hm by done. destruct Ho as [_ Ho]. simpl in Ho.
    by rewrite (drop_S _ _ _ (Ho _ _ H0)).
  - rewrite H in Hph. destruct Hph as (Ht & Hk & Hr & m & Hl & Hm).
    constructor; simpl; [done|by rewrite length_insert|by eapply valid_read|].
    split_and!; simpl; [done|lia| |]. { intros j ?. lia. } exists (inr m). split; [done|].
    intros outs Ho. simpl. rewrite Hm by done. destruct Ho as [_ Ho]. simpl in Ho.
    by rewrite (drop_S _ _ _ (Ho _ _ H0)).
  - rewrite H in Hph. destruct Hph as (Ht & Hk & Hr & m & Hl & Hm).
    constructor; simpl; try done. split_and!; simpl; [by rewrite Ht|by rewrite <- Hn, <- H0|].
    exists (inr m). split; [done|]. intros outs Ho. simpl. rewrite Hm by done.
    destruct Ho as [Ho _]. simpl in Ho. by rewrite drop_ge by lia.
  - rewrite H in Hph. destruct Hph as (Ht & Hk & Hr & Hl).
    destruct (Hrd _ H0) as [r Hr']. pose proof (lookup_lt_Some _ _ _ Hr').
    constructor; simpl; try done. split_and!; simpl; [done|lia|by eapply has_run_S|done].
  - rewrite H in Hph. destruct Hph as (Ht & Hk & Hr & Hl).
    pose proof (lookup_lt_Some _ _ _ H1).
    constructor; simpl; [done|by rewrite length_insert|by eapply valid_read|].
    split_and!; simpl; [done|lia|by eapply has_run_S|done].
  - rewrite H in Hph. destruct Hph as (Ht & Hk & Hr & Hl).
    constructor; simpl; try done. split_and!; simpl; [by rewrite Ht|by rewrite <- Hn, <- H0|done].
  - rewrite H in Hph. by constructor.
Qed.

Lemma submitted_inv n rec : exec_inv n rec (submitted n).
Proof.
  constructor; simpl; try apply length_replicate; [|done].
  intros k Hk. apply lookup_replicate in Hk as [? _]. done.
Qed.

Lemma reachable_inv n rec s :
  rtc (exec_step rec) (submitted n) s -> exec_inv n rec s.
Proof.
  intros Hr. pose proof (submitted_inv n rec) as Hi.
  induction Hr; [done|]. apply IHHr. by eapply exec_step_inv.
Qed.

Lemma all_run s n :
  length (ran s) = n -> has_run s n -> exists outs, ran s = Some <$> outs.
Proof.
  intros Hn Hr. assert (Forall (fun x => exists r : outcome, x = Some r) (ran s)) as Hf.
  { apply Forall_lookup. intros i x Hx. pose proof (lookup_lt_Some _ _ _ Hx).
    destruct (Hr i ltac:(lia)) as [r Hr']. exists r. congruence. }
  clear -Hf. induction Hf as [|x l [r ->] _ [outs ->]]; [by exists []|by exists (r :: outs)].
Qed.

(** C22. However the pool interleaves the tasks, when the caller's future is
    ready every task has run, the future holds the sum of what they moved or
    the first failure, and the recorder has been told exactly that, exactly
    once, before. *)
Theorem parallel_io_outcome (n : nat) (rec : bool) (s : execution) (r : outcome) :
  rtc (exec_step rec) (submitted n) s -> at_phase s = Settled r ->
  exists last outs, last_ran s = Some last /\ length outs = n /\ ran s = Some <$> outs /\
    r = expected last outs /\
    told s = if rec then [verdict r] else [].
Proof.
  intros Hs Hp. destruct (reachable_inv n rec s Hs) as [Hn _ _ Hph].
  unfold phase_inv in Hph. rewrite Hp in Hph. destruct Hph as (Ht & Hr & l & Hl & He).
  destruct (all_run s n Hn Hr) as [outs Hout]. exists l, outs.
  assert (length outs = n) by (by rewrite <- Hn, Hout, length_fmap).
  split_and!; [done|done|done| |by destruct rec].
  symmetry. apply He. split; [by rewrite Hout, length_fmap|].
  intros i x Hx. rewrite Hout, list_lookup_fmap in Hx.
  destruct (outs !! i); simpl in Hx; congruence.
Qed.

Definition settled (s : execution) : bool :=
  match at_phase s with Settled _ => true | _ => false end.

Definition is_none {A} (x : option A) : bool := match x with None => true | Some _ => false end.

(** How far an execution is from its end. *)
Definition to_run (s : execution) : nat := length (filter (fun x => is_none x) (ran s)).
Definition to_do (n : nat) (s : execution) : nat :=
  match at_phase s with
  | Waiting => 2 * n + 4
  | Collecting k _ => (n - k) + n + 3
  | Draining k _ => (n - k) + 2
  | Settling _ => 1
  | Settled _ => 0
  end.

Lemma to_run_insert (l : list (option outcome)) i r :
  l !! i = Some None ->
  S (length (filter (fun x => is_none x) (<[i := Some r]> l)))
    = length (filter (fun x => is_none x) l).
Proof.
  revert i. induction l as [|x l IH]; intros [|i] Hi; try done.
  - simpl in Hi. by injection Hi as ->.
  - cbn [insert list_insert]. rewrite !filter_cons. simpl in Hi. destruct x; simpl; [by apply IH|].
    f_equal. by apply IH.
Qed.

Lemma exec_step_measure n rec s s' :
  exec_inv n rec s -> exec_step rec s s' ->
  (to_run s' + to_do n s' < to_run s + to_do n s)%nat.
Proof.
  intros [Hn Hv Hrd Hph] Hstep. unfold phase_inv in Hph. unfold to_run, to_do.
  destruct Hstep; simpl; try (rewrite H; try rewrite H in Hph; simpl).
  - rewrite <- (to_run_insert _ _ r H). simpl. lia.
  - lia.
  - lia.
  - pose proof (lookup_lt_Some _ _ _ H0). lia.
  - pose proof (lookup_lt_Some _ _ _ H0). lia.
  - lia.
  - destruct (Hrd _ H0) as [r Hr]. pose proof (lookup_lt_Some _ _ _ Hr). lia.
  - pose proof (lookup_lt_Some _ _ _ H1). lia.
  - lia.
  - lia.
Qed.

Lemma exec_step_exists n rec s :
  exec_inv n rec s -> settled s = false -> exists s', exec_step rec s s'.
Proof.
  intros [Hn Hv Hrd Hph] Hs. unfold phase_inv in Hph. unfold settled in Hs.
  destruct (at_phase s) as [|k ret|k e|r|r] eqn:Hp; [| | | |done].
  - eexists. by apply (last_op _ 0 s).
  - destruct Hph as (_ & Hk & _). destruct (decide (k = n)) as [->|].
    { eexists. eapply collected; [done|by rewrite Hn]. }
    destruct (lookup_lt_is_Some_2 (ran s) k) as [[[e|m]|] Hr]; [lia| | |].
    + eexists. by eapply get_throws.
    + eexists. by eapply get_ok.
    + eexists. by eapply (run_task _ k (inr 0) s).
  - destruct Hph as (_ & Hk & _). destruct (decide (k = n)) as [->|].
    { eexists. eapply drained; [done|by rewrite Hn]. }
    destruct (lookup_lt_is_Some_2 (valid s) k) as [[|] Hva]; [lia| |].
    + destruct (lookup_lt_is_Some_2 (ran s) k) as [[r|] Hr]; [lia| |].
      * eexists. by eapply drain_get.
      * eexists. by eapply (run_task _ k (inr 0) s).
    + eexists. by eapply drain_skip.
  - eexists. by eapply settle.
Qed.

(** C23. The operation always completes, on the error path too: no reachable
    state is stuck before the caller's future is ready, and no execution of
    [n] tasks and the last takes more than [3n + 4] steps. *)
Theorem parallel_io_completes (n : nat) (rec : bool) (s : execution) (k : nat) :
  nsteps (exec_step rec) k (submitted n) s ->
  (k <= 3 * n + 4)%nat /\ (settled s = false -> exists s', exec_step rec s s').
Proof.
  intros Hk. assert (Hi : exec_inv n rec s).
  { apply reachable_inv, rtc_nsteps. by exists k. }
  split; [|by apply (exec_step_exists n)].
  assert (Hgen : forall k s0, exec_inv n rec s0 -> nsteps (exec_step rec) k s0 s ->
    (k + to_run s + to_do n s <= to_run s0 + to_do n s0)%nat).
  { clear. intros k. induction k as [|k IH]; intros s0 H0 Hk; inversion Hk as [|? ? s1 ? Hst Hk']; subst; [lia|].
    pose proof (exec_step_measure n rec s0 s1 H0 Hst).
    pose proof (IH s1 (exec_step_inv _ _ _ _ H0 Hst) Hk'). lia. }
  pose proof (Hgen k _ (submitted_inv n rec) Hk) as Hb.
  assert (to_run (submitted n) <= n)%nat.
  { unfold to_run. simpl. rewrite length_filter. by rewrite length_replicate. }
  unfold to_do in Hb at 2. simpl in Hb. lia.
Qed.

(** One task fails while another has not run: the last task waits for it. *)
Definition failing_run : list execution :=
  let e := RuntimeError "io" in
  [ submitted 2;
    mkExec [None; None] [true; true] (Some (inr 10)) (Collecting 0 10) [];
    mkExec [Some (inl e); None] [true; true] (Some (inr 10)) (Collecting 0 10) [];
    mkExec [Some (inl e); None] [false; true] (Some (inr 10)) (Draining 0 e) [];
    mkExec [Some (inl e); None] [false; true] (Some (inr 10)) (Draining 1 e) [];
    mkExec [Some (inl e); Some (inr 5)] [false; true] (Some (inr 10)) (Draining 1 e) [];
    mkExec [Some (inl e); Some (inr 5)] [false; false] (Some (inr 10)) (Draining 2 e) [];
    mkExec [Some (inl e); Some (inr 5)] [false; false] (Some (inr 10)) (Settling (inl e)) [None];
    mkExec [Some (inl e); Some (inr 5)] [false; false] (Some (inr 10)) (Settled (inl e)) [None] ].

Definition failing_end : execution := List.last failing_run (submitted 2).

Lemma failing_run_steps : nsteps (exec_step true) 8 (submitted 2) failing_end.
Proof.
  unfold failing_end, failing_run. cbn [List.last].
  econstructor; [apply (last_op true 10 (submitted 2)); done|].
  econstructor; [eapply (run_task true 0 (inl (RuntimeError "io"))); done|].
  econstructor; [eapply get_throws; done|].
  econstructor; [eapply drain_skip; done|].
  econstructor; [eapply (run_task true 1 (inr 5)); done|].
  econstructor; [eapply drain_get; done|].
  econstructor; [eapply drained; done|].
  econstructor; [eapply settle; done|]. apply nsteps_O.
Qed.

Example parallel_io_outcome_witness :
  at_phase failing_end = Settled (inl (RuntimeError "io")) /\
  exists last outs, last_ran failing_end = Some last /\ length outs = 2%nat /\
    ran failing_end = Some <$> outs /\ inl (RuntimeError "io") = expected last outs /\
    told failing_end = [None].
Proof.
  split; [reflexivity|].
  apply (parallel_io_outcome 2 true failing_end (inl (RuntimeError "io"))); [|reflexivity].
  eapply rtc_nsteps_2, failing_run_steps.
Defined.

Example parallel_io_completes_witness :
  nsteps (exec_step true) 8 (submitted 2) failing_end /\ (8 <= 3 * 2 + 4)%nat /\
  (settled failing_end = false -> exists s', exec_step true failing_end s').
Proof.
  split; [exact failing_run_steps|].
  apply (parallel_io_completes 2 true failing_end 8 failing_run_steps).
Defined.
