(* ===== verification/BounceBuffer.v ===== *)
(** * Bounce buffer pools

    [src/bounce_buffer.cpp]: three allocators behind one interface, the LIFO
    pool of free buffers, and the RAII handle [Buffer].  The C library and the
    CUDA driver are parameters ([HostMemory]) with their documented behaviour
    ([HostMemoryLaws]).  An operation that throws also says what the heap is
    then, because [put] swallows exceptions. *)

From stdpp Require Import base list strings gmap.
From Stdlib Require Import ZArith Lia.
From S2P Require Import Prelude Utils.

#[local] Open Scope Z_scope.

(** ** The host heap *)

(** The blocks that are allocated, with their sizes, and those page-locked. *)
Record heap := mkHeap { blocks : gmap Z Z; registered : gset Z }.

Class HostMemory := {
  page_size : Z;
  aligned_alloc : Z -> Z -> heap -> Z;          (* 0 on failure *)
  MemHostAlloc : Z -> heap -> option Z;         (* None on a CUDA error *)
  MemHostRegister : Z -> Z -> heap -> bool;
  MemHostUnregister : Z -> heap -> bool;
  MemFreeHost : Z -> heap -> bool }.

Class HostMemoryLaws `{HostMemory} := {
  page_size_ok : exists k, 0 <= k < 64 /\ page_size = 2 ^ k;
  aligned_alloc_ok al n h a :
    0 < al -> aligned_alloc al n h = a -> a <> 0 -> blocks h !! a = None /\ (al | a);
  MemHostAlloc_ok n h a : MemHostAlloc n h = Some a -> a <> 0 /\ blocks h !! a = None }.

Definition cuda_error : exn := CUfileException "CUDA error".

Definition add_block (a n : Z) (h : heap) : heap := mkHeap (<[a := n]> (blocks h)) (registered h).
Definition free_block (a : Z) (h : heap) : heap := mkHeap (delete a (blocks h)) (registered h).
Definition lock_block (a : Z) (h : heap) : heap := mkHeap (blocks h) ({[a]} ∪ registered h).
Definition unlock_block (a : Z) (h : heap) : heap := mkHeap (blocks h) (registered h ∖ {[a]}).

(** ** Allocators *)

(** What [BounceBufferPool] asks of its template parameter. *)
Class Allocator := {
  allocate : Z -> heap -> (exn + Z) * heap;
  deallocate : Z -> Z -> heap -> option exn * heap }.

(** What it may rely on: an allocation is fresh and takes [footprint] bytes, a
    deallocation frees the block; a failed one leaves the blocks alone. *)
Class AllocatorLaws `{Allocator} (footprint : Z -> Z) (align : Z) := {
  allocate_ok n h a h' : allocate n h = (inr a, h') -> is_size n ->
    a <> 0 /\ blocks h !! a = None /\ blocks h' = <[a := footprint n]> (blocks h) /\ (align | a);
  allocate_throws n h e h' : allocate n h = (inl e, h') ->
    forall a x, blocks h !! a = Some x -> blocks h' !! a = Some x;
  deallocate_ok a n h h' : deallocate a n h = (None, h') -> blocks h' = delete a (blocks h);
  deallocate_throws a n h e h' : deallocate a n h = (Some e, h') -> blocks h' = blocks h }.

Section allocators.
Context `{HostMemory}.

(** [PageAlignedAllocator] *)
Definition page_aligned_allocate (size : Z) (h : heap) : (exn + Z) * heap :=
  match align_up size page_size with
  | Ok aligned_size =>
      let buffer := aligned_alloc page_size aligned_size h in
      if buffer =? 0 then (inl (CUfileException "Aligned allocation failed"), h)
      else (inr buffer, add_block buffer aligned_size h)
  | Err e => (inl e, h)
  | NoFuel => (inl cuda_error, h)
  end.

Definition page_aligned_deallocate (buffer size : Z) (h : heap) : option exn * heap :=
  (None, free_block buffer h).

(** [CudaPinnedAllocator] *)
Definition cuda_pinned_allocate (size : Z) (h : heap) : (exn + Z) * heap :=
  match MemHostAlloc size h with
  | None => (inl cuda_error, h)
  | Some buffer => (inr buffer, lock_block buffer (add_block buffer size h))
  end.

Definition cuda_pinned_deallocate (buffer size : Z) (h : heap) : option exn * heap :=
  if MemFreeHost buffer h then (None, free_block buffer (unlock_block buffer h))
  else (Some cuda_error, h).

(** [CudaPageAlignedPinnedAllocator].  When the registration fails the block
    stays allocated. *)
Definition cuda_page_aligned_allocate (size : Z) (h : heap) : (exn + Z) * heap :=
  match align_up size page_size with
  | Ok aligned_size =>
      let buffer := aligned_alloc page_size aligned_size h in
      if buffer =? 0 then (inl (CUfileException "Aligned allocation failed"), h)
      else
        let h := add_block buffer aligned_size h in
        if MemHostRegister buffer aligned_size h then (inr buffer, lock_block buffer h)
        else (inl cuda_error, h)
  | Err e => (inl e, h)
  | NoFuel => (inl cuda_error, h)
  end.

Definition cuda_page_aligned_deallocate (buffer size : Z) (h : heap) : option exn * heap :=
  if MemHostUnregister buffer h then (None, free_block buffer (unlock_block buffer h))
  else (Some cuda_error, h).

Definition PageAlignedAllocator : Allocator :=
  {| allocate := page_aligned_allocate; deallocate := page_aligned_deallocate |}.
Definition CudaPinnedAllocator : Allocator :=
  {| allocate := cuda_pinned_allocate; deallocate := cuda_pinned_deallocate |}.
Definition CudaPageAlignedPinnedAllocator : Allocator :=
  {| allocate := cuda_page_aligned_allocate; deallocate := cuda_page_aligned_deallocate |}.

(** The bytes an allocator takes for a request of [n]. *)
Definition page_footprint (n : Z) : Z :=
  match align_up n page_size with Ok m => m | _ => 0 end.

Context `{!HostMemoryLaws}.

Lemma page_size_pos : 0 < page_size.
Proof. destruct page_size_ok as (k & Hk & ->). apply pow2_pos. lia. Qed.

#[export] Instance page_aligned_laws :
  AllocatorLaws (H := PageAlignedAllocator) page_footprint page_size.
Proof.
  split; simpl; unfold page_aligned_allocate, page_aligned_deallocate, page_footprint.
  - intros n h a h' Ha Hn. destruct (align_up n page_size) as [m| |]; simplify_eq.
    destruct (_ =? 0) eqn:Hz; simplify_eq. bool_to_prop.
    destruct (aligned_alloc_ok page_size m h _ page_size_pos eq_refl Hz). split_and!; done.
  - intros n h e h' Ha a x Hx. destruct (align_up n page_size); simplify_eq; try done.
    destruct (_ =? 0); by simplify_eq.
  - intros a n h h' [= <-]. done.
  - done.
Qed.

#[export] Instance cuda_pinned_laws :
  AllocatorLaws (H := CudaPinnedAllocator) (fun n => n) 1.
Proof.
  split; simpl; unfold cuda_pinned_allocate, cuda_pinned_deallocate.
  - intros n h a h' Ha Hn. destruct (MemHostAlloc n h) eqn:Hm; simplify_eq.
    destruct (MemHostAlloc_ok _ _ _ Hm). split_and!; try done. apply Z.divide_1_l.
  - intros n h e h' Ha a x Hx. destruct (MemHostAlloc n h); by simplify_eq.
  - intros a n h h' Ha. destruct (MemFreeHost a h); by simplify_eq.
  - intros a n h e h' Ha. destruct (MemFreeHost a h); by simplify_eq.
Qed.

#[export] Instance cuda_page_aligned_laws :
  AllocatorLaws (H := CudaPageAlignedPinnedAllocator) page_footprint page_size.
Proof.
  split; simpl; unfold cuda_page_aligned_allocate, cuda_page_aligned_deallocate, page_footprint.
  - intros n h a h' Ha Hn. destruct (align_up n page_size) as [m| |]; simplify_eq.
    destruct (_ =? 0) eqn:Hz; simplify_eq. bool_to_prop.
    destruct (MemHostRegister _ _ _); simplify_eq.
    destruct (aligned_alloc_ok page_size m h _ page_size_pos eq_refl Hz). split_and!; done.
  - intros n h e h' Ha a x Hx. destruct (align_up n page_size) as [m| |]; simplify_eq; try done.
    destruct (_ =? 0) eqn:Hz; simplify_eq; [done|]. bool_to_prop.
    destruct (aligned_alloc_ok page_size m h _ page_size_pos eq_refl Hz) as [Hf _].
    destruct (MemHostRegister _ _ _); simplify_eq. simpl.
    rewrite lookup_insert_ne; [done|]. intros Heq. rewrite Heq in Hf. congruence.
  - intros a n h h' Ha. destruct (MemHostUnregister a h); by simplify_eq.
  - intros a n h e h' Ha. destruct (MemHostUnregister a h); by simplify_eq.
Qed.

End allocators.

(** The page-aligned allocators give at least what was asked. *)
Lemma page_footprint_ge `{HostMemoryLaws} n :
  is_size n -> n + page_size - 1 < SIZE_MOD ->
  n <= page_footprint n /\ (page_size | page_footprint n).
Proof.
  intros Hn Hov. unfold page_footprint. destruct page_size_ok as (k & Hk & Hp).
  rewrite Hp in *. rewrite align_up_ok by done. pose proof (pow2_pos k ltac:(lia)).
  split; [|apply Z.divide_factor_l].
  pose proof (Z.mod_pos_bound (n + 2 ^ k - 1) (2 ^ k)).
  pose proof (Z.div_mod (n + 2 ^ k - 1) (2 ^ k)). lia.
Qed.

(** ** The pool *)

(** [_pool] is null exactly when [_buffer] is. *)
Record Buffer := mkBuffer { b_buffer : Z; b_size : Z }.

Definition null_buffer : Buffer := mkBuffer 0 0.

Record BounceBufferPool := mkPool {
  free_buffers : list Z;     (* the top of the stack first *)
  buffer_size : Z }.

(** The pool, the heap and the [Buffer] objects of its users. *)
Record pool_state := mkPoolState {
  the_pool : BounceBufferPool;
  the_heap : heap;
  handles : list Buffer }.

Section pool.
Context `{Allocator}.

Fixpoint deallocate_buffers (buffers : list Z) (buffer_size : Z) (h : heap)
    : option exn * heap :=
  match buffers with
  | [] => (None, h)
  | b :: bs =>
      match deallocate b buffer_size h with
      | (None, h) => deallocate_buffers bs buffer_size h
      | (Some e, h) => (Some e, h)
      end
  end.

Definition detach_free_buffers (p : BounceBufferPool) : (list Z * Z) * BounceBufferPool :=
  ((free_buffers p, buffer_size p), mkPool [] (buffer_size p)).

(** [bounce_buffer_size] is the value of [defaults::bounce_buffer_size()]. *)
Definition ensure_buffer_size (bounce_buffer_size : Z) (p : BounceBufferPool)
    : (list Z * Z) * BounceBufferPool :=
  if buffer_size p =? bounce_buffer_size then (([], 0), p)
  else
    let '(stale, p) := detach_free_buffers p in
    (stale, mkPool (free_buffers p) bounce_buffer_size).

Definition get (bounce_buffer_size : Z) (p : BounceBufferPool) (h : heap)
    : (exn + Buffer) * BounceBufferPool * heap :=
  let '((stale_buffers, stale_size), p) := ensure_buffer_size bounce_buffer_size p in
  let size := buffer_size p in
  let '(reused_buffer, p) :=
    match free_buffers p with
    | [] => (0, p)
    | b :: bs => (b, mkPool bs (buffer_size p))
    end in
  match deallocate_buffers stale_buffers stale_size h with
  | (Some e, h) => (inl e, p, h)
  | (None, h) =>
      if negb (reused_buffer =? 0) then (inr (mkBuffer reused_buffer size), p, h)
      else
        match allocate size h with
        | (inr buffer, h) => (inr (mkBuffer buffer size), p, h)
        | (inl e, h) => (inl e, p, h)
        end
  end.

(** [noexcept]: what the deallocations throw is logged. *)
Definition put (bounce_buffer_size buffer size : Z) (p : BounceBufferPool) (h : heap)
    : BounceBufferPool * heap :=
  let '((stale_buffers, stale_size), p) := ensure_buffer_size bounce_buffer_size p in
  let '(is_incoming_stale, p) :=
    if size =? buffer_size p then (false, mkPool (buffer :: free_buffers p) (buffer_size p))
    else (true, p) in
  match deallocate_buffers stale_buffers stale_size h with
  | (Some e, h) => (p, h)
  | (None, h) => if (is_incoming_stale : bool) then (p, (deallocate buffer size h).2) else (p, h)
  end.

Definition clear (p : BounceBufferPool) (h : heap) : (exn + Z) * BounceBufferPool * heap :=
  let '((stale_buffers, stale_size), p) := detach_free_buffers p in
  let total_stale_size := wrap64 (Z.of_nat (length stale_buffers)) *% stale_size in
  match deallocate_buffers stale_buffers stale_size h with
  | (Some e, h) => (inl e, p, h)
  | (None, h) => (inr total_stale_size, p, h)
  end.

Definition num_free_buffers (p : BounceBufferPool) : Z := Z.of_nat (length (free_buffers p)).

(** [~Buffer] *)
Definition destroy_buffer (cfg : Z) (b : Buffer) (p : BounceBufferPool) (h : heap)
    : BounceBufferPool * heap :=
  if negb (b_buffer b =? 0) then put cfg (b_buffer b) (b_size b) p h else (p, h).

(** [Buffer(Buffer&&)]: the new buffer and what is left of the old. *)
Definition move_buffer (other : Buffer) : Buffer * Buffer := (other, null_buffer).

(** [operator=(Buffer&&)] between two distinct objects. *)
Definition move_assign_buffer (cfg : Z) (self other : Buffer) (p : BounceBufferPool) (h : heap)
    : (Buffer * Buffer) * (BounceBufferPool * heap) :=
  ((other, null_buffer),
   if negb (b_buffer self =? 0) then put cfg (b_buffer self) (b_size self) p h else (p, h)).

(** What a program does with a pool.  [cfg] is the configured buffer size at
    the time; handles are named by their index. *)
Inductive pool_call :=
  | Get (cfg : Z)
  | Clear
  | MoveOut (i : nat)              (* Buffer b = std::move(handles[i]) *)
  | MoveAssign (cfg : Z) (i j : nat)   (* handles[i] = std::move(handles[j]) *)
  | Destroy (cfg : Z) (i : nat).

Definition pool_step (s : pool_state) (c : pool_call) : pool_state :=
  let '(mkPoolState p h hs) := s in
  match c with
  | Get cfg =>
      match get cfg p h with
      | (inr b, p, h) => mkPoolState p h (hs ++ [b])
      | (inl _, p, h) => mkPoolState p h hs
      end
  | Clear => let '(_, p, h) := clear p h in mkPoolState p h hs
  | MoveOut i =>
      match hs !! i with
      | Some b => let '(b', old) := move_buffer b in mkPoolState p h (<[i := old]> hs ++ [b'])
      | None => s
      end
  | MoveAssign cfg i j =>
      match hs !! i, hs !! j with
      | Some bi, Some bj =>
          if decide (i = j) then s
          else
            let '((b, old), (p, h)) := move_assign_buffer cfg bi bj p h in
            mkPoolState p h (<[j := old]> (<[i := b]> hs))
      | _, _ => s
      end
  | Destroy cfg i =>
      match hs !! i with
      | Some b =>
          let '(p, h) := destroy_buffer cfg b p h in
          mkPoolState p h (<[i := null_buffer]> hs)
      | None => s
      end
  end.

End pool.

(** ** Ownership *)

Section ownership.
Context `{AllocatorLaws}.

(** The buffer a handle owns, and those a set of handles owns. *)
Definition owned_by (b : Buffer) : list (Z * Z) :=
  if b_buffer b =? 0 then [] else [(b_buffer b, b_size b)].
Definition owned (hs : list Buffer) : list (Z * Z) := hs ≫= owned_by.

(** The buffers the pool and its users own, each with the size it was
    allocated for. *)
Definition holdings (s : pool_state) : list (Z * Z) :=
  ((fun b => (b, buffer_size (the_pool s))) <$> free_buffers (the_pool s)) ++ owned (handles s).

(** [l] is a list of distinct live blocks, each of the size its request needs. *)
Definition holds (l : list (Z * Z)) (h : heap) : Prop :=
  NoDup l.*1 /\
  forall a n, (a, n) ∈ l -> a <> 0 /\ is_size n /\ (align | a) /\ blocks h !! a = Some (footprint n).

Lemma holds_perm l k h : l ≡ₚ k -> holds l h -> holds k h.
Proof.
  intros Hp [Hnd Hl]. split; [by rewrite <- Hp|]. intros a n Ha. apply Hl. by rewrite Hp.
Qed.

Lemma holds_app_l l k h : holds (l ++ k) h -> holds l h.
Proof.
  intros [Hnd Hl]. rewrite fmap_app in Hnd. apply NoDup_app in Hnd as (Hnd & _ & _).
  split; [done|]. intros a n Ha. apply Hl. apply elem_of_app. by left.
Qed.

Lemma holds_app_r l k h : holds (l ++ k) h -> holds k h.
Proof. intros Hh. eapply holds_app_l, holds_perm; [|exact Hh]. apply Permutation_app_comm. Qed.

(** Deallocating some of the buffers leaves the others alone, and frees all of
    them when nothing throws. *)
Lemma deallocate_buffers_holds bs n k h e h' :
  deallocate_buffers bs n h = (e, h') -> holds (((fun b => (b, n)) <$> bs) ++ k) h ->
  holds k h' /\
  (e = None -> dom (blocks h') = dom (blocks h) ∖ list_to_set bs).
Proof.
  revert h. induction bs as [|b bs IH]; intros h Hd Hh; cbn [deallocate_buffers] in Hd.
  - simplify_eq. split; [done|]. intros _. set_solver.
  - csimpl in Hh. destruct (deallocate b n h) as [[e1|] h1] eqn:Hb.
    + simplify_eq. split; [|done]. apply (holds_app_r ((b, n) :: ((fun b => (b, n)) <$> bs))) in Hh.
      destruct Hh as [Hnd Hl]. split; [done|]. erewrite deallocate_throws by done. done.
    + pose proof (deallocate_ok _ _ _ _ Hb) as Hblk. destruct Hh as [Hnd Hl].
      csimpl in Hnd. apply NoDup_cons in Hnd as [Hnb Hnd].
      destruct (IH h1 Hd) as [Hk Hdom].
      { split; [done|]. intros a m Ha. rewrite Hblk, lookup_delete_ne.
        - apply Hl. by right.
        - intros ->. apply Hnb. apply list_elem_of_fmap. by exists (a, m). }
      split; [done|]. intros He. rewrite (Hdom He), Hblk, dom_delete_L. set_solver.
Qed.

Lemma allocate_holds n h a h' l :
  allocate n h = (inr a, h') -> is_size n -> holds l h -> holds ((a, n) :: l) h'.
Proof.
  intros Ha Hn [Hnd Hl]. destruct (allocate_ok _ _ _ _ Ha Hn) as (Hz & Hf & Hb & Hal).
  assert (Hna : a ∉ l.*1).
  { intros Hin. apply list_elem_of_fmap in Hin as ([a' m] & -> & Hin).
    destruct (Hl _ _ Hin) as (_ & _ & _ & ?). simpl in *. congruence. }
  split; [csimpl; by apply NoDup_cons|]. intros a' m Hin.
  apply elem_of_cons in Hin as [[= -> ->]|Hin].
  - split_and!; try done. by rewrite Hb, lookup_insert_eq.
  - rewrite Hb, lookup_insert_ne; [by apply Hl|]. intros ->. apply Hna.
    apply list_elem_of_fmap. by exists (a', m).
Qed.

(** The driver never refuses: no call of the allocator loses a block. *)
Definition reliable : Prop :=
  (forall a n h, (deallocate a n h).1 = None) /\
  (forall n h e h', allocate n h = (inl e, h') -> blocks h' = blocks h).

(** Every allocated block is in [l]. *)
Definition tight (l : list (Z * Z)) (h : heap) : Prop :=
  dom (blocks h) ⊆ (list_to_set l.*1 : gset Z).

Lemma tight_perm l k h : l ≡ₚ k -> tight l h -> tight k h.
Proof. unfold tight. intros Hp. by rewrite Hp. Qed.

Definition pool_list (p : BounceBufferPool) : list (Z * Z) :=
  (fun b => (b, buffer_size p)) <$> free_buffers p.

Lemma deallocate_buffers_reliable bs n h :
  reliable -> (deallocate_buffers bs n h).1 = None.
Proof.
  intros [Hr _]. revert h. induction bs as [|b bs IH]; intros h; [done|]. cbn [deallocate_buffers].
  pose proof (Hr b n h). destruct (deallocate b n h) as [[e|] h1]; [done|apply IH].
Qed.

Lemma pool_list_keys (bs : list Z) (n : Z) : ((fun b => (b, n)) <$> bs).*1 = bs.
Proof. rewrite <- list_fmap_compose. apply list_fmap_id. Qed.

(** What changing the configured size does to the free list: it keeps it, or
    hands all of it over for deallocation. *)
Lemma ensure_buffer_size_spec cfg p stale n p' :
  ensure_buffer_size cfg p = ((stale, n), p') ->
  buffer_size p' = cfg /\
  (forall k, ((fun b => (b, n)) <$> stale) ++ pool_list p' ++ k = pool_list p ++ k).
Proof.
  unfold ensure_buffer_size, detach_free_buffers. destruct (_ =? cfg) eqn:Hc; intros [= <- <- <-].
  - by bool_to_prop.
  - done.
Qed.

(** Deallocating what the size change handed over. *)
Lemma drop_stale stale n l h e h' :
  deallocate_buffers stale n h = (e, h') ->
  holds (((fun b => (b, n)) <$> stale) ++ l) h ->
  holds l h' /\
  (reliable -> e = None /\ (tight (((fun b => (b, n)) <$> stale) ++ l) h -> tight l h')).
Proof.
  intros Hd Hh. destruct (deallocate_buffers_holds _ _ _ _ _ _ Hd Hh) as [Hk Hdom].
  split; [done|]. intros Hr. pose proof (deallocate_buffers_reliable stale n h Hr) as He.
  rewrite Hd in He. simpl in He. subst e. split; [done|]. unfold tight. rewrite Hdom by done.
  rewrite fmap_app, pool_list_keys, list_to_set_app_L. set_solver.
Qed.

Lemma get_spec cfg p h r p' h' k :
  get cfg p h = (r, p', h') -> is_size cfg -> holds (pool_list p ++ k) h ->
  let k' := match r with inr b => (b_buffer b, b_size b) :: k | inl _ => k end in
  holds (pool_list p' ++ k') h' /\
  match r with inr b => b_size b = cfg | inl _ => True end /\
  (reliable -> tight (pool_list p ++ k) h -> tight (pool_list p' ++ k') h').
Proof.
  intros Hg Hc Hh. unfold get in Hg.
  destruct (ensure_buffer_size cfg p) as [[stale n] p1] eqn:He.
  destruct (ensure_buffer_size_spec _ _ _ _ _ He) as [Hb Hsp].
  destruct (free_buffers p1) as [|b bs] eqn:Hf.
  - assert (Hsp' : ((fun b => (b, n)) <$> stale) ++ k = pool_list p ++ k).
    { rewrite <- Hsp. unfold pool_list. by rewrite Hf. }
    rewrite <- Hsp' in Hh |- *. cbn [fst snd] in Hg.
    destruct (deallocate_buffers stale n h) as [e h1] eqn:Hd.
    destruct (drop_stale _ _ _ _ _ _ Hd Hh) as [Hk Ht].
    assert (Hp : pool_list p1 = []) by (unfold pool_list; by rewrite Hf).
    destruct e as [e|]; simplify_eq; cbn zeta; rewrite ?Hp.
    + split_and!; [done|done|]. intros Hr Htt. by apply Ht.
    + change (negb (0 =? 0)) with false in Hg. cbv iota in Hg.
      destruct (allocate _ h1) as [[e|a] h2] eqn:Ha; simplify_eq; rewrite Hp; simpl.
      * split_and!; [|done|].
        -- destruct Hk as [Hnd Hl]. split; [done|]. intros a m Hin.
           destruct (Hl a m Hin) as (? & ? & ? & ?). split_and!; try done.
           by eapply allocate_throws.
        -- intros Hr Htt. unfold tight. destruct Hr as [? Hr]. rewrite (Hr _ _ _ _ Ha).
           by apply Ht.
      * split_and!; [|done|].
        -- by eapply allocate_holds.
        -- intros Hr Htt. destruct (allocate_ok _ _ _ _ Ha Hc) as (_ & _ & Hbl & _).
           unfold tight. rewrite Hbl, dom_insert_L. csimpl.
           pose proof (proj2 (Ht Hr) Htt) as Htk. unfold tight in Htk. set_solver.
  - cbn [fst snd] in Hg.
    assert (stale = []) as ->.
    { unfold ensure_buffer_size, detach_free_buffers in He. destruct (_ =? cfg) eqn:Hc'; [by simplify_eq|].
      injection He as <- <- <-. discriminate Hf. }
    assert (Hp : pool_list p ++ k = (b, cfg) :: ((fun b => (b, cfg)) <$> bs) ++ k).
    { rewrite <- Hsp. unfold pool_list. by rewrite Hf, Hb. }
    rewrite Hp in Hh |- *. cbn [deallocate_buffers] in Hg.
    assert (b <> 0) as Hb0 by (destruct Hh as [_ Hl]; eapply (Hl b cfg); left).
    destruct (b =? 0) eqn:Hbz; [lia|]. cbn [negb] in Hg. simplify_eq. cbn [b_buffer b_size].
    assert (Hperm : (b, buffer_size p1) :: ((fun b => (b, buffer_size p1)) <$> bs) ++ k ≡ₚ
        pool_list (mkPool bs (buffer_size p1)) ++ (b, buffer_size p1) :: k).
    { unfold pool_list. simpl. by rewrite Permutation_middle. }
    split_and!; [by eapply holds_perm|done|]. intros _ Htt. by eapply tight_perm.
Qed.

Lemma put_spec cfg b n p h p' h' k :
  put cfg b n p h = (p', h') -> holds ((b, n) :: pool_list p ++ k) h ->
  holds (pool_list p' ++ k) h' /\ buffer_size p' = cfg /\
  (reliable -> tight ((b, n) :: pool_list p ++ k) h -> tight (pool_list p' ++ k) h').
Proof.
  intros Hp Hh. unfold put in Hp.
  destruct (ensure_buffer_size cfg p) as [[stale m] p1] eqn:He.
  destruct (ensure_buffer_size_spec _ _ _ _ _ He) as [Hb Hsp].
  assert (Hperm : (b, n) :: pool_list p ++ k ≡ₚ
    ((fun b => (b, m)) <$> stale) ++ (b, n) :: pool_list p1 ++ k).
  { rewrite <- Hsp. by rewrite Permutation_middle. }
  pose proof (holds_perm _ _ _ Hperm Hh) as Hh'.
  destruct (deallocate_buffers stale m h) as [e h1] eqn:Hd.
  destruct (drop_stale _ _ _ _ _ _ Hd Hh') as [Hk Ht].
  destruct (n =? buffer_size p1) eqn:Hn; bool_to_prop; cbn [fst snd] in Hp.
  - assert (p' = mkPool (b :: free_buffers p1) (buffer_size p1) /\ h' = h1) as [-> ->]
      by (destruct e; by simplify_eq).
    change (pool_list (mkPool (b :: free_buffers p1) (buffer_size p1)))
      with ((b, buffer_size p1) :: pool_list p1). rewrite <- Hn.
    split_and!; [done|simpl; congruence|]. intros Hr Htt. apply Ht; [done|]. by eapply tight_perm.
  - destruct e as [e|]; simplify_eq.
    + split_and!; [by apply (holds_app_r [(b, n)])|done|].
      intros Hr. by destruct (Ht Hr).
    + destruct (deallocate b n h1) as [e2 h2] eqn:Hd2. cbn [snd].
      assert (Hd3 : deallocate_buffers [b] n h1 = (e2, h2))
        by (cbn [deallocate_buffers]; rewrite Hd2; by destruct e2).
      destruct (drop_stale [b] n (pool_list p' ++ k) _ _ _ Hd3 Hk) as [Hk2 Ht2].
      split_and!; [done|done|]. intros Hr Htt. apply Ht2; [done|]. apply Ht; [done|].
      by eapply tight_perm.
Qed.

Lemma clear_spec p h r p' h' k :
  clear p h = (r, p', h') -> holds (pool_list p ++ k) h ->
  holds (pool_list p' ++ k) h' /\ p' = mkPool [] (buffer_size p) /\
  (reliable -> tight (pool_list p ++ k) h -> tight (pool_list p' ++ k) h').
Proof.
  intros Hc Hh. unfold clear, detach_free_buffers in Hc.
  destruct (deallocate_buffers (free_buffers p) (buffer_size p) h) as [e h1] eqn:Hd.
  destruct (drop_stale _ _ _ _ _ _ Hd Hh) as [Hk Ht].
  assert (p' = mkPool [] (buffer_size p) /\ h' = h1) as [-> ->] by (destruct e; by simplify_eq).
  split_and!; [done|done|]. intros Hr Htt. by apply Ht.
Qed.

Lemma Permutation_swap_ends {A} (p q l k : list A) : p ++ l ++ q ++ k ≡ₚ q ++ l ++ p ++ k.
Proof.
  rewrite (Permutation_app_swap_app l q k), (Permutation_app_swap_app l p k).
  apply Permutation_app_swap_app.
Qed.

Lemma owned_insert hs i b x :
  hs !! i = Some b -> owned_by b ++ owned (<[i := x]> hs) ≡ₚ owned_by x ++ owned hs.
Proof.
  intros Hi. rewrite (insert_take_drop hs i x) by by eapply lookup_lt_Some.
  rewrite <- (take_drop_middle hs i b Hi) at 3. unfold owned. rewrite !bind_app. csimpl.
  apply Permutation_swap_ends.
Qed.

Lemma owned_take hs i b :
  hs !! i = Some b -> owned hs ≡ₚ owned_by b ++ owned (<[i := null_buffer]> hs).
Proof. intros Hi. symmetry. apply (owned_insert hs i b null_buffer Hi). Qed.

(** Destroying a handle, or overwriting it, gives its buffer back. *)
Lemma release_spec cfg b p h p' h' k :
  destroy_buffer cfg b p h = (p', h') -> holds (pool_list p ++ owned_by b ++ k) h ->
  holds (pool_list p' ++ k) h' /\
  (reliable -> tight (pool_list p ++ owned_by b ++ k) h -> tight (pool_list p' ++ k) h').
Proof.
  unfold destroy_buffer, owned_by. destruct (b_buffer b =? 0) eqn:Hb; cbn [negb].
  - intros [= <- <-] Hh. by split.
  - intros Hp Hh. cbn [app] in *.
    assert (Hperm : pool_list p ++ (b_buffer b, b_size b) :: k
                    ≡ₚ (b_buffer b, b_size b) :: pool_list p ++ k)
      by (by rewrite Permutation_middle).
    destruct (put_spec _ _ _ _ _ _ _ k Hp (holds_perm _ _ _ Hperm Hh)) as (H1 & _ & H2).
    split; [done|]. intros Hr Ht. apply H2; [done|]. by eapply tight_perm.
Qed.

Definition call_ok (c : pool_call) : Prop :=
  match c with Get cfg => is_size cfg | _ => True end.

Definition owns (s : pool_state) : Prop :=
  holds (holdings s) (the_heap s) /\ (reliable -> tight (holdings s) (the_heap s)).

Lemma owned_snoc hs b : owned (hs ++ [b]) = owned hs ++ owned_by b.
Proof. unfold owned. rewrite bind_app. csimpl. by rewrite app_nil_r. Qed.

Lemma owned_by_held l l' h b :
  holds (l ++ (b_buffer b, b_size b) :: l') h -> owned_by b = [(b_buffer b, b_size b)].
Proof.
  intros [_ Hl]. unfold owned_by. destruct (b_buffer b =? 0) eqn:Hz; [|done]. bool_to_prop.
  destruct (Hl (b_buffer b) (b_size b)) as [? _]; [|done]. apply elem_of_app. right. left.
Qed.

(** What two handles own when the second is moved into the first. *)
Lemma owned_move hs i j bi bj :
  hs !! i = Some bi -> hs !! j = Some bj -> i <> j ->
  owned hs ≡ₚ owned_by bi ++ owned (<[j:=null_buffer]> (<[i:=bj]> hs)).
Proof.
  intros Hi Hj Hne. pose proof (owned_insert hs i bi bj Hi) as H1.
  pose proof (owned_take (<[i:=bj]> hs) j bj) as H2.
  rewrite list_lookup_insert_ne in H2 by done. specialize (H2 Hj).
  rewrite H2 in H1. apply (Permutation_app_inv_l (owned_by bj)). rewrite <- H1.
  rewrite !app_assoc. apply Permutation_app_tail. apply Permutation_app_comm.
Qed.

Lemma pool_step_owns s c : call_ok c -> owns s -> owns (pool_step s c).
Proof.
  intros Hc [Hh Ht]. destruct s as [p h hs]. unfold owns, holdings in *. cbn [the_pool the_heap handles] in *.
  fold (pool_list p) in *. destruct c as [cfg| |i|cfg i j|cfg i]; cbn [pool_step].
  - destruct (get cfg p h) as [[r p'] h'] eqn:Hg.
    destruct (get_spec _ _ _ _ _ _ _ Hg Hc Hh) as (H1 & H2 & H3).
    destruct r as [e|b]; cbn [the_pool the_heap handles]; fold (pool_list p').
    + split; [done|]. intros Hr. apply H3; auto.
    + assert (Hb : owned_by b = [(b_buffer b, b_size b)]) by by eapply owned_by_held.
      rewrite owned_snoc, Hb.
      assert (Hp : pool_list p' ++ (b_buffer b, b_size b) :: owned hs
                ≡ₚ pool_list p' ++ owned hs ++ [(b_buffer b, b_size b)])
        by (by rewrite Permutation_cons_append).
      split; [by eapply holds_perm|]. intros Hr. eapply tight_perm; [exact Hp|]. auto.
  - destruct (clear p h) as [[r p'] h'] eqn:Hg.
    destruct (clear_spec _ _ _ _ _ _ Hg Hh) as (H1 & H2 & H3).
    cbn [the_pool the_heap handles]; fold (pool_list p'). split; [done|]. auto.
  - destruct (hs !! i) as [b|] eqn:Hi; [|done]. cbn [move_buffer the_pool the_heap handles].
    fold (pool_list p). rewrite owned_snoc.
    assert (Hp : pool_list p ++ owned hs
              ≡ₚ pool_list p ++ owned (<[i:=null_buffer]> hs) ++ owned_by b)
      by (rewrite (owned_take hs i b Hi) at 1; by rewrite (Permutation_app_comm (owned_by b))).
    split; [by eapply holds_perm|]. intros Hr. eapply tight_perm; [exact Hp|]. auto.
  - destruct (hs !! i) as [bi|] eqn:Hi; [|done]. destruct (hs !! j) as [bj|] eqn:Hj; [|done].
    destruct (decide (i = j)) as [|Hne]; [done|]. cbn [move_assign_buffer].
    change (if negb (b_buffer bi =? 0) then put cfg (b_buffer bi) (b_size bi) p h else (p, h))
      with (destroy_buffer cfg bi p h).
    destruct (destroy_buffer cfg bi p h) as [p' h'] eqn:Hd.
    cbn [the_pool the_heap handles]. fold (pool_list p').
    pose proof (owned_move hs i j bi bj Hi Hj Hne) as Hp.
    assert (Hp' : pool_list p ++ owned hs ≡ₚ
      pool_list p ++ owned_by bi ++ owned (<[j:=null_buffer]> (<[i:=bj]> hs))) by (by rewrite Hp).
    destruct (release_spec _ _ _ _ _ _ _ Hd (holds_perm _ _ _ Hp' Hh)) as [H1 H2].
    split; [done|]. intros Hr. apply H2; [done|]. eapply tight_perm; [exact Hp'|]. auto.
  - destruct (hs !! i) as [b|] eqn:Hi; [|done].
    destruct (destroy_buffer cfg b p h) as [p' h'] eqn:Hd.
    cbn [the_pool the_heap handles]. fold (pool_list p').
    assert (Hp : pool_list p ++ owned hs ≡ₚ
      pool_list p ++ owned_by b ++ owned (<[i:=null_buffer]> hs))
      by (by rewrite (owned_take hs i b Hi) at 1).
    destruct (release_spec _ _ _ _ _ _ _ Hd (holds_perm _ _ _ Hp Hh)) as [H1 H2].
    split; [done|]. intros Hr. apply H2; [done|]. eapply tight_perm; [exact Hp|]. auto.
Qed.

(** A process that has not used the pool yet. *)
Definition fresh_pool (cfg : Z) : pool_state := mkPoolState (mkPool [] cfg) (mkHeap ∅ ∅) [].

(** C29. Whatever a program does with a pool and its buffers, and whichever
    driver calls fail: no buffer is in the pool and in use at once, or in use
    twice; every buffer is a live block, aligned as its allocator promises and
    at least as large as the size it goes by; and when no driver call fails
    no block is ever lost. *)
Theorem pool_ownership (cfg : Z) (calls : list pool_call) :
  Forall call_ok calls -> owns (foldl pool_step (fresh_pool cfg) calls).
Proof.
  intros Hc. assert (Hs : owns (fresh_pool cfg)).
  { split; [|intros _; unfold tight; set_solver]. split; [constructor|]. intros a n Ha.
    by apply not_elem_of_nil in Ha. }
  revert Hs. generalize (fresh_pool cfg).
  induction Hc as [|c calls Hc _ IH]; intros s Hs; [done|]. simpl. apply IH. by apply pool_step_owns.
Qed.

(** [get] hands out a buffer of the size configured at the moment of the
    call, never a cached one of an earlier size, and no one else holds it. *)
Theorem get_current_size (cfg0 cfg : Z) (calls : list pool_call) (b : Buffer)
    (p' : BounceBufferPool) (h' : heap) :
  Forall call_ok calls -> is_size cfg ->
  let s := foldl pool_step (fresh_pool cfg0) calls in
  get cfg (the_pool s) (the_heap s) = (inr b, p', h') ->
  b_size b = cfg /\ blocks h' !! b_buffer b = Some (footprint cfg) /\
  (align | b_buffer b) /\ b_buffer b ∉ (owned (handles s)).*1 /\
  b_buffer b ∉ free_buffers p'.
Proof.
  intros Hc Hs s Hg. destruct (pool_ownership cfg0 calls Hc) as [Hh _].
  destruct (get_spec _ _ _ _ _ _ _ Hg Hs Hh) as ([Hnd Hl] & Hsz & _). fold s in Hl, Hnd.
  destruct (Hl (b_buffer b) (b_size b)) as (_ & _ & Hal & Hbl); [apply elem_of_app; right; left|].
  rewrite Hsz in Hbl. split_and!; [done|done|done| |];
    rewrite fmap_app in Hnd; csimpl in Hnd; unfold pool_list in Hnd;
    rewrite pool_list_keys in Hnd; apply NoDup_app in Hnd as (_ & Hx & Hnd).
  - by apply NoDup_cons in Hnd as [? _].
  - intros Hin. apply (Hx _ Hin). left.
Qed.

End ownership.

(** ** A concrete host memory

    An allocator that never reuses an address below one in use; the driver
    calls always succeed. *)
Definition top_address (h : heap) : Z := foldr Z.max 0 (elements (dom (blocks h))).

Lemma top_address_ge a n h : blocks h !! a = Some n -> a <= top_address h.
Proof.
  intros Ha. apply elem_of_dom_2, elem_of_elements in Ha. unfold top_address.
  induction (elements (dom (blocks h))) as [|x l IH]; [by apply not_elem_of_nil in Ha|].
  apply elem_of_cons in Ha as [->|Ha]; simpl; [lia|]. specialize (IH Ha). lia.
Qed.

Lemma top_address_nonneg h : 0 <= top_address h.
Proof. unfold top_address. induction (elements (dom (blocks h))); simpl; lia. Qed.

Lemma above_top h a : top_address h < a -> blocks h !! a = None.
Proof.
  intros Ha. destruct (blocks h !! a) as [n|] eqn:Hb; [|done].
  apply top_address_ge in Hb. lia.
Qed.

#[export] Instance bump_memory : HostMemory :=
  {| page_size := 4096;
     aligned_alloc al n h := al * (1 + top_address h);
     MemHostAlloc n h := Some (1 + top_address h);
     MemHostRegister _ _ _ := true;
     MemHostUnregister _ _ := true;
     MemFreeHost _ _ := true |}.

#[export] Instance bump_memory_laws : HostMemoryLaws.
Proof.
  split.
  - by exists 12.
  - intros al n h a Hal <- Ha. split; [|apply Z.divide_factor_l]. apply above_top.
    pose proof (top_address_nonneg h). cbn [aligned_alloc bump_memory]. nia.
  - intros n h a [= <-]. pose proof (top_address_nonneg h). split; [lia|]. apply above_top. lia.
Qed.

(** Two buffers of 5000 bytes, a change of the configured size while one is
    out, and a move. *)
Definition some_calls : list pool_call :=
  [Get 5000; Get 5000; Destroy 5000 0; Get 8192; MoveOut 1; Destroy 8192 1; Destroy 8192 3].

Lemma some_calls_ok : Forall call_ok some_calls.
Proof. repeat (constructor; [cbn; unfold is_size; try done; lia|]). constructor. Qed.

Example some_calls_run :
  let s := foldl (pool_step (H := PageAlignedAllocator)) (fresh_pool 5000) some_calls in
  the_pool s = mkPool [] 8192 /\
  handles s = [null_buffer; null_buffer; mkBuffer 68736258048 8192; null_buffer].
Proof. vm_compute. done. Qed.

Example pool_ownership_witness :
  Forall call_ok some_calls /\
  owns (H := PageAlignedAllocator) (footprint := page_footprint) (align := page_size)
    (foldl (pool_step (H := PageAlignedAllocator)) (fresh_pool 5000) some_calls).
Proof.
  split; [exact some_calls_ok|].
  apply (pool_ownership (H := PageAlignedAllocator) (footprint := page_footprint)
           (align := page_size) 5000 some_calls some_calls_ok).
Defined.

Example get_current_size_witness :
  let s := foldl (pool_step (H := PageAlignedAllocator)) (fresh_pool 5000) [Get 5000; Destroy 5000 0] in
  let '(r, p', h') := get (H := PageAlignedAllocator) 8192 (the_pool s) (the_heap s) in
  exists b, r = inr b /\ b_size b = 8192 /\ blocks h' !! b_buffer b = Some (page_footprint 8192) /\
    (page_size | b_buffer b) /\ b_buffer b ∉ (owned (handles s)).*1 /\
    b_buffer b ∉ free_buffers p'.
Proof.
  cbv zeta. destruct (get _ _ _) as [[[e|b] p'] h'] eqn:Hg.
  - exfalso. vm_compute in Hg. discriminate.
  - exists b. split; [done|].
    apply (get_current_size (H := PageAlignedAllocator) (footprint := page_footprint)
             (align := page_size) 5000 8192 [Get 5000; Destroy 5000 0] b p' h');
      [|unfold is_size; lia|exact Hg].
    repeat (constructor; [cbn; unfold is_size; try done; lia|]). constructor.
Defined.
