(* ===== verification/PosixIo.v ===== *)
(** * POSIX I/O with opportunistic Direct I/O

    [include/kvikio/detail/posix_io.hpp] and [src/detail/posix_io.cpp].  The
    kernel, the CUDA driver and the bounce buffer pool are parameters; every
    system call and every copy acts on an explicit state (host memory, device
    memory, the file) and the calls are recorded in a trace.  The kernel
    decides how many bytes a call transfers, or with which error it fails. *)

From stdpp Require Import base list strings.
From Stdlib Require Import ZArith Lia.
From S2P Require Import Prelude Utils BounceBuffer.

#[local] Open Scope Z_scope.

(** ** Data *)

Inductive IOOperationType := READ | WRITE.
Inductive PartialIO := YES | NO.

#[global] Instance IOOperationType_eq_dec : EqDecision IOOperationType.
Proof. solve_decision. Defined.

(** Bytes by address, or by file offset. *)
Abbreviation bytes := (Z -> Z) (only parsing).

Definition in_range (a base n : Z) : bool := (base <=? a) && (a <? base + n).

(** [dst] after copying [n] bytes of [src] from [s] to [d]. *)
Definition blit (dst : bytes) (d : Z) (src : bytes) (s n : Z) : bytes :=
  fun a => if in_range a d n then src (s + (a - d)) else dst a.

Record syscall := mkSyscall {
  sc_op : IOOperationType;
  sc_fd : Z;
  sc_buf : Z;
  sc_count : Z;
  sc_offset : Z }.

Record io_state := mkIo {
  host : bytes;
  device : bytes;
  file : bytes;
  trace : list syscall }.

(** The kernel: bytes transferred, or [errno], as a function of the calls so
    far. *)
Class Kernel := {
  kernel : list syscall -> syscall -> Z + Z;
  strerror : Z -> string }.

(** A pool of bounce buffers, as its clients see it. *)
Class BouncePool := { bounce_get : io_state -> result Buffer }.

(** Whether a CUDA copy and the synchronisation after it succeed. *)
Class CudaCopy := { cuda_stream_ok : bool; cuda_copy_ok : io_state -> bool }.

Definition EBADF : Z := 9.

Definition set_host (h : bytes) (s : io_state) : io_state := mkIo h (device s) (file s) (trace s).
Definition set_device (d : bytes) (s : io_state) : io_state := mkIo (host s) d (file s) (trace s).

Definition op_name (op : IOOperationType) : string :=
  match op with READ => "pread" | WRITE => "pwrite" end.

(** What the kernel does to the state when it transfers [n] bytes. *)
Definition transfer (c : syscall) (n : Z) (s : io_state) : io_state :=
  match sc_op c with
  | READ => mkIo (blit (host s) (sc_buf c) (file s) (sc_offset c) n) (device s) (file s)
              (trace s ++ [c])
  | WRITE => mkIo (host s) (device s) (blit (file s) (sc_offset c) (host s) (sc_buf c) n)
               (trace s ++ [c])
  end.

Definition memcpy (d s n : Z) (st : io_state) : io_state :=
  set_host (blit (host st) d (host st) s n) st.

(** ** Host memory *)

Section host_io.
Context `{Kernel}.

Definition posix_error (op : IOOperationType) (errno : Z) : exn :=
  if errno =? EBADF then CUfileException "POSIX error: Operation not permitted"
  else CUfileException ("POSIX error on " +:+ op_name op +:+ ": " +:+ strerror errno).

(** The lambda [pread_or_write]. *)
Definition pread_or_write (op : IOOperationType) (fd buf count offset : Z) (s : io_state)
    : result (Z * io_state) :=
  off ← convert_size2off offset;
  let c := mkSyscall op fd buf count off in
  match kernel (trace s) c with
  | inl n => mret (n, transfer c n s)
  | inr errno => Err (posix_error op errno)
  end.

Context `{BouncePool}.

Section with_page.
Variable page : Z.

(** The body of the loop of [posix_host_io], up to [nbytes_processed]. *)
Definition host_io_once (op : IOOperationType) (fd_direct_off fd_direct_on : Z)
    (buffer cur_offset bytes_remaining : Z) (s : io_state) : result (Z * io_state) :=
  if fd_direct_on =? -1 then
    pread_or_write op fd_direct_off buffer bytes_remaining cur_offset s
  else
    is_cur_offset_aligned ← is_aligned cur_offset page;
    if negb is_cur_offset_aligned then
      aligned_cur_offset ← align_up cur_offset page;
      let bytes_requested := Z.min (aligned_cur_offset -% cur_offset) bytes_remaining in
      pread_or_write op fd_direct_off buffer bytes_requested cur_offset s
    else if bytes_remaining <? page then
      pread_or_write op fd_direct_off buffer bytes_remaining cur_offset s
    else
      aligned_bytes_remaining ← align_down bytes_remaining page;
      is_buf_aligned ← is_aligned_addr buffer page;
      if negb is_buf_aligned then
        bounce_buffer ← bounce_get s;
        let aligned_buf := b_buffer bounce_buffer in
        let bytes_requested := Z.min aligned_bytes_remaining (b_size bounce_buffer) in
        let s :=
          match op with WRITE => memcpy aligned_buf buffer bytes_requested s | READ => s end in
        '(nbytes_processed, s) ←
          pread_or_write op fd_direct_on aligned_buf bytes_requested cur_offset s;
        let s :=
          match op with READ => memcpy buffer aligned_buf nbytes_processed s | WRITE => s end in
        mret (nbytes_processed, s)
      else pread_or_write op fd_direct_on buffer aligned_bytes_remaining cur_offset s.

(** The variables of the loop; [returned] is set by the early return. *)
Record host_loop := mkHostLoop {
  buffer : Z;
  cur_offset : Z;
  bytes_remaining : Z;
  returned : option Z;
  now_io : io_state }.

Definition host_io_cond (l : host_loop) : bool :=
  match returned l with Some _ => false | None => bytes_remaining l >? 0 end.

Definition host_io_body (op : IOOperationType) (partial : PartialIO)
    (fd_direct_off fd_direct_on : Z) (l : host_loop) : result host_loop :=
  '(nbytes_processed, s) ← host_io_once op fd_direct_off fd_direct_on
                             (buffer l) (cur_offset l) (bytes_remaining l) (now_io l);
  _ ← match op with
      | READ => expect (negb (nbytes_processed =? 0)) (CUfileException "POSIX error on pread: EOF")
      | WRITE => mret tt
      end;
  match partial with
  | YES => mret (mkHostLoop (buffer l) (cur_offset l) (bytes_remaining l)
                   (Some nbytes_processed) s)
  | NO => mret (mkHostLoop (buffer l + nbytes_processed) (cur_offset l +% nbytes_processed)
                  (bytes_remaining l -% nbytes_processed) None s)
  end.

(** Every round moves at least a byte. *)
Definition posix_host_io (op : IOOperationType) (partial : PartialIO)
    (fd_direct_off buf count offset fd_direct_on : Z) (s : io_state) : result (Z * io_state) :=
  l ← while_loop (Z.to_nat count) host_io_cond
        (host_io_body op partial fd_direct_off fd_direct_on)
        (mkHostLoop buf offset count None s);
  match returned l with
  | Some n => mret (n, now_io l)
  | None => n ← convert_size2ssize count; mret (n, now_io l)
  end.

(** [posix_host_read] and [posix_host_write]; [auto_direct_io] is the default
    of that name for the direction. *)
Definition cur_fd_direct_on (auto_direct_io : bool) (fd_direct_on : Z) : Z :=
  if negb (fd_direct_on =? -1) && auto_direct_io then fd_direct_on else -1.

Definition posix_host_read (auto_direct_io_read : bool) (partial : PartialIO)
    (fd_direct_off buf size file_offset fd_direct_on : Z) (s : io_state)
    : result (Z * io_state) :=
  posix_host_io READ partial fd_direct_off buf size file_offset
    (cur_fd_direct_on auto_direct_io_read fd_direct_on) s.

Definition posix_host_write (auto_direct_io_write : bool) (partial : PartialIO)
    (fd_direct_off buf size file_offset fd_direct_on : Z) (s : io_state)
    : result (Z * io_state) :=
  posix_host_io WRITE partial fd_direct_off buf size file_offset
    (cur_fd_direct_on auto_direct_io_write fd_direct_on) s.

End with_page.
End host_io.

(** ** Correctness of one round *)

(** The documented behaviour of [pread] and [pwrite] on a regular file of
    [file_size] bytes: a call that succeeds transfers at most what was asked
    and, when asked for bytes that exist (any bytes, for a write), at least
    one; nothing past the end is read. *)
Class KernelLaws `{Kernel} (file_size : Z) := {
  kernel_count tr c n : kernel tr c = inl n -> 0 < sc_count c -> 0 <= n <= sc_count c;
  kernel_eof tr c n : kernel tr c = inl n -> sc_op c = READ ->
    0 < sc_count c -> n <= Z.max 0 (file_size - sc_offset c);
  kernel_progress tr c n : kernel tr c = inl n -> 0 < sc_count c ->
    (sc_op c = READ -> sc_offset c < file_size) -> 0 < n }.

(** Bounce buffers are page-aligned, lie in memory of their own and have room
    for at least a page. *)
Class BouncePoolLaws `{BouncePool} (page : Z) (bounce_area : Z -> Prop) := {
  bounce_ok s b : bounce_get s = Ok b ->
    (page | b_buffer b) /\ page <= b_size b < SIZE_MOD /\ 0 <= b_buffer b < SIZE_MOD /\
    (forall a, b_buffer b <= a < b_buffer b + b_size b -> bounce_area a);
  bounce_fuel s : bounce_get s <> NoFuel }.

(** What moving [n] bytes between [buffer] and [offset] leaves behind; the
    bounce area is nobody's business. *)
Definition moved (bounce_area : Z -> Prop) (op : IOOperationType) (buffer offset n : Z)
    (s s' : io_state) : Prop :=
  (forall a, device s' a = device s a) /\
  match op with
  | READ =>
      (forall a, ~ bounce_area a ->
         host s' a = if in_range a buffer n then file s (offset + (a - buffer)) else host s a) /\
      (forall a, file s' a = file s a)
  | WRITE =>
      (forall a, ~ bounce_area a -> host s' a = host s a) /\
      (forall a, file s' a =
         if in_range a offset n then host s (buffer + (a - offset)) else file s a)
  end.

(** A call that goes through the O_DIRECT descriptor is fit for it. *)
Definition direct_ok (page fd_direct_on : Z) (c : syscall) : Prop :=
  sc_fd c = fd_direct_on -> (page | sc_buf c) /\ (page | sc_count c) /\ (page | sc_offset c).

Lemma in_range_true a b n : in_range a b n = true <-> b <= a < b + n.
Proof. unfold in_range. rewrite andb_true_iff. lia. Qed.

Lemma in_range_false a b n : in_range a b n = false <-> ~ (b <= a < b + n).
Proof. rewrite <- in_range_true. by destruct (in_range a b n). Qed.

(** Case on every range test of the goal. *)
Ltac range_case :=
  repeat match goal with
  | |- context [in_range ?a ?b ?n] =>
      let E := fresh "E" in
      destruct (in_range a b n) eqn:E;
      [apply in_range_true in E | apply in_range_false in E]
  end.

Lemma moved_nil area op buffer offset s : moved area op buffer offset 0 s s.
Proof.
  split; [done|]. destruct op; (split; intros a; [intros _|]); range_case; done || lia.
Qed.

(** Two transfers in a row are one transfer. *)
Lemma moved_trans area op buffer offset n m s s1 s2 :
  0 <= n -> 0 <= m ->
  (forall a, buffer <= a < buffer + n + m -> ~ area a) ->
  moved area op buffer offset n s s1 -> moved area op (buffer + n) (offset + n) m s1 s2 ->
  moved area op buffer offset (n + m) s s2.
Proof.
  intros Hn Hm Hd [Hd1 H1] [Hd2 H2]. split; [intros a; by rewrite Hd2|].
  destruct op; destruct H1 as [H1 H1'], H2 as [H2 H2']; split; intros a.
  - intros Ha. rewrite H2, H1 by done. range_case; try lia; rewrite ?H1'; f_equal; lia.
  - by rewrite H2'.
  - intros Ha. by rewrite H2, H1.
  - rewrite H2', H1'. range_case; try lia; try done;
      rewrite ?H1 by (apply Hd; lia); f_equal; lia.
Qed.

Section round.
Context `{KernelLaws} `{BouncePoolLaws}.
Variable k : Z.
Hypothesis page_pow2 : 0 <= k < 63.
Hypothesis page_is : page = 2 ^ k.

Definition io_failure (op : IOOperationType) (e : exn) : Prop :=
  (exists errno, e = posix_error op errno) \/ (exists s, bounce_get s = Err e).

(** What one round of the loop achieves. *)
Definition round_ok (op : IOOperationType) (fd_direct_on : Z) (buffer offset remaining : Z)
    (s : io_state) (r : Z * io_state) : Prop :=
  0 < r.1 <= remaining /\ moved bounce_area op buffer offset r.1 s r.2 /\
  exists c, trace r.2 = trace s ++ [c].

(** The transfer a call asks for exists: any bytes to write, bytes before the
    end of the file to read. *)
Definition available (op : IOOperationType) (offset : Z) : Prop :=
  match op with READ => offset < file_size | WRITE => True end.

Lemma pread_or_write_spec op fd buf count offset s :
  0 < count -> 0 <= offset < SSIZE_MAX -> available op offset ->
  returns (pread_or_write op fd buf count offset s)
    (fun r => 0 < r.1 <= count /\ r.2 = transfer (mkSyscall op fd buf count offset) r.1 s)
    (io_failure op).
Proof.
  intros Hc Ho Hav. unfold pread_or_write, convert_size2off.
  replace (offset <? SSIZE_MAX) with true by lia. simpl.
  destruct (kernel (trace s) _) as [n|errno] eqn:Hk; simpl.
  - split; [|done]. pose proof (kernel_count _ _ _ Hk Hc).
    assert (0 < n) by (eapply kernel_progress; [exact Hk|done|]; simpl; intros ->; exact Hav).
    simpl in *. lia.
  - left. by exists errno.
Qed.

Lemma transfer_moved op fd buf count offset n s :
  moved bounce_area op buf offset n s (transfer (mkSyscall op fd buf count offset) n s).
Proof. destruct op; by split. Qed.

Lemma direct_round op fd fd_on buf count offset s :
  0 < count -> 0 <= offset < SSIZE_MAX -> available op offset ->
  returns (pread_or_write op fd buf count offset s) (round_ok op fd_on buf offset count s)
    (io_failure op).
Proof.
  intros Hc Ho Hav. eapply returns_mono; [by apply pread_or_write_spec| |done].
  intros [n s'] [Hn Hs]. simpl in Hn, Hs. subst s'. split; [done|]. split; [apply transfer_moved|].
  eexists. by destruct op.
Qed.

Lemma round_weaken op fd_on buf offset count count' s r :
  count <= count' -> round_ok op fd_on buf offset count s r ->
  round_ok op fd_on buf offset count' s r.
Proof. intros Hle (Hn & Hm & Hc). split; [lia|]. by split. Qed.

Lemma page_range : 0 < page /\ page < SIZE_MOD.
Proof.
  rewrite page_is. split; [apply pow2_pos; lia|].
  change SIZE_MOD with (2 ^ 64). apply Z.pow_lt_mono_r; lia.
Qed.

(** Rounding a size down to pages leaves at least one. *)
Lemma align_down_page n :
  is_size n -> page <= n ->
  exists m, align_down n page = Ok m /\ page <= m <= n /\ (page | m).
Proof.
  intros Hn Hp. destruct page_range. rewrite page_is in *.
  eexists. split; [by apply align_down_ok; [lia|]|].
  assert (1 <= n / 2 ^ k) by (apply Z.div_le_lower_bound; lia).
  pose proof (Z.mul_div_le n (2 ^ k)). split; [nia|apply Z.divide_factor_l].
Qed.

(** The distance to the next page is positive and less than a page. *)
Lemma align_up_page n :
  0 <= n < SSIZE_MAX -> ~ (page | n) ->
  exists m, align_up n page = Ok m /\ n < m < n + page /\ m < SIZE_MOD.
Proof.
  intros Hn Hp. destruct page_range.
  assert (page <= 2 ^ 62) by (rewrite page_is; apply Z.pow_le_mono_r; lia).
  rewrite page_is in *.
  assert (n + 2 ^ k - 1 < SIZE_MOD) by lia.
  eexists. split; [apply align_up_ok; [lia|unfold is_size; lia|lia]|].
  pose proof (Z.mod_pos_bound (n + 2 ^ k - 1) (2 ^ k)).
  pose proof (Z.div_mod (n + 2 ^ k - 1) (2 ^ k)).
  assert (n <> 2 ^ k * ((n + 2 ^ k - 1) / 2 ^ k)).
  { intros Heq. apply Hp. rewrite Heq. apply Z.divide_factor_l. }
  lia.
Qed.

Lemma is_aligned_page n : is_aligned n page = Ok (n mod page =? 0).
Proof. rewrite page_is. apply is_aligned_ok. lia. Qed.

Lemma is_aligned_addr_page n : is_aligned_addr n page = Ok (n mod page =? 0).
Proof. exact (is_aligned_page n). Qed.

(** Through a bounce buffer, a transfer moves the same bytes. *)
Lemma bounce_read_moved b fd buf n m offset s :
  (forall a, b_buffer b <= a < b_buffer b + n -> bounce_area a) ->
  moved bounce_area READ buf offset n s
    (memcpy buf (b_buffer b) n (transfer (mkSyscall READ fd (b_buffer b) m offset) n s)).
Proof.
  intros Hb. split; [done|]. split; [|done]. intros a Ha.
  unfold memcpy, set_host, transfer. simpl. unfold blit at 1.
  range_case; unfold blit; range_case; try lia.
  - f_equal. lia.
  - exfalso. by apply Ha, Hb.
Qed.

Lemma bounce_write_moved b fd buf n m offset s :
  n <= m -> (forall a, b_buffer b <= a < b_buffer b + m -> bounce_area a) ->
  moved bounce_area WRITE buf offset n s
    (transfer (mkSyscall WRITE fd (b_buffer b) m offset) n (memcpy (b_buffer b) buf m s)).
Proof.
  intros Hnm Hb. split; [done|]. unfold memcpy, set_host, transfer, blit. simpl. split.
  - intros a Ha. range_case; [|done]. exfalso. by apply Ha, Hb.
  - intros a. range_case; try lia; try done. f_equal. lia.
Qed.

Lemma bounce_round op fd_on buf offset remaining s :
  is_size remaining -> page <= remaining -> 0 <= offset < SSIZE_MAX -> available op offset ->
  returns
    (abr ← align_down remaining page;
     b ← bounce_get s;
     let req := Z.min abr (b_size b) in
     let s := match op with WRITE => memcpy (b_buffer b) buf req s | READ => s end in
     '(n, s) ← pread_or_write op fd_on (b_buffer b) req offset s;
     let s := match op with READ => memcpy buf (b_buffer b) n s | WRITE => s end in
     mret (n, s))
    (fun r => 0 < r.1 <= remaining /\ moved bounce_area op buf offset r.1 s r.2 /\
       exists b c, bounce_get s = Ok b /\ trace r.2 = trace s ++ [c] /\
         ((page | offset) -> (page | b_size b) -> direct_ok page fd_on c))
    (io_failure op).
Proof.
  intros Hr Hp Ho Hav. destruct (align_down_page remaining Hr Hp) as (abr & Ha & Hab & Hdiv).
  rewrite Ha. cbn [mbind result_bind].
  destruct (bounce_get s) as [b|e|] eqn:Hg; cbn [mbind result_bind returns];
    [|right; by exists s|by apply (bounce_fuel s)].
  destruct (bounce_ok s b Hg) as (Hal & Hsz & Hbr & Harea). destruct page_range as [Hpage _].
  set (req := Z.min abr (b_size b)). apply returns_bind.
  eapply returns_mono; [apply pread_or_write_spec; [lia|done|done]| |done].
  intros [n s'] [Hn Hs]. simpl in Hn, Hs. subst s'.
  assert (Hdir : (page | offset) -> (page | b_size b) ->
      direct_ok page fd_on (mkSyscall op fd_on (b_buffer b) req offset)).
  { intros Hoff Hbs _. simpl. split_and!; [done| |done].
    unfold req. destruct (Z.min_spec abr (b_size b)) as [[_ ->]|[_ ->]]; done. }
  cbn [mbind result_bind mret result_ret returns fst snd]. split; [lia|]. split.
  - destruct op.
    + apply bounce_read_moved. intros a ?. apply Harea. lia.
    + apply bounce_write_moved; [lia|]. intros a ?. apply Harea. lia.
  - exists b. eexists. split; [done|]. by destruct op.
Qed.

(** The size of every bounce buffer is a multiple of the page. *)
Definition whole_pages : Prop := forall s b, bounce_get s = Ok b -> (page | b_size b).

Definition round_spec (op : IOOperationType) (fd_off fd_on : Z) (buf offset remaining : Z)
    (s : io_state) (r : Z * io_state) : Prop :=
  0 < r.1 <= remaining /\ moved bounce_area op buf offset r.1 s r.2 /\
  exists c, trace r.2 = trace s ++ [c] /\
    (whole_pages -> fd_off <> fd_on -> direct_ok page fd_on c).

Lemma buffered_round op fd_off fd_on buf offset count remaining s :
  0 < count <= remaining -> 0 <= offset < SSIZE_MAX -> available op offset ->
  returns (pread_or_write op fd_off buf count offset s)
    (round_spec op fd_off fd_on buf offset remaining s) (io_failure op).
Proof.
  intros Hc Ho Hav. eapply returns_mono; [by apply pread_or_write_spec; [lia|..]| |done].
  intros [n s'] [Hn Hs]. simpl in Hn, Hs. subst s'. split; [simpl; lia|].
  split; [apply transfer_moved|]. eexists. split; [by destruct op|]. intros _ Hne Hfd. done.
Qed.

Lemma host_io_once_spec op fd_off fd_on buf offset remaining s :
  0 < remaining -> 0 <= offset -> offset + remaining < SSIZE_MAX -> available op offset ->
  returns (host_io_once page op fd_off fd_on buf offset remaining s)
    (round_spec op fd_off fd_on buf offset remaining s) (io_failure op).
Proof.
  intros Hr Ho Hb Hav. unfold host_io_once. destruct page_range as [Hpage Hpage'].
  destruct (fd_on =? -1); [by apply buffered_round; [lia|lia|]|].
  rewrite (is_aligned_page offset). cbn [mbind result_bind].
  destruct (offset mod page =? 0) eqn:Hal; cbn [negb]; bool_to_prop.
  - apply Z.mod_divide in Hal; [|lia].
    destruct (remaining <? page) eqn:Hlt; bool_to_prop; [by apply buffered_round; [lia|lia|]|].
    pose proof (bounce_round op fd_on buf offset remaining s) as Hbr.
    destruct (align_down_page remaining) as (abr & Ha & Hab & Hdiv); [unfold is_size; lia|lia|].
    rewrite Ha in *. cbn [mbind result_bind] in *. rewrite is_aligned_addr_page.
    cbn [mbind result_bind]. destruct (buf mod page =? 0) eqn:Hbal; cbn [negb]; bool_to_prop.
    + apply Z.mod_divide in Hbal; [|lia].
      eapply returns_mono; [apply pread_or_write_spec; [lia|lia|done]| |done].
      intros [n s'] [Hn Hs]. simpl in Hn, Hs. subst s'. split; [simpl; lia|].
      split; [apply transfer_moved|]. eexists. split; [by destruct op|]. intros _ _ _. by split_and!.
    + eapply returns_mono; [apply Hbr; unfold is_size; try lia; done| |done].
      intros r (H1' & H2' & b & c & Hg & Hc & Hd). split; [done|]. split; [done|].
      exists c. split; [done|]. intros Hw _. apply Hd; [done|]. by eapply Hw.
  - assert (~ (page | offset)) as Hnd by (intros Hd; apply Hal, Z.mod_divide; [lia|done]).
    destruct (align_up_page offset) as (m & Hm & Hmr & Hm'); [lia|done|].
    rewrite Hm. cbn [mbind result_bind]. rewrite wrap64_small by lia.
    apply buffered_round; [lia|lia|done].
Qed.
(** What a call of several rounds leaves behind. *)
Definition io_done (op : IOOperationType) (fd_off fd_on : Z) (buf offset n : Z)
    (s s' : io_state) : Prop :=
  moved bounce_area op buf offset n s s' /\
  exists calls, trace s' = trace s ++ calls /\
    (whole_pages -> fd_off <> fd_on -> Forall (direct_ok page fd_on) calls).

Lemma io_done_nil op fd_off fd_on buf offset s : io_done op fd_off fd_on buf offset 0 s s.
Proof. split; [apply moved_nil|]. exists []. by rewrite app_nil_r. Qed.

Lemma io_done_trans op fd_off fd_on buf offset n m s s1 s2 :
  0 <= n -> 0 <= m -> (forall a, buf <= a < buf + n + m -> ~ bounce_area a) ->
  io_done op fd_off fd_on buf offset n s s1 ->
  io_done op fd_off fd_on (buf + n) (offset + n) m s1 s2 ->
  io_done op fd_off fd_on buf offset (n + m) s s2.
Proof.
  intros Hn Hm Hd [Hm1 (c1 & Hc1 & Hd1)] [Hm2 (c2 & Hc2 & Hd2)].
  split; [by eapply moved_trans|]. exists (c1 ++ c2). split; [by rewrite Hc2, Hc1, app_assoc|].
  intros Hw Hne. apply Forall_app. auto.
Qed.

Lemma round_done op fd_off fd_on buf offset remaining s r :
  round_spec op fd_off fd_on buf offset remaining s r ->
  io_done op fd_off fd_on buf offset r.1 s r.2.
Proof.
  intros (_ & Hm & c & Hc & Hd). split; [done|]. exists [c]. split; [done|].
  intros. constructor; auto.
Qed.

Definition host_inv (op : IOOperationType) (fd_off fd_on : Z) (buf offset count : Z)
    (s : io_state) (l : host_loop) : Prop :=
  let d := count - bytes_remaining l in
  returned l = None /\ 0 <= bytes_remaining l <= count /\ buffer l = buf + d /\
  cur_offset l = offset + d /\ io_done op fd_off fd_on buf offset d s (now_io l).

Lemma host_io_body_inv op fd_off fd_on buf offset count s l :
  0 <= offset -> offset + count < SSIZE_MAX ->
  (op = READ -> offset + count <= file_size) ->
  (forall a, buf <= a < buf + count -> ~ bounce_area a) ->
  host_inv op fd_off fd_on buf offset count s l -> host_io_cond l = true ->
  returns (host_io_body page op NO fd_off fd_on l)
    (fun l' => host_inv op fd_off fd_on buf offset count s l' /\
       0 <= bytes_remaining l' < bytes_remaining l)
    (io_failure op).
Proof.
  intros Ho Hb Hav Hd (Hret & Hr & Hbuf & Hoff & Hdone) Hc.
  unfold host_io_cond in Hc. rewrite Hret in Hc. bool_to_prop.
  unfold host_io_body. apply returns_bind.
  assert (available op (cur_offset l)) as Hav'.
  { unfold available. destruct op; [|done]. specialize (Hav eq_refl). lia. }
  eapply returns_mono; [apply host_io_once_spec; [lia|lia|lia|exact Hav']| |done].
  intros [n s'] Hround. pose proof (round_done _ _ _ _ _ _ _ _ Hround) as Hrd.
  destruct Hround as (Hn & _). cbn [fst snd] in *.
  assert (Hnext : returns (mret (mkHostLoop (buffer l + n) (cur_offset l +% n)
            (bytes_remaining l -% n) None s') : result host_loop)
    (fun l' => host_inv op fd_off fd_on buf offset count s l' /\
       0 <= bytes_remaining l' < bytes_remaining l) (io_failure op)).
  { simpl. rewrite !wrap64_small by lia. split; [|lia].
    unfold host_inv. simpl. split_and!; try lia; [done|].
    replace (count - (bytes_remaining l - n)) with ((count - bytes_remaining l) + n) by lia.
    eapply io_done_trans; [lia|lia| |exact Hdone|by rewrite <- Hbuf, <- Hoff].
    intros a Ha. apply Hd. lia. }
  destruct op; [|exact Hnext].
  destruct (n =? 0) eqn:Hz; [lia|]. exact Hnext.
Qed.

Lemma posix_host_io_all op fd_off fd_on buf offset count s :
  0 <= count -> 0 <= offset -> offset + count < SSIZE_MAX ->
  (op = READ -> offset + count <= file_size) ->
  (forall a, buf <= a < buf + count -> ~ bounce_area a) ->
  returns (posix_host_io page op NO fd_off buf count offset fd_on s)
    (fun r => r.1 = count /\ io_done op fd_off fd_on buf offset count s r.2)
    (io_failure op).
Proof.
  intros Hc Ho Hb Hav Hd. unfold posix_host_io. apply returns_bind.
  eapply returns_mono.
  - apply (while_rule (host_inv op fd_off fd_on buf offset count s) bytes_remaining
             (io_failure op)).
    + intros l Hl Hcond. split; [|by eapply host_io_body_inv].
      destruct Hl as (Hret & _). unfold host_io_cond in Hcond. rewrite Hret in Hcond.
      by bool_to_prop.
    + unfold host_inv. simpl. rewrite Z.sub_diag. split_and!; try lia; [done|apply io_done_nil].
    + simpl. lia.
  - intros l ((Hret & Hr & _ & _ & Hdone) & Hcond).
    unfold host_io_cond in Hcond. rewrite Hret in *. bool_to_prop.
    unfold convert_size2ssize. replace (count <? SSIZE_MAX) with true by lia. simpl.
    split; [done|]. replace count with (count - bytes_remaining l) by lia. exact Hdone.
  - done.
Qed.

(** With [PartialIO::YES] one round is all there is. *)
Lemma posix_host_io_one op fd_off fd_on buf offset count s :
  0 < count -> 0 <= offset -> offset + count < SSIZE_MAX -> available op offset ->
  returns (posix_host_io page op YES fd_off buf count offset fd_on s)
    (round_spec op fd_off fd_on buf offset count s) (io_failure op).
Proof.
  intros Hc Ho Hb Hav. unfold posix_host_io. apply returns_bind.
  destruct (Z.to_nat count) as [|fuel] eqn:Hf; [lia|]. cbn [while_loop].
  unfold host_io_cond at 1. cbn [returned bytes_remaining].
  replace (count >? 0) with true by lia. apply returns_bind.
  unfold host_io_body. cbn [buffer cur_offset bytes_remaining now_io]. apply returns_bind.
  eapply returns_mono; [by apply host_io_once_spec| |done].
  intros [n s'] Hround. pose proof Hround as (Hn & _). cbn [fst snd] in *.
  destruct op; [|by destruct fuel].
  destruct (n =? 0) eqn:Hz; [lia|]. by destruct fuel.
Qed.
End round.

(** ** Host I/O: the theorems *)

(** C17. A complete transfer between host memory and a file, with Direct I/O
    on or off and wherever buffer and offset lie: it terminates, returns the
    byte count, moves exactly the requested bytes to exactly the requested
    place, and touches nothing else; the only way to fail is that the kernel
    or the bounce buffer pool fails. *)
Theorem posix_host_io_moves `{KernelLaws} `{BouncePoolLaws} (k : Z)
    (op : IOOperationType) (fd_off fd_on buf offset count : Z) (s : io_state) :
  0 <= k < 63 -> page = 2 ^ k ->
  0 <= count -> 0 <= offset -> offset + count < SSIZE_MAX ->
  (op = READ -> offset + count <= file_size) ->
  (forall a, buf <= a < buf + count -> ~ bounce_area a) ->
  match posix_host_io page op NO fd_off buf count offset fd_on s with
  | Ok (n, s') => n = count /\ moved bounce_area op buf offset count s s'
  | Err e => io_failure op e
  | NoFuel => False
  end.
Proof.
  intros Hk Hp Hc Ho Hb Hav Hd.
  pose proof (posix_host_io_all k Hk Hp op fd_off fd_on buf offset count s Hc Ho Hb Hav Hd) as Hr.
  destruct (posix_host_io page op NO fd_off buf count offset fd_on s) as [[n s']|e|]; [|exact Hr|done].
  destruct Hr as (Hn & Hm & _). done.
Qed.

(** C18. When bounce buffers are whole pages, every system call that goes
    through the O_DIRECT descriptor has a page-aligned buffer, offset and
    size. *)
Theorem posix_host_io_direct_aligned `{KernelLaws} `{BouncePoolLaws} (k : Z)
    (op : IOOperationType) (fd_off fd_on buf offset count : Z) (s : io_state)
    (n : Z) (s' : io_state) :
  0 <= k < 63 -> page = 2 ^ k ->
  0 <= count -> 0 <= offset -> offset + count < SSIZE_MAX ->
  (op = READ -> offset + count <= file_size) ->
  (forall a, buf <= a < buf + count -> ~ bounce_area a) ->
  whole_pages (page := page) -> fd_off <> fd_on ->
  posix_host_io page op NO fd_off buf count offset fd_on s = Ok (n, s') ->
  exists calls, trace s' = trace s ++ calls /\ Forall (direct_ok page fd_on) calls.
Proof.
  intros Hk Hp Hc Ho Hb Hav Hd Hw Hne Hio.
  pose proof (posix_host_io_all k Hk Hp op fd_off fd_on buf offset count s Hc Ho Hb Hav Hd) as Hr.
  rewrite Hio in Hr. destruct Hr as (_ & _ & calls & Ht & Hdir). exists calls. auto.
Qed.

(** *** A kernel and a pool to run it with *)

(** A file of 20000 bytes; the kernel transfers everything, but at most 8192
    bytes at a time. *)
#[export] Instance test_kernel : Kernel :=
  {| kernel tr c :=
       match sc_op c with
       | READ => inl (Z.max 0 (Z.min (Z.min (sc_count c) 8192) (20000 - sc_offset c)))
       | WRITE => inl (Z.max 0 (Z.min (sc_count c) 8192))
       end;
     strerror _ := "error" |}.

#[export] Instance test_kernel_laws : KernelLaws 20000.
Proof.
  split; intros tr c n; cbn [kernel test_kernel]; destruct (sc_op c); intros [= <-]; try lia;
    try discriminate.
  intros Hc Ho. specialize (Ho eq_refl). lia.
Qed.

(** Bounce buffers of [n] bytes at address 2^20. *)
Definition fixed_pool (n : Z) : BouncePool := {| bounce_get _ := Ok (mkBuffer 1048576 n) |}.

Definition fixed_area (a : Z) : Prop := 1048576 <= a < 2097152.

Lemma fixed_pool_laws n :
  4096 <= n < 1048576 -> BouncePoolLaws (H := fixed_pool n) 4096 fixed_area.
Proof.
  intros Hn. split; [|done]. intros s b [= <-]. unfold fixed_area. simpl. split_and!; try lia.
  by exists 256.
Qed.

Definition test_state : io_state := mkIo (fun a => a) (fun a => - a) (fun a => 7 * a) [].

(** An unaligned buffer and offset: buffered prefix, direct middle through the
    bounce buffer, buffered suffix. *)
Example posix_host_io_run :
  match posix_host_io (H0 := fixed_pool 8192) 4096 READ NO 3 100 15000 1000 4 test_state with
  | Ok (n, s') =>
      n = 15000 /\ host s' 100 = 7000 /\ host s' 15099 = 7 * 15999 /\ host s' 15100 = 15100 /\
      trace s' = [mkSyscall READ 3 100 3096 1000; mkSyscall READ 4 1048576 8192 4096;
                  mkSyscall READ 3 11388 3712 12288]
  | _ => False
  end.
Proof. vm_compute. split_and!; reflexivity. Qed.

Example posix_host_io_moves_witness :
  4096 = 2 ^ 12 /\
  match posix_host_io (H0 := fixed_pool 8192) 4096 READ NO 3 100 15000 1000 4 test_state with
  | Ok (n, s') => n = 15000 /\ moved fixed_area READ 100 1000 15000 test_state s'
  | Err e => io_failure (H1 := fixed_pool 8192) READ e
  | NoFuel => False
  end.
Proof.
  split; [reflexivity|].
  apply (posix_host_io_moves (H1 := fixed_pool 8192) (H2 := fixed_pool_laws 8192 ltac:(lia))
           12 READ 3 4 100 1000 15000 test_state); unfold fixed_area; try lia; done.
Defined.

Example posix_host_io_direct_aligned_witness :
  whole_pages (H1 := fixed_pool 8192) (page := 4096) /\
  exists n s', posix_host_io (H0 := fixed_pool 8192) 4096 READ NO 3 100 15000 1000 4 test_state
                 = Ok (n, s') /\
    exists calls, trace s' = trace test_state ++ calls /\ Forall (direct_ok 4096 4) calls.
Proof.
  assert (whole_pages (H1 := fixed_pool 8192) (page := 4096)) as Hw.
  { intros s b [= <-]. by exists 2. }
  split; [exact Hw|].
  destruct (is_ok_inv
      (posix_host_io (H0 := fixed_pool 8192) 4096 READ NO 3 100 15000 1000 4 test_state))
    as [[n s'] Hio]; [vm_compute; reflexivity|].
  exists n, s'. split; [exact Hio|].
  apply (posix_host_io_direct_aligned (H1 := fixed_pool 8192)
           (H2 := fixed_pool_laws 8192 ltac:(lia))
           12 READ 3 4 100 1000 15000 test_state n s'); unfold fixed_area; try lia; done.
Defined.

(** The proviso of the previous property is needed: the configured bounce
    buffer size is any positive number, and with one of 5000 bytes an
    unaligned buffer makes [posix_host_io] ask the O_DIRECT descriptor for
    5000 bytes, although Direct I/O requires a multiple of the page. *)
Theorem odd_bounce_size_breaks_direct_io :
  exists n s', posix_host_io (H0 := fixed_pool 5000) 4096 READ NO 3 100 10000 0 4 test_state
                 = Ok (n, s') /\
    exists c, c ∈ trace s' /\ ~ direct_ok 4096 4 c.
Proof.
  assert (Ht : (fun r => trace r.2) <$>
      posix_host_io (H0 := fixed_pool 5000) 4096 READ NO 3 100 10000 0 4 test_state
    = Ok [mkSyscall READ 4 1048576 5000 0; mkSyscall READ 3 5100 3192 5000;
          mkSyscall READ 3 8292 1808 8192]) by (vm_compute; reflexivity).
  destruct (posix_host_io _ _ _ _ _ _ _ _ _) as [[n s']| |]; simpl in Ht; [|discriminate..].
  injection Ht as Ht. exists n, s'. split; [done|]. rewrite Ht.
  exists (mkSyscall READ 4 1048576 5000 0). split; [left|].
  intros Hd. destruct (Hd eq_refl) as (_ & [q Hq] & _). simpl in Hq. lia.
Qed.

(** ** Device memory *)

(** Which pool a transfer uses. *)
Inductive bounce_pool_type := CudaPinned | CudaPageAlignedPinned.

Definition cuda_stream_error : exn := CUfileException "CUDA error".

Section device_io.
Context `{Kernel} `{CudaCopy}.
Context (host_pool : BouncePool) (cuda_pool : bounce_pool_type -> BouncePool).
Variable page : Z.

(** [cuda_memcpy_async] followed by [StreamSynchronize]. *)
Definition copy_to_device (devPtr src n : Z) (s : io_state) : result io_state :=
  _ ← expect (cuda_copy_ok s) cuda_stream_error;
  mret (set_device (blit (device s) devPtr (host s) src n) s).

Definition copy_to_host (dst devPtr n : Z) (s : io_state) : result io_state :=
  _ ← expect (cuda_copy_ok s) cuda_stream_error;
  mret (set_host (blit (host s) dst (device s) devPtr n) s).

(** The variables of the loops below. *)
Record device_loop := mkDeviceLoop {
  cur_file_offset : Z;
  devPtr : Z;
  dev_remaining : Z;
  dev_now : io_state }.

Definition dev_cond (l : device_loop) : bool := dev_remaining l >? 0.

Definition device_body (op : IOOperationType) (fd_direct_off fd_direct_on : Z)
    (bounce_buffer : Buffer) (l : device_loop) : result device_loop :=
  let nbytes_requested := Z.min (b_size bounce_buffer) (dev_remaining l) in
  '(nbytes_io, s) ←
    match op with
    | READ =>
        '(nbytes_io, s) ← posix_host_io page READ YES fd_direct_off (b_buffer bounce_buffer)
                            nbytes_requested (cur_file_offset l) fd_direct_on (dev_now l);
        s ← copy_to_device (devPtr l) (b_buffer bounce_buffer) nbytes_io s;
        mret (nbytes_io, s)
    | WRITE =>
        s ← copy_to_host (b_buffer bounce_buffer) (devPtr l) nbytes_requested (dev_now l);
        '(_, s) ← posix_host_io page WRITE NO fd_direct_off (b_buffer bounce_buffer)
                    nbytes_requested (cur_file_offset l) fd_direct_on s;
        mret (nbytes_requested, s)
    end;
  mret (mkDeviceLoop (cur_file_offset l +% nbytes_io) (devPtr l + nbytes_io)
          (dev_remaining l -% nbytes_io) s).

Definition posix_device_io (op : IOOperationType) (pool : bounce_pool_type)
    (fd_direct_off devPtr_base size file_offset devPtr_offset fd_direct_on : Z) (s : io_state)
    : result (Z * io_state) :=
  _ ← match pool with
      | CudaPinned =>
          expect (fd_direct_on =? -1) (CUfileException
            "Direct I/O requires page-aligned bounce buffers. CudaPinnedBounceBufferPool does not guarantee page alignment. Use CudaPageAlignedPinnedBounceBufferPool instead.")
      | CudaPageAlignedPinned => mret tt
      end;
  bounce_buffer ← bounce_get (BouncePool := cuda_pool pool) s;
  _ ← expect cuda_stream_ok cuda_stream_error;
  l ← while_loop (Z.to_nat size) dev_cond
        (device_body op fd_direct_off fd_direct_on bounce_buffer)
        (mkDeviceLoop file_offset (devPtr_base + devPtr_offset) size s);
  mret (size, dev_now l).

(** One round of [posix_device_read_aligned]. *)
Definition read_aligned_body (fd_direct_off fd_direct_on : Z) (bounce_buffer : Buffer)
    (l : device_loop) : result device_loop :=
  aligned_offset ← align_down (cur_file_offset l) page;
  let prefix := cur_file_offset l -% aligned_offset in
  let nbytes_expected := Z.min (dev_remaining l) (b_size bounce_buffer -% prefix) in
  aligned_size ← align_up (prefix +% nbytes_expected) page;
  '(nbytes_io, s) ← posix_host_io page READ YES fd_direct_off (b_buffer bounce_buffer)
                      aligned_size aligned_offset fd_direct_on (dev_now l);
  _ ← expect (nbytes_io >? prefix)
        (CUfileException "pread(O_DIRECT): unexpected EOF within the requested range");
  let nbytes_processed := Z.min nbytes_expected (nbytes_io -% prefix) in
  s ← copy_to_device (devPtr l) (b_buffer bounce_buffer + prefix) nbytes_processed s;
  mret (mkDeviceLoop (cur_file_offset l +% nbytes_processed) (devPtr l + nbytes_processed)
          (dev_remaining l -% nbytes_processed) s).

Definition posix_device_read_aligned
    (fd_direct_off devPtr_base size file_offset devPtr_offset fd_direct_on : Z) (s : io_state)
    : result (Z * io_state) :=
  bounce_buffer ← bounce_get (BouncePool := cuda_pool CudaPageAlignedPinned) s;
  _ ← expect cuda_stream_ok cuda_stream_error;
  l ← while_loop (Z.to_nat size) dev_cond
        (read_aligned_body fd_direct_off fd_direct_on bounce_buffer)
        (mkDeviceLoop file_offset (devPtr_base + devPtr_offset) size s);
  mret (size, dev_now l).

(** The defaults [posix_device_read] and [posix_device_write] consult. *)
Record io_defaults := mkIoDefaults {
  auto_direct_io_read : bool;
  auto_direct_io_read_overread : bool;
  auto_direct_io_write : bool;
  bounce_buffer_size : Z }.

Definition posix_device_read (d : io_defaults)
    (fd_direct_off devPtr_base size file_offset devPtr_offset fd_direct_on : Z) (s : io_state)
    : result (Z * io_state) :=
  let lower_bound := 2 *% page in
  if negb (fd_direct_on =? -1) && auto_direct_io_read d && (bounce_buffer_size d >=? lower_bound)
  then
    if auto_direct_io_read_overread d then
      posix_device_read_aligned fd_direct_off devPtr_base size file_offset devPtr_offset
        fd_direct_on s
    else
      posix_device_io READ CudaPageAlignedPinned fd_direct_off devPtr_base size file_offset
        devPtr_offset fd_direct_on s
  else posix_device_io READ CudaPinned fd_direct_off devPtr_base size file_offset
         devPtr_offset (-1) s.

Definition posix_device_write (d : io_defaults)
    (fd_direct_off devPtr_base size file_offset devPtr_offset fd_direct_on : Z) (s : io_state)
    : result (Z * io_state) :=
  if negb (fd_direct_on =? -1) && auto_direct_io_write d then
    posix_device_io WRITE CudaPageAlignedPinned fd_direct_off devPtr_base size file_offset
      devPtr_offset fd_direct_on s
  else posix_device_io WRITE CudaPinned fd_direct_off devPtr_base size file_offset
         devPtr_offset (-1) s.

End device_io.

(** What moving [n] bytes between the device and the file leaves behind; host
    memory changes only in bounce buffers. *)
Definition device_moved (area : Z -> Prop) (op : IOOperationType) (dev offset n : Z)
    (s s' : io_state) : Prop :=
  (forall a, ~ area a -> host s' a = host s a) /\
  match op with
  | READ =>
      (forall a, device s' a =
         if in_range a dev n then file s (offset + (a - dev)) else device s a) /\
      (forall a, file s' a = file s a)
  | WRITE =>
      (forall a, device s' a = device s a) /\
      (forall a, file s' a =
         if in_range a offset n then device s (dev + (a - offset)) else file s a)
  end.

Lemma device_moved_nil area op dev offset s : device_moved area op dev offset 0 s s.
Proof. split; [done|]. destruct op; split; intros a; range_case; done || lia. Qed.

Lemma device_moved_trans area op dev offset n m s s1 s2 :
  0 <= n -> 0 <= m -> device_moved area op dev offset n s s1 ->
  device_moved area op (dev + n) (offset + n) m s1 s2 ->
  device_moved area op dev offset (n + m) s s2.
Proof.
  intros Hn Hm [Hh1 H1] [Hh2 H2]. split; [intros a Ha; by rewrite Hh2, Hh1|].
  destruct op; destruct H1 as [H1 H1'], H2 as [H2 H2']; split; intros a.
  - rewrite H2, H1. range_case; try lia; rewrite ?H1'; f_equal; lia.
  - by rewrite H2'.
  - by rewrite H2, H1.
  - rewrite H2', H1'. range_case; try lia; try done; rewrite ?H1; f_equal; lia.
Qed.

Section device_correct.
Context `{KernelLaws} `{CudaCopy}.
Context (host_pool : BouncePool) (cuda_pool : bounce_pool_type -> BouncePool).
Context (page : Z) (host_area cuda_area : Z -> Prop).
Context `{!BouncePoolLaws (H := host_pool) page host_area}.
Variable k : Z.
Hypothesis page_pow2 : 0 <= k < 63.
Hypothesis page_is : page = 2 ^ k.

(** The buffers of the CUDA pools lie outside those of the host pool.  Only
    the page-aligned ones are known to be aligned. *)
Hypothesis areas_disjoint : forall a, cuda_area a -> ~ host_area a.
Hypothesis cuda_pool_ok : forall pool s b,
  bounce_get (BouncePool := cuda_pool pool) s = Ok b ->
  0 < b_size b < SIZE_MOD /\
  (forall a, b_buffer b <= a < b_buffer b + b_size b -> cuda_area a).
Hypothesis cuda_pool_fuel : forall pool s, bounce_get (BouncePool := cuda_pool pool) s <> NoFuel.

Definition any_area (a : Z) : Prop := host_area a \/ cuda_area a.

Definition device_failure (op : IOOperationType) (e : exn) : Prop :=
  io_failure (H1 := host_pool) op e \/
  (exists pool s, bounce_get (BouncePool := cuda_pool pool) s = Err e) \/
  e = cuda_stream_error.

(** A loop has done its part of a transfer of [size] bytes. *)
Definition device_inv (op : IOOperationType) (dev offset size : Z) (s : io_state)
    (l : device_loop) : Prop :=
  let d := size - dev_remaining l in
  0 <= dev_remaining l <= size /\ devPtr l = dev + d /\ cur_file_offset l = offset + d /\
  device_moved any_area op dev offset d s (dev_now l).

(** One round moves [n] bytes, and the loop variables follow. *)
Definition device_round (op : IOOperationType) (l l' : device_loop) : Prop :=
  exists n, 0 < n <= dev_remaining l /\
    devPtr l' = devPtr l + n /\ cur_file_offset l' = cur_file_offset l + n /\
    dev_remaining l' = dev_remaining l - n /\
    device_moved any_area op (devPtr l) (cur_file_offset l) n (dev_now l) (dev_now l').

(** A round's body being right, so is the loop. *)
Lemma device_loop_spec (E : exn -> Prop) op dev offset size s (body : device_loop -> result device_loop) :
  0 <= size ->
  (forall l, device_inv op dev offset size s l -> 0 < dev_remaining l ->
     returns (body l) (device_round op l) E) ->
  returns (while_loop (Z.to_nat size) dev_cond body (mkDeviceLoop offset dev size s))
    (fun l => device_moved any_area op dev offset size s (dev_now l)) E.
Proof.
  intros Hs Hbody. eapply returns_mono.
  - apply (while_rule (device_inv op dev offset size s) dev_remaining E).
    + intros l Hl Hc. unfold dev_cond in Hc. bool_to_prop. split; [done|].
      eapply returns_mono; [by apply Hbody| |done].
      intros l' (n & Hn & Hp & Ho & Hr & Hm). destruct Hl as (Hr0 & Hp0 & Ho0 & Hm0).
      split; [|lia]. split_and!; try lia.
      replace (size - dev_remaining l') with ((size - dev_remaining l) + n) by lia.
      eapply device_moved_trans; [lia|lia|exact Hm0|]. by rewrite <- Hp0, <- Ho0.
    + unfold device_inv. simpl. rewrite Z.sub_diag. split_and!; try lia. apply device_moved_nil.
    + simpl. lia.
  - intros l ((Hr & _ & _ & Hm) & Hc). unfold dev_cond in Hc. bool_to_prop.
    by replace size with (size - dev_remaining l) by lia.
  - done.
Qed.

(** Staging a read: bytes read into a bounce buffer, copied out of it. *)
Lemma stage_read b buf off n m skip dev s s1 :
  (forall a, b <= a < b + m -> cuda_area a) -> 0 <= skip -> buf = b + skip ->
  0 <= n -> skip + n <= m ->
  moved host_area READ b off m s s1 ->
  device_moved any_area READ dev (off + skip) n s
    (set_device (blit (device s1) dev (host s1) buf n) s1).
Proof.
  intros Hb Hsk -> Hn Hnm [Hdev [Hh Hf]]. split; [|split]; simpl; [|intros a|done].
  - intros a Ha. rewrite Hh by (intros ?; apply Ha; by left).
    range_case; [|done]. exfalso. apply Ha. right. by apply Hb.
  - unfold blit. range_case; [|apply Hdev].
    rewrite Hh by (apply areas_disjoint, Hb; lia). range_case; [|lia]. f_equal. lia.
Qed.

Lemma stage_write b off n m dev s s1 :
  (forall a, b <= a < b + m -> cuda_area a) -> 0 <= n -> n <= m ->
  moved host_area WRITE b off n (set_host (blit (host s) b (device s) dev n) s) s1 ->
  device_moved any_area WRITE dev off n s s1.
Proof.
  intros Hb Hn Hnm [Hdev [Hh Hf]]. simpl in *. split; [|split; [done|]].
  - intros a Ha. rewrite Hh by (intros ?; apply Ha; by left). unfold blit.
    range_case; [|done]. exfalso. apply Ha. right. apply Hb. lia.
  - intros a. rewrite Hf. range_case; [|done]. unfold blit. range_case; [|lia]. f_equal. lia.
Qed.

Lemma device_body_spec op pool fd_off fd_on b s0 dev offset size s l :
  bounce_get (BouncePool := cuda_pool pool) s0 = Ok b ->
  0 <= offset -> offset + size < SSIZE_MAX -> (op = READ -> offset + size <= file_size) ->
  device_inv op dev offset size s l -> 0 < dev_remaining l ->
  returns (device_body host_pool page op fd_off fd_on b l) (device_round op l)
    (device_failure op).
Proof.
  intros Hb Ho Hsz Hav (Hr & Hp & Hoff & _) Hrem.
  destruct (cuda_pool_ok _ _ _ Hb) as [Hbs Hbr]. unfold device_body.
  set (req := Z.min (b_size b) (dev_remaining l)).
  destruct op; apply returns_bind.
  - apply returns_bind. eapply returns_mono;
      [apply (posix_host_io_one k page_pow2 page_is READ); [lia|lia|lia|]| |by left].
    { simpl. specialize (Hav eq_refl). lia. }
    intros [n s1] (Hn & Hm & _). cbn [fst snd] in *. unfold copy_to_device.
    destruct (cuda_copy_ok s1); simpl; [|by do 2 right].
    rewrite !wrap64_small by lia. exists n. simpl. split_and!; try lia.
    replace (cur_file_offset l) with (cur_file_offset l + 0) by lia.
    eapply (stage_read (b_buffer b) (b_buffer b) _ n n 0); try lia.
    + intros a ?. apply Hbr. lia.
    + by replace (cur_file_offset l + 0) with (cur_file_offset l) by lia.
  - unfold copy_to_host. destruct (cuda_copy_ok (dev_now l)); simpl; [|by do 2 right].
    apply returns_bind. eapply returns_mono;
      [apply (posix_host_io_all k page_pow2 page_is WRITE); [lia|lia|lia|done|]| |by left].
    { intros a Ha. apply areas_disjoint, Hbr. lia. }
    intros [n s1] (_ & Hm & _). cbn [fst snd] in *. simpl.
    rewrite !wrap64_small by lia. exists req. simpl. split_and!; try lia.
    eapply (stage_write (b_buffer b) _ req req); try lia; [|exact Hm].
    intros a ?. apply Hbr. lia.
Qed.

Lemma posix_device_io_spec op pool fd_off base size offset dev_off fd_on s :
  (pool = CudaPinned -> fd_on = -1) -> 0 <= size -> 0 <= offset ->
  offset + size < SSIZE_MAX -> (op = READ -> offset + size <= file_size) ->
  returns (posix_device_io host_pool cuda_pool page op pool fd_off base size offset dev_off
             fd_on s)
    (fun r => r.1 = size /\ device_moved any_area op (base + dev_off) offset size s r.2)
    (device_failure op).
Proof.
  intros Hpool Hs Ho Hsz Hav. unfold posix_device_io. apply returns_bind.
  assert (Hrest : returns (bounce_buffer ← bounce_get (BouncePool := cuda_pool pool) s;
      _ ← expect cuda_stream_ok cuda_stream_error;
      l ← while_loop (Z.to_nat size) dev_cond
            (device_body host_pool page op fd_off fd_on bounce_buffer)
            (mkDeviceLoop offset (base + dev_off) size s);
      mret (size, dev_now l))
    (fun r => r.1 = size /\ device_moved any_area op (base + dev_off) offset size s r.2)
    (device_failure op)).
  { destruct (bounce_get s) as [b|e|] eqn:Hb; simpl;
      [|right; left; eauto|by apply (cuda_pool_fuel pool s)].
    destruct cuda_stream_ok; simpl; [|by do 2 right]. apply returns_bind.
    eapply returns_mono; [apply (device_loop_spec _ op _ _ _ s); [done|]| |done].
    - intros l Hl Hrem. by eapply device_body_spec.
    - intros l Hl. by split. }
  destruct pool; [|exact Hrest]. rewrite (Hpool eq_refl). simpl.
  rewrite (Hpool eq_refl) in Hrest. exact Hrest.
Qed.
(** *** Over-reading to whole pages *)

(** What [CudaPageAlignedPinnedAllocator] allocates: whole pages. *)
Hypothesis aligned_pool_ok : forall s b,
  bounce_get (BouncePool := cuda_pool CudaPageAlignedPinned) s = Ok b ->
  (page | b_buffer b) /\
  (forall a, b_buffer b <= a < b_buffer b + page * ((b_size b + page - 1) / page) ->
     cuda_area a).

Definition short_read : exn :=
  CUfileException "pread(O_DIRECT): unexpected EOF within the requested range".

Definition aligned_failure (e : exn) : Prop := device_failure READ e \/ e = short_read.

(** The window of pages a round reads: it starts at the page of the current
    offset, covers the expected bytes and fits the allocation. *)
Lemma read_window cur rem bbs :
  0 <= cur -> 0 < rem -> cur + rem + 2 ^ 62 < SIZE_MOD -> cur + rem < SSIZE_MAX ->
  2 * page <= bbs < SIZE_MOD ->
  exists ao prefix sz,
    align_down cur page = Ok ao /\ cur -% ao = prefix /\ 0 <= prefix < page /\
    ao = cur - prefix /\ 0 <= ao /\
    let expected := Z.min rem (bbs -% prefix) in
    0 < expected <= rem /\ prefix + expected <= bbs /\
    align_up (prefix +% expected) page = Ok sz /\
    prefix + expected <= sz < prefix + expected + page /\
    sz <= page * ((bbs + page - 1) / page).
Proof.
  intros Hc Hr Hov Hss Hb.
  assert (page <= 2 ^ 62) as Hp62 by (rewrite page_is; apply Z.pow_le_mono_r; lia).
  assert (0 < page) as Hp0 by (rewrite page_is; apply pow2_pos; lia).
  pose proof (Z.mod_pos_bound cur page Hp0). pose proof (Z.div_mod cur page ltac:(lia)).
  pose proof (Z.div_pos cur page Hc Hp0).
  set (prefix := cur mod page) in *. set (exp := Z.min rem (bbs - prefix)).
  exists (page * (cur / page)), prefix, (page * ((prefix + exp + page - 1) / page)).
  split_and!; try lia.
  - rewrite page_is. apply align_down_ok; [lia|]. unfold is_size. lia.
  - rewrite wrap64_small by lia. lia.
  - cbv zeta. rewrite (wrap64_small (bbs - prefix)) by lia. fold exp.
    rewrite (wrap64_small (prefix + exp)) by lia.
    split_and!; try lia.
    + rewrite page_is. rewrite align_up_ok; [by rewrite <- page_is|lia|unfold is_size; lia|].
      rewrite <- page_is. lia.
    + pose proof (Z.mod_pos_bound (prefix + exp + page - 1) page Hp0).
      pose proof (Z.div_mod (prefix + exp + page - 1) page ltac:(lia)). lia.
    + pose proof (Z.mod_pos_bound (prefix + exp + page - 1) page Hp0).
      pose proof (Z.div_mod (prefix + exp + page - 1) page ltac:(lia)). lia.
    + apply Z.mul_le_mono_nonneg_l; [lia|]. apply Z.div_le_mono; lia.
Qed.

Lemma read_aligned_body_spec fd_off fd_on b s0 dev offset size s l :
  bounce_get (BouncePool := cuda_pool CudaPageAlignedPinned) s0 = Ok b ->
  2 * page <= b_size b -> 0 <= offset -> offset + size + page < SSIZE_MAX ->
  offset + size <= file_size ->
  device_inv READ dev offset size s l -> 0 < dev_remaining l ->
  returns (read_aligned_body host_pool page fd_off fd_on b l) (device_round READ l)
    aligned_failure.
Proof.
  intros Hb H2p Ho Hsz Hav (Hr & Hp & Hoff & _) Hrem.
  destruct (cuda_pool_ok _ _ _ Hb) as [Hbs _]. destruct (aligned_pool_ok _ _ Hb) as [_ Hbr].
  assert (2 ^ 62 < SSIZE_MAX) as H62 by reflexivity.
  assert (0 < page) as Hp0 by (rewrite page_is; apply pow2_pos; lia).
  destruct (read_window (cur_file_offset l) (dev_remaining l) (b_size b))
    as (ao & prefix & sz & Had & Hpre & Hpr & Hao & Hao0 & Hexp & Hfit & Hau & Hszr & Hszb); try lia.
  unfold read_aligned_body. rewrite Had. cbn [mbind result_bind]. rewrite Hpre.
  set (expected := Z.min (dev_remaining l) (b_size b -% prefix)) in *.
  rewrite Hau. cbn [mbind result_bind]. apply returns_bind.
  eapply returns_mono;
    [apply (posix_host_io_one k page_pow2 page_is READ); [lia|lia|lia|simpl; lia]| |by left; left].
  intros [n s1] (Hn & Hm & _). cbn [fst snd] in *.
  destruct (n >? prefix) eqn:Hgt; simpl; [|by right]. bool_to_prop.
  unfold copy_to_device. destruct (cuda_copy_ok s1); simpl; [|by left; do 2 right].
  rewrite (wrap64_small (n - prefix)) by lia. set (m := Z.min expected (n - prefix)).
  rewrite !wrap64_small by lia. exists m. simpl. split_and!; try lia.
  replace (cur_file_offset l) with (ao + prefix) by lia.
  eapply (stage_read (b_buffer b) (b_buffer b + prefix) ao m n prefix); try lia; [|exact Hm].
  intros a Ha. apply Hbr. lia.
Qed.

Lemma posix_device_read_aligned_spec fd_off base size offset dev_off fd_on s :
  (forall s b, bounce_get (BouncePool := cuda_pool CudaPageAlignedPinned) s = Ok b ->
     2 * page <= b_size b) ->
  0 <= size -> 0 <= offset -> offset + size + page < SSIZE_MAX -> offset + size <= file_size ->
  returns (posix_device_read_aligned host_pool cuda_pool page fd_off base size offset dev_off
             fd_on s)
    (fun r => r.1 = size /\ device_moved any_area READ (base + dev_off) offset size s r.2)
    aligned_failure.
Proof.
  intros H2p Hs Ho Hsz Hav. unfold posix_device_read_aligned.
  destruct (bounce_get s) as [b|e|] eqn:Hb; simpl;
    [|left; right; left; eauto|by apply (cuda_pool_fuel CudaPageAlignedPinned s)].
  destruct cuda_stream_ok; simpl; [|by left; do 2 right]. apply returns_bind.
  eapply returns_mono; [apply (device_loop_spec _ READ _ _ _ s); [done|]| |done].
  - intros l Hl Hrem. eapply read_aligned_body_spec; eauto.
  - intros l Hl. by split.
Qed.
End device_correct.

(** ** Device I/O: the theorems *)

(** The bounce buffer pools of a process: three pools with memory of their
    own, every buffer of the configured size, the page-aligned CUDA ones
    aligned and with room up to the next page. *)
Class StagingLaws (host_pool : BouncePool) (cuda_pool : bounce_pool_type -> BouncePool)
    (page : Z) (host_area cuda_area : Z -> Prop) (bounce_buffer_size : Z) := {
  staging_host : BouncePoolLaws (H := host_pool) page host_area;
  staging_page : exists k, 0 <= k < 63 /\ page = 2 ^ k;
  staging_disjoint a : cuda_area a -> ~ host_area a;
  staging_cuda pool s b : bounce_get (BouncePool := cuda_pool pool) s = Ok b ->
    b_size b = bounce_buffer_size /\ 0 < b_size b < SIZE_MOD /\
    (forall a, b_buffer b <= a < b_buffer b + b_size b -> cuda_area a);
  staging_aligned s b : bounce_get (BouncePool := cuda_pool CudaPageAlignedPinned) s = Ok b ->
    (page | b_buffer b) /\
    (forall a, b_buffer b <= a < b_buffer b + page * ((b_size b + page - 1) / page) ->
       cuda_area a);
  staging_fuel pool s : bounce_get (BouncePool := cuda_pool pool) s <> NoFuel }.

Lemma posix_device_read_total `{KernelLaws} `{CudaCopy} host_pool cuda_pool page
    host_area cuda_area (d : io_defaults)
    `{!StagingLaws host_pool cuda_pool page host_area cuda_area (bounce_buffer_size d)}
    (fd_off base size offset dev_off fd_on : Z) (s : io_state) :
  0 <= size -> 0 <= offset -> offset + size + page < SSIZE_MAX -> offset + size <= file_size ->
  returns (posix_device_read host_pool cuda_pool page d fd_off base size offset dev_off fd_on s)
    (fun r => r.1 = size /\
       device_moved (any_area host_area cuda_area) READ (base + dev_off) offset size s r.2)
    (aligned_failure host_pool cuda_pool).
Proof.
  intros Hs Ho Hsz Hav. destruct staging_page as (k & Hk & Hp).
  assert (Hc : forall pool s b, bounce_get (BouncePool := cuda_pool pool) s = Ok b ->
    0 < b_size b < SIZE_MOD /\
    (forall a, b_buffer b <= a < b_buffer b + b_size b -> cuda_area a))
    by (intros pool s1 b Hb; by destruct (staging_cuda pool s1 b Hb) as (_ & ? & ?)).
  assert (0 < page) by (rewrite Hp; apply pow2_pos; lia).
  assert (page <= 2 ^ 62) by (rewrite Hp; apply Z.pow_le_mono_r; lia).
  pose proof staging_host.
  assert (Hio : forall pool fd_on, (pool = CudaPinned -> fd_on = -1) ->
    returns (posix_device_io host_pool cuda_pool page READ pool fd_off base size offset dev_off
               fd_on s)
    (fun r => r.1 = size /\
       device_moved (any_area host_area cuda_area) READ (base + dev_off) offset size s r.2)
    (aligned_failure host_pool cuda_pool)).
  { intros pool fd Hpool. eapply returns_mono;
      [eapply (posix_device_io_spec host_pool cuda_pool page host_area cuda_area k);
         eauto using staging_disjoint, staging_fuel with lia|done|by left]. }
  unfold posix_device_read. rewrite (wrap64_small (2 * page)) by lia.
  destruct (_ && _ && _) eqn:Hg; [|by apply Hio]. bool_to_prop.
  destruct (auto_direct_io_read_overread d); [|by apply Hio].
  eapply (posix_device_read_aligned_spec host_pool cuda_pool page host_area cuda_area k);
    eauto using staging_disjoint, staging_fuel, staging_aligned.
  intros s1 b Hb. destruct (staging_cuda _ s1 b Hb) as (-> & _). done.
Qed.

(** C3. Reading a file into device memory, whichever of the three strategies
    the defaults select: it terminates, returns the size, fills exactly the
    requested device range with the file's bytes, and changes neither the
    file, nor other device memory, nor host memory outside bounce buffers; it
    throws only when the kernel, a pool or CUDA failed or the kernel cut a
    Direct I/O read short. *)
Theorem posix_device_read_moves `{KernelLaws} `{CudaCopy} host_pool cuda_pool page
    host_area cuda_area (d : io_defaults)
    `{!StagingLaws host_pool cuda_pool page host_area cuda_area (bounce_buffer_size d)}
    (fd_off base size offset dev_off fd_on : Z) (s : io_state) :
  0 <= size -> 0 <= offset -> offset + size + page < SSIZE_MAX -> offset + size <= file_size ->
  match posix_device_read host_pool cuda_pool page d fd_off base size offset dev_off fd_on s with
  | Ok (n, s') => n = size /\
      device_moved (any_area host_area cuda_area) READ (base + dev_off) offset size s s'
  | Err e => aligned_failure host_pool cuda_pool e
  | NoFuel => False
  end.
Proof.
  intros Hs Ho Hsz Hav.
  pose proof (posix_device_read_total host_pool cuda_pool page host_area cuda_area d
    fd_off base size offset dev_off fd_on s Hs Ho Hsz Hav) as Hr.
  by destruct (posix_device_read _ _ _ _ _ _ _ _ _ _ _) as [[n s']|e|].
Qed.

Lemma posix_device_write_total `{KernelLaws} `{CudaCopy} host_pool cuda_pool page
    host_area cuda_area (d : io_defaults)
    `{!StagingLaws host_pool cuda_pool page host_area cuda_area (bounce_buffer_size d)}
    (fd_off base size offset dev_off fd_on : Z) (s : io_state) :
  0 <= size -> 0 <= offset -> offset + size < SSIZE_MAX ->
  returns (posix_device_write host_pool cuda_pool page d fd_off base size offset dev_off fd_on s)
    (fun r => r.1 = size /\
       device_moved (any_area host_area cuda_area) WRITE (base + dev_off) offset size s r.2)
    (device_failure host_pool cuda_pool WRITE).
Proof.
  intros Hs Ho Hsz. destruct staging_page as (k & Hk & Hp).
  assert (Hc : forall pool s b, bounce_get (BouncePool := cuda_pool pool) s = Ok b ->
    0 < b_size b < SIZE_MOD /\
    (forall a, b_buffer b <= a < b_buffer b + b_size b -> cuda_area a))
    by (intros pool s1 b Hb; by destruct (staging_cuda pool s1 b Hb) as (_ & ? & ?)).
  pose proof staging_host.
  assert (Hio : forall pool fd_on, (pool = CudaPinned -> fd_on = -1) ->
    returns (posix_device_io host_pool cuda_pool page WRITE pool fd_off base size offset dev_off
               fd_on s)
    (fun r => r.1 = size /\
       device_moved (any_area host_area cuda_area) WRITE (base + dev_off) offset size s r.2)
    (device_failure host_pool cuda_pool WRITE)).
  { intros pool fd Hpool.
    eapply (posix_device_io_spec host_pool cuda_pool page host_area cuda_area k);
      eauto using staging_disjoint, staging_fuel with lia; done. }
  unfold posix_device_write. destruct (_ && _); by apply Hio.
Qed.

(** Writing device memory to a file, with Direct I/O on or off: it
    terminates, returns the size, and replaces exactly the requested range of
    the file by the device's bytes. *)
Theorem posix_device_write_moves `{KernelLaws} `{CudaCopy} host_pool cuda_pool page
    host_area cuda_area (d : io_defaults)
    `{!StagingLaws host_pool cuda_pool page host_area cuda_area (bounce_buffer_size d)}
    (fd_off base size offset dev_off fd_on : Z) (s : io_state) :
  0 <= size -> 0 <= offset -> offset + size < SSIZE_MAX ->
  match posix_device_write host_pool cuda_pool page d fd_off base size offset dev_off fd_on s with
  | Ok (n, s') => n = size /\
      device_moved (any_area host_area cuda_area) WRITE (base + dev_off) offset size s s'
  | Err e => device_failure host_pool cuda_pool WRITE e
  | NoFuel => False
  end.
Proof.
  intros Hs Ho Hsz.
  pose proof (posix_device_write_total host_pool cuda_pool page host_area cuda_area d
    fd_off base size offset dev_off fd_on s Hs Ho Hsz) as Hr.
  by destruct (posix_device_write _ _ _ _ _ _ _ _ _ _ _) as [[n s']|e|].
Qed.

Definition fixed_cuda_pool (n : Z) (pool : bounce_pool_type) : BouncePool :=
  {| bounce_get _ := Ok (mkBuffer 2097152 n) |}.

Definition fixed_cuda_area (a : Z) : Prop := 2097152 <= a.

Lemma fixed_staging n :
  4096 <= n < 1048576 ->
  StagingLaws (fixed_pool n) (fixed_cuda_pool n) 4096 fixed_area fixed_cuda_area n.
Proof.
  intros Hn. split.
  - by apply fixed_pool_laws.
  - exists 12. done.
  - unfold fixed_area, fixed_cuda_area. lia.
  - intros pool s b [= <-]. unfold fixed_cuda_area. simpl. split_and!; lia.
  - intros s b [= <-]. unfold fixed_cuda_area. simpl. split; [by exists 512|lia].
  - done.
Qed.

#[export] Instance test_cuda : CudaCopy := {| cuda_stream_ok := true; cuda_copy_ok _ := true |}.

Definition overread : io_defaults := mkIoDefaults true true true 8192.

Example posix_device_read_run :
  (fun r => (r.1, trace r.2)) <$>
    posix_device_read (fixed_pool 8192) (fixed_cuda_pool 8192) 4096 overread 3 50 9000 1000 0 4
      test_state
  = Ok (9000, [mkSyscall READ 4 2097152 8192 0; mkSyscall READ 4 2097152 4096 8192]).
Proof. vm_compute. reflexivity. Qed.

Example posix_device_read_moves_witness :
  9000 + 1000 + 4096 < SSIZE_MAX /\
  match posix_device_read (fixed_pool 8192) (fixed_cuda_pool 8192) 4096 overread 3 50 9000 1000 0 4
          test_state with
  | Ok (n, s') => n = 9000 /\
      device_moved (any_area fixed_area fixed_cuda_area) READ (50 + 0) 1000 9000 test_state s'
  | Err e => aligned_failure (fixed_pool 8192) (fixed_cuda_pool 8192) e
  | NoFuel => False
  end.
Proof.
  split; [lia|].
  apply (posix_device_read_moves (fixed_pool 8192) (fixed_cuda_pool 8192) 4096
           fixed_area fixed_cuda_area overread (StagingLaws0 := fixed_staging 8192 ltac:(lia))
           3 50 9000 1000 0 4 test_state); lia.
Defined.

Example posix_device_write_moves_witness :
  9000 + 1000 < SSIZE_MAX /\
  match posix_device_write (fixed_pool 8192) (fixed_cuda_pool 8192) 4096 overread 3 50 9000 1000 0 4
          test_state with
  | Ok (n, s') => n = 9000 /\
      device_moved (any_area fixed_area fixed_cuda_area) WRITE (50 + 0) 1000 9000 test_state s'
  | Err e => device_failure (fixed_pool 8192) (fixed_cuda_pool 8192) WRITE e
  | NoFuel => False
  end.
Proof.
  split; [lia|].
  apply (posix_device_write_moves (fixed_pool 8192) (fixed_cuda_pool 8192) 4096
           fixed_area fixed_cuda_area overread (StagingLaws0 := fixed_staging 8192 ltac:(lia))
           3 50 9000 1000 0 4 test_state); lia.
Defined.
