(* ===== verification/RequestLimiter.v ===== *)
(** * The concurrent request limiter

    [src/detail/concurrent_request_limiter.cpp]: a counter of request slots
    with a hard ceiling, shared by the reactors.  Threads inside the
    compare-exchange loop of [try_acquire] are interleaved at the granularity
    of its atomic operations; a [Slot] object is a boolean, whether it holds
    the limiter. *)

From stdpp Require Import base list relations.
From Stdlib Require Import ZArith Lia.
From S2P Require Import Prelude.

#[local] Open Scope Z_scope.

Record limiter := mkLimiter {
  count : Z;                 (* _count *)
  in_cas : list Z;           (* the [cur] of each thread inside the loop *)
  slots : list bool }.       (* the Slot objects *)

Definition new_limiter : limiter := mkLimiter 0 [] [].

Definition slot_bool (s : bool) : bool := s.

Section limiter.
Variable max_concurrent_requests : option Z.

Definition unlimited : bool :=
  match max_concurrent_requests with None => true | Some _ => false end.

(** [release], and what it logs when it is called once too often. *)
Definition release (count : Z) : Z * bool := (count -% 1, count =? 0).

(** [Slot::reset], also the destructor's body. *)
Definition reset_slot (i : nat) (l : limiter) : limiter :=
  match slots l !! i with
  | Some true => mkLimiter (release (count l)).1 (in_cas l) (<[i := false]> (slots l))
  | _ => l
  end.

(** [Slot(Slot&&)]: a new object takes over. *)
Definition move_slot (i : nat) (l : limiter) : limiter :=
  match slots l !! i with
  | Some b => mkLimiter (count l) (in_cas l) (<[i := false]> (slots l) ++ [b])
  | None => l
  end.

(** [operator=(Slot&&)]. *)
Definition move_assign_slot (i j : nat) (l : limiter) : limiter :=
  if decide (i = j) then l
  else
    match slots l !! i, slots l !! j with
    | Some _, Some b =>
        let l := reset_slot i l in
        mkLimiter (count l) (in_cas l) (<[j := false]> (<[i := b]> (slots l)))
    | _, _ => l
    end.

(** The atomic steps. *)
Inductive limiter_step : limiter -> limiter -> Prop :=
  | acquire_unlimited l :
      max_concurrent_requests = None ->
      limiter_step l (mkLimiter (count l +% 1) (in_cas l) (slots l ++ [true]))
  | acquire_load l :                     (* cur = _count.load() *)
      unlimited = false ->
      limiter_step l (mkLimiter (count l) (in_cas l ++ [count l]) (slots l))
  | acquire_refused k cur m l :          (* return Slot{} *)
      max_concurrent_requests = Some m -> in_cas l !! k = Some cur -> cur >= m ->
      limiter_step l (mkLimiter (count l) (delete k (in_cas l)) (slots l ++ [false]))
  | acquire_exchanged k cur m l :        (* the exchange succeeds *)
      max_concurrent_requests = Some m -> in_cas l !! k = Some cur -> cur < m ->
      cur = count l ->
      limiter_step l (mkLimiter (cur +% 1) (delete k (in_cas l)) (slots l ++ [true]))
  | acquire_retry k cur m l :            (* it fails, perhaps spuriously *)
      max_concurrent_requests = Some m -> in_cas l !! k = Some cur -> cur < m ->
      limiter_step l (mkLimiter (count l) (<[k := count l]> (in_cas l)) (slots l))
  | slot_reset i l : limiter_step l (reset_slot i l)
  | slot_move i l : limiter_step l (move_slot i l)
  | slot_move_assign i j l : limiter_step l (move_assign_slot i j l).

(** [try_acquire] by a thread that is not interfered with. *)
Definition try_acquire (l : limiter) : limiter :=
  match max_concurrent_requests with
  | None => mkLimiter (count l +% 1) (in_cas l) (slots l ++ [true])
  | Some m =>
      if count l >=? m then mkLimiter (count l) (in_cas l) (slots l ++ [false])
      else mkLimiter (count l +% 1) (in_cas l) (slots l ++ [true])
  end.

(** ** The cap *)

Definition held (l : limiter) : nat := length (filter (fun b => b = true) (slots l)).

Record limiter_ok (l : limiter) : Prop := mkLimiterOk {
  lo_count : count l = wrap64 (Z.of_nat (held l));
  lo_cap : forall m, max_concurrent_requests = Some m -> Z.of_nat (held l) <= m }.

Lemma held_app ss b :
  length (filter (fun b => b = true) (ss ++ [b]))
    = (length (filter (fun b => b = true) ss) + Nat.b2n b)%nat.
Proof. rewrite filter_app, length_app. by destruct b. Qed.

Lemma held_set (ss : list bool) i b c :
  ss !! i = Some b ->
  (length (filter (fun b => b = true) (<[i := c]> ss)) + Nat.b2n b
    = length (filter (fun b => b = true) ss) + Nat.b2n c)%nat.
Proof.
  revert i. induction ss as [|x ss IH]; intros [|i] Hi; try done.
  - simpl in Hi. injection Hi as ->. cbn [insert list_insert]. rewrite !filter_cons.
    destruct b, c; simpl; lia.
  - simpl in Hi. specialize (IH i Hi). change (<[S i := c]> (x :: ss)) with (x :: <[i := c]> ss).
    rewrite !filter_cons.
    destruct x; simpl; lia.
Qed.

Lemma wrap64_add x y : wrap64 (wrap64 x + y) = wrap64 (x + y).
Proof. unfold wrap64. by rewrite Zplus_mod_idemp_l. Qed.

Lemma reset_slot_ok i l : limiter_ok l -> limiter_ok (reset_slot i l).
Proof.
  intros [Hc Hm]. unfold reset_slot. destruct (slots l !! i) as [[|]|] eqn:Hi; [|done|done].
  pose proof (held_set _ _ _ false Hi) as Hh. simpl in Hh. constructor; unfold held in *; simpl.
  - rewrite Hc. unfold Z.sub. rewrite wrap64_add. f_equal. lia.
  - intros m Hmax. specialize (Hm m Hmax). lia.
Qed.

Lemma limiter_step_ok l l' :
  (forall m, max_concurrent_requests = Some m -> 0 <= m < SIZE_MOD) ->
  limiter_ok l -> limiter_step l l' -> limiter_ok l'.
Proof.
  intros Hbound Hl Hstep. pose proof Hl as [Hc Hm].
  destruct Hstep as [l Hmax|l Hu|k cur m l Hmax Hk Hge|k cur m l Hmax Hk Hlt Hcur
                    |k cur m l Hmax Hk Hlt|i l|i l|i j l]; [..|by apply reset_slot_ok| |].
  - constructor; unfold held in *; simpl; rewrite held_app; simpl.
    + rewrite Hc, wrap64_add. f_equal. lia.
    + intros m' Hm'. congruence.
  - by constructor.
  - constructor; unfold held in *; simpl; rewrite held_app; simpl; [by rewrite Nat.add_0_r|].
    intros m' Hm'. rewrite Nat.add_0_r. by apply Hm.
  - pose proof (Hm m Hmax) as Hle. pose proof (Hbound m Hmax).
    rewrite wrap64_small in Hc by lia.
    constructor; unfold held in *; simpl; rewrite held_app; simpl.
    + rewrite Hcur, Hc. f_equal. lia.
    + intros m' Hm'. replace m' with m by congruence. lia.
  - by constructor.
  - unfold move_slot. destruct (slots l !! i) as [b|] eqn:Hi; [|done].
    pose proof (held_set _ _ _ false Hi) as Hh. simpl in Hh.
    constructor; unfold held in *; simpl; rewrite held_app.
    + rewrite Hc. do 2 f_equal. lia.
    + intros m Hmax. specialize (Hm m Hmax). lia.
  - unfold move_assign_slot. destruct (decide (i = j)) as [|Hne]; [done|].
    destruct (slots l !! i) as [bi|] eqn:Hi; [|done].
    destruct (slots l !! j) as [bj|] eqn:Hj; [|done].
    pose proof (reset_slot_ok i l Hl) as [Hc' Hm'].
    assert (Hsl : slots (reset_slot i l) !! i = Some false /\ slots (reset_slot i l) !! j = Some bj).
    { unfold reset_slot. rewrite Hi. destruct bi; [|done]. simpl.
      rewrite list_lookup_insert_eq by (by eapply lookup_lt_Some).
      rewrite list_lookup_insert_ne by done. done. }
    destruct Hsl as [Hi' Hj'].
    pose proof (held_set _ _ _ bj Hi') as H1.
    assert (Hj2 : <[i := bj]> (slots (reset_slot i l)) !! j = Some bj)
      by (by rewrite list_lookup_insert_ne).
    pose proof (held_set _ _ _ false Hj2) as H2. simpl in H1, H2.
    constructor; unfold held in *; simpl.
    + rewrite Hc'. do 2 f_equal. lia.
    + intros m Hmax. specialize (Hm' m Hmax). lia.
Qed.
End limiter.

(** In every interleaving the counter is the number of slots held, and
    with a ceiling of [m] no more than [m] are ever held at once; a release
    never finds the counter at zero. *)
Theorem limiter_hard_cap (max : option Z) (l : limiter) :
  (forall m, max = Some m -> 0 <= m < SIZE_MOD) ->
  rtc (limiter_step max) new_limiter l -> Z.of_nat (length (slots l)) < SIZE_MOD ->
  count l = Z.of_nat (held l) /\
  (forall m, max = Some m -> Z.of_nat (held l) <= m) /\
  (forall i, slots l !! i = Some true -> (release (count l)).2 = false).
Proof.
  intros Hb Hr Hlen. assert (Hl : limiter_ok max l).
  { assert (H0 : limiter_ok max new_limiter).
    { constructor; [done|]. intros m Hm. specialize (Hb m Hm). unfold held. simpl. lia. }
    clear Hlen. revert H0. induction Hr; intros H0; [done|]. apply IHHr; [done..|].
    by eapply limiter_step_ok. }
  destruct Hl as [Hc Hm]. assert (held l <= length (slots l))%nat by apply length_filter.
  rewrite wrap64_small in Hc by lia. split_and!; [done|done|].
  intros i Hi. unfold release. simpl. rewrite Hc.
  pose proof (held_set _ _ _ false Hi) as Hh. simpl in Hh. unfold held. lia.
Qed.

(** The atomic steps refine the sequential meaning of [try_acquire]: run
    alone it yields a slot exactly when fewer than the ceiling are held. *)
Theorem try_acquire_refines (max : option Z) (l : limiter) :
  0 <= count l < SIZE_MOD - 1 -> (forall m, max = Some m -> 0 <= m < SIZE_MOD) ->
  rtc (limiter_step max) l (try_acquire max l) /\
  (last (slots (try_acquire max l)) = Some true <->
     match max with None => True | Some m => count l < m end).
Proof.
  intros Hc Hb. unfold try_acquire. destruct max as [m|] eqn:Hmax.
  - assert (Hdel : delete (length (in_cas l)) (in_cas l ++ [count l]) = in_cas l).
    { rewrite delete_take_drop, take_app_length, drop_ge, app_nil_r; [done|].
      rewrite length_app. simpl. lia. }
    assert (Hk : (in_cas l ++ [count l]) !! length (in_cas l) = Some (count l))
      by (by apply list_lookup_middle).
    destruct (count l >=? m) eqn:Hge; bool_to_prop; cbn [slots]; rewrite last_snoc;
      (split; [|split; [intros [=]; done || lia|intros ?; done || lia]]).
    + eapply rtc_l; [by apply acquire_load|]. apply rtc_once.
      pose proof (acquire_refused (Some m) (length (in_cas l)) (count l) m
        (mkLimiter (count l) (in_cas l ++ [count l]) (slots l)) eq_refl Hk ltac:(lia)) as Hs.
      simpl in Hs. by rewrite Hdel in Hs.
    + eapply rtc_l; [by apply acquire_load|]. apply rtc_once.
      pose proof (acquire_exchanged (Some m) (length (in_cas l)) (count l) m
        (mkLimiter (count l) (in_cas l ++ [count l]) (slots l)) eq_refl Hk Hge eq_refl) as Hs.
      simpl in Hs. by rewrite Hdel in Hs.
  - cbn [slots]. rewrite last_snoc. split; [|done]. apply rtc_once. by apply acquire_unlimited.
Qed.

(** Two threads race for the last slot: one exchange fails. *)
Definition raced : limiter := mkLimiter 1 [] [true; false].

Lemma race : rtc (limiter_step (Some 1)) new_limiter raced.
Proof.
  eapply rtc_l; [by apply acquire_load|]. eapply rtc_l; [by apply acquire_load|].
  eapply rtc_l; [by apply (acquire_exchanged (Some 1) 0%nat 0 1)|]. simpl.
  eapply rtc_l; [by apply (acquire_retry (Some 1) 0%nat 0 1)|]. simpl.
  eapply rtc_l; [by apply (acquire_refused (Some 1) 0%nat 1 1)|]. apply rtc_refl.
Qed.

Example limiter_hard_cap_witness :
  rtc (limiter_step (Some 1)) new_limiter raced /\
  count raced = Z.of_nat (held raced) /\
  (forall m, Some 1 = Some m -> Z.of_nat (held raced) <= m) /\
  (forall i, slots raced !! i = Some true -> (release (count raced)).2 = false).
Proof.
  split; [exact race|].
  apply (limiter_hard_cap (Some 1) raced); [|exact race|simpl; lia].
  intros m [= <-]. lia.
Defined.

Example try_acquire_refines_witness :
  0 <= count raced < SIZE_MOD - 1 /\
  rtc (limiter_step (Some 1)) raced (try_acquire (Some 1) raced) /\
  (last (slots (try_acquire (Some 1) raced)) = Some true <-> count raced < 1).
Proof.
  split; [simpl; lia|].
  apply (try_acquire_refines (Some 1) raced); [simpl; lia|].
  intros m [= <-]. lia.
Defined.
