(* ===== verification/BounceBufferCache.v ===== *)
(** * The per-thread, per-context bounce buffer cache

    [src/detail/bounce_buffer_cache.cpp].  A shard is a free list and two
    counters under a mutex.  Every critical section is a step; between them
    other threads, and the CUDA driver thread that runs [recycle_callback],
    may take steps of their own.  Which buffers callers hold, which are being
    handed to the driver and which the driver holds is part of the state, so
    that the counters can be compared with it.  A [(thread, context)] pair is a
    key; the thread identity and the context are integers. *)

From stdpp Require Import base list gmap relations.
From Stdlib Require Import ZArith Lia.
From S2P Require Import Prelude BounceBuffer.

#[local] Open Scope Z_scope.

Abbreviation key := (Z * Z)%type (only parsing).

Record Shard := mkShard {
  free : list Buffer;        (* the back of the vector first *)
  checked_out : Z;
  in_flight : Z }.

Definition new_shard : Shard := mkShard [] 0 0.

Record cache := mkCache {
  shards : gmap key Shard;
  allocating : list key;               (* between the two sections of try_get *)
  out : list (key * Buffer);           (* with callers *)
  launching : list (key * Buffer);     (* before the outcome of LaunchHostFunc *)
  pending : list (key * Buffer) }.     (* with the driver *)

Definition empty_cache : cache := mkCache ∅ [] [] [] [].

Definition get_shard (k : key) (c : cache) : Shard := default new_shard (shards c !! k).

Definition set_shard (k : key) (s : Shard) (c : cache) : cache :=
  mkCache (<[k := s]> (shards c)) (allocating c) (out c) (launching c) (pending c).

(** ** Operations *)

Section cache_ops.
Variable cap : option Z.

(** The loop that takes buffers of another size off the back of the list: the
    stale buffers, and what is left. *)
Fixpoint pop_stale (current_size : Z) (l : list Buffer) : list Buffer * list Buffer :=
  match l with
  | b :: l' =>
      if b_size b =? current_size then ([], l)
      else let '(stale, rest) := pop_stale current_size l' in (b :: stale, rest)
  | [] => ([], [])
  end.

(** How the critical section of [try_get] ends. *)
Inductive get_verdict :=
  | Reused (b : Buffer)
  | CapReached
  | Allocate.

Definition try_get_locked (current_size : Z) (s : Shard)
    : Shard * list Buffer * get_verdict :=
  let '(stale_buffers, rest) := pop_stale current_size (free s) in
  match rest with
  | b :: rest => (mkShard rest (checked_out s +% 1) (in_flight s), stale_buffers, Reused b)
  | [] =>
      let total := wrap64 (Z.of_nat (length rest)) +% checked_out s +% in_flight s in
      match cap with
      | Some m =>
          if total >=? m then (mkShard [] (checked_out s) (in_flight s), stale_buffers, CapReached)
          else (mkShard [] (checked_out s +% 1) (in_flight s), stale_buffers, Allocate)
      | None => (mkShard [] (checked_out s +% 1) (in_flight s), stale_buffers, Allocate)
      end
  end.

(** The [catch] of [try_get]: the pool threw. *)
Definition allocation_failed (s : Shard) : Shard :=
  mkShard (free s) (checked_out s -% 1) (in_flight s).

Definition recycle_now (b : Buffer) (s : Shard) : Shard :=
  mkShard (b :: free s) (checked_out s -% 1) (in_flight s).

(** The first critical section of [recycle_after]. *)
Definition recycle_after (s : Shard) : Shard :=
  mkShard (free s) (checked_out s -% 1) (in_flight s +% 1).

(** Its [catch]: [LaunchHostFunc] failed. *)
Definition launch_failed (s : Shard) : Shard :=
  mkShard (free s) (checked_out s) (in_flight s -% 1).

Definition recycle_callback (b : Buffer) (s : Shard) : Shard :=
  mkShard (b :: free s) (checked_out s) (in_flight s -% 1).

Inductive cache_step : cache -> cache -> Prop :=
  | get_reused k cfg s stale b c :
      try_get_locked cfg (get_shard k c) = (s, stale, Reused b) ->
      cache_step c (mkCache (<[k := s]> (shards c)) (allocating c) (out c ++ [(k, b)])
                      (launching c) (pending c))
  | get_refused k cfg s stale c :
      try_get_locked cfg (get_shard k c) = (s, stale, CapReached) ->
      cache_step c (set_shard k s c)
  | get_allocates k cfg s stale c :
      try_get_locked cfg (get_shard k c) = (s, stale, Allocate) ->
      cache_step c (mkCache (<[k := s]> (shards c)) (allocating c ++ [k]) (out c)
                      (launching c) (pending c))
  | allocated i k b c :
      allocating c !! i = Some k ->
      cache_step c (mkCache (shards c) (delete i (allocating c)) (out c ++ [(k, b)])
                      (launching c) (pending c))
  | not_allocated i k c :
      allocating c !! i = Some k ->
      cache_step c (mkCache (<[k := allocation_failed (get_shard k c)]> (shards c))
                      (delete i (allocating c)) (out c) (launching c) (pending c))
  | recycled_now i k b c :
      out c !! i = Some (k, b) ->
      cache_step c (mkCache (<[k := recycle_now b (get_shard k c)]> (shards c)) (allocating c)
                      (delete i (out c)) (launching c) (pending c))
  | recycling i k b c :
      out c !! i = Some (k, b) ->
      cache_step c (mkCache (<[k := recycle_after (get_shard k c)]> (shards c)) (allocating c)
                      (delete i (out c)) (launching c ++ [(k, b)]) (pending c))
  | launched i kb c :
      launching c !! i = Some kb ->
      cache_step c (mkCache (shards c) (allocating c) (out c)
                      (delete i (launching c)) (pending c ++ [kb]))
  | not_launched i k b c :
      launching c !! i = Some (k, b) ->
      cache_step c (mkCache (<[k := launch_failed (get_shard k c)]> (shards c)) (allocating c)
                      (out c) (delete i (launching c)) (pending c))
  | called_back i k b c :
      pending c !! i = Some (k, b) ->
      cache_step c (mkCache (<[k := recycle_callback b (get_shard k c)]> (shards c))
                      (allocating c) (out c) (launching c) (delete i (pending c))).

End cache_ops.

(** The cap of the process-wide cache. *)
Definition instance_cap (max_total n : Z) : option Z :=
  if max_total =? 0 then None else Some (Z.max (max_total / n) 1 *% 2).

(** ** Accounting *)

Definition keyed {A} (k : key) (l : list (key * A)) : Z :=
  Z.of_nat (length (filter (fun x => x.1 = k) l)).
Definition keys (k : key) (l : list key) : Z := Z.of_nat (length (filter (fun x => x = k) l)).

Record shard_ok (cap : option Z) (k : key) (c : cache) : Prop := mkShardOk {
  so_out : checked_out (get_shard k c) = keys k (allocating c) + keyed k (out c);
  so_flight : in_flight (get_shard k c) = keyed k (launching c) + keyed k (pending c);
  so_cap : forall m, cap = Some m ->
    Z.of_nat (length (free (get_shard k c))) + checked_out (get_shard k c)
      + in_flight (get_shard k c) <= m }.

Definition cache_ok (cap : option Z) (c : cache) : Prop := forall k, shard_ok cap k c.

(** Fewer buffers exist than a [size_t] can count. *)
Definition countable (c : cache) : Prop := forall k,
  Z.of_nat (length (free (get_shard k c))) + keys k (allocating c) + keyed k (out c)
    + keyed k (launching c) + keyed k (pending c) < SIZE_MOD - 1.

Lemma keyed_app {A} k (l l' : list (key * A)) : keyed k (l ++ l') = keyed k l + keyed k l'.
Proof. unfold keyed. rewrite filter_app, length_app. lia. Qed.

Lemma keys_app k (l l' : list key) : keys k (l ++ l') = keys k l + keys k l'.
Proof. unfold keys. rewrite filter_app, length_app. lia. Qed.

Lemma keyed_one {A} k k' (a : A) : keyed k [(k', a)] = if decide (k' = k) then 1 else 0.
Proof. unfold keyed. rewrite filter_cons. simpl. by destruct (decide (k' = k)). Qed.

Lemma keys_one k k' : keys k [k'] = if decide (k' = k) then 1 else 0.
Proof. unfold keys. rewrite filter_cons. by destruct (decide (k' = k)). Qed.

Lemma delete_middle {A} (l : list A) i x :
  l !! i = Some x -> l ≡ₚ x :: delete i l.
Proof. intros Hi. by apply delete_Permutation. Qed.

Lemma keyed_delete {A} k k' (a : A) (l : list (key * A)) i :
  l !! i = Some (k', a) ->
  keyed k (delete i l) = keyed k l - if decide (k' = k) then 1 else 0.
Proof.
  intros Hi. unfold keyed.
  rewrite (Permutation_length (filter_Permutation _ _ _ (delete_middle _ _ _ Hi))).
  rewrite filter_cons. simpl. destruct (decide (k' = k)); simpl; lia.
Qed.

Lemma keys_delete k k' (l : list key) i :
  l !! i = Some k' -> keys k (delete i l) = keys k l - if decide (k' = k) then 1 else 0.
Proof.
  intros Hi. unfold keys.
  rewrite (Permutation_length (filter_Permutation _ _ _ (delete_middle _ _ _ Hi))).
  rewrite filter_cons. destruct (decide (k' = k)); simpl; lia.
Qed.

Lemma keyed_nonneg {A} k (l : list (key * A)) : 0 <= keyed k l.
Proof. unfold keyed. lia. Qed.
Lemma keys_nonneg k l : 0 <= keys k l.
Proof. unfold keys. lia. Qed.

(** The critical section of [try_get], case by case. *)
Lemma pop_stale_spec n l stale rest :
  pop_stale n l = (stale, rest) ->
  l = stale ++ rest /\ Forall (fun b => b_size b <> n) stale /\
  (forall b, head rest = Some b -> b_size b = n).
Proof.
  revert stale. induction l as [|b l IH]; intros stale; simpl.
  - intros [= <- <-]. split_and!; try done.
  - destruct (b_size b =? n) eqn:Hn; bool_to_prop.
    + intros [= <- <-]. split_and!; [done|constructor|by intros b' [= <-]].
    + destruct (pop_stale n l) as [st r] eqn:Hp. intros [= <- <-].
      destruct (IH st eq_refl) as (-> & Hst & Hr). split_and!; [done|by constructor|done].
Qed.

Lemma try_get_locked_spec cap cfg s s' stale v :
  try_get_locked cap cfg s = (s', stale, v) ->
  0 <= checked_out s -> 0 <= in_flight s -> checked_out s + in_flight s < SIZE_MOD - 1 ->
  in_flight s' = in_flight s /\ Forall (fun b => b_size b <> cfg) stale /\
  match v with
  | Reused b => free s = stale ++ b :: free s' /\ checked_out s' = checked_out s + 1 /\
      b_size b = cfg
  | CapReached => free s = stale /\ free s' = [] /\ checked_out s' = checked_out s /\
      exists m, cap = Some m /\ m <= checked_out s + in_flight s
  | Allocate => free s = stale /\ free s' = [] /\ checked_out s' = checked_out s + 1 /\
      forall m, cap = Some m -> checked_out s + in_flight s < m
  end.
Proof.
  unfold try_get_locked. destruct (pop_stale cfg (free s)) as [st rest] eqn:Hp.
  destruct (pop_stale_spec _ _ _ _ Hp) as (Hf & Hst & Hhd). intros Hg Hc Hi Hb.
  destruct rest as [|b rest].
  - rewrite app_nil_r in Hf. change (wrap64 (Z.of_nat (length (A := Buffer) []))) with 0 in Hg.
    rewrite (wrap64_small (0 + checked_out s)), (wrap64_small (0 + checked_out s + in_flight s)),
      (wrap64_small (checked_out s + 1)) in Hg by lia.
    destruct cap as [m|]; [destruct (_ >=? m) eqn:Hm; bool_to_prop|];
      injection Hg as <- <- <-; simpl; split_and!; try done; try lia.
    + exists m. split; [done|lia].
    + intros m' [= <-]. lia.
  - injection Hg as <- <- <-. simpl. rewrite wrap64_small by lia. split_and!; try done. by apply Hhd.
Qed.

(** What [get_shard] finds after an update. *)
Lemma get_shard_insert k k' s sh al ot la pe :
  get_shard k' (mkCache (<[k := s]> sh) al ot la pe)
    = if decide (k = k') then s else default new_shard (sh !! k').
Proof.
  unfold get_shard. simpl. destruct (decide (k = k')) as [->|Hne].
  - by rewrite lookup_insert_eq.
  - by rewrite lookup_insert_ne.
Qed.

(** Normalise the state after a step: the shard of the key at hand, and the
    counts of the lists that changed. *)
Ltac account :=
  simpl; rewrite ?get_shard_insert, ?keyed_app, ?keys_app, ?keyed_one, ?keys_one.

(** Whether a step concerns the key at hand, in the hypothesis on the list it
    shortens and in the goal. *)
Ltac split_key H :=
  match type of H with
  | context [decide (?k = ?k')] =>
      revert H; let Hne := fresh "Hne" in destruct (decide (k = k')) as [->|Hne]; intros H
  end.

Ltac account_at :=
  account; rewrite ?decide_True by done; rewrite ?decide_False by done;
  try match goal with
  | |- context [default new_shard (shards ?c !! ?k)] =>
      change (default new_shard (shards c !! k)) with (get_shard k c)
  | |- context [get_shard ?k (mkCache (shards ?c) ?al ?ot ?la ?pe)] =>
      change (get_shard k (mkCache (shards c) al ot la pe)) with (get_shard k c)
  end;
  unfold allocation_failed, recycle_now, recycle_after, launch_failed, recycle_callback; simpl.

Ltac finish_account Hcap :=
  let m := fresh "m" in let Hm := fresh "Hm" in
  first [ lia | rewrite !wrap64_small by lia; lia
        | intros m Hm; specialize (Hcap m Hm); first [lia | rewrite !wrap64_small by lia; lia] ].

Lemma cache_step_ok cap c c' :
  cache_ok cap c -> countable c -> cache_step cap c c' -> cache_ok cap c'.
Proof.
  intros Hok Hct Hstep k'. pose proof (Hok k') as [Ho Hf Hcap]. pose proof (Hct k') as Hn.
  pose proof (keyed_nonneg k' (out c)). pose proof (keys_nonneg k' (allocating c)).
  pose proof (keyed_nonneg k' (launching c)). pose proof (keyed_nonneg k' (pending c)).
  destruct Hstep as [k cfg s stale b c Hg|k cfg s stale c Hg|k cfg s stale c Hg|i k b c Hi
    |i k c Hi|i k b c Hi|i k b c Hi|i [k b] c Hi|i k b c Hi|i k b c Hi]; unfold set_shard.
  1-3: constructor; account; (destruct (decide (k = k')) as [->|Hne]; [|rewrite ?Z.add_0_r; done]);
    destruct (try_get_locked_spec _ _ _ _ _ _ Hg) as (H3 & _ & H4); try lia.
  - intros m Hm. specialize (Hcap m Hm). destruct H4 as (H4 & H5 & _).
    rewrite H4, length_app in Hcap. simpl in Hcap. lia.
  - intros m Hm. specialize (Hcap m Hm). destruct H4 as (_ & -> & H5 & _). simpl. lia.
  - intros m Hm. destruct H4 as (_ & -> & H5 & H6). specialize (H6 m Hm). simpl. lia.
  - pose proof (keys_delete k' _ _ _ Hi) as Hd. split_key Hd; constructor; account_at; done || lia.
  - pose proof (keys_delete k' _ _ _ Hi) as Hd. pose proof (keys_nonneg k' (delete i (allocating c))).
    split_key Hd; constructor; account_at; finish_account Hcap.
  - pose proof (keyed_delete k' _ _ _ _ Hi) as Hd. pose proof (keyed_nonneg k' (delete i (out c))).
    split_key Hd; constructor; account_at; finish_account Hcap.
  - pose proof (keyed_delete k' _ _ _ _ Hi) as Hd. pose proof (keyed_nonneg k' (delete i (out c))).
    split_key Hd; constructor; account_at; finish_account Hcap.
  - pose proof (keyed_delete k' _ _ _ _ Hi) as Hd. split_key Hd; constructor; account_at; done || lia.
  - pose proof (keyed_delete k' _ _ _ _ Hi) as Hd. pose proof (keyed_nonneg k' (delete i (launching c))).
    split_key Hd; constructor; account_at; finish_account Hcap.
  - pose proof (keyed_delete k' _ _ _ _ Hi) as Hd. pose proof (keyed_nonneg k' (delete i (pending c))).
    split_key Hd; constructor; account_at; finish_account Hcap.
Qed.

(** Executions; without a cap, as long as the buffers can be counted. *)
Definition cache_run (cap : option Z) : cache -> cache -> Prop :=
  rtc (fun c c' => cache_step cap c c' /\ (cap = None -> countable c')).

Lemma capped_countable m c : m < SIZE_MOD - 1 -> cache_ok (Some m) c -> countable c.
Proof. intros Hm Hok k. destruct (Hok k) as [Ho Hf Hcap]. specialize (Hcap m eq_refl). lia. Qed.

Lemma empty_cache_ok cap : (forall m, cap = Some m -> 0 <= m) -> cache_ok cap empty_cache.
Proof.
  intros Hm k. constructor; try done.
Qed.

Lemma cache_run_ok cap c :
  (forall m, cap = Some m -> 0 <= m < SIZE_MOD - 1) -> cache_run cap empty_cache c ->
  cache_ok cap c /\ countable c.
Proof.
  intros Hm Hr.
  assert (H0 : cache_ok cap empty_cache) by (apply empty_cache_ok; intros m ?; by apply Hm).
  assert (Hct : countable empty_cache) by (by intros k).
  unfold cache_run in Hr. revert H0 Hct. induction Hr as [c|c c1 c2 [Hs Hn] _ IH]; [done|].
  intros Hok Hct. pose proof (cache_step_ok _ _ _ Hok Hct Hs) as Hok1. apply IH; [done|].
  destruct cap as [m|]; [|by apply Hn]. eapply capped_countable; [|exact Hok1].
  by apply Hm.
Qed.

(** C30. In every interleaving of callers and driver callbacks the counters of
    a shard count what they say: the buffers its callers hold or are
    allocating, and those on their way to the driver or with it; so they
    never underflow, and free, checked-out and in-flight buffers together stay
    within the cap. *)
Theorem cache_accounting (cap : option Z) (c : cache) (k : key) :
  (forall m, cap = Some m -> 0 <= m < SIZE_MOD - 1) -> cache_run cap empty_cache c ->
  let s := get_shard k c in
  checked_out s = keys k (allocating c) + keyed k (out c) /\
  in_flight s = keyed k (launching c) + keyed k (pending c) /\
  (forall m, cap = Some m -> Z.of_nat (length (free s)) + checked_out s + in_flight s <= m).
Proof. intros Hm Hr. destruct (cache_run_ok cap c Hm Hr) as [Hok _]. by destruct (Hok k). Qed.

(** [try_get] discards the free buffers of an old size and then reuses
    one of the current size if there is one; it refuses exactly when there
    is none and the whole cap is in the hands of callers and the driver, and
    otherwise lets the caller allocate. *)
Theorem try_get_verdict (cap : option Z) (c : cache) (k : key) (cfg : Z)
    (s' : Shard) (stale : list Buffer) (v : get_verdict) :
  (forall m, cap = Some m -> 0 <= m < SIZE_MOD - 1) -> cache_run cap empty_cache c ->
  try_get_locked cap cfg (get_shard k c) = (s', stale, v) ->
  Forall (fun b => b_size b <> cfg) stale /\
  match v with
  | Reused b => b_size b = cfg /\ free (get_shard k c) = stale ++ b :: free s'
  | CapReached => free (get_shard k c) = stale /\
      exists m, cap = Some m /\ checked_out (get_shard k c) + in_flight (get_shard k c) = m
  | Allocate => free (get_shard k c) = stale /\
      forall m, cap = Some m -> checked_out (get_shard k c) + in_flight (get_shard k c) < m
  end.
Proof.
  intros Hm Hr Hg. destruct (cache_run_ok cap c Hm Hr) as [Hok Hct].
  destruct (Hok k) as [Ho Hf Hcap]. pose proof (Hct k) as Hn.
  pose proof (keyed_nonneg k (out c)). pose proof (keys_nonneg k (allocating c)).
  pose proof (keyed_nonneg k (launching c)). pose proof (keyed_nonneg k (pending c)).
  destruct (try_get_locked_spec _ _ _ _ _ _ Hg) as (_ & Hst & Hv); [lia..|].
  split; [done|]. destruct v as [b| |].
  - by destruct Hv as (? & ? & ?).
  - destruct Hv as (? & _ & _ & m & Hcm & Hle). split; [done|]. exists m. split; [done|].
    specialize (Hcap m Hcm). lia.
  - destruct Hv as (? & _ & _ & ?). done.
Qed.

(** One buffer allocated under a cap of one, given to the driver, and back. *)
Definition busy_cache : cache :=
  mkCache {[ (1, 7) := mkShard [] 0 1 ]} [] [] [] [((1, 7), mkBuffer 64 4096)].

Lemma busy_run : cache_run (Some 1) empty_cache busy_cache.
Proof.
  eapply rtc_l. { split; [|done]. by apply (get_allocates (Some 1) (1, 7) 4096 (mkShard [] 1 0) []). }
  eapply rtc_l. { split; [|done]. by apply (allocated (Some 1) 0 (1, 7) (mkBuffer 64 4096)). }
  eapply rtc_l. { split; [|done]. by apply (recycling (Some 1) 0 (1, 7) (mkBuffer 64 4096)). }
  eapply rtc_l. { split; [|done]. by apply (launched (Some 1) 0 ((1, 7), mkBuffer 64 4096)). }
  apply rtc_refl.
Qed.

Example cache_accounting_witness :
  cache_run (Some 1) empty_cache busy_cache /\
  let s := get_shard (1, 7) busy_cache in
  checked_out s = keys (1, 7) (allocating busy_cache) + keyed (1, 7) (out busy_cache) /\
  in_flight s = keyed (1, 7) (launching busy_cache) + keyed (1, 7) (pending busy_cache) /\
  (forall m, Some 1 = Some m -> Z.of_nat (length (free s)) + checked_out s + in_flight s <= m).
Proof.
  split; [exact busy_run|].
  apply (cache_accounting (Some 1) busy_cache (1, 7)); [|exact busy_run]. intros m [= <-]. lia.
Defined.

Example try_get_verdict_witness :
  try_get_locked (Some 1) 4096 (get_shard (1, 7) busy_cache) = (mkShard [] 0 1, [], CapReached) /\
  Forall (fun b => b_size b <> 4096) [] /\
  (free (get_shard (1, 7) busy_cache) = [] /\
   exists m, Some 1 = Some m /\
     checked_out (get_shard (1, 7) busy_cache) + in_flight (get_shard (1, 7) busy_cache) = m).
Proof.
  split; [reflexivity|].
  apply (try_get_verdict (Some 1) busy_cache (1, 7) 4096 (mkShard [] 0 1) [] CapReached);
    [|exact busy_run|reflexivity]. intros m [= <-]. lia.
Defined.
