(* ===== verification/HttpRetry.v ===== *)
(** * HTTP retries

    [src/detail/http_retry.cpp] (the retry policy) and [src/shim/libcurl.cpp]
    (the retry loop of [CurlHandle::perform] and the timings of a connection; the
    handles are in [EasyHandles]).  libcurl itself is a parameter: what each
    attempt of a transfer ends with, and its error texts.  Delays are integers
    in milliseconds, timings in microseconds or nanoseconds as the code has
    them. *)

From stdpp Require Import base list strings pretty.
From Stdlib Require Import ZArith Lia.
From S2P Require Import Prelude.

#[local] Open Scope Z_scope.

(** ** The policy *)

(** The [CURLcode] values the code names, and the others. *)
Inductive CURLcode :=
  | CURLE_OK
  | CURLE_OPERATION_TIMEDOUT
  | CURLE_COULDNT_RESOLVE_HOST
  | CURLE_COULDNT_CONNECT
  | CURLE_RECV_ERROR
  | CURLE_SEND_ERROR
  | CURLE_PARTIAL_FILE
  | CURLE_GOT_NOTHING
  | CURLE_HTTP_RETURNED_ERROR
  | CURLE_other (code : Z).

#[global] Instance CURLcode_eq_dec : EqDecision CURLcode.
Proof. solve_decision. Defined.

Inductive RetryDecision := SUCCESS | RETRY | FATAL | EXHAUSTED.

#[global] Instance RetryDecision_eq_dec : EqDecision RetryDecision.
Proof. solve_decision. Defined.

Record RetryOutcome := mkOutcome {
  decision : RetryDecision;
  delay_ms : Z;
  outcome_message : string }.

Record HttpRetryPolicy := mkPolicy {
  max_attempts : Z;
  retryable_status_codes : list Z;
  base_delay_ms : Z;
  max_delay_ms : Z }.

Definition new_policy (max_attempts : Z) (retryable_status_codes : list Z)
    : result HttpRetryPolicy :=
  _ ← expect (max_attempts >? 0) (InvalidArgument "max_attempts must be a positive integer");
  mret (mkPolicy max_attempts retryable_status_codes 500 4000).

Definition is_retryable (p : HttpRetryPolicy) (curl_code : CURLcode) (http_code : Z) : bool :=
  match curl_code with
  | CURLE_OPERATION_TIMEDOUT | CURLE_COULDNT_RESOLVE_HOST | CURLE_COULDNT_CONNECT
  | CURLE_RECV_ERROR | CURLE_SEND_ERROR | CURLE_PARTIAL_FILE | CURLE_GOT_NOTHING => true
  | _ => bool_decide (to_int32 http_code ∈ retryable_status_codes p)
  end.

Definition backoff_for (p : HttpRetryPolicy) (attempt : Z) : Z :=
  let shift := Z.min (attempt -% 1) 4 in
  Z.min (max_delay_ms p) (base_delay_ms p * Z.shiftl 1 shift).

Section libcurl.
Variable curl_easy_strerror : CURLcode -> string.

Definition evaluate (p : HttpRetryPolicy) (curl_code : CURLcode) (http_code attempt : Z)
    (curl_error_message error_prefix : string) : result RetryOutcome :=
  _ ← expect (attempt >? 0) (InvalidArgument "attempt must be a positive integer");
  if decide (curl_code = CURLE_OK) then mret (mkOutcome SUCCESS 0 "")
  else if negb (is_retryable p curl_code http_code) then
    mret (mkOutcome FATAL 0
      (error_prefix +:+ " " +:+
       (if decide (curl_error_message = "") then "(" +:+ curl_easy_strerror curl_code +:+ ")"
        else "(" +:+ curl_error_message +:+ ")")))
  else
    let reason :=
      if decide (curl_code = CURLE_HTTP_RETURNED_ERROR) then
        "Got HTTP code " +:+ pretty http_code +:+ "."
      else "Transport error: " +:+ curl_easy_strerror curl_code +:+ "." in
    if attempt >=? max_attempts p then
      mret (mkOutcome EXHAUSTED 0
        ("KvikIO: HTTP request reached maximum number of attempts (" +:+
         pretty (max_attempts p) +:+ "). Reason: " +:+ reason))
    else
      let delay_ms := backoff_for p attempt in
      mret (mkOutcome RETRY delay_ms
        ("KvikIO: " +:+ reason +:+ " Retrying after " +:+ pretty delay_ms +:+ "ms (attempt "
         +:+ pretty attempt +:+ " of " +:+ pretty (max_attempts p) +:+ ").")).

(** ** The retry loop *)

(** What an attempt ended with: the code of [curl_easy_perform], the response
    code, the error buffer. *)
Record attempt_end := mkEnd {
  end_code : CURLcode;
  end_http : Z;
  end_error : string }.

(** What [perform] has done: the attempt it is at, the delays it slept after
    its [on_retry] calls, whether it is over. *)
Record performing := mkPerforming {
  attempt : Z;
  slept : list Z;
  finished : bool }.

Variable curl_easy_perform : Z -> attempt_end.

Definition perform_body (p : HttpRetryPolicy) (s : performing) : result performing :=
  let e := curl_easy_perform (attempt s) in
  let http_code := if decide (end_code e = CURLE_OK) then 0 else end_http e in
  outcome ← evaluate p (end_code e) http_code (attempt s) (end_error e)
              "curl_easy_perform() error";
  match decision outcome with
  | SUCCESS => mret (mkPerforming (attempt s) (slept s) true)
  | RETRY => mret (mkPerforming (attempt s +% 1) (slept s ++ [delay_ms outcome]) false)
  | FATAL | EXHAUSTED => Err (RuntimeError (outcome_message outcome))
  end.

Definition perform (p : HttpRetryPolicy) : result performing :=
  while_loop (Z.to_nat (max_attempts p)) (fun s => negb (finished s)) (perform_body p)
    (mkPerforming 1 [] false).

(** ** Properties *)

Definition retryable_end (p : HttpRetryPolicy) (e : attempt_end) : bool :=
  negb (bool_decide (end_code e = CURLE_OK)) && is_retryable p (end_code e) (end_http e).

(** The first attempts all failed in a way worth retrying. *)
Definition all_retried (p : HttpRetryPolicy) (n : Z) : Prop :=
  forall i, 1 <= i < n -> retryable_end p (curl_easy_perform i) = true.

(** The delays of the first [n] retries. *)
Definition delays (p : HttpRetryPolicy) (n : nat) : list Z :=
  (fun i => backoff_for p (Z.of_nat i)) <$> seq 1 n.

(** Where the loop is after some rounds. *)
Definition performing_inv (p : HttpRetryPolicy) (s : performing) : Prop :=
  1 <= attempt s <= max_attempts p /\ all_retried p (attempt s) /\
  slept s = delays p (Z.to_nat (attempt s - 1)) /\
  (finished s = true -> end_code (curl_easy_perform (attempt s)) = CURLE_OK).

(** How a transfer fails: an attempt that is not worth retrying, or the last
    one allowed. *)
Definition perform_failure (p : HttpRetryPolicy) (e : exn) : Prop :=
  exists n, 1 <= n <= max_attempts p /\ all_retried p n /\
    end_code (curl_easy_perform n) <> CURLE_OK /\
    (retryable_end p (curl_easy_perform n) = true -> n = max_attempts p) /\
    exists msg, e = RuntimeError msg.

Lemma perform_body_spec p s :
  max_attempts p < SIZE_MOD -> performing_inv p s -> finished s = false ->
  returns (perform_body p s)
    (fun s' => performing_inv p s' /\
       ((finished s' = true /\ attempt s' = attempt s) \/
        (finished s' = false /\ attempt s' = attempt s + 1)))
    (perform_failure p).
Proof.
  intros Hmax (Ha & Hall & Hsl & _) Hf. unfold perform_body, evaluate.
  replace (attempt s >? 0) with true by lia. simpl.
  set (e := curl_easy_perform (attempt s)) in *.
  destruct (decide (end_code e = CURLE_OK)) as [Hok|Hne]; simpl.
  - split; [|by left]. unfold performing_inv. simpl. split_and!; try done; lia.
  - destruct (is_retryable p (end_code e) (end_http e)) eqn:Hr; simpl.
    + assert (Hre : retryable_end p e = true).
      { unfold retryable_end. rewrite Hr, bool_decide_eq_false_2 by done. done. }
      destruct (attempt s >=? max_attempts p) eqn:Hlast; simpl; bool_to_prop.
      * exists (attempt s). split_and!; try done; try lia; by eexists.
      * rewrite wrap64_small by lia. split; [|by right].
        unfold performing_inv. simpl. split_and!; try lia; try done.
        -- intros i Hi. destruct (decide (i = attempt s)) as [->|]; [done|]. apply Hall. lia.
        -- rewrite Hsl. unfold delays.
           replace (Z.to_nat (attempt s + 1 - 1)) with (S (Z.to_nat (attempt s - 1))) by lia.
           rewrite seq_S, fmap_app. simpl. do 3 f_equal. lia.
    + exists (attempt s). split_and!; try done; try lia.
      * intros Hre. unfold retryable_end in Hre. fold e in Hre.
        by rewrite Hr, andb_false_r in Hre.
      * by eexists.
Qed.

End libcurl.

(** ** Connections *)

(** [timing_of]: zero when libcurl has no value. *)
Definition timing_of (value : option Z) : Z := default 0 value.

(** [count_http_connection_of]: what is reported to the counters, if anything:
    connections, and the lookup, TCP and TLS phases in nanoseconds. *)
Definition http_connection_of (connections namelookup connect appconnect : option Z)
    : option (Z * Z * Z * Z) :=
  match connections with
  | None => None
  | Some n =>
      if n <=? 0 then None
      else
        let namelookup := timing_of namelookup in
        let connect := timing_of connect in
        let appconnect := timing_of appconnect in
        let tcp := if connect >? namelookup then (connect - namelookup) * 1000 else 0 in
        let tls := if appconnect >? connect then (appconnect - connect) * 1000 else 0 in
        Some (n, namelookup * 1000, tcp, tls)
  end.

(** [CurlHandle::perform] always ends, after at most [max_attempts]
    attempts: it returns exactly when an attempt succeeds after failures that
    were all retryable, having slept the backoff of each of them in turn, and
    throws [std::runtime_error] at the first failure that is not retryable or
    at the last attempt. *)
Theorem perform_spec (strerror : CURLcode -> string) (transfer : Z -> attempt_end)
    (p : HttpRetryPolicy) :
  0 < max_attempts p < SIZE_MOD ->
  match perform strerror transfer p with
  | Ok s => 1 <= attempt s <= max_attempts p /\ all_retried transfer p (attempt s) /\
      end_code (transfer (attempt s)) = CURLE_OK /\
      slept s = delays p (Z.to_nat (attempt s - 1))
  | Err e => perform_failure transfer p e
  | NoFuel => False
  end.
Proof.
  intros Hmax.
  assert (Hr : returns (perform strerror transfer p)
    (fun s => performing_inv transfer p s /\ negb (finished s) = false)
    (perform_failure transfer p)).
  { apply (while_rule (performing_inv transfer p)
             (fun s => if finished s then 0 else max_attempts p + 1 - attempt s)).
    - intros s Hs Hc. apply negb_true_iff in Hc. rewrite Hc. pose proof Hs as (Ha & _).
      split; [lia|]. eapply returns_mono; [apply perform_body_spec; [lia|exact Hs|done]| |done].
      intros s' (Hs' & [[-> _]|[-> Ha']]); (split; [done|]); [lia|].
      pose proof Hs' as (? & _). lia.
    - split_and!; simpl; try lia; try done. intros i Hi. lia.
    - simpl. lia. }
  destruct (perform strerror transfer p) as [s|e|]; [|exact Hr|done].
  destruct Hr as ((Ha & Hall & Hsl & Hf) & Hd). apply negb_false_iff in Hd. auto.
Qed.

(** The third attempt succeeds. *)
Definition flaky (n : Z) : attempt_end :=
  if n =? 1 then mkEnd CURLE_GOT_NOTHING 0 ""
  else if n =? 2 then mkEnd CURLE_HTTP_RETURNED_ERROR 503 ""
  else mkEnd CURLE_OK 0 "".

Definition default_policy : HttpRetryPolicy := mkPolicy 3 [429; 500; 502; 503; 504] 500 4000.

Example perform_run :
  perform (fun _ => "text") flaky default_policy = Ok (mkPerforming 3 [500; 1000] true).
Proof. vm_compute. reflexivity. Qed.

Example perform_spec_witness :
  0 < max_attempts default_policy < SIZE_MOD /\
  match perform (fun _ => "text") flaky default_policy with
  | Ok s => 1 <= attempt s <= 3 /\ all_retried flaky default_policy (attempt s) /\
      end_code (flaky (attempt s)) = CURLE_OK /\
      slept s = delays default_policy (Z.to_nat (attempt s - 1))
  | Err e => perform_failure flaky default_policy e
  | NoFuel => False
  end.
Proof.
  split; [cbv; done|].
  apply (perform_spec (fun _ => "text") flaky default_policy). cbv. done.
Defined.

(** The backoff doubles from 500 ms with each attempt and stays at 4 s,
    for every attempt index a [size_t] can hold; the shift never leaves the
    range of [int]. *)
Theorem backoff_doubles (codes : list Z) (max n : Z) (p : HttpRetryPolicy) :
  new_policy max codes = Ok p -> 1 <= n < SIZE_MOD ->
  backoff_for p n = (if n <=? 4 then 500 * 2 ^ (n - 1) else 4000) /\
  500 <= backoff_for p n <= 4000 /\
  (n + 1 < SIZE_MOD -> backoff_for p (n + 1) = Z.min 4000 (2 * backoff_for p n)).
Proof.
  unfold new_policy. destruct (max >? 0); intros [= <-] Hn. unfold backoff_for. simpl max_delay_ms.
  simpl base_delay_ms. rewrite wrap64_small by lia.
  assert (Hcase : n = 1 \/ n = 2 \/ n = 3 \/ n = 4 \/ 5 <= n) by lia.
  destruct Hcase as [->|[->|[->|[->|Hbig]]]];
    [split; [reflexivity|]; split; [vm_compute; by split|reflexivity]..|].
  rewrite (Z.min_r (n - 1) 4) by lia. destruct (n <=? 4) eqn:Hle; [lia|].
  split; [reflexivity|]. split; [vm_compute; by split|]. intros Hn'.
  rewrite (wrap64_small (n + 1 - 1)) by lia. by rewrite (Z.min_r (n + 1 - 1) 4) by lia.
Qed.

Example backoff_doubles_witness :
  new_policy 3 [503] = Ok (mkPolicy 3 [503] 500 4000) /\
  backoff_for (mkPolicy 3 [503] 500 4000) 3 = 2000 /\
  500 <= backoff_for (mkPolicy 3 [503] 500 4000) 3 <= 4000 /\
  (3 + 1 < SIZE_MOD ->
   backoff_for (mkPolicy 3 [503] 500 4000) (3 + 1)
     = Z.min 4000 (2 * backoff_for (mkPolicy 3 [503] 500 4000) 3)).
Proof.
  split; [reflexivity|].
  apply (backoff_doubles [503] 3 3 (mkPolicy 3 [503] 500 4000)); [reflexivity|lia].
Defined.
