(* ===== verification/Aggregate.v ===== *)
(** * The aggregate of a multi-poll read

    [RemoteMultiAggregateContext] of [src/detail/multi_poll_reactor.cpp]: the
    sub-range transfers of one [pread] report to it from several reactor
    threads, and the last report resolves the caller's future.  The steps are
    the atomic operations and the critical sections of the code; reports of
    different threads interleave at every step. *)

From stdpp Require Import base list strings relations.
From Stdlib Require Import ZArith Lia.
From S2P Require Import Prelude.

#[local] Open Scope Z_scope.

(** What a sub-range reports: its bytes, or how it failed. *)
Abbreviation report := (exn + Z)%type (only parsing).

(** Where a report is. *)
Inductive report_phase :=
  | Recorded        (* its bytes, or its exception, are in; not yet counted down *)
  | Last            (* its decrement reached zero *)
  | Told            (* the recorder has been told, the promise not yet fulfilled *)
  | Over.

#[global] Instance report_phase_eq_dec : EqDecision report_phase.
Proof. solve_decision. Defined.

Record aggregate := mkAggregate {
  subranges_left : Z;
  total_bytes : Z;
  first_exception : option exn;
  promise : option report;
  told : list (option Z);                        (* finish(n) or finish_with_failure() *)
  reports : list (report * report_phase) }.      (* in the order they came in *)

(** The constructor. *)
Definition new_aggregate (num_subranges : Z) : result aggregate :=
  _ ← expect (num_subranges >? 0)
        (InvalidArgument "RemoteMultiAggregateContext requires at least one sub-range");
  mret (mkAggregate num_subranges 0 None None [] []).

(** The first critical section, or atomic operation, of a report. *)
Definition record_report (r : report) (a : aggregate) : aggregate :=
  match r with
  | inr bytes =>
      mkAggregate (subranges_left a) (total_bytes a +% bytes) (first_exception a) (promise a)
        (told a) (reports a ++ [(r, Recorded)])
  | inl e =>
      mkAggregate (subranges_left a) (total_bytes a)
        (match first_exception a with None => Some e | Some e' => Some e' end) (promise a)
        (told a) (reports a ++ [(r, Recorded)])
  end.

(** [_subranges_left.fetch_sub(1)]. *)
Definition count_down (i : nat) (r : report) (a : aggregate) : aggregate :=
  mkAggregate (subranges_left a -% 1) (total_bytes a) (first_exception a) (promise a) (told a)
    (<[i := (r, if subranges_left a =? 1 then Last else Over)]> (reports a)).

(** What the last report tells the recorder. *)
Definition tell_recorder (recorder : bool) (r : report) (a : aggregate) : list (option Z) :=
  if recorder then
    told a ++ [match r, first_exception a with
               | inr _, None => Some (total_bytes a)
               | _, _ => None
               end]
  else told a.

Definition tell (recorder : bool) (i : nat) (r : report) (a : aggregate) : aggregate :=
  mkAggregate (subranges_left a) (total_bytes a) (first_exception a) (promise a)
    (tell_recorder recorder r a) (<[i := (r, Told)]> (reports a)).

(** [set_exception] or [set_value]; a failed report sets the exception. *)
Definition fulfil (i : nat) (r : report) (a : aggregate) : aggregate :=
  mkAggregate (subranges_left a) (total_bytes a) (first_exception a)
    (Some match first_exception a with Some e => inl e | None => inr (total_bytes a) end)
    (told a) (<[i := (r, Over)]> (reports a)).

Section aggregate.
Variable recorder : bool.
Variable num_subranges : nat.

(** Every sub-range reports once, so no more than [num_subranges] reports. *)
Inductive aggregate_step : aggregate -> aggregate -> Prop :=
  | report_in r a :
      (length (reports a) < num_subranges)%nat -> aggregate_step a (record_report r a)
  | report_counted i r a :
      reports a !! i = Some (r, Recorded) -> aggregate_step a (count_down i r a)
  | report_tells i r a :
      reports a !! i = Some (r, Last) -> aggregate_step a (tell recorder i r a)
  | report_fulfils i r a :
      reports a !! i = Some (r, Told) -> aggregate_step a (fulfil i r a).

(** ** The result of a read *)

Definition bytes_of (l : list (report * report_phase)) : Z :=
  sumZ ((fun x => match x.1 with inr n => n | inl _ => 0 end) <$> l).

Fixpoint first_failure (l : list (report * report_phase)) : option exn :=
  match l with
  | [] => None
  | (inl e, _) :: _ => Some e
  | (inr _, _) :: l' => first_failure l'
  end.

(** The result the caller must get, from the reports in their order. *)
Definition expected (l : list (report * report_phase)) : report :=
  match first_failure l with Some e => inl e | None => inr (wrap64 (bytes_of l)) end.

Definition phase_count (p : report_phase) (l : list (report * report_phase)) : nat :=
  length (filter (fun x => x.2 = p) l).

Definition verdict (r : report) : option Z := match r with inl _ => None | inr n => Some n end.

(** The counter stands at the reports still to come or to be counted; exactly
    one report is ever last, and only once all have been counted. *)
Record aggregate_ok (a : aggregate) : Prop := mkAggregateOk {
  ao_len : (length (reports a) <= num_subranges)%nat;
  ao_left : subranges_left a
    = Z.of_nat (num_subranges - length (reports a) + phase_count Recorded (reports a));
  ao_total : total_bytes a = wrap64 (bytes_of (reports a));
  ao_first : first_exception a = first_failure (reports a);
  ao_last :
    match promise a with
    | None =>
        told a = (if decide (phase_count Told (reports a) = 0%nat) then []
                  else if recorder then [verdict (expected (reports a))] else []) /\
        (phase_count Last (reports a) + phase_count Told (reports a)
           = if decide (subranges_left a = 0%Z) then 1 else 0)%nat
    | Some r =>
        subranges_left a = 0 /\ r = expected (reports a) /\
        told a = (if recorder then [verdict r] else []) /\
        (phase_count Last (reports a) + phase_count Told (reports a) = 0)%nat
    end }.

Lemma phase_count_app p l k : phase_count p (l ++ k) = (phase_count p l + phase_count p k)%nat.
Proof. unfold phase_count. by rewrite filter_app, length_app. Qed.

Lemma phase_count_le p l : (phase_count p l <= length l)%nat.
Proof. apply length_filter. Qed.

Lemma phase_count_one p r q : phase_count p [(r, q)] = if decide (q = p) then 1%nat else 0%nat.
Proof. unfold phase_count. rewrite filter_cons. simpl. by destruct (decide (q = p)). Qed.

(** Moving one report to another phase. *)
Lemma phase_count_set l i r q q' p :
  l !! i = Some (r, q) ->
  (phase_count p (<[i := (r, q')]> l) + (if decide (q = p) then 1 else 0)
   = phase_count p l + if decide (q' = p) then 1 else 0)%nat.
Proof.
  intros Hi. rewrite <- (take_drop_middle l i (r, q) Hi) at 2.
  rewrite insert_take_drop by (by eapply lookup_lt_Some).
  change ((r, q') :: drop (S i) l) with ([(r, q')] ++ drop (S i) l).
  change ((r, q) :: drop (S i) l) with ([(r, q)] ++ drop (S i) l).
  rewrite !phase_count_app, !phase_count_one. lia.
Qed.

Lemma reports_set (l : list (report * report_phase)) i r q q' :
  l !! i = Some (r, q) -> (<[i := (r, q')]> l).*1 = l.*1.
Proof.
  intros Hi. apply list_eq. intros j. rewrite !list_lookup_fmap.
  destruct (decide (i = j)) as [<-|Hne].
  - rewrite list_lookup_insert_eq by (by eapply lookup_lt_Some). by rewrite Hi.
  - by rewrite list_lookup_insert_ne.
Qed.

(** The result depends on the reports, not on where they are. *)
Lemma result_fst (l k : list (report * report_phase)) :
  l.*1 = k.*1 -> bytes_of l = bytes_of k /\ first_failure l = first_failure k.
Proof.
  revert k. induction l as [|[r p] l IH]; intros [|[r' p'] k]; try done.
  intros [= -> Hl]. destruct (IH k Hl) as [H1 H2]. unfold bytes_of in *. csimpl.
  destruct r'; (split; [|done]); lia.
Qed.

Lemma result_set l i r q q' :
  l !! i = Some (r, q) ->
  bytes_of (<[i := (r, q')]> l) = bytes_of l /\
  first_failure (<[i := (r, q')]> l) = first_failure l /\
  expected (<[i := (r, q')]> l) = expected l.
Proof.
  intros Hi. destruct (result_fst _ _ (reports_set l i r q q' Hi)) as [H1 H2].
  split_and!; [done|done|]. unfold expected. by rewrite H1, H2.
Qed.

Lemma bytes_of_snoc l r p :
  bytes_of (l ++ [(r, p)]) = bytes_of l + match r with inr n => n | inl _ => 0 end.
Proof.
  unfold bytes_of. rewrite fmap_app, sumZ_app. destruct r; simpl; lia.
Qed.

Lemma first_failure_snoc l r p :
  first_failure (l ++ [(r, p)])
    = match first_failure l with
      | Some e => Some e
      | None => match r with inl e => Some e | inr _ => None end
      end.
Proof. induction l as [|[[e|n] q] l IH]; simpl; [by destruct r|done|done]. Qed.

Lemma failed_report_fails l i e p :
  l !! i = Some (inl e, p) -> exists e', first_failure l = Some e'.
Proof.
  revert i. induction l as [|[[e'|n] q] l IH]; intros [|i] Hi; try done; simpl; eauto.
Qed.

Lemma report_in_ok r a :
  Z.of_nat num_subranges < SIZE_MOD -> (length (reports a) < num_subranges)%nat -> aggregate_ok a ->
  aggregate_ok (record_report r a).
Proof.
  intros Hb Hi [Hlen Hleft Htot Hfirst Hlast].
  pose proof (phase_count_le Recorded (reports a)) as Hrl.
  assert (Hpos : subranges_left a <> 0) by lia.
  assert (Hpr : promise a = None) by (destruct (promise a); [destruct Hlast; lia|done]).
  rewrite Hpr in Hlast. destruct Hlast as [Ht Hl].
  rewrite decide_False in Hl by done. assert (phase_count Told (reports a) = 0%nat) as HT by lia.
  rewrite HT in Ht. simpl in Ht.
  destruct r as [e|n]; constructor; simpl; rewrite ?length_app, ?bytes_of_snoc,
    ?first_failure_snoc, ?Hpr, ?phase_count_app, ?phase_count_one; simpl; try lia.
  - by rewrite Z.add_0_r.
  - by rewrite Hfirst.
  - rewrite HT. simpl. split; [done|]. rewrite decide_False by lia. lia.
  - rewrite Htot. unfold wrap64. by rewrite Zplus_mod_idemp_l.
  - rewrite Hfirst. by destruct (first_failure (reports a)).
  - rewrite HT. simpl. split; [done|]. rewrite decide_False by lia. lia.
Qed.

Lemma count_down_ok i r a :
  Z.of_nat num_subranges < SIZE_MOD -> reports a !! i = Some (r, Recorded) -> aggregate_ok a ->
  aggregate_ok (count_down i r a).
Proof.
  intros Hb Hi [Hlen Hleft Htot Hfirst Hlast].
  pose proof (phase_count_le Recorded (reports a)) as Hrl.
  pose proof (phase_count_set _ _ _ _ (if subranges_left a =? 1 then Last else Over) Recorded Hi) as HR.
  pose proof (phase_count_set _ _ _ _ (if subranges_left a =? 1 then Last else Over) Last Hi) as HL.
  pose proof (phase_count_set _ _ _ _ (if subranges_left a =? 1 then Last else Over) Told Hi) as HT.
  destruct (result_set _ _ _ _ (if subranges_left a =? 1 then Last else Over) Hi) as (H1 & H2 & H3).
  assert (HR1 : S (phase_count Recorded
      (<[i:=(r, if subranges_left a =? 1 then Last else Over)]> (reports a)))
      = phase_count Recorded (reports a))
    by (destruct (subranges_left a =? 1); simpl in HR; lia).
  assert (Hpos : subranges_left a <> 0) by lia.
  assert (Hpr : promise a = None) by (destruct (promise a); [destruct Hlast; lia|done]).
  rewrite Hpr in Hlast. destruct Hlast as [Ht Hl]. rewrite decide_False in Hl by done.
  assert (phase_count Told (reports a) = 0%nat) as HT0 by lia. rewrite HT0 in Ht. simpl in Ht.
  assert (Hw : subranges_left a -% 1 = subranges_left a - 1) by (apply wrap64_small; lia).
  constructor; simpl; rewrite ?length_insert, ?H1, ?H2, ?Hpr, ?Hw; try done.
  - lia.
  - destruct (subranges_left a =? 1) eqn:E; bool_to_prop; simpl in HL, HT |- *.
    + rewrite decide_True by lia. split; [done|]. rewrite decide_True by lia. lia.
    + rewrite decide_True by lia. split; [done|]. rewrite decide_False by lia. lia.
Qed.

Lemma tell_ok i r a :
  Z.of_nat num_subranges < SIZE_MOD -> reports a !! i = Some (r, Last) -> aggregate_ok a ->
  aggregate_ok (tell recorder i r a).
Proof.
  intros Hb Hi [Hlen Hleft Htot Hfirst Hlast].
  pose proof (phase_count_le Recorded (reports a)) as Hrl.
  pose proof (phase_count_set _ _ _ _ Told Recorded Hi) as HR.
  pose proof (phase_count_set _ _ _ _ Told Last Hi) as HL.
  pose proof (phase_count_set _ _ _ _ Told Told Hi) as HT. simpl in HR, HL, HT.
  destruct (result_set _ _ _ _ Told Hi) as (H1 & H2 & H3).
  destruct (promise a) as [pr|] eqn:Hpr; [destruct Hlast as (_ & _ & _ & ?); lia|].
  destruct Hlast as [Ht Hl]. destruct (decide (subranges_left a = 0)) as [Hz|]; [|lia].
  rewrite decide_True in Ht by lia.
  constructor; simpl; rewrite ?length_insert, ?H1, ?H2, ?Hpr; try done; [lia|].
  rewrite decide_False by lia. rewrite (decide_True _ _ Hz). split; [|lia].
  unfold tell_recorder. rewrite Ht. destruct recorder; [|done]. f_equal.
  rewrite H3. unfold expected. rewrite Hfirst, Htot. destruct r as [e|n].
  - destruct (failed_report_fails _ _ _ _ Hi) as [e' ->]. done.
  - by destruct (first_failure (reports a)).
Qed.

Lemma fulfil_ok i r a :
  Z.of_nat num_subranges < SIZE_MOD -> reports a !! i = Some (r, Told) -> aggregate_ok a ->
  aggregate_ok (fulfil i r a).
Proof.
  intros Hb Hi [Hlen Hleft Htot Hfirst Hlast].
  pose proof (phase_count_le Recorded (reports a)) as Hrl.
  pose proof (phase_count_set _ _ _ _ Over Recorded Hi) as HR.
  pose proof (phase_count_set _ _ _ _ Over Last Hi) as HL.
  pose proof (phase_count_set _ _ _ _ Over Told Hi) as HT. simpl in HR, HL, HT.
  destruct (result_set _ _ _ _ Over Hi) as (H1 & H2 & H3).
  destruct (promise a) as [pr|] eqn:Hpr; [destruct Hlast as (_ & _ & _ & ?); lia|].
  destruct Hlast as [Ht Hl]. destruct (decide (subranges_left a = 0)) as [Hz|]; [|lia].
  rewrite decide_False in Ht by lia.
  assert (Hexp : match first_exception a with Some e => inl e | None => inr (total_bytes a) end
      = expected (reports a)) by (unfold expected; by rewrite Hfirst, Htot).
  constructor; simpl; rewrite ?length_insert, ?H1, ?H2; try done; [lia|].
  rewrite Hexp, H3. split_and!; [done|done|exact Ht|lia].
Qed.

Lemma aggregate_step_ok a a' :
  Z.of_nat num_subranges < SIZE_MOD -> aggregate_ok a -> aggregate_step a a' -> aggregate_ok a'.
Proof.
  intros Hb Hok Hs. destruct Hs;
    [by apply report_in_ok|by apply count_down_ok|by apply tell_ok|by apply fulfil_ok].
Qed.
End aggregate.

(** The aggregate of [n] sub-ranges before any has reported. *)
Definition fresh_aggregate (n : nat) : aggregate := mkAggregate (Z.of_nat n) 0 None None [] [].

Lemma reachable_aggregate recorder n a :
  (0 < n)%nat -> Z.of_nat n < SIZE_MOD ->
  rtc (aggregate_step recorder n) (fresh_aggregate n) a -> aggregate_ok recorder n a.
Proof.
  intros Hn Hb Hr. assert (H0 : aggregate_ok recorder n (fresh_aggregate n)).
  { constructor; simpl; try done; [lia| |].
    - change (phase_count Recorded []) with 0%nat. lia.
    - split; [done|]. rewrite decide_False by lia. done. }
  revert H0. induction Hr as [|a a1 a2 Hs _ IH]; intros H0; [done|].
  by eapply IH, aggregate_step_ok.
Qed.

(** C24. In every interleaving of the sub-range reports the caller's future is
    resolved at most once and only when every sub-range has reported; it then
    holds the sum of the bytes, or the first exception recorded, and the
    recorder has been told the same, once, before.  Once resolved it never
    changes. *)
Theorem aggregate_resolves_once (recorder : bool) (n : nat) (a : aggregate) :
  (0 < n)%nat -> Z.of_nat n < SIZE_MOD ->
  rtc (aggregate_step recorder n) (fresh_aggregate n) a ->
  (forall r, promise a = Some r ->
     length (reports a) = n /\ r = expected (reports a) /\
     told a = (if recorder then [verdict r] else [])) /\
  (forall r a', promise a = Some r -> aggregate_step recorder n a a' -> promise a' = Some r).
Proof.
  intros Hn Hb Hr. pose proof (reachable_aggregate recorder n a Hn Hb Hr) as Hok.
  split.
  - intros r Hp. destruct Hok as [Hlen Hleft _ _ Hlast]. rewrite Hp in Hlast.
    destruct Hlast as (Hz & -> & Ht & _). split_and!; [lia|done|done].
  - intros r a' Hp Hs. pose proof (aggregate_step_ok _ _ _ _ Hb Hok Hs) as Hok'.
    destruct Hok as [Hlen Hleft _ _ Hlast]. rewrite Hp in Hlast.
    destruct Hlast as (Hz & -> & Ht & Hph). destruct Hs as [r a Hlt|i r a Hi|i r a Hi|i r a Hi].
    + lia.
    + done.
    + done.
    + exfalso. pose proof (phase_count_set _ _ _ _ Over Told Hi) as HT. simpl in HT. lia.
Qed.

(** Every step brings the end nearer. *)
Definition steps_left (n : nat) (a : aggregate) : nat :=
  (4 * (n - length (reports a)) + 3 * phase_count Recorded (reports a)
   + 2 * phase_count Last (reports a) + phase_count Told (reports a))%nat.

Lemma steps_left_decreases recorder n a a' :
  aggregate_ok recorder n a -> aggregate_step recorder n a a' ->
  (steps_left n a' < steps_left n a)%nat.
Proof.
  intros [Hlen _ _ _ _] Hs. unfold steps_left. destruct Hs as [r a Hlt|i r a Hi|i r a Hi|i r a Hi].
  - destruct r; simpl; rewrite length_app, !phase_count_app, !phase_count_one; simpl; lia.
  - set (q := if subranges_left a =? 1 then Last else Over).
    pose proof (phase_count_set _ _ _ _ q Recorded Hi) as HR.
    pose proof (phase_count_set _ _ _ _ q Last Hi) as HL.
    pose proof (phase_count_set _ _ _ _ q Told Hi) as HT.
    simpl. fold q. rewrite length_insert.
    assert (q = Last \/ q = Over) as [Hq|Hq] by (unfold q; destruct (_ =? 1); auto);
      rewrite Hq in *; simpl in HR, HL, HT; lia.
  - pose proof (phase_count_set _ _ _ _ Told Recorded Hi) as HR.
    pose proof (phase_count_set _ _ _ _ Told Last Hi) as HL.
    pose proof (phase_count_set _ _ _ _ Told Told Hi) as HT. simpl in *.
    rewrite length_insert. lia.
  - pose proof (phase_count_set _ _ _ _ Over Recorded Hi) as HR.
    pose proof (phase_count_set _ _ _ _ Over Last Hi) as HL.
    pose proof (phase_count_set _ _ _ _ Over Told Hi) as HT. simpl in *.
    rewrite length_insert. lia.
Qed.

Lemma execution_length recorder n k a0 a :
  Z.of_nat n < SIZE_MOD -> aggregate_ok recorder n a0 -> nsteps (aggregate_step recorder n) k a0 a ->
  (k + steps_left n a <= steps_left n a0)%nat.
Proof.
  intros Hb. revert a0. induction k as [|k IH]; intros a0 H0 Hk;
    inversion Hk as [|? ? a1 ? Hs Hk']; subst; [lia|].
  pose proof (steps_left_decreases _ _ _ _ H0 Hs).
  pose proof (IH a1 (aggregate_step_ok _ _ _ _ Hb H0 Hs) Hk'). lia.
Qed.

Lemma phase_somewhere p a : (0 < phase_count p (reports a))%nat ->
  exists i r, reports a !! i = Some (r, p).
Proof.
  intros Hpos. unfold phase_count in Hpos.
  destruct (filter (fun x => x.2 = p) (reports a)) as [|[r q] l] eqn:Hf; [simpl in Hpos; lia|].
  assert ((r, q) ∈ filter (fun x => x.2 = p) (reports a)) as Hin by (rewrite Hf; left).
  apply list_elem_of_filter in Hin as [Hq Hin]. simpl in Hq. subst q.
  apply list_elem_of_lookup in Hin as [i Hi]. eauto.
Qed.

(** C25. The future of a read is always resolved: as long as it is not, some
    step is possible, and no execution takes more than four steps per
    sub-range. *)
Theorem aggregate_resolves (recorder : bool) (n k : nat) (a : aggregate) :
  (0 < n)%nat -> Z.of_nat n < SIZE_MOD ->
  nsteps (aggregate_step recorder n) k (fresh_aggregate n) a ->
  (k <= 4 * n)%nat /\ (promise a = None -> exists a', aggregate_step recorder n a a').
Proof.
  intros Hn Hb Hk.
  assert (Hok : aggregate_ok recorder n a)
    by (apply reachable_aggregate; [done|done|apply rtc_nsteps; by exists k]).
  split.
  - pose proof (execution_length recorder n k _ a Hb
      (reachable_aggregate recorder n _ Hn Hb (rtc_refl _ _)) Hk) as Hle.
    assert (steps_left n (fresh_aggregate n) = (4 * n)%nat)
      by (unfold steps_left, phase_count; simpl; lia). lia.
  - intros Hp. destruct Hok as [Hlen Hleft _ _ Hlast]. rewrite Hp in Hlast.
    destruct Hlast as [_ Hl].
    destruct (decide (length (reports a) < n)%nat) as [Hlt|Hge].
    { eexists. by apply (report_in _ _ (inr 0)). }
    destruct (decide (phase_count Recorded (reports a) = 0%nat)) as [H0|Hne].
    + rewrite decide_True in Hl by lia.
      destruct (decide (phase_count Last (reports a) = 0%nat)) as [H1|Hne].
      * destruct (phase_somewhere Told a) as (i & r & Hi); [lia|]. eexists. by eapply report_fulfils.
      * destruct (phase_somewhere Last a) as (i & r & Hi); [lia|]. eexists. by eapply report_tells.
    + destruct (phase_somewhere Recorded a) as (i & r & Hi); [lia|]. eexists. by eapply report_counted.
Qed.

(** Two sub-ranges; the second fails while the first is being counted. *)
Definition resolved : aggregate :=
  mkAggregate 0 100 (Some (RuntimeError "503")) (Some (inl (RuntimeError "503"))) [None]
    [(inr 100, Over); (inl (RuntimeError "503"), Over)].

Lemma resolved_run : nsteps (aggregate_step true 2) 6 (fresh_aggregate 2) resolved.
Proof.
  eapply nsteps_l; [apply (report_in true 2 (inr 100)); simpl; lia|].
  eapply nsteps_l; [apply (report_in true 2 (inl (RuntimeError "503"))); simpl; lia|].
  eapply nsteps_l; [by apply (report_counted true 2 1 (inl (RuntimeError "503")))|].
  eapply nsteps_l; [by apply (report_counted true 2 0 (inr 100))|].
  eapply nsteps_l; [by apply (report_tells true 2 0 (inr 100))|].
  eapply nsteps_l; [by apply (report_fulfils true 2 0 (inr 100))|]. apply nsteps_O.
Qed.

Example aggregate_resolves_once_witness :
  promise resolved = Some (inl (RuntimeError "503")) /\
  (forall r, promise resolved = Some r ->
     length (reports resolved) = 2%nat /\ r = expected (reports resolved) /\
     told resolved = [verdict r]) /\
  (forall r a', promise resolved = Some r -> aggregate_step true 2 resolved a' ->
     promise a' = Some r).
Proof.
  split; [reflexivity|].
  apply (aggregate_resolves_once true 2 resolved); [lia|done|].
  eapply rtc_nsteps_2, resolved_run.
Defined.

Example aggregate_resolves_witness :
  nsteps (aggregate_step true 2) 6 (fresh_aggregate 2) resolved /\ (6 <= 4 * 2)%nat /\
  (promise resolved = None -> exists a', aggregate_step true 2 resolved a').
Proof.
  split; [exact resolved_run|].
  apply (aggregate_resolves true 2 6 resolved); [lia|done|exact resolved_run].
Defined.
