(* ===== verification/Reactor.v ===== *)
(** * Multi-poll reactors and their pool

    [src/detail/multi_poll_reactor.cpp].  Sub-range transfers wait in one
    pool-wide queue; each reactor takes them through two gates (a request slot,
    a bounce buffer) onto its libcurl multi handle, settles them when they
    complete, and keeps those to be retried.

    libcurl, CUDA and the bounce buffer cache are parameters: whether a buffer
    is had, whether [curl_multi_add_handle] succeeds, how each attempt ends.
    An operation that throws also says what the reactor is left with, because
    [io_thread_main] catches and resolves everything.  Reports to the aggregate
    are recorded in the order they are made, by transfer. *)

From stdpp Require Import base list strings relations.
From Stdlib Require Import ZArith Lia.
From S2P Require Import Prelude HttpRetry.

#[local] Open Scope Z_scope.

(** ** Sizing *)

(** [connection_cache_size]; [unsigned] has 32 bits and [long] 64. *)
Definition connection_cache_size (max_concurrent_requests : option Z) : option Z :=
  match max_concurrent_requests with
  | None => None
  | Some m =>
      let max_settable := Z.min 4294967295 9223372036854775807 in
      let max_req_adjusted := Z.max m 1 in
      let tmp := Z.min max_req_adjusted (max_settable / 4) in
      Some (tmp *% 4)
  end.

(** The share of the request budget of reactor [i] of [n]. *)
Definition slice (max_total n i : Z) : option Z :=
  let base := max_total / n in
  let remainder := max_total mod n in
  if max_total =? 0 then None
  else Some (Z.max (base +% (if i <? remainder then 1 else 0)) 1).

Definition queue_share_per_reactor (queued reactor_count : Z) : Z :=
  if queued =? 0 then 0
  else Z.max ((queued +% reactor_count -% 1) / reactor_count) 1.

(** ** Transfers, reactors, the pool *)

Record transfer := mkTransfer {
  t_id : Z;                  (* the easy handle, and the report it owes *)
  t_size : Z;
  is_device : bool;
  device_ctx : Z;
  t_attempt : Z;
  ready_at : Z;
  slot : bool;               (* holds a request slot *)
  has_buffer : bool;         (* holds a bounce buffer *)
  attached : bool;           (* on the multi handle *)
  observing : bool }.        (* its physical recorder is running *)

Definition set_slot (b : bool) (t : transfer) : transfer :=
  mkTransfer (t_id t) (t_size t) (is_device t) (device_ctx t) (t_attempt t) (ready_at t)
    b (has_buffer t) (attached t) (observing t).

Definition set_buffer (b : bool) (t : transfer) : transfer :=
  mkTransfer (t_id t) (t_size t) (is_device t) (device_ctx t) (t_attempt t) (ready_at t)
    (slot t) b (attached t) (observing t).

(** What [try_admit] sets on success. *)
Definition on_the_wire (t : transfer) : transfer :=
  mkTransfer (t_id t) (t_size t) (is_device t) (device_ctx t) (t_attempt t) (ready_at t)
    true (has_buffer t) true true.

(** What [requeue_for_retry] leaves: detached, without slot, buffer or running
    observation. *)
Definition back_off (attempt ready : Z) (t : transfer) : transfer :=
  mkTransfer (t_id t) (t_size t) (is_device t) (device_ctx t) attempt ready
    false false false false.

Record reactor := mkReactor {
  pending : list transfer;
  in_flight : list transfer;
  hand : option transfer;        (* popped, between the queue and a gate *)
  requests : Z;                  (* the limiter's count *)
  max_requests : option Z;
  failing : bool;                (* its thread is past the loop *)
  exited : bool }.

Record pool := mkPool {
  queue : list transfer;
  queue_size_hint : Z;
  death_reason : option exn;     (* set together with _dead *)
  drained : bool;                (* signal_death has emptied the queue *)
  reactors : list reactor;
  reports : list (Z * (exn + Z));
  submitted : list Z }.

Definition is_dead (p : pool) : bool := match death_reason p with None => false | Some _ => true end.

(** ** The request limiter of a reactor, see RequestLimiter *)

Definition acquire (max : option Z) (count : Z) : option Z :=
  match max with
  | None => Some (count +% 1)
  | Some m => if count >=? m then None else Some (count +% 1)
  end.

(** Letting go of a slot, if there is one. *)
Definition drop_slot (held : bool) (count : Z) : Z := if held then count -% 1 else count.

(** ** One admission pass *)

Record PassOutcome := mkPassOutcome {
  earliest_ready_at : option Z;
  deferred_for_resource : bool }.

Definition record_ready_at (ready : Z) (o : PassOutcome) : PassOutcome :=
  mkPassOutcome (Some match earliest_ready_at o with Some e => Z.min e ready | None => ready end)
    (deferred_for_resource o).

Definition defer_for_resource (o : PassOutcome) : PassOutcome :=
  mkPassOutcome (earliest_ready_at o) true.

Record AdmitPass := mkAdmitPass {
  pass_outcome : PassOutcome;
  started_at : Z;
  exhausted_ctxs : list Z }.

Definition set_outcome (o : PassOutcome) (a : AdmitPass) : AdmitPass :=
  mkAdmitPass o (started_at a) (exhausted_ctxs a).

(** How [try_admit] ends, with the transfer it leaves in place. *)
Inductive admission :=
  | Attached (t : transfer)
  | Refused (t : transfer)
  | Threw (e : exn) (t : transfer).

(** What the outside world answers during one [try_admit]: whether a bounce
    buffer is had (or the attempt throws), and how [curl_multi_add_handle]
    fails, if it does. *)
Record gates := mkGates {
  try_get_buffer : exn + bool;
  add_handle_error : option exn }.

(** [try_admit]: the verdict, the count of the limiter, the pass. *)
Definition try_admit (g : gates) (max : option Z) (count : Z) (t : transfer) (pass : AdmitPass)
    : admission * Z * AdmitPass :=
  let held := slot t in
  let t := set_slot false t in
  if ready_at t >? started_at pass then
    (Refused t, drop_slot held count,
     set_outcome (record_ready_at (ready_at t) (pass_outcome pass)) pass)
  else if is_device t && bool_decide (device_ctx t ∈ exhausted_ctxs pass) then
    (Refused t, drop_slot held count,
     set_outcome (defer_for_resource (pass_outcome pass)) pass)
  else
    match (if held then Some count else acquire max count) with
    | None => (Refused t, count, set_outcome (defer_for_resource (pass_outcome pass)) pass)
    | Some count =>
        let attach (t : transfer) :=
          match add_handle_error g with
          | Some e => (Threw e t, count -% 1, pass)
          | None => (Attached (on_the_wire t), count, pass)
          end in
        if is_device t then
          match try_get_buffer g with
          | inl e => (Threw e t, count -% 1, pass)
          | inr false =>
              (Refused t, count -% 1,
               mkAdmitPass (defer_for_resource (pass_outcome pass)) (started_at pass)
                 (exhausted_ctxs pass ++ [device_ctx t]))
          | inr true => attach (set_buffer true t)
          end
        else attach t
    end.

(** ** Settling *)

(** How one attempt ended: libcurl's code, the response code, the error
    buffer, whether the callback saw too many bytes. *)
Record completion := mkCompletion {
  c_result : CURLcode;
  c_http : Z;
  c_error : string;
  c_overflow : bool;
  c_stage_error : option exn;      (* what stage_device_copy throws *)
  c_requeue_error : option exn }.  (* what requeue_for_retry throws inside *)

(** What settling does with the transfer. *)
Inductive settlement :=
  | Report (r : exn + Z)           (* to the aggregate, and the transfer is gone *)
  | Retry (t : transfer).          (* back to [_pending] *)

Section settle.
Variable strerror : CURLcode -> string.
Variable policy : HttpRetryPolicy.

Definition overflow_error (c : completion) : exn :=
  OverflowError ("maybe the server doesn't support file ranges? [curl_multi transfer failed (" +:+
    (if decide (c_error c = "") then strerror (c_result c) else c_error c) +:+ ")]").

(** [requeue_for_retry], once the verdict is to retry. *)
Definition requeue_for_retry (c : completion) (attempt ready : Z) (t : transfer) : settlement :=
  match c_requeue_error c with
  | None => Retry (back_off attempt ready t)
  | Some e => Report (inl e)
  end.

(** [settle_transfer]; [now] is the clock.  [evaluate] has no loop, so its
    last case does not arise. *)
Definition settle_transfer (now : Z) (c : completion) (t : transfer) (o : PassOutcome)
    : settlement * PassOutcome :=
  if bool_decide (c_result c = CURLE_OK) && negb (c_overflow c) then
    match (if is_device t then c_stage_error c else None) with
    | None => (Report (inr (t_size t)), o)
    | Some e => (Report (inl e), o)
    end
  else if c_overflow c then (Report (inl (overflow_error c)), o)
  else
    let attempt := t_attempt t +% 1 in
    match evaluate strerror policy (c_result c) (c_http c) attempt (c_error c)
            "curl_multi transfer failed" with
    | Ok verdict =>
        if decide (decision verdict = RETRY) then
          let ready := now + delay_ms verdict * 1000000 in
          (requeue_for_retry c attempt ready t, record_ready_at ready o)
        else (Report (inl (RuntimeError (outcome_message verdict))), o)
    | Err e => (Report (inl e), o)
    | NoFuel => (Report (inl (RuntimeError "")), o)
    end.

End settle.

(** ** Poll timeout *)

(** [std::chrono::ceil<milliseconds>] of a time in nanoseconds. *)
Definition ceil_ms (ns : Z) : Z := - ((- ns) / 1000000).

Definition poll_timeout_ms (pending_empty : bool) (queued_hint now : Z) (o : PassOutcome)
    (completed : Z) : Z :=
  let idle_timeout_ms := 1000 in
  let busy_timeout_ms := 10 in
  let pool_work_waiting := queued_hint >? 0 in
  if pending_empty && negb pool_work_waiting then idle_timeout_ms
  else if completed >? 0 then 0
  else if pending_empty && deferred_for_resource o then idle_timeout_ms
  else
    let timeout_ms :=
      if deferred_for_resource o || pool_work_waiting then busy_timeout_ms else idle_timeout_ms in
    match earliest_ready_at o with
    | Some ready => Z.max 0 (Z.min (ceil_ms (ready - now)) timeout_ms)
    | None => timeout_ms
    end.

(** ** Operations on the pool

    Each is one critical section, or work of one reactor thread on its own
    state; those that do not apply leave the pool alone. *)

Definition set_reactor (r : nat) (x : reactor) (p : pool) : pool :=
  mkPool (queue p) (queue_size_hint p) (death_reason p) (drained p) (<[r := x]> (reactors p))
    (reports p) (submitted p).

Definition add_reports (rs : list (Z * (exn + Z))) (p : pool) : pool :=
  mkPool (queue p) (queue_size_hint p) (death_reason p) (drained p) (reactors p)
    (reports p ++ rs) (submitted p).

Definition set_queue (q : list transfer) (p : pool) : pool :=
  mkPool q (Z.of_nat (length q)) (death_reason p) (drained p) (reactors p) (reports p) (submitted p).

Definition fail_with (e : exn) (ts : list transfer) : list (Z * (exn + Z)) :=
  (fun t => (t_id t, inl e)) <$> ts.

Definition submit_pread (ts : list transfer) (p : pool) : pool :=
  let p := mkPool (queue p) (queue_size_hint p) (death_reason p) (drained p) (reactors p)
             (reports p) (submitted p ++ (t_id <$> ts)) in
  match death_reason p with
  | Some e => add_reports (fail_with e ts) p
  | None => set_queue (queue p ++ ts) p
  end.

(** The thread is in its loop and holds nothing of the queue. *)
Definition in_loop (x : reactor) : bool :=
  match hand x with None => negb (failing x) | Some _ => false end.

(** A reactor thread reserves a slot and takes the head of the queue. *)
Definition try_pop_queued (r : nat) (p : pool) : pool :=
  match reactors p !! r with
  | Some x =>
      if failing x then p
      else
        match hand x, acquire (max_requests x) (requests x), queue p with
        | None, Some count, t :: q =>
            set_reactor r (mkReactor (pending x) (in_flight x) (Some (set_slot true t)) count
                             (max_requests x) (failing x) (exited x)) (set_queue q p)
        | _, _, _ => p
        end
  | None => p
  end.

(** [try_admit] on the transfer just taken; when it throws, the transfer goes
    to [_pending] and the thread leaves its loop. *)
Definition admit_hand (r : nat) (g : gates) (pass : AdmitPass) (p : pool)
    : pool * AdmitPass * option admission :=
  match reactors p !! r with
  | Some x =>
      match hand x with
      | Some t =>
          match try_admit g (max_requests x) (requests x) t pass with
          | (Attached t, count, pass) =>
              (set_reactor r (mkReactor (pending x) (in_flight x ++ [t]) None count
                                (max_requests x) (failing x) (exited x)) p, pass,
               Some (Attached t))
          | (Refused t, count, pass) =>
              (set_reactor r (mkReactor (pending x) (in_flight x) (Some t) count
                                (max_requests x) (failing x) (exited x)) p, pass,
               Some (Refused t))
          | (Threw e t, count, pass) =>
              (set_reactor r (mkReactor (pending x ++ [t]) (in_flight x) None count
                                (max_requests x) true (exited x)) p, pass,
               Some (Threw e t))
          end
      | None => (p, pass, None)
      end
  | None => (p, pass, None)
  end.

(** [return_to_queue] *)
Definition return_to_queue (r : nat) (p : pool) : pool :=
  match reactors p !! r with
  | Some x =>
      match hand x with
      | Some t =>
          if slot t then p
          else
            let p := set_reactor r (mkReactor (pending x) (in_flight x) None (requests x)
                                      (max_requests x) (failing x) (exited x)) p in
            match death_reason p with
            | Some e => add_reports (fail_with e [t]) p
            | None => set_queue (t :: queue p) p
            end
      | None => p
      end
  | None => p
  end.

(** [try_admit] on a transfer of [_pending]. *)
Definition admit_retry (r i : nat) (g : gates) (pass : AdmitPass) (p : pool)
    : pool * AdmitPass * option admission :=
  match reactors p !! r with
  | Some x =>
      match (if in_loop x then pending x !! i else None) with
      | Some t =>
          match try_admit g (max_requests x) (requests x) t pass with
          | (Attached t, count, pass) =>
              (set_reactor r (mkReactor (delete i (pending x)) (in_flight x ++ [t]) (hand x) count
                                (max_requests x) (failing x) (exited x)) p, pass,
               Some (Attached t))
          | (Refused t, count, pass) =>
              (set_reactor r (mkReactor (<[i := t]> (pending x)) (in_flight x) (hand x) count
                                (max_requests x) (failing x) (exited x)) p, pass,
               Some (Refused t))
          | (Threw e t, count, pass) =>
              (set_reactor r (mkReactor (<[i := t]> (pending x)) (in_flight x) (hand x) count
                                (max_requests x) true (exited x)) p, pass,
               Some (Threw e t))
          end
      | None => (p, pass, None)
      end
  | None => (p, pass, None)
  end.

(** One completion of [reap_completions]. *)
Definition reap (strerror : CURLcode -> string) (policy : HttpRetryPolicy) (now : Z) (r i : nat)
    (c : completion) (o : PassOutcome) (p : pool) : pool * PassOutcome :=
  match reactors p !! r with
  | Some x =>
      match (if in_loop x then in_flight x !! i else None) with
      | Some t =>
          let '(s, o) := settle_transfer strerror policy now c t o in
          let count := drop_slot (slot t) (requests x) in
          match s with
          | Report rep =>
              (add_reports [(t_id t, rep)]
                 (set_reactor r (mkReactor (pending x) (delete i (in_flight x)) (hand x) count
                                   (max_requests x) (failing x) (exited x)) p), o)
          | Retry t =>
              (set_reactor r (mkReactor (pending x ++ [t]) (delete i (in_flight x)) (hand x) count
                                (max_requests x) (failing x) (exited x)) p, o)
          end
      | None => (p, o)
      end
  | None => (p, o)
  end.

(** The thread leaves its loop: it caught something, or saw the pool dead. *)
Definition leave_loop (r : nat) (p : pool) : pool :=
  match reactors p !! r with
  | Some x =>
      match hand x with
      | None => set_reactor r (mkReactor (pending x) (in_flight x) None (requests x)
                                 (max_requests x) true (exited x)) p
      | Some _ => p
      end
  | None => p
  end.

(** [signal_death], its two critical sections. *)
Definition signal_death (e : exn) (p : pool) : pool :=
  match death_reason p with
  | Some _ => p
  | None => mkPool (queue p) (queue_size_hint p) (Some e) (drained p) (reactors p) (reports p)
              (submitted p)
  end.

Definition drain_queue (p : pool) : pool :=
  match death_reason p with
  | Some e =>
      let p' := add_reports (fail_with e (queue p)) (set_queue [] p) in
      mkPool (queue p') (queue_size_hint p') (death_reason p') true (reactors p') (reports p')
        (submitted p')
  | None => p
  end.

(** [fail_all_pending], the last thing a reactor thread does. *)
Definition fail_all_pending (r : nat) (p : pool) : pool :=
  match reactors p !! r, death_reason p with
  | Some x, Some e =>
      match hand x with
      | None =>
          if failing x then
            add_reports (fail_with e (pending x ++ in_flight x))
              (set_reactor r (mkReactor [] [] None
                 (foldl (fun n t => drop_slot (slot t) n) (requests x) (pending x ++ in_flight x))
                 (max_requests x) true true) p)
          else p
      | Some _ => p
      end
  | _, _ => p
  end.

(** A transfer as [pread] builds it. *)
Definition fresh (t : transfer) : Prop :=
  slot t = false /\ has_buffer t = false /\ attached t = false /\ observing t = false /\
  t_attempt t = 0.

(** The pool with its reactors, any of whose threads, or a caller, may act. *)
Inductive pool_step (strerror : CURLcode -> string) (policy : HttpRetryPolicy)
    : pool -> pool -> Prop :=
  | ps_submit ts p : Forall fresh ts -> pool_step strerror policy p (submit_pread ts p)
  | ps_pop r p : pool_step strerror policy p (try_pop_queued r p)
  | ps_hand r g pass p : pool_step strerror policy p (admit_hand r g pass p).1.1
  | ps_return r p : pool_step strerror policy p (return_to_queue r p)
  | ps_retry r i g pass p : pool_step strerror policy p (admit_retry r i g pass p).1.1
  | ps_reap now r i c o p : pool_step strerror policy p (reap strerror policy now r i c o p).1
  | ps_leave r p : pool_step strerror policy p (leave_loop r p)
  | ps_death e p : pool_step strerror policy p (signal_death e p)
  | ps_drain p : pool_step strerror policy p (drain_queue p)
  | ps_fail_all r p : pool_step strerror policy p (fail_all_pending r p).

(** ** One turn of a reactor's loop *)

Section turn.
Variable strerror : CURLcode -> string.
Variable policy : HttpRetryPolicy.
(** The answers of the outside world to the calls of a turn. *)
Variable gates_at : nat -> gates.

(** The retries, in order: an admitted one leaves the list, a refused one
    stays. *)
Fixpoint admit_retries (fuel r i k : nat) (pass : AdmitPass) (p : pool)
    : pool * AdmitPass * option exn :=
  match fuel with
  | O => (p, pass, None)
  | S fuel =>
      match admit_retry r i (gates_at k) pass p with
      | (p, pass, Some (Attached _)) => admit_retries fuel r i (S k) pass p
      | (p, pass, Some (Refused _)) => admit_retries fuel r (S i) (S k) pass p
      | (p, pass, Some (Threw e _)) => (p, pass, Some e)
      | (p, pass, None) => (p, pass, None)
      end
  end.

(** [admit_from_pool]: [share] rounds at most. *)
Fixpoint admit_from_pool (share r k : nat) (pass : AdmitPass) (p : pool)
    : pool * AdmitPass * option exn :=
  match share with
  | O => (p, pass, None)
  | S share =>
      match reactors p !! r with
      | None => (p, pass, None)
      | Some x =>
          match acquire (max_requests x) (requests x) with
          | None => (p, set_outcome (defer_for_resource (pass_outcome pass)) pass, None)
          | Some _ =>
              match queue p with
              | [] => (p, pass, None)
              | _ :: _ =>
                  match admit_hand r (gates_at k) pass (try_pop_queued r p) with
                  | (p, pass, Some (Attached _)) => admit_from_pool share r (S k) pass p
                  | (p, pass, Some (Refused _)) => (return_to_queue r p, pass, None)
                  | (p, pass, Some (Threw e _)) => (p, pass, Some e)
                  | (p, pass, None) => (p, pass, None)
                  end
              end
          end
      end
  end.

(** [admit_pending] *)
Definition admit_pending (r : nat) (now : Z) (p : pool) : pool * AdmitPass * option exn :=
  let pass := mkAdmitPass (mkPassOutcome None false) now [] in
  match reactors p !! r with
  | None => (p, pass, None)
  | Some x =>
      let n := length (pending x) in
      match admit_retries n r 0 0 pass p with
      | (p, pass, Some e) => (p, pass, Some e)
      | (p, pass, None) =>
          let share := queue_share_per_reactor (queue_size_hint p)
                         (Z.of_nat (length (reactors p))) in
          admit_from_pool (Z.to_nat share) r n pass p
      end
  end.

(** [reap_completions]: the finished transfers, by their place in the map. *)
Fixpoint reap_completions (now : Z) (r : nat) (cs : list (nat * completion)) (o : PassOutcome)
    (p : pool) : pool * PassOutcome :=
  match cs with
  | [] => (p, o)
  | (i, c) :: cs =>
      let '(p, o) := reap strerror policy now r i c o p in reap_completions now r cs o p
  end.

(** One turn of the loop of [io_thread_main] up to the poll, whose timeout is
    returned; [perform_error] is what [perform] throws, if anything. *)
Definition io_turn (r : nat) (now : Z) (perform_error : option exn)
    (cs : list (nat * completion)) (p : pool) : pool * Z :=
  match admit_pending r now p with
  | (p, _, Some e) => (drain_queue (signal_death e (leave_loop r p)), 0)
  | (p, pass, None) =>
      match perform_error with
      | Some e => (drain_queue (signal_death e (leave_loop r p)), 0)
      | None =>
          let '(p, o) := reap_completions now r cs (pass_outcome pass) p in
          let pending_empty :=
            match reactors p !! r with
            | Some x => match pending x with [] => true | _ => false end
            | None => true
            end in
          (p, poll_timeout_ms pending_empty (queue_size_hint p) now o (Z.of_nat (length cs)))
      end
  end.
End turn.

(** ** The sizing functions *)

(** Together the shares of the reactors cover the queue. *)
Lemma queue_share_covers queued n :
  0 <= queued -> 0 < n -> queued + n < SIZE_MOD ->
  queued <= queue_share_per_reactor queued n * n /\
  (0 < queued -> 1 <= queue_share_per_reactor queued n).
Proof.
  intros Hq Hn Hb. unfold queue_share_per_reactor. case_bool; [lia|].
  rewrite (wrap64_small (queued + n)), wrap64_small by lia.
  pose proof (Z.div_mod (queued + n - 1) n ltac:(lia)).
  pose proof (Z.mod_pos_bound (queued + n - 1) n Hn).
  pose proof (Z.le_max_l ((queued + n - 1) / n) 1). split; nia.
Qed.

(** Four connections per request, at least four, never more than libcurl's
    [unsigned] holds. *)
Lemma connection_cache_size_spec m :
  is_size m ->
  connection_cache_size (Some m) = Some (4 * Z.min (Z.max m 1) 1073741823) /\
  4 * Z.min (Z.max m 1) 1073741823 <= 4294967295.
Proof.
  intros [H0 H1]. unfold connection_cache_size. rewrite (Z.min_l 4294967295) by lia.
  change (4294967295 / 4) with 1073741823. split; [|lia]. f_equal. rewrite wrap64_small; lia.
Qed.

(** ** No transfer is lost, none is settled twice *)

Definition occ (id : Z) (l : list transfer) : nat := length (filter (fun t => t_id t = id) l).

Definition hand_list (x : reactor) : list transfer :=
  match hand x with Some t => [t] | None => [] end.

Definition occ_reactor (id : Z) (x : reactor) : nat :=
  (occ id (pending x) + occ id (in_flight x) + occ id (hand_list x))%nat.

Definition reported (id : Z) (rs : list (Z * (exn + Z))) : nat :=
  length (filter (fun x => x.1 = id) rs).

Definition asked (id : Z) (l : list Z) : nat := length (filter (fun x => x = id) l).

(** Where transfer [id] is, counted over the whole pool. *)
Definition whereabouts (id : Z) (p : pool) : nat :=
  (occ id (queue p) + sum_list (occ_reactor id <$> reactors p) + reported id (reports p))%nat.

Lemma occ_app id l k : occ id (l ++ k) = (occ id l + occ id k)%nat.
Proof. unfold occ. by rewrite filter_app, length_app. Qed.

Lemma occ_nil id : occ id [] = 0%nat.
Proof. done. Qed.

Lemma occ_cons id t l : occ id (t :: l) = (occ id [t] + occ id l)%nat.
Proof. apply (occ_app id [t] l). Qed.

Lemma occ_same id t u : t_id t = t_id u -> occ id [t] = occ id [u].
Proof. intros Ht. unfold occ. rewrite !filter_cons, Ht. by destruct (decide _). Qed.

Lemma occ_delete id l i t : l !! i = Some t -> (occ id (delete i l) + occ id [t])%nat = occ id l.
Proof.
  intros Hi. rewrite <- (take_drop_middle l i t Hi) at 2. rewrite delete_take_drop, !occ_app.
  rewrite (occ_cons id t (drop (S i) l)). lia.
Qed.

Lemma occ_insert id l i t u :
  l !! i = Some t -> t_id u = t_id t -> occ id (<[i := u]> l) = occ id l.
Proof.
  intros Hi Hu. rewrite <- (take_drop_middle l i t Hi) at 2.
  rewrite insert_take_drop by (by eapply lookup_lt_Some).
  by rewrite !occ_app, (occ_cons id t (drop _ _)), (occ_cons id u (drop _ _)), (occ_same id u t Hu).
Qed.

Lemma reported_app id l k : reported id (l ++ k) = (reported id l + reported id k)%nat.
Proof. unfold reported. by rewrite filter_app, length_app. Qed.

Lemma reported_one id t r : reported id [(t_id t, r)] = occ id [t].
Proof. unfold reported, occ. rewrite !filter_cons. simpl. by destruct (decide _). Qed.

Lemma reported_fail id e ts : reported id (fail_with e ts) = occ id ts.
Proof.
  induction ts as [|t ts IH]; [done|]. rewrite (occ_cons id t).
  change (fail_with e (t :: ts)) with ([(t_id t, inl e : exn + Z)] ++ fail_with e ts).
  by rewrite reported_app, reported_one, IH.
Qed.

Lemma asked_app id l k : asked id (l ++ k) = (asked id l + asked id k)%nat.
Proof. unfold asked. by rewrite filter_app, length_app. Qed.

Lemma asked_ids id ts : asked id (t_id <$> ts) = occ id ts.
Proof.
  induction ts as [|t ts IH]; [done|]. unfold asked, occ in *. csimpl. rewrite !filter_cons.
  destruct (decide (t_id t = id)); simpl; lia.
Qed.

(** Replacing one reactor. *)
Lemma sum_reactor (f : reactor -> nat) rs r x y :
  rs !! r = Some x -> (sum_list (f <$> <[r := y]> rs) + f x)%nat = (sum_list (f <$> rs) + f y)%nat.
Proof.
  revert r. induction rs as [|z rs IH]; intros [|r] Hr; try done.
  - simpl in Hr. injection Hr as ->. csimpl. simpl. lia.
  - simpl in Hr. specialize (IH r Hr). change (<[S r := y]> (z :: rs)) with (z :: <[r := y]> rs).
    csimpl. simpl. lia.
Qed.

Lemma try_admit_id g max count t pass :
  match (try_admit g max count t pass).1.1 with
  | Attached u | Refused u | Threw _ u => t_id u = t_id t
  end.
Proof.
  unfold try_admit. destruct (ready_at _ >? _); [done|]. destruct (_ && _); [done|].
  destruct (if slot t then _ else _) as [c|]; [|done].
  destruct (is_device _); [destruct (try_get_buffer g) as [e|[|]]; try done|];
    by destruct (add_handle_error g).
Qed.

Lemma settle_transfer_id strerror policy now c t o :
  match (settle_transfer strerror policy now c t o).1 with
  | Retry u => t_id u = t_id t
  | Report _ => True
  end.
Proof.
  unfold settle_transfer. destruct (_ && _).
  { by destruct (if is_device t then _ else _). }
  destruct (c_overflow c); [done|]. destruct (evaluate _ _ _ _ _ _ _) as [v| |]; [|done|done].
  destruct (decide _); [|done]. simpl. unfold requeue_for_retry. by destruct (c_requeue_error c).
Qed.

(** Each step moves a transfer, or reports it. *)
Definition conserved (p : pool) : Prop := forall id, whereabouts id p = asked id (submitted p).

(** A step of reactor [r] from [x] to [y] that changes the queue and the
    reports so as to keep every count. *)
Lemma conserved_reactor r x y p q hint dr rs :
  reactors p !! r = Some x -> conserved p ->
  (forall id, occ id q + occ_reactor id y + reported id rs
     = occ id (queue p) + occ_reactor id x + reported id (reports p))%nat ->
  conserved (mkPool q hint (death_reason p) dr (<[r := y]> (reactors p)) rs (submitted p)).
Proof.
  intros Hr Hc He id. specialize (Hc id). specialize (He id). unfold whereabouts in *. simpl.
  pose proof (sum_reactor (occ_reactor id) _ _ _ y Hr). lia.
Qed.

Ltac count_occ :=
  unfold occ_reactor, hand_list; simpl;
  rewrite ?occ_app, ?reported_app, ?reported_one, ?reported_fail, ?occ_nil.

Lemma conserved_submit ts p : conserved p -> conserved (submit_pread ts p).
Proof.
  intros Hc.
  intros id. specialize (Hc id). unfold submit_pread, whereabouts in *. simpl.
  destruct (death_reason p); simpl; rewrite ?occ_app, ?reported_app, ?reported_fail, asked_app,
    asked_ids; lia.
Qed.

Lemma conserved_pop r p : conserved p -> conserved (try_pop_queued r p).
Proof.
  intros Hc.
  unfold try_pop_queued. destruct (reactors p !! r) as [x|] eqn:Hr; [|done].
  destruct (failing x); [done|]. destruct (hand x) eqn:Hh; [done|].
  destruct (acquire _ _); [|done]. destruct (queue p) as [|t q] eqn:Hq; [done|].
  unfold set_queue, set_reactor. simpl. apply (conserved_reactor r x); [done|done|].
  intros id. count_occ. rewrite Hh, Hq, (occ_cons id t q).
  rewrite (occ_same id (set_slot true t) t) by done. rewrite occ_nil. lia.
Qed.

Lemma conserved_hand r g pass p : conserved p -> conserved (admit_hand r g pass p).1.1.
Proof.
  intros Hc.
  unfold admit_hand. destruct (reactors p !! r) as [x|] eqn:Hr; [|done].
  destruct (hand x) as [t|] eqn:Hh; [|done].
  pose proof (try_admit_id g (max_requests x) (requests x) t pass) as Hid.
  destruct (try_admit _ _ _ _ _) as [[[u|u|e u] count] pass']; simpl in Hid |- *;
    apply (conserved_reactor r x); try done; intros id; count_occ; rewrite Hh;
    rewrite (occ_same id u t Hid), ?occ_nil; lia.
Qed.

Lemma conserved_return r p : conserved p -> conserved (return_to_queue r p).
Proof.
  intros Hc.
  unfold return_to_queue. destruct (reactors p !! r) as [x|] eqn:Hr; [|done].
  destruct (hand x) as [t|] eqn:Hh; [|done]. destruct (slot t); [done|].
  unfold set_queue, set_reactor, add_reports. simpl.
  destruct (death_reason p) eqn:Hd; simpl; rewrite <- ?Hd;
    apply (conserved_reactor r x); try done; intros id; count_occ; rewrite Hh;
    rewrite ?(occ_cons id t (queue p)), ?reported_one, ?occ_nil; lia.
Qed.

Lemma conserved_retry r i g pass p : conserved p -> conserved (admit_retry r i g pass p).1.1.
Proof.
  intros Hc.
  unfold admit_retry. destruct (reactors p !! r) as [x|] eqn:Hr; [|done].
  destruct (if in_loop x then pending x !! i else None) as [t|] eqn:Hi; [|done].
  destruct (in_loop x); [|done].
  pose proof (try_admit_id g (max_requests x) (requests x) t pass) as Hid.
  destruct (try_admit _ _ _ _ _) as [[[u|u|e u] count] pass']; simpl in Hid |- *;
    apply (conserved_reactor r x); try done; intros id; count_occ.
  - pose proof (occ_delete id _ _ _ Hi). rewrite (occ_same id u t Hid). lia.
  - by rewrite (occ_insert id _ _ _ _ Hi Hid).
  - by rewrite (occ_insert id _ _ _ _ Hi Hid).
Qed.

Lemma conserved_reap strerror policy now r i c o p :
  conserved p -> conserved (reap strerror policy now r i c o p).1.
Proof.
  intros Hc.
  unfold reap. destruct (reactors p !! r) as [x|] eqn:Hr; [|done].
  destruct (if in_loop x then in_flight x !! i else None) as [t|] eqn:Hi; [|done].
  destruct (in_loop x); [|done].
  pose proof (settle_transfer_id strerror policy now c t o) as Hid.
  destruct (settle_transfer _ _ _ _ _ _) as [[rep|u] o'];
    unfold add_reports, set_reactor; simpl in Hid |- *;
    apply (conserved_reactor r x); try done; intros id; count_occ;
    pose proof (occ_delete id _ _ _ Hi); [lia|]. rewrite (occ_same id u t Hid). lia.
Qed.

Lemma conserved_leave r p : conserved p -> conserved (leave_loop r p).
Proof.
  intros Hc.
  unfold leave_loop. destruct (reactors p !! r) as [x|] eqn:Hr; [|done].
  destruct (hand x) eqn:Hh; [done|]. apply (conserved_reactor r x); [done|done|].
  intros id. count_occ. by rewrite Hh.
Qed.

Lemma conserved_death e p : conserved p -> conserved (signal_death e p).
Proof.
  intros Hc.
  unfold signal_death. by destruct (death_reason p).
Qed.

Lemma conserved_drain p : conserved p -> conserved (drain_queue p).
Proof.
  intros Hc.
  unfold drain_queue. destruct (death_reason p) as [e|]; [|done].
  intros id. specialize (Hc id). unfold whereabouts in *. simpl.
  rewrite reported_app, reported_fail, ?occ_nil. lia.
Qed.

Lemma conserved_fail_all r p : conserved p -> conserved (fail_all_pending r p).
Proof.
  intros Hc.
  unfold fail_all_pending. destruct (reactors p !! r) as [x|] eqn:Hr; [|done].
  destruct (death_reason p) as [e|] eqn:Hd; [|done]. destruct (hand x) eqn:Hh; [done|].
  destruct (failing x); [|done]. unfold add_reports, set_reactor. simpl.
  apply (conserved_reactor r x); [done|done|]. intros id. unfold occ_reactor, hand_list. simpl.
  rewrite Hh, reported_app, reported_fail, occ_app, !occ_nil. lia.
Qed.

Lemma pool_step_conserved strerror policy p p' :
  conserved p -> pool_step strerror policy p p' -> conserved p'.
Proof.
  intros Hc Hs. destruct Hs;
    [by apply conserved_submit|by apply conserved_pop|by apply conserved_hand
    |by apply conserved_return|by apply conserved_retry|by apply conserved_reap
    |by apply conserved_leave|by apply conserved_death|by apply conserved_drain
    |by apply conserved_fail_all].
Qed.

(** ** Slots and buffers *)

Definition waiting (t : transfer) : Prop :=
  has_buffer t = false /\ attached t = false /\ observing t = false.

Definition resting (t : transfer) : Prop := slot t = false /\ waiting t.

Definition flying (t : transfer) : Prop :=
  slot t = true /\ attached t = true /\ observing t = true /\ has_buffer t = is_device t.

Definition slots_of (t : transfer) : Z := if slot t then 1 else 0.

Definition held_slots (x : reactor) : Z :=
  Z.of_nat (length (in_flight x)) + match hand x with Some t => slots_of t | None => 0 end.

Definition within (max : option Z) (n : Z) : Prop :=
  match max with Some m => n <= m < SIZE_MOD | None => True end.

(** The limiter counts the slots held; what waits holds nothing. *)
Record reactor_ok (x : reactor) : Prop := mkReactorOk {
  ro_flying : Forall flying (in_flight x);
  ro_pending : Forall (if failing x then fun t => slot t = false else resting) (pending x);
  ro_hand : match hand x with Some t => waiting t /\ failing x = false | None => True end;
  ro_count : requests x = wrap64 (held_slots x);
  ro_max : within (max_requests x) (held_slots x);
  ro_exited : exited x = true -> failing x = true /\ pending x = [] /\ in_flight x = [] }.

Record pool_ok (p : pool) : Prop := mkPoolOk {
  po_reactors : Forall reactor_ok (reactors p);
  po_queue : Forall resting (queue p);
  po_hint : queue_size_hint p = Z.of_nat (length (queue p));
  po_drained : drained p = true -> is_dead p = true /\ queue p = [] }.

(** The verdict of [try_admit] on a waiting transfer, [n] slots being held by
    others. *)
Lemma try_admit_ok g max n t pass :
  0 <= n -> waiting t -> within max (n + slots_of t) ->
  match try_admit g max (wrap64 (n + slots_of t)) t pass with
  | (Attached u, count, _) => flying u /\ count = wrap64 (n + 1) /\ within max (n + 1)
  | (Refused u, count, _) => resting u /\ count = wrap64 n
  | (Threw _ u, count, _) => slot u = false /\ count = wrap64 n
  end.
Proof.
  intros Hn (Hb & Ha & Ho) Hmax. unfold slots_of in *.
  assert (Hdrop : drop_slot (slot t) (wrap64 (n + (if slot t then 1 else 0))) = wrap64 n).
  { unfold drop_slot. destruct (slot t); [|by rewrite Z.add_0_r].
    rewrite wrap64_sub_l. by f_equal; lia. }
  assert (Hrest : resting (set_slot false t)) by done.
  unfold try_admit. destruct (ready_at _ >? _); [done|]. destruct (_ && _); [done|].
  assert (Hgate : forall count, count = wrap64 (n + 1) -> count -% 1 = wrap64 n).
  { intros count ->. rewrite wrap64_sub_l. by f_equal; lia. }
  assert (Hacq : forall count,
    (if slot t then Some (wrap64 (n + (if slot t then 1 else 0)))
     else acquire max (wrap64 (n + (if slot t then 1 else 0)))) = Some count ->
    count = wrap64 (n + 1) /\ within max (n + 1)).
  { intros count. destruct (slot t); [by intros [= <-]|]. unfold acquire.
    destruct max as [m|]; simpl in *.
    - rewrite (wrap64_small (n + 0)) by lia. case_bool; [done|]. intros [= <-].
      rewrite Z.add_0_r. split; [done|lia].
    - intros [= <-]. by rewrite wrap64_add_l, Z.add_0_r. }
  destruct (if slot t then Some _ else _) as [count|] eqn:Hc.
  - destruct (Hacq count eq_refl) as [-> Hw].
    destruct (is_device _) eqn:Hd; [destruct (try_get_buffer g) as [e|[|]]|].
    + split; [done|by apply Hgate].
    + destruct (add_handle_error g); simpl; [split; [done|by apply Hgate]|done].
    + split; [done|by apply Hgate].
    + destruct (add_handle_error g); simpl; [split; [done|by apply Hgate]|].
      split; [|done]. unfold flying. simpl. rewrite Hb. done.
  - split; [done|]. destruct (slot t); [done|]. by rewrite Z.add_0_r.
Qed.

Lemma settle_transfer_resting strerror policy now c t o u :
  (settle_transfer strerror policy now c t o).1 = Retry u -> resting u.
Proof.
  unfold settle_transfer. destruct (_ && _).
  { by destruct (if is_device t then _ else _). }
  destruct (c_overflow c); [done|]. destruct (evaluate _ _ _ _ _ _ _) as [v| |]; [|done|done].
  destruct (decide _); [|done]. simpl. unfold requeue_for_retry.
  destruct (c_requeue_error c); [done|]. by intros [= <-].
Qed.

(** A step of one reactor, and of the queue. *)
Lemma pool_ok_reactor r y p q hint rs :
  pool_ok p -> reactor_ok y -> Forall resting q -> hint = Z.of_nat (length q) ->
  (drained p = true -> q = []) ->
  pool_ok (mkPool q hint (death_reason p) (drained p) (<[r := y]> (reactors p)) rs (submitted p)).
Proof.
  intros [Hr Hq Hh Hd] Hy Hq' Hh' Hd'. constructor; simpl; [|done|done|].
  - by apply Forall_insert.
  - intros Hdr. split; [by apply Hd|by apply Hd'].
Qed.

Lemma pool_ok_add_reports rs p : pool_ok p -> pool_ok (add_reports rs p).
Proof. by intros []. Qed.

Lemma lookup_ok r x p : pool_ok p -> reactors p !! r = Some x -> reactor_ok x.
Proof. intros [Hr _ _ _] Hx. by eapply Forall_lookup_1. Qed.

Lemma not_exited x : reactor_ok x -> failing x = false -> exited x = false.
Proof.
  intros [_ _ _ _ _ He] Hf. destruct (exited x); [|done].
  destruct (He eq_refl) as [Ht _]. by rewrite Ht in Hf.
Qed.

Lemma pop_ok r p : pool_ok p -> pool_ok (try_pop_queued r p).
Proof.
  intros Hok. unfold try_pop_queued. destruct (reactors p !! r) as [x|] eqn:Hr; [|done].
  pose proof (lookup_ok _ _ _ Hok Hr) as Hx. destruct (failing x) eqn:Hf; [done|].
  destruct (hand x) eqn:Hh; [done|]. destruct (acquire _ _) as [count|] eqn:Ha; [|done].
  destruct (queue p) as [|t q] eqn:Hq; [done|]. unfold set_queue, set_reactor. simpl.
  pose proof (not_exited x Hx Hf) as He.
  pose proof Hok as [Hrs Hqs Hhint Hdr]. rewrite Hq in Hqs, Hdr.
  apply Forall_cons in Hqs as [[Hs Hw] Hqs].
  apply pool_ok_reactor; [done| |done|done|].
  - destruct Hx as [Hfl Hp _ Hc Hm _]. unfold held_slots in Hc, Hm. rewrite Hh in Hc, Hm.
    rewrite Hf in Hp. unfold acquire in Ha.
    constructor; simpl; rewrite ?Hf, ?He; try done; unfold held_slots; simpl.
    + assert (count = requests x +% 1) as ->
        by (destruct (max_requests x) as [m|]; [by destruct (_ >=? m); simplify_eq|by simplify_eq]).
      rewrite Hc, wrap64_add_l. f_equal. unfold slots_of. simpl. lia.
    + destruct (max_requests x) as [m|]; [|done]. simpl in *. unfold slots_of. simpl.
      rewrite Hc, wrap64_small in Ha by lia. destruct (_ >=? m) eqn:E in Ha; [done|].
      bool_to_prop. lia.
  - intros Hd. by destruct (Hdr Hd).
Qed.

Lemma held_nonneg x : 0 <= held_slots x.
Proof. unfold held_slots, slots_of. destruct (hand x) as [t|]; [destruct (slot t)|]; lia. Qed.

Lemma within_le max m n : m <= n -> within max n -> within max m.
Proof. destruct max; simpl; lia. Qed.

Lemma in_loop_inv x : in_loop x = true -> hand x = None /\ failing x = false.
Proof. unfold in_loop. destruct (hand x), (failing x); done. Qed.

Lemma resting_no_slot l : Forall resting l -> Forall (fun t => slot t = false) l.
Proof. intros Hl. eapply Forall_impl; [exact Hl|]. by intros t []. Qed.

Lemma keep_queue_ok r x y p :
  pool_ok p -> reactors p !! r = Some x -> reactor_ok y -> pool_ok (set_reactor r y p).
Proof.
  intros Hok Hr Hy. pose proof Hok as [Hrs Hqs Hh Hd].
  apply pool_ok_reactor; try done. intros Hdr. by apply Hd.
Qed.

Lemma hand_ok r g pass p : pool_ok p -> pool_ok (admit_hand r g pass p).1.1.
Proof.
  intros Hok. unfold admit_hand. destruct (reactors p !! r) as [x|] eqn:Hr; [|done].
  pose proof (lookup_ok _ _ _ Hok Hr) as Hx. destruct (hand x) as [t|] eqn:Hh; [|done].
  pose proof Hx as [Hfl Hp Hhand Hc Hm _]. unfold held_slots in Hc, Hm. rewrite Hh in Hc, Hm, Hhand.
  destruct Hhand as [Hw Hf]. pose proof (not_exited x Hx Hf) as He. rewrite Hf in Hp.
  pose proof (try_admit_ok g _ _ t pass (Nat2Z.is_nonneg (length (in_flight x))) Hw Hm) as Had.
  rewrite <- Hc in Had.
  assert (Hm' : within (max_requests x) (Z.of_nat (length (in_flight x)) + 0)).
  { eapply within_le; [|exact Hm]. unfold slots_of. destruct (slot t); lia. }
  destruct (try_admit _ _ _ _ _) as [[[u|u|e u] count] pass']; simpl;
    (eapply keep_queue_ok; [done|done|]); constructor; simpl; rewrite ?Hf, ?He; try done;
    unfold held_slots; simpl.
  - destruct Had as (Hu & _). apply Forall_app. by rewrite Forall_singleton.
  - destruct Had as (_ & -> & _). rewrite length_app. simpl. f_equal. lia.
  - destruct Had as (_ & _ & Hmax). eapply within_le; [|exact Hmax]. rewrite length_app. simpl. lia.
  - by destruct Had as [[_ ?] _].
  - destruct Had as [[Hs _] ->]. unfold slots_of. rewrite Hs. by rewrite Z.add_0_r.
  - destruct Had as [[Hs _] _]. unfold slots_of. by rewrite Hs.
  - apply Forall_app. rewrite Forall_singleton. split; [by apply resting_no_slot|by destruct Had].
  - destruct Had as [_ ->]. by rewrite Z.add_0_r.
Qed.

Lemma retry_ok r i g pass p : pool_ok p -> pool_ok (admit_retry r i g pass p).1.1.
Proof.
  intros Hok. unfold admit_retry. destruct (reactors p !! r) as [x|] eqn:Hr; [|done].
  pose proof (lookup_ok _ _ _ Hok Hr) as Hx.
  destruct (if in_loop x then pending x !! i else None) as [t|] eqn:Hi; [|done].
  destruct (in_loop x) eqn:Hl; [|done]. apply in_loop_inv in Hl as [Hh Hf].
  pose proof Hx as [Hfl Hp _ Hc Hm _]. pose proof (not_exited x Hx Hf) as He. rewrite Hf in Hp.
  destruct (Forall_lookup_1 _ _ _ _ Hp Hi) as [Hs Hw].
  assert (Hslots : slots_of t = 0) by (unfold slots_of; by rewrite Hs).
  pose proof (try_admit_ok g (max_requests x) (held_slots x) t pass (held_nonneg x) Hw) as Had.
  rewrite Hslots, Z.add_0_r, <- Hc in Had. specialize (Had Hm).
  unfold held_slots in Had, Hm, Hc. rewrite Hh, Z.add_0_r in Had, Hm, Hc.
  destruct (try_admit _ _ _ _ _) as [[[u|u|e u] count] pass']; simpl;
    (eapply keep_queue_ok; [done|done|]); constructor; simpl; rewrite ?Hf, ?He, ?Hh; try done;
    unfold held_slots; simpl; rewrite ?Hh, ?Z.add_0_r; try done.
  - destruct Had as (Hu & _). apply Forall_app. by rewrite Forall_singleton.
  - by apply Forall_delete.
  - destruct Had as (_ & -> & _). rewrite length_app. simpl. f_equal. lia.
  - destruct Had as (_ & _ & Hmax). eapply within_le; [|exact Hmax]. rewrite length_app. simpl. lia.
  - apply Forall_insert; [done|apply Had].
  - by destruct Had as [_ ->].
  - apply Forall_insert; [by apply resting_no_slot|apply Had].
  - by destruct Had as [_ ->].
Qed.

Lemma return_ok r p : pool_ok p -> pool_ok (return_to_queue r p).
Proof.
  intros Hok. unfold return_to_queue. destruct (reactors p !! r) as [x|] eqn:Hr; [|done].
  pose proof (lookup_ok _ _ _ Hok Hr) as Hx. destruct (hand x) as [t|] eqn:Hh; [|done].
  destruct (slot t) eqn:Hs; [done|].
  pose proof Hx as [Hfl Hp Hhand Hc Hm _]. unfold held_slots in Hc, Hm. rewrite Hh in Hc, Hm, Hhand.
  destruct Hhand as [Hw Hf]. pose proof (not_exited x Hx Hf) as He. rewrite Hf in Hp.
  assert (Hslots : slots_of t = 0) by (unfold slots_of; by rewrite Hs). rewrite Hslots in Hc, Hm.
  assert (Hy : reactor_ok (mkReactor (pending x) (in_flight x) None (requests x) (max_requests x)
    (failing x) (exited x))) by (constructor; simpl; rewrite ?Hf, ?He; done).
  simpl. pose proof Hok as [Hrs Hqs Hh' Hd]. destruct (death_reason p) as [e|] eqn:Hdead.
  - apply pool_ok_add_reports. by eapply keep_queue_ok.
  - unfold set_queue, set_reactor. simpl. apply pool_ok_reactor; [done|done| |done|].
    + by constructor.
    + intros Hdr. destruct (Hd Hdr) as [Hdd _]. unfold is_dead in Hdd. by rewrite Hdead in Hdd.
Qed.

Lemma reap_ok strerror policy now r i c o p :
  pool_ok p -> pool_ok (reap strerror policy now r i c o p).1.
Proof.
  intros Hok. unfold reap. destruct (reactors p !! r) as [x|] eqn:Hr; [|done].
  pose proof (lookup_ok _ _ _ Hok Hr) as Hx.
  destruct (if in_loop x then in_flight x !! i else None) as [t|] eqn:Hi; [|done].
  destruct (in_loop x) eqn:Hl; [|done]. apply in_loop_inv in Hl as [Hh Hf].
  pose proof Hx as [Hfl Hp _ Hc Hm _]. pose proof (not_exited x Hx Hf) as He. rewrite Hf in Hp.
  destruct (Forall_lookup_1 _ _ _ _ Hfl Hi) as [Hs _].
  unfold held_slots in Hc, Hm. rewrite Hh, Z.add_0_r in Hc, Hm. rewrite Hs. simpl.
  assert (Hlen : Z.of_nat (length (delete i (in_flight x))) = Z.of_nat (length (in_flight x)) - 1).
  { apply lookup_lt_Some in Hi as Hlt. rewrite length_delete by done. lia. }
  assert (Hcount : requests x -% 1 = wrap64 (Z.of_nat (length (delete i (in_flight x))))).
  { rewrite Hc, wrap64_sub_l, Hlen. done. }
  assert (Hm' : within (max_requests x) (Z.of_nat (length (delete i (in_flight x)))))
    by (eapply within_le; [|exact Hm]; lia).
  pose proof (settle_transfer_resting strerror policy now c t o) as Hset.
  destruct (settle_transfer _ _ _ _ _ _) as [[rep|u] o']; simpl;
    [apply pool_ok_add_reports|]; (eapply keep_queue_ok; [done|done|]); constructor; simpl;
    rewrite ?Hf, ?He, ?Hh; try done; unfold held_slots; simpl; rewrite ?Hh, ?Z.add_0_r; try done;
    try (by apply Forall_delete).
  apply Forall_app. rewrite Forall_singleton. split; [done|by apply Hset].
Qed.

Lemma leave_ok r p : pool_ok p -> pool_ok (leave_loop r p).
Proof.
  intros Hok. unfold leave_loop. destruct (reactors p !! r) as [x|] eqn:Hr; [|done].
  pose proof (lookup_ok _ _ _ Hok Hr) as Hx. destruct (hand x) eqn:Hh; [done|].
  pose proof Hx as [Hfl Hp _ Hc Hm He]. unfold held_slots in Hc, Hm. rewrite Hh in Hc, Hm.
  eapply keep_queue_ok; [done|done|]. constructor; simpl; try done.
  - destruct (failing x); [done|]. by apply resting_no_slot.
  - intros Hex. by destruct (He Hex) as (_ & ? & ?).
Qed.

Lemma drop_no_slots l n : Forall (fun t => slot t = false) l ->
  foldl (fun n t => drop_slot (slot t) n) n l = n.
Proof. revert n. induction l as [|t l IH]; intros n; [done|]. intros [Hs ?]%Forall_cons. simpl. rewrite Hs. by apply IH. Qed.

Lemma drop_slots l n : Forall flying l ->
  foldl (fun n t => drop_slot (slot t) n) (wrap64 n) l = wrap64 (n - Z.of_nat (length l)).
Proof.
  revert n. induction l as [|t l IH]; intros n.
  - intros _. simpl. by rewrite Z.sub_0_r.
  - intros [[Hs _] ?]%Forall_cons. simpl. rewrite Hs. simpl. rewrite wrap64_sub_l, IH by done.
    f_equal. lia.
Qed.

Lemma fail_all_ok r p : pool_ok p -> pool_ok (fail_all_pending r p).
Proof.
  intros Hok. unfold fail_all_pending. destruct (reactors p !! r) as [x|] eqn:Hr; [|done].
  pose proof (lookup_ok _ _ _ Hok Hr) as Hx. destruct (death_reason p); [|done].
  destruct (hand x) eqn:Hh; [done|]. destruct (failing x) eqn:Hf; [|done].
  pose proof Hx as [Hfl Hp _ Hc Hm _]. unfold held_slots in Hc, Hm. rewrite Hh in Hc, Hm.
  rewrite Hf in Hp. apply pool_ok_add_reports. eapply keep_queue_ok; [done|done|].
  rewrite foldl_app, (drop_no_slots _ _ Hp), Hc, (drop_slots _ _ Hfl).
  constructor; simpl; try done.
  - unfold held_slots. simpl. f_equal. lia.
  - eapply within_le; [|exact Hm]. unfold held_slots. simpl. lia.
Qed.

Lemma pool_step_ok strerror policy p p' :
  pool_ok p -> pool_step strerror policy p p' -> pool_ok p'.
Proof.
  intros Hok Hs. destruct Hs as [ts p Hts|r p|r g pass p|r p|r i g pass p|now r i c o p|r p|e p|p|r p].
  - destruct Hok as [Hrs Hqs Hh Hd]. unfold submit_pread. simpl.
    destruct (death_reason p) eqn:Hdead; constructor; simpl; try done.
    + intros Hdr. by destruct (Hd Hdr).
    + apply Forall_app. split; [done|]. eapply Forall_impl; [exact Hts|].
      by intros t (? & ? & ? & ? & _).
    + intros Hdr. destruct (Hd Hdr) as [Hdd _]. unfold is_dead in Hdd. by rewrite Hdead in Hdd.
  - by apply pop_ok.
  - by apply hand_ok.
  - by apply return_ok.
  - by apply retry_ok.
  - by apply reap_ok.
  - by apply leave_ok.
  - unfold signal_death. destruct (death_reason p) eqn:Hdead; [done|].
    destruct Hok as [Hrs Hqs Hh Hd]. constructor; simpl; try done.
    intros Hdr. destruct (Hd Hdr) as [Hdd _]. unfold is_dead in Hdd. by rewrite Hdead in Hdd.
  - unfold drain_queue. destruct (death_reason p) as [e|] eqn:Hdead; [|done].
    destruct Hok as [Hrs Hqs Hh Hd]. constructor; simpl; try done.
    intros _. split; [|done]. unfold is_dead. simpl. by rewrite Hdead.
  - by apply fail_all_ok.
Qed.

(** ** The pool from its construction on *)

(** The constructor of [MultiReactorPool]. *)
Definition new_reactor_pool (max_total n : Z) : result pool :=
  _ ← expect (n >? 0) (InvalidArgument "remote_io_num_reactors must be a positive integer");
  mret (mkPool [] 0 None false
    ((fun i => mkReactor [] [] None 0 (slice max_total n i) false false) <$> seqZ 0 n) [] []).

Definition reachable_pool strerror policy (max_total n : Z) (p : pool) : Prop :=
  exists p0, new_reactor_pool max_total n = Ok p0 /\ rtc (pool_step strerror policy) p0 p.

Lemma new_pool_inv max_total n p0 :
  new_reactor_pool max_total n = Ok p0 ->
  0 < n /\ p0 = mkPool [] 0 None false
    ((fun i => mkReactor [] [] None 0 (slice max_total n i) false false) <$> seqZ 0 n) [] [].
Proof.
  unfold new_reactor_pool, expect. destruct (n >? 0) eqn:E; [|done].
  bool_to_prop. by intros [= <-].
Qed.

Lemma slice_range max_total n i :
  is_size max_total -> 0 < n -> 
  match slice max_total n i with Some m => 1 <= m < SIZE_MOD | None => max_total = 0 end.
Proof.
  intros [H0 H1] Hn. unfold slice. destruct (max_total =? 0) eqn:E; bool_to_prop; [done|].
  pose proof (wrap64_range (max_total / n + (if i <? max_total mod n then 1 else 0))). lia.
Qed.

Lemma new_pool_ok max_total n p0 :
  is_size max_total -> new_reactor_pool max_total n = Ok p0 -> pool_ok p0 /\ conserved p0.
Proof.
  intros Hm [Hn ->]%new_pool_inv. split.
  - constructor; simpl; try done. apply Forall_fmap, Forall_forall. intros i _.
    constructor; simpl; try done. pose proof (slice_range max_total n i Hm Hn) as Hs.
    unfold held_slots. simpl. destruct (slice max_total n i); simpl; lia.
  - intros id. unfold whereabouts. simpl.
    assert (forall l, sum_list (occ_reactor id <$>
      ((fun i => mkReactor [] [] None 0 (slice max_total n i) false false) <$> l)) = 0%nat) as ->;
      [|done]. intros l. by induction l.
Qed.

Lemma reachable_pool_ok strerror policy max_total n p :
  is_size max_total -> reachable_pool strerror policy max_total n p -> pool_ok p /\ conserved p.
Proof.
  intros Hm (p0 & H0 & Hr). destruct (new_pool_ok _ _ _ Hm H0) as [Ha Hb]. clear H0.
  induction Hr as [|p p' p'' Hs _ IH]; [done|].
  apply IH; [by eapply pool_step_ok|by eapply pool_step_conserved].
Qed.

(** No step changes a reactor's slice. *)
Lemma insert_same_max (rs : list reactor) (r : nat) (x y : reactor) :
  rs !! r = Some x -> max_requests y = max_requests x ->
  max_requests <$> <[r := y]> rs = max_requests <$> rs.
Proof.
  intros Hr Hy. rewrite list_fmap_insert, Hy. apply list_insert_id. by rewrite list_lookup_fmap, Hr.
Qed.

Lemma pool_step_max strerror policy p p' :
  pool_step strerror policy p p' ->
  max_requests <$> reactors p' = max_requests <$> reactors p.
Proof.
  intros Hs. destruct Hs as [ts p _|r p|r g pass p|r p|r i g pass p|now r i c o p|r p|e p|p|r p].
  - unfold submit_pread. simpl. by destruct (death_reason p).
  - unfold try_pop_queued. destruct (reactors p !! r) as [x|] eqn:Hr; [|done].
    destruct (failing x); [done|]. destruct (hand x); [done|].
    destruct (acquire _ _); [|done]. destruct (queue p); [done|].
    by eapply insert_same_max.
  - unfold admit_hand. destruct (reactors p !! r) as [x|] eqn:Hr; [|done].
    destruct (hand x); [|done].
    destruct (try_admit _ _ _ _ _) as [[[u|u|e u] count] pass']; by eapply insert_same_max.
  - unfold return_to_queue. destruct (reactors p !! r) as [x|] eqn:Hr; [|done].
    destruct (hand x) as [t|]; [|done]. destruct (slot t); [done|]. simpl.
    destruct (death_reason p); by eapply insert_same_max.
  - unfold admit_retry. destruct (reactors p !! r) as [x|] eqn:Hr; [|done].
    destruct (if in_loop x then pending x !! i else None); [|done].
    destruct (try_admit _ _ _ _ _) as [[[u|u|e u] count] pass']; by eapply insert_same_max.
  - unfold reap. destruct (reactors p !! r) as [x|] eqn:Hr; [|done].
    destruct (if in_loop x then in_flight x !! i else None); [|done].
    destruct (settle_transfer _ _ _ _ _ _) as [[rep|u] o']; by eapply insert_same_max.
  - unfold leave_loop. destruct (reactors p !! r) as [x|] eqn:Hr; [|done].
    destruct (hand x); [done|]. by eapply insert_same_max.
  - unfold signal_death. by destruct (death_reason p).
  - unfold drain_queue. by destruct (death_reason p).
  - unfold fail_all_pending. destruct (reactors p !! r) as [x|] eqn:Hr; [|done].
    destruct (death_reason p), (hand x); try done. destruct (failing x); [|done].
    by eapply insert_same_max.
Qed.

Lemma reachable_max strerror policy max_total n p :
  reachable_pool strerror policy max_total n p ->
  0 < n /\ max_requests <$> reactors p = slice max_total n <$> seqZ 0 n.
Proof.
  intros (p0 & H0 & Hr). apply new_pool_inv in H0 as [Hn ->]. split; [done|].
  assert (Hinit : forall p0, rtc (pool_step strerror policy) p0 p ->
    max_requests <$> reactors p = max_requests <$> reactors p0).
  { clear. intros p0 Hr. induction Hr as [|p p' p'' Hs _ IH]; [done|].
    rewrite IH. by eapply pool_step_max. }
  rewrite (Hinit _ Hr). simpl. by rewrite <- list_fmap_compose.
Qed.

Definition budget_of (m : option Z) : Z := default 0 m.

Lemma sum_slices_from max_total n k :
  max_total <> 0 -> 0 < n -> n <= max_total < SIZE_MOD -> Z.of_nat k <= n ->
  sumZ (budget_of <$> (slice max_total n <$> seqZ 0 (Z.of_nat k)))
    = Z.of_nat k * (max_total / n) + Z.min (Z.of_nat k) (max_total mod n).
Proof.
  intros Hne Hn Hm Hk. induction k as [|k IH].
  - simpl. pose proof (Z.mod_pos_bound max_total n Hn). lia.
  - rewrite seqZ_S, Z.add_0_l, !fmap_app, sumZ_app, IH by lia. csimpl. simpl sumZ.
    unfold slice. rewrite (proj2 (Z.eqb_neq _ _) Hne). simpl.
    pose proof (Z.mod_pos_bound max_total n Hn). pose proof (Z.div_mod max_total n ltac:(lia)).
    assert (1 <= max_total / n) by (apply Z.div_le_lower_bound; lia).
    assert (max_total / n <= max_total) by (apply Z.div_le_upper_bound; nia).
    assert (max_total / n + 1 <= max_total \/ max_total mod n = 0 \/ Z.of_nat k >= max_total mod n)
      by (destruct (decide (n = 1)) as [->|]; [rewrite Z.mod_1_r in *|]; nia).
    rewrite wrap64_small by (destruct (Z.ltb_spec (Z.of_nat k) (max_total mod n)); lia).
    destruct (Z.ltb_spec (Z.of_nat k) (max_total mod n)); lia.
Qed.

(** The slices of the reactors make up the budget. *)
Lemma sum_slices max_total n :
  is_size max_total -> max_total <> 0 -> 0 < n ->
  sumZ (budget_of <$> (slice max_total n <$> seqZ 0 n)) = Z.max max_total n.
Proof.
  intros [H0 H1] Hne Hn. destruct (Z.le_gt_cases n max_total) as [Hle|Hgt].
  - pose proof (sum_slices_from max_total n (Z.to_nat n) Hne Hn) as Hs.
    rewrite Z2Nat.id in Hs by lia. rewrite Hs by lia.
    pose proof (Z.mod_pos_bound max_total n Hn). pose proof (Z.div_mod max_total n ltac:(lia)). lia.
  - assert (Hall : forall i, i ∈ seqZ 0 n -> budget_of (slice max_total n i) = 1).
    { intros i Hi. unfold slice. rewrite (proj2 (Z.eqb_neq _ _) Hne). simpl.
      rewrite Z.div_small by lia. case_match; rewrite wrap64_small; lia. }
    assert (Hsum : forall l, (forall i, i ∈ l -> budget_of (slice max_total n i) = 1) ->
      sumZ (budget_of <$> (slice max_total n <$> l)) = Z.of_nat (length l)).
    { clear. intros l. induction l as [|i l IH]; intros Hl; [done|]. csimpl.
      rewrite (Hl i) by left. rewrite IH by (intros j Hj; apply Hl; by right). lia. }
    rewrite Hsum by done. rewrite length_seqZ. lia.
Qed.

(** The slots all reactors hold. *)
Definition held_total (p : pool) : Z := sumZ (held_slots <$> reactors p).

Lemma held_le rs ms :
  Forall reactor_ok rs -> max_requests <$> rs = ms -> Forall (fun m => m <> None) ms ->
  sumZ (held_slots <$> rs) <= sumZ (budget_of <$> ms).
Proof.
  intros Hrs <- Hms. induction Hrs as [|x rs Hx Hrs IH]; [done|]. csimpl.
  apply Forall_cons in Hms as [Hm Hms]. specialize (IH Hms).
  pose proof (ro_max x Hx) as Hw. destruct (max_requests x) as [m|]; [|done]. simpl in *. lia.
Qed.

Lemma sum_no_transfers id rs :
  Forall (fun x => reactor_ok x /\ exited x = true) rs ->
  sum_list (occ_reactor id <$> rs) = 0%nat.
Proof.
  induction 1 as [|x rs [Hx He] _ IH]; [done|]. csimpl. simpl. rewrite IH.
  destruct (ro_exited x Hx He) as (Hf & Hp & Hi). pose proof (ro_hand x Hx) as Hh.
  unfold occ_reactor, hand_list. rewrite Hp, Hi, !occ_nil.
  destruct (hand x); [destruct Hh as [_ ?]; congruence|]. by rewrite occ_nil.
Qed.

(** When everyone is gone, everything is reported. *)
Lemma drained_all_reported p :
  pool_ok p -> conserved p -> drained p = true -> Forall (fun x => exited x = true) (reactors p) ->
  forall id, reported id (reports p) = asked id (submitted p).
Proof.
  intros Hok Hc Hd He id. rewrite <- (Hc id). unfold whereabouts.
  destruct (po_drained p Hok Hd) as [_ ->]. rewrite sum_no_transfers; [by rewrite occ_nil|].
  apply Forall_forall. intros x Hx. split.
  - by eapply (proj1 (Forall_forall _ _) (po_reactors p Hok)).
  - by eapply (proj1 (Forall_forall _ _) He).
Qed.

(** C5. No transfer is lost or reported twice, whatever the interleaving of
    submissions, admissions, completions, retries and death: each transfer
    submitted is in exactly one place (the queue, a reactor, or among those
    reported).  When the pool has died, its queue has been drained and every
    reactor thread has ended, each has been reported exactly once, so no
    caller waits for ever. *)
Theorem no_transfer_lost strerror policy (max_total n : Z) (p : pool) :
  is_size max_total -> reachable_pool strerror policy max_total n p ->
  (forall id, whereabouts id p = asked id (submitted p)) /\
  (drained p = true -> Forall (fun x => exited x = true) (reactors p) ->
   forall id, reported id (reports p) = asked id (submitted p)).
Proof.
  intros Hm Hr. destruct (reachable_pool_ok _ _ _ _ _ Hm Hr) as [Hok Hc]. split; [exact Hc|].
  by apply drained_all_reported.
Qed.

(** C26. In every reachable pool the limiter of a reactor counts the slots held by
    its transfers in flight and by the one it has in hand on its way from the
    queue, and these are never more than its slice of the budget.  Every
    transfer in flight holds a slot and, for device memory, a bounce buffer; the
    one in hand has no buffer yet; what waits in the queue or for its retry
    holds no slot and, while the loop of its reactor runs, no buffer.  The slots
    of all reactors together never exceed the configured budget, or one request
    each when the budget is smaller than their number. *)
Theorem request_budget_respected strerror policy (max_total n : Z) (p : pool) :
  is_size max_total -> reachable_pool strerror policy max_total n p ->
  (forall r x, reactors p !! r = Some x ->
     requests x = wrap64 (held_slots x) /\
     within (slice max_total n (Z.of_nat r)) (held_slots x) /\
     Forall flying (in_flight x) /\
     match hand x with Some t => waiting t | None => True end /\
     Forall (fun t => slot t = false) (pending x) /\
     (failing x = false -> Forall resting (pending x))) /\
  Forall resting (queue p) /\
  (max_total <> 0 -> held_total p <= Z.max max_total n).
Proof.
  intros Hm Hr. destruct (reachable_pool_ok _ _ _ _ _ Hm Hr) as [Hok _].
  destruct (reachable_max _ _ _ _ _ Hr) as [Hn Hmax]. split_and!.
  - intros r x Hx. pose proof (lookup_ok _ _ _ Hok Hx) as [Hfl Hp Hh Hc Hw _].
    assert (max_requests x = slice max_total n (Z.of_nat r)) as <-.
    { assert ((max_requests <$> reactors p) !! r = Some (max_requests x)) as Hl
        by (rewrite list_lookup_fmap; by rewrite Hx).
      rewrite Hmax, list_lookup_fmap in Hl.
      destruct (seqZ 0 n !! r) as [z|] eqn:Hz; [|done]. apply lookup_seqZ in Hz as [-> _].
      simpl in Hl. rewrite Z.add_0_l in Hl. by injection Hl. }
    split_and!; try done.
    + destruct (hand x); [by destruct Hh|done].
    + destruct (failing x); [done|by apply resting_no_slot].
    + intros Hf. by rewrite Hf in Hp.
  - apply Hok.
  - intros Hne. rewrite <- (sum_slices max_total n Hm Hne Hn).
    apply held_le; [apply Hok|done|]. apply Forall_fmap, Forall_forall. intros i _.
    unfold compose, slice. by rewrite (proj2 (Z.eqb_neq _ _) Hne).
Qed.

(** ** A turn of the loop is made of steps *)

Section turn_steps.
Variable strerror : CURLcode -> string.
Variable policy : HttpRetryPolicy.
Variable gates_at : nat -> gates.

Abbreviation steps := (rtc (pool_step strerror policy)) (only parsing).

Lemma admit_retries_steps fuel r i k pass p :
  steps p (admit_retries gates_at fuel r i k pass p).1.1.
Proof.
  revert i k pass p. induction fuel as [|fuel IH]; intros i k pass p; simpl; [done|].
  pose proof (ps_retry strerror policy r i (gates_at k) pass p) as Hs.
  destruct (admit_retry _ _ _ _ _) as [[p' pass'] [[u|u|e u]|]]; simpl in *;
    (eapply rtc_l; [exact Hs|]); try done; apply IH.
Qed.

Lemma admit_from_pool_steps share r k pass p :
  steps p (admit_from_pool gates_at share r k pass p).1.1.
Proof.
  revert k pass p. induction share as [|share IH]; intros k pass p; simpl; [done|].
  destruct (reactors p !! r) as [x|]; [|done]. destruct (acquire _ _); [|done].
  destruct (queue p) as [|t q]; [done|]. eapply rtc_l; [apply ps_pop|].
  pose proof (ps_hand strerror policy r (gates_at k) pass (try_pop_queued r p)) as Hs.
  destruct (admit_hand _ _ _ _) as [[p' pass'] [[u|u|e u]|]]; simpl in *;
    (eapply rtc_l; [exact Hs|]); try done. apply rtc_once, ps_return.
Qed.

Lemma admit_pending_steps r now p : steps p (admit_pending gates_at r now p).1.1.
Proof.
  unfold admit_pending. destruct (reactors p !! r) as [x|]; [|done].
  pose proof (admit_retries_steps (length (pending x)) r 0 0
    (mkAdmitPass (mkPassOutcome None false) now []) p) as Hs.
  destruct (admit_retries _ _ _ _ _ _ _) as [[p' pass'] [e|]]; simpl in *; [done|].
  etrans; [exact Hs|]. apply admit_from_pool_steps.
Qed.

Lemma reap_completions_steps now r cs o p :
  steps p (reap_completions strerror policy now r cs o p).1.
Proof.
  revert o p. induction cs as [|[i c] cs IH]; intros o p; simpl; [done|].
  pose proof (ps_reap strerror policy now r i c o p) as Hs.
  destruct (reap _ _ _ _ _ _ _ _) as [p' o']; simpl in *. eapply rtc_l; [exact Hs|]. apply IH.
Qed.

(** One turn of a reactor thread's loop, as the code composes it (the
    retries, the share taken from the queue, the completions, and death when
    libcurl fails), is a sequence of steps of the pool: what holds of every
    reachable pool holds throughout the loop. *)
Theorem io_turn_steps r now perform_error cs (p : pool) :
  steps p (io_turn strerror policy gates_at r now perform_error cs p).1.
Proof.
  unfold io_turn. pose proof (admit_pending_steps r now p) as Hs.
  assert (Hdie : forall e p', steps p' (drain_queue (signal_death e (leave_loop r p')))).
  { intros e p'. eapply rtc_l; [apply ps_leave|]. eapply rtc_l; [apply (ps_death _ _ e)|].
    apply rtc_once, ps_drain. }
  destruct (admit_pending _ _ _ _) as [[p' pass] [e|]]; simpl in *.
  { etrans; [exact Hs|apply Hdie]. }
  destruct perform_error as [e|]; simpl.
  { etrans; [exact Hs|apply Hdie]. }
  pose proof (reap_completions_steps now r cs (pass_outcome pass) p') as Hs'.
  destruct (reap_completions _ _ _ _ _ _ _) as [p'' o]; simpl in *. by etrans.
Qed.
End turn_steps.

(** How long a reactor polls: between 0 and 1000 ms; not at all when it
    has completed something and work waits; at most 10 ms when a retry waits
    for a resource or while the pool has work; and never a full millisecond
    past the time the earliest retry becomes ready. *)
Theorem poll_timeout_spec (pending_empty : bool) (hint now completed : Z) (o : PassOutcome) :
  let t := poll_timeout_ms pending_empty hint now o completed in
  0 <= t <= 1000 /\
  (0 < completed -> pending_empty = false \/ 0 < hint -> t = 0) /\
  (completed <= 0 -> pending_empty = false -> deferred_for_resource o = true \/ 0 < hint -> t <= 10) /\
  (forall ready, pending_empty = false -> earliest_ready_at o = Some ready ->
     t * 1000000 < Z.max 0 (ready - now) + 1000000).
Proof.
  assert (Hceil : forall ns, ceil_ms ns * 1000000 < ns + 1000000).
  { intros ns. unfold ceil_ms. pose proof (Z.div_mod (- ns) 1000000 ltac:(lia)).
    pose proof (Z.mod_pos_bound (- ns) 1000000 ltac:(lia)). lia. }
  simpl. unfold poll_timeout_ms.
  destruct (hint >? 0) eqn:Eh, (completed >? 0) eqn:Ec, pending_empty,
    (deferred_for_resource o), (earliest_ready_at o) as [ready|]; bool_to_prop; simpl;
    (split; [|split; [|split]]); intros; simplify_eq; destruct_or?; try done; try lia;
    match goal with |- context [ceil_ms ?d] => specialize (Hceil d) end; lia.
Qed.

(** ** One reactor: a host and a device transfer, one of them completes, then
    libcurl fails *)

Definition demo_text : CURLcode -> string := fun _ => "text".
Definition demo_policy : HttpRetryPolicy := mkPolicy 3 [503] 500 4000.
Definition demo_transfer (id : Z) (device : bool) : transfer :=
  mkTransfer id 100 device 7 0 0 false false false false.
Definition demo_start : pool := mkPool [] 0 None false [mkReactor [] [] None 0 (Some 2) false false] [] [].
Definition demo_submitted : pool := submit_pread [demo_transfer 1 false; demo_transfer 2 true] demo_start.
Definition demo_admitted : pool :=
  (admit_pending (fun _ => mkGates (inr true) None) 0 5 demo_submitted).1.1.
Definition demo_reaped : pool :=
  (reap_completions demo_text demo_policy 6 0
     [(0%nat, mkCompletion CURLE_OK 200 "" false None None)] (mkPassOutcome None false)
     demo_admitted).1.
Definition demo_dead : pool :=
  fail_all_pending 0 (drain_queue (signal_death (RuntimeError "curl") (leave_loop 0 demo_reaped))).

Lemma demo_admitted_reachable : reachable_pool demo_text demo_policy 2 1 demo_admitted.
Proof.
  exists demo_start. split; [reflexivity|]. eapply rtc_l.
  - apply (ps_submit _ _ [demo_transfer 1 false; demo_transfer 2 true] demo_start).
    repeat constructor.
  - apply admit_pending_steps.
Qed.

Lemma demo_dead_reachable : reachable_pool demo_text demo_policy 2 1 demo_dead.
Proof.
  destruct demo_admitted_reachable as (p0 & H0 & Hr). exists p0. split; [done|].
  etrans; [exact Hr|]. etrans; [apply reap_completions_steps|].
  eapply rtc_l; [apply (ps_leave _ _ 0)|]. eapply rtc_l; [apply (ps_death _ _ (RuntimeError "curl"))|].
  eapply rtc_l; [apply ps_drain|]. apply rtc_once, ps_fail_all.
Qed.

Example no_transfer_lost_witness :
  reports demo_dead = [(1, inr 100); (2, inl (RuntimeError "curl"))] /\
  (forall id, whereabouts id demo_dead = asked id (submitted demo_dead)) /\
  (drained demo_dead = true -> Forall (fun x => exited x = true) (reactors demo_dead) ->
   forall id, reported id (reports demo_dead) = asked id (submitted demo_dead)).
Proof.
  split; [vm_compute; reflexivity|].
  apply (no_transfer_lost demo_text demo_policy 2 1 demo_dead); [done|exact demo_dead_reachable].
Defined.

Example request_budget_respected_witness :
  held_total demo_admitted = 2 /\
  (forall r x, reactors demo_admitted !! r = Some x ->
     requests x = wrap64 (held_slots x) /\
     within (slice 2 1 (Z.of_nat r)) (held_slots x) /\
     Forall flying (in_flight x) /\
     match hand x with Some t => waiting t | None => True end /\
     Forall (fun t => slot t = false) (pending x) /\
     (failing x = false -> Forall resting (pending x))) /\
  Forall resting (queue demo_admitted) /\
  (2 <> 0 -> held_total demo_admitted <= Z.max 2 1).
Proof.
  split; [vm_compute; reflexivity|].
  apply (request_budget_respected demo_text demo_policy 2 1 demo_admitted);
    [done|exact demo_admitted_reachable].
Defined.

Example poll_timeout_spec_witness :
  poll_timeout_ms false 0 0 (mkPassOutcome (Some 2500000) true) 0 = 3 /\
  let t := poll_timeout_ms false 0 0 (mkPassOutcome (Some 2500000) true) 0 in
  0 <= t <= 1000 /\
  (0 < 0 -> false = false \/ 0 < 0 -> t = 0) /\
  (0 <= 0 -> false = false ->
   deferred_for_resource (mkPassOutcome (Some 2500000) true) = true \/ 0 < 0 -> t <= 10) /\
  (forall ready, false = false ->
     earliest_ready_at (mkPassOutcome (Some 2500000) true) = Some ready ->
     t * 1000000 < Z.max 0 (ready - 0) + 1000000).
Proof.
  split; [vm_compute; reflexivity|].
  apply (poll_timeout_spec false 0 0 0 (mkPassOutcome (Some 2500000) true)).
Defined.
