(* ===== verification/Transfers.v ===== *)
(** * What a sub-range transfer owns

    [RemoteMultiTransfer] and [CurlMultiAttachment] of
    [src/detail/multi_poll_reactor.cpp]: the easy handle and its place on the
    multi handle, the request slot and the bounce buffer, from the making of a
    transfer to its destruction, beside the copies that the device still makes
    from the buffers.  One reactor, one context: the device works off one
    stream. *)

From stdpp Require Import base list gmap sets strings.
From Stdlib Require Import ZArith Lia.
From S2P Require Import Prelude.

#[local] Open Scope Z_scope.

(** Work of the stream: a copy from a buffer, a recycle callback that owns
    one. *)
Inductive work := CopyFrom (b : Z) | Recycle (b : Z).

#[global] Instance work_eq_dec : EqDecision work.
Proof. solve_decision. Defined.

(** [handle_misused]: an easy handle was given back to the pool while it was on
    the multi handle; [buffer_misused]: a buffer was given back while the device
    was copying from it. *)
Record resources := mkRes {
  multi : gset Z;              (* easy handles on the multi handle *)
  free_handles : list Z;       (* of [LibCurl] *)
  slots : Z;                   (* the limiter's count *)
  cache : list Z;              (* free buffers of the shard *)
  pool : list Z;               (* back in the buffer pool *)
  stream : list work;
  next_handle : Z;
  next_buffer : Z;
  handle_misused : bool;
  buffer_misused : bool }.

Record RemoteMultiTransfer := mkMulti {
  easy : Z;                    (* [curl] *)
  attachment : option Z;
  has_slot : bool;
  is_device : bool;
  buffer : option Z }.

Definition set_multi (m : gset Z) (s : resources) : resources :=
  mkRes m (free_handles s) (slots s) (cache s) (pool s) (stream s) (next_handle s) (next_buffer s) (handle_misused s) (buffer_misused s).
Definition set_slots (n : Z) (s : resources) : resources :=
  mkRes (multi s) (free_handles s) n (cache s) (pool s) (stream s) (next_handle s) (next_buffer s) (handle_misused s) (buffer_misused s).
Definition set_stream (l : list work) (s : resources) : resources :=
  mkRes (multi s) (free_handles s) (slots s) (cache s) (pool s) l (next_handle s) (next_buffer s) (handle_misused s) (buffer_misused s).

(** ** The parts *)

(** [CurlMultiAttachment::reset]; [removed] is whether libcurl took the handle
    off. *)
Definition reset_attachment (removed : bool) (a : option Z) (s : resources) : option Z * resources :=
  match a with
  | Some h => (None, if removed then set_multi (multi s ∖ {[h]}) s else s)
  | None => (None, s)
  end.

Definition assign_attachment (removed : bool) (a other : option Z) (s : resources)
    : (option Z * option Z) * resources :=
  let '(_, s) := reset_attachment removed a s in ((other, None), s).

(** [~CurlHandle] gives the easy handle back. *)
Definition retain_easy (h : Z) (s : resources) : resources :=
  mkRes (multi s) (h :: free_handles s) (slots s) (cache s) (pool s) (stream s) (next_handle s) (next_buffer s)
    (handle_misused s || bool_decide (h ∈ multi s)) (buffer_misused s).

(** [recycle_now] of the cache, and the buffer's own destructor. *)
Definition to_cache (b : Z) (s : resources) : resources :=
  mkRes (multi s) (free_handles s) (slots s) (b :: cache s) (pool s) (stream s) (next_handle s) (next_buffer s)
    (handle_misused s) (buffer_misused s || bool_decide (CopyFrom b ∈ stream s)).
Definition to_pool (b : Z) (s : resources) : resources :=
  mkRes (multi s) (free_handles s) (slots s) (cache s) (b :: pool s) (stream s) (next_handle s) (next_buffer s)
    (handle_misused s) (buffer_misused s || bool_decide (CopyFrom b ∈ stream s)).

Definition release_slot (held : bool) (s : resources) : resources :=
  if held then set_slots (slots s - 1) s else s.

(** [~RemoteMultiTransfer]: its body, unless the context cannot be pushed, and
    then the members, the last one first: the buffer, the slot, the attachment,
    the handle. *)
Definition destroy_body (pushed : bool) (t : RemoteMultiTransfer) (s : resources) : option Z * resources :=
  match buffer t with
  | Some b => if is_device t && pushed then (None, to_cache b s) else (Some b, s)
  | None => (None, s)
  end.

Definition destroy_transfer (pushed removed : bool) (t : RemoteMultiTransfer) (s : resources) : resources :=
  let '(buf, s) := destroy_body pushed t s in
  let s := match buf with Some b => to_pool b s | None => s end in
  let s := release_slot (has_slot t) s in
  let s := (reset_attachment removed (attachment t) s).2 in
  retain_easy (easy t) s.

(** ** Steps of a transfer *)

(** The handle of a new transfer: a free one or a new one. *)
Definition get_easy (s : resources) : Z * resources :=
  match free_handles s with
  | h :: l => (h, mkRes (multi s) l (slots s) (cache s) (pool s) (stream s) (next_handle s) (next_buffer s) (handle_misused s) (buffer_misused s))
  | [] => (next_handle s, mkRes (multi s) [] (slots s) (cache s) (pool s) (stream s) (next_handle s + 1)
                            (next_buffer s) (handle_misused s) (buffer_misused s))
  end.

Definition new_transfer (device : bool) (s : resources) : RemoteMultiTransfer * resources :=
  let '(h, s) := get_easy s in (mkMulti h None false device None, s).

(** A free buffer of the cache, or one of the pool, or a new one. *)
Definition get_buffer (s : resources) : Z * resources :=
  match cache s with
  | b :: l => (b, mkRes (multi s) (free_handles s) (slots s) l (pool s) (stream s) (next_handle s) (next_buffer s) (handle_misused s) (buffer_misused s))
  | [] =>
      match pool s with
      | b :: l => (b, mkRes (multi s) (free_handles s) (slots s) [] l (stream s) (next_handle s) (next_buffer s) (handle_misused s) (buffer_misused s))
      | [] => (next_buffer s, mkRes (multi s) (free_handles s) (slots s) [] [] (stream s) (next_handle s)
                                (next_buffer s + 1) (handle_misused s) (buffer_misused s))
      end
  end.

(** A slot for a transfer that leaves the pool-wide queue ([admit_from_pool]). *)
Definition reserve (t : RemoteMultiTransfer) (s : resources) : RemoteMultiTransfer * resources :=
  if has_slot t then (t, s)
  else (mkMulti (easy t) (attachment t) true (is_device t) (buffer t), set_slots (slots s + 1) s).

(** How far [try_admit] gets. *)
Inductive admission :=
  | Refused          (* backing off, the context exhausted, or no slot *)
  | NoBuffer         (* the cap of the bounce buffers is reached *)
  | NotAdded         (* libcurl does not take the handle *)
  | Added.

(** [try_admit]: the slot the transfer came with or a new one; a refused
    transfer keeps none. *)
Definition pass_gates (how : admission) (removed : bool) (t : RemoteMultiTransfer) (s : resources)
    : RemoteMultiTransfer * resources :=
  let held := has_slot t in
  let t := mkMulti (easy t) (attachment t) false (is_device t) (buffer t) in
  match how with
  | Refused => (t, release_slot held s)
  | _ =>
      let s := if held then s else set_slots (slots s + 1) s in
      if is_device t && match how with NoBuffer => true | _ => false end then (t, release_slot true s)
      else
        let '(t, s) :=
          if is_device t then
            let '(b, s) := get_buffer s in
            (mkMulti (easy t) (attachment t) false true (Some b),
             match buffer t with Some old => to_pool old s | None => s end)
          else (t, s) in
        match how with
        | NotAdded => (t, release_slot true s)
        | _ =>
            let s := set_multi ({[easy t]} ∪ multi s) s in
            let '((a, _), s) := assign_attachment removed (attachment t) (Some (easy t)) s in
            (mkMulti (easy t) a true (is_device t) (buffer t), s)
        end
  end.

(** How far [stage_device_copy] gets. *)
Inductive staging :=
  | NotCopied        (* pushing the context or the copy failed *)
  | NotRecorded      (* the copy is queued, recording the event failed *)
  | NotLaunched      (* ... and the recycle callback could not be queued *)
  | Staged.

(** [recycle_after] moves the buffer into the callback's payload, which gives it
    back to the pool when the callback cannot be queued. *)
Definition stage_device_copy (how : staging) (t : RemoteMultiTransfer) (s : resources)
    : RemoteMultiTransfer * resources :=
  match buffer t with
  | Some b =>
      let moved := mkMulti (easy t) (attachment t) (has_slot t) (is_device t) None in
      let copying := set_stream (stream s ++ [CopyFrom b]) s in
      match how with
      | NotCopied => (t, s)
      | NotRecorded => (t, copying)
      | NotLaunched => (moved, to_pool b copying)
      | Staged => (moved, set_stream (stream s ++ [CopyFrom b; Recycle b]) s)
      end
  | None => (t, s)
  end.

(** A transfer that succeeded is staged and destroyed. *)
Definition settle (how : staging) (pushed removed : bool) (t : RemoteMultiTransfer) (s : resources) : resources :=
  let '(t, s) := if is_device t then stage_device_copy how t s else (t, s) in
  destroy_transfer pushed removed t s.

(** [requeue_for_retry]: off the multi handle, the slot, the buffer. *)
Definition step_back (removed : bool) (t : RemoteMultiTransfer) (s : resources) : RemoteMultiTransfer * resources :=
  let '(a, s) := reset_attachment removed (attachment t) s in
  (mkMulti (easy t) a false (is_device t) (buffer t), release_slot (has_slot t) s).

Definition return_buffer (t : RemoteMultiTransfer) (s : resources) : RemoteMultiTransfer * resources :=
  match buffer t with
  | Some b =>
      if is_device t then (mkMulti (easy t) (attachment t) (has_slot t) true None, to_cache b s) else (t, s)
  | None => (t, s)
  end.

Definition requeue (removed : bool) (t : RemoteMultiTransfer) (s : resources) : RemoteMultiTransfer * resources :=
  let '(t, s) := step_back removed t s in return_buffer t s.

(** ... when it throws: the context cannot be pushed, or ([recycled]) there is
    no memory for the entry of the deferred queue.  The transfer has failed and
    is destroyed. *)
Definition requeue_fails (recycled pushed removed : bool) (t : RemoteMultiTransfer) (s : resources) : resources :=
  let '(t, s) := if recycled then requeue removed t s else step_back removed t s in
  destroy_transfer pushed removed t s.

(** The device: the next piece of work of the stream; a recycle callback puts
    its buffer into the cache. *)
Definition device_step (s : resources) : resources :=
  match stream s with
  | CopyFrom _ :: l => set_stream l s
  | Recycle b :: l => to_cache b (set_stream l s)
  | [] => s
  end.

(** ** Lives *)

(** [pushed] is whether the destructor can push the CUDA context, [removed]
    what [curl_multi_remove_handle] answers. *)
Inductive transfer_op :=
  | Create (i : nat) (device : bool)
  | Reserve (i : nat)
  | TryAdmit (i : nat) (how : admission) (removed : bool)
  | Settle (i : nat) (how : staging) (pushed removed : bool)
  | Requeue (i : nat) (removed : bool)
  | RequeueFails (i : nat) (recycled pushed removed : bool)
  | Drop_ (i : nat) (pushed removed : bool)      (* a failed transfer is destroyed *)
  | DeviceWorks.

Definition transfers : Type := gmap nat RemoteMultiTransfer * resources.

(** The transfer at [i] takes a step that it survives. *)
Definition on_transfer (i : nat) (f : RemoteMultiTransfer -> resources -> RemoteMultiTransfer * resources)
    (x : transfers) : transfers :=
  match x.1 !! i with
  | Some t => let '(t, s) := f t x.2 in (<[i := t]> x.1, s)
  | None => x
  end.

(** ... or one that ends it. *)
Definition ending_transfer (i : nat) (f : RemoteMultiTransfer -> resources -> resources) (x : transfers)
    : transfers :=
  match x.1 !! i with
  | Some t => (delete i x.1, f t x.2)
  | None => x
  end.

(** A transfer that waits is not on the multi handle and has no buffer. *)
Definition waiting_only (f : RemoteMultiTransfer -> resources -> RemoteMultiTransfer * resources) t s :=
  match attachment t, buffer t with None, None => f t s | _, _ => (t, s) end.

Definition transfer_step (o : transfer_op) (x : transfers) : transfers :=
  match o with
  | Create i device =>
      match x.1 !! i with
      | None => let '(t, s) := new_transfer device x.2 in (<[i := t]> x.1, s)
      | Some _ => x
      end
  | Reserve i => on_transfer i (waiting_only reserve) x
  | TryAdmit i how removed => on_transfer i (waiting_only (pass_gates how removed)) x
  | Settle i how pushed removed => ending_transfer i (settle how pushed removed) x
  | Requeue i removed => on_transfer i (requeue removed) x
  | RequeueFails i recycled pushed removed => ending_transfer i (requeue_fails recycled pushed removed) x
  | Drop_ i pushed removed => ending_transfer i (destroy_transfer pushed removed) x
  | DeviceWorks => (x.1, device_step x.2)
  end.

Definition run_transfers (ops : list transfer_op) (x : transfers) : transfers :=
  foldl (fun x o => transfer_step o x) x ops.

Definition no_resources : resources := mkRes ∅ [] 0 [] [] [] 1 1 false false.

(** No copy is left without its callback. *)
Definition staged (o : transfer_op) : bool :=
  match o with Settle _ (NotRecorded | NotLaunched) _ _ => false | _ => true end.

(** libcurl takes the handle off the multi handle when it is asked to. *)
Definition detaches (o : transfer_op) : bool :=
  match o with
  | TryAdmit _ _ removed | Settle _ _ _ removed | Requeue _ removed | RequeueFails _ _ _ removed
  | Drop_ _ _ removed => removed
  | Create _ _ | Reserve _ | DeviceWorks => true
  end.

(** ** The invariant

    Every buffer and every easy handle that was ever made is in one place: in a
    list, on the stream or with one transfer.  [strict]: libcurl has taken every
    handle off the multi handle that it was asked to, which then has the handles
    of the attached transfers and no others. *)

Definition holding (b : Z) (t : RemoteMultiTransfer) : Prop := buffer t = Some b.
Definition attached (h : Z) (t : RemoteMultiTransfer) : Prop := attachment t = Some h.

#[local] Instance holding_dec b t : Decision (holding b t) := decide (buffer t = Some b).
#[local] Instance attached_dec h t : Decision (attached h t) := decide (attachment t = Some h).

Definition buffer_places (b : Z) (x : transfers) : Z :=
  occurs b (cache x.2) + occurs b (pool x.2) + occurs (Recycle b) (stream x.2) + map_count (holding b) x.1.

Definition handle_places (h : Z) (x : transfers) : Z :=
  occurs h (free_handles x.2) + map_count (fun t => easy t = h) x.1.

Definition made (next n : Z) : Z := if decide (1 <= n < next) then 1 else 0.

(** The callback that owns the buffer of a copy comes behind the copy. *)
Fixpoint covered (l : list work) : Prop :=
  match l with
  | CopyFrom b :: l => Recycle b ∈ l /\ covered l
  | Recycle _ :: l => covered l
  | [] => True
  end.

Definition attached_own (t : RemoteMultiTransfer) : Prop :=
  forall h, attached h t -> h = easy t /\ has_slot t = true.

Record resources_ok (strict : bool) (x : transfers) : Prop := mkOk {
  ro_buffers b : buffer_places b x = made (next_buffer x.2) b;
  ro_handles h : handle_places h x = made (next_handle x.2) h;
  ro_multi : strict = true ->
    forall h, map_count (attached h) x.1 = (if decide (h ∈ multi x.2) then 1 else 0);
  ro_attached : map_Forall (fun _ t => attached_own t) x.1;
  ro_slots : slots x.2 = map_count (fun t => has_slot t = true) x.1;
  ro_covered : covered (stream x.2);
  ro_next : 1 <= next_buffer x.2 /\ 1 <= next_handle x.2;
  ro_buffers_fine : buffer_misused x.2 = false;
  ro_handles_fine : strict = true -> handle_misused x.2 = false }.
Arguments ro_buffers {strict}.
Arguments ro_handles {strict}.
Arguments ro_multi {strict}.
Arguments ro_attached {strict}.
Arguments ro_slots {strict}.
Arguments ro_covered {strict}.
Arguments ro_next {strict}.
Arguments ro_buffers_fine {strict}.
Arguments ro_handles_fine {strict}.

Lemma covered_in l b : covered l -> CopyFrom b ∈ l -> Recycle b ∈ l.
Proof.
  induction l as [|[c|c] l IH]; simpl; intros Hl Hb; [by apply not_elem_of_nil in Hb| |].
  - destruct Hl as [Hc Hl]. apply elem_of_cons in Hb as [[= ->]|Hb]; right; auto.
  - apply elem_of_cons in Hb as [?|Hb]; [done|]. right; auto.
Qed.

Lemma covered_stage l b : covered l -> covered (l ++ [CopyFrom b; Recycle b]).
Proof.
  induction l as [|[c|c] l IH]; simpl; intros Hl; [set_solver| |by apply IH].
  destruct Hl as [Hc Hl]. split; [|by apply IH]. apply elem_of_app. by left.
Qed.

(** A buffer without a callback on the stream is not copied from. *)
Lemma not_copying l b : covered l -> occurs (Recycle b) l = 0 -> bool_decide (CopyFrom b ∈ l) = false.
Proof.
  intros Hc Hr. apply bool_decide_eq_false. intros Hb. apply (covered_in _ _ Hc) in Hb.
  apply occurs_pos in Hb. lia.
Qed.

Lemma made_range next n : 0 <= made next n <= 1.
Proof. unfold made. case_decide; lia. Qed.

Lemma made_next next n : 1 <= next -> made (next + 1) n = made next n + (if decide (next = n) then 1 else 0).
Proof. intros. unfold made. repeat case_decide; lia. Qed.

(** ** What the parts preserve

    [t] is in hand: it is in the map at a place that no other transfer has. *)

Ltac count_places H :=
  unfold buffer_places, handle_places in H |- *; simpl in H |- *;
  rewrite ?map_count_insert in H by done; rewrite ?map_count_insert by done;
  rewrite ?occurs_app, ?occurs_cons, ?occurs_nil in H; rewrite ?occurs_app, ?occurs_cons, ?occurs_nil;
  unfold holding, attached in H |- *; simpl in H |- *;
  repeat case_decide; simplify_eq; try congruence; try lia;
  try match type of H with context [map_count ?P ?m] => pose proof (map_count_nonneg P m); lia end.

Section parts.
Context (strict : bool) (i : nat) (m : gmap nat RemoteMultiTransfer) (Hi : m !! i = None).
Implicit Types (t : RemoteMultiTransfer) (s : resources).

Lemma ok_others t s : resources_ok strict (<[i := t]> m, s) -> map_Forall (fun _ t => attached_own t) m /\ attached_own t.
Proof. intros Hs. pose proof (ro_attached _ Hs) as Ha. simpl in Ha. by apply map_Forall_insert in Ha as [??]. Qed.

Lemma ok_hand t : map_Forall (fun _ t => attached_own t) m -> attached_own t ->
  map_Forall (fun _ t => attached_own t) (<[i := t]> m).
Proof. intros. by apply map_Forall_insert_2. Qed.

Lemma held_not_copying t s b :
  resources_ok strict (<[i := t]> m, s) -> buffer t = Some b -> bool_decide (CopyFrom b ∈ stream s) = false.
Proof.
  intros Hs Hb. apply not_copying; [apply (ro_covered _ Hs)|].
  pose proof (ro_buffers _ Hs b) as Hc. pose proof (made_range (next_buffer s) b). count_places Hc.
  pose proof (occurs_nonneg b (cache s)). pose proof (occurs_nonneg b (pool s)).
  pose proof (occurs_nonneg (Recycle b) (stream s)).
  pose proof (map_count_nonneg (fun t => buffer t = Some b) m). lia.
Qed.

(** The fields of the invariant, each place counted; what is left is new. *)
Ltac keep_places Hs :=
  let H1 := fresh "Hbuf" in let H2 := fresh "Hhnd" in let H3 := fresh "Hmul" in
  let H5 := fresh "Hslots" in let H6 := fresh "Hcov" in let H7 := fresh "Hnext" in
  let H8 := fresh "Hfine" in let H9 := fresh "Hhfine" in let Hst := fresh "Hst" in let c := fresh "c" in
  destruct (ok_others _ _ Hs) as [Hm Ht];
  destruct Hs as [H1 H2 H3 _ H5 H6 H7 H8 H9]; split; simpl in *;
  [ intros c; specialize (H1 c); count_places H1
  | intros c; specialize (H2 c); count_places H2
  | intros Hst c; specialize (H3 Hst c); count_places H3
  | apply ok_hand; try done
  | count_places H5
  | try done
  | try lia
  | rewrite ?H8; try done
  | try done ].

Lemma ok_to_cache t s b : buffer t = Some b -> resources_ok strict (<[i := t]> m, s) ->
  resources_ok strict (<[i := mkMulti (easy t) (attachment t) (has_slot t) (is_device t) None]> m, to_cache b s).
Proof. intros Hb Hs. pose proof (held_not_copying _ _ _ Hs Hb). keep_places Hs. Qed.

Lemma ok_to_pool t s b : buffer t = Some b -> resources_ok strict (<[i := t]> m, s) ->
  resources_ok strict (<[i := mkMulti (easy t) (attachment t) (has_slot t) (is_device t) None]> m, to_pool b s).
Proof. intros Hb Hs. pose proof (held_not_copying _ _ _ Hs Hb). keep_places Hs. Qed.

Lemma ok_release t s : attachment t = None -> resources_ok strict (<[i := t]> m, s) ->
  resources_ok strict (<[i := mkMulti (easy t) None false (is_device t) (buffer t)]> m, release_slot (has_slot t) s).
Proof.
  intros Ha Hs. destruct (has_slot t) eqn:Hslot; simpl; keep_places Hs; by intros h ?.
Qed.

Lemma ok_reserve t s : has_slot t = false -> attachment t = None -> resources_ok strict (<[i := t]> m, s) ->
  resources_ok strict (<[i := mkMulti (easy t) (attachment t) true (is_device t) (buffer t)]> m,
    set_slots (slots s + 1) s).
Proof. intros Hslot Ha Hs. keep_places Hs. intros h Hh. unfold attached in Hh. simpl in Hh. congruence. Qed.

Lemma ok_detach removed t s : (strict = true -> removed = true) -> resources_ok strict (<[i := t]> m, s) ->
  resources_ok strict (<[i := mkMulti (easy t) None (has_slot t) (is_device t) (buffer t)]> m,
    (reset_attachment removed (attachment t) s).2).
Proof.
  intros Hrem Hs. destruct (attachment t) as [h|] eqn:Ha; simpl; [destruct removed|]; simpl; keep_places Hs;
    first [by intros ? ?|lia|by specialize (Hrem Hst)|exfalso; set_solver].
Qed.

Lemma ok_stage t s b : buffer t = Some b -> resources_ok strict (<[i := t]> m, s) ->
  resources_ok strict (<[i := mkMulti (easy t) (attachment t) (has_slot t) (is_device t) None]> m,
    set_stream (stream s ++ [CopyFrom b; Recycle b]) s).
Proof. intros Hb Hs. keep_places Hs. by apply covered_stage. Qed.

(** The handles of the transfers differ. *)
Lemma no_other_attached t s : resources_ok strict (<[i := t]> m, s) -> map_count (attached (easy t)) m = 0.
Proof.
  intros Hs. destruct (ok_others _ _ Hs) as [Hm _]. apply map_count_none. intros j u Hj Ha.
  destruct (Hm j u Hj _ Ha) as [He _].
  pose proof (ro_handles _ Hs (easy t)) as Hc. pose proof (made_range (next_handle s) (easy t)).
  unfold handle_places in Hc. simpl in Hc. rewrite map_count_insert, decide_True in Hc by done.
  pose proof (map_count_pos (fun v => easy v = easy t) m j u Hj (eq_sym He)).
  pose proof (occurs_nonneg (easy t) (free_handles s)). lia.
Qed.

Lemma ok_attach t s : attachment t = None -> resources_ok strict (<[i := t]> m, s) -> has_slot t = true ->
  resources_ok strict (<[i := mkMulti (easy t) (Some (easy t)) true (is_device t) (buffer t)]> m,
    set_multi ({[easy t]} ∪ multi s) s).
Proof.
  intros Ha Hs Hslot. pose proof (no_other_attached _ _ Hs) as Hn. unfold attached in Hn.
  keep_places Hs; first [lia|by intros h [= <-]|clear Hbuf Hhnd Hnext Hhfine Hm Ht; set_solver].
Qed.

Lemma ok_retain t s :
  attachment t = None -> has_slot t = false -> buffer t = None -> resources_ok strict (<[i := t]> m, s) ->
  resources_ok strict (m, retain_easy (easy t) s).
Proof.
  intros Ha Hslot Hb Hs. pose proof (no_other_attached _ _ Hs) as Hn.
  destruct (ok_others _ _ Hs) as [Hm Ht]. pose proof (ro_multi _ Hs) as Hx.
  destruct Hs as [H1 H2 H3 _ H5 H6 H7 H8 H9]. split; simpl in *.
  - intros c. specialize (H1 c). count_places H1.
  - intros c. specialize (H2 c). count_places H2.
  - intros Hst c. specialize (H3 Hst c). count_places H3.
  - done.
  - count_places H5.
  - done.
  - done.
  - done.
  - intros Hst. rewrite H9 by done. apply bool_decide_eq_false. intros Hin. specialize (Hx Hst (easy t)).
    rewrite map_count_insert, Hn, (decide_True (P := easy t ∈ multi s)) in Hx by done.
    rewrite decide_False in Hx; [done|]. unfold attached. by rewrite Ha.
Qed.

Lemma ok_get_buffer t s : buffer t = None -> resources_ok strict (<[i := t]> m, s) ->
  let '(b, s') := get_buffer s in
  resources_ok strict (<[i := mkMulti (easy t) (attachment t) (has_slot t) (is_device t) (Some b)]> m, s').
Proof.
  intros Hb Hs. unfold get_buffer. destruct (cache s) as [|b l] eqn:Hc; [destruct (pool s) as [|b l] eqn:Hp|].
  - pose proof (ro_next _ Hs) as Hn. simpl in Hn. keep_places Hs.
    all: rewrite made_next by lia; case_decide; simplify_eq; rewrite Hc, Hp, !occurs_nil in Hbuf; lia.
  - keep_places Hs; rewrite Hc, Hp, ?occurs_cons, ?occurs_nil in Hbuf; repeat case_decide; simplify_eq; try lia.
  - keep_places Hs; rewrite Hc, ?occurs_cons in Hbuf; repeat case_decide; simplify_eq; try lia.
Qed.

Lemma ok_new device s : resources_ok strict (m, s) ->
  let '(t, s') := new_transfer device s in resources_ok strict (<[i := t]> m, s').
Proof.
  intros Hs. unfold new_transfer, get_easy. destruct Hs as [H1 H2 H3 H4 H5 H6 H7 H8 H9]. simpl in *.
  destruct (free_handles s) as [|h l] eqn:Hf; split; simpl.
  all: try done; try lia; try (by apply map_Forall_insert_2; [intros ? [=]|]).
  all: try (intros c; specialize (H1 c); by count_places H1).
  all: try (intros Hst c; specialize (H3 Hst c); by count_places H3).
  all: try (by count_places H5).
  - intros c. specialize (H2 c). rewrite made_next by lia. count_places H2; rewrite Hf, ?occurs_nil in H2; lia.
  - intros c. specialize (H2 c). count_places H2; rewrite Hf, ?occurs_cons in H2; case_decide; simplify_eq; lia.
Qed.

(** The slot and the attachment may be given back in either order. *)
Lemma release_detach removed held a s :
  (reset_attachment removed a (release_slot held s)).2 = release_slot held (reset_attachment removed a s).2.
Proof. by destruct held, a, removed. Qed.

Context (removed : bool) (Hremoved : strict = true -> removed = true).

Lemma step_back_ok t s : resources_ok strict (<[i := t]> m, s) ->
  let '(t, s) := step_back removed t s in resources_ok strict (<[i := t]> m, s).
Proof.
  intros Hs. apply (ok_detach removed), ok_release in Hs; [|done..]. unfold step_back. simpl in Hs.
  destruct (reset_attachment removed (attachment t) s) as [a s1] eqn:Hr.
  by assert (a = None) as -> by (destruct (attachment t); by injection Hr).
Qed.

Lemma return_buffer_ok t s : resources_ok strict (<[i := t]> m, s) ->
  let '(t, s) := return_buffer t s in resources_ok strict (<[i := t]> m, s).
Proof.
  intros Hs. unfold return_buffer. destruct (buffer t) as [b|] eqn:Hb; [|done].
  destruct (is_device t) eqn:Hd; [|done]. apply (ok_to_cache _ _ _ Hb) in Hs. by rewrite Hd in Hs.
Qed.

Lemma requeue_ok t s : resources_ok strict (<[i := t]> m, s) ->
  let '(t, s) := requeue removed t s in resources_ok strict (<[i := t]> m, s).
Proof.
  intros Hs. apply step_back_ok in Hs. unfold requeue. destruct (step_back removed t s) as [t1 s1].
  by apply return_buffer_ok.
Qed.

Lemma destroy_ok pushed t s : resources_ok strict (<[i := t]> m, s) ->
  resources_ok strict (m, destroy_transfer pushed removed t s).
Proof.
  intros Hs. unfold destroy_transfer, destroy_body. destruct (buffer t) as [b|] eqn:Hb.
  - destruct (is_device t && pushed) eqn:Hd; rewrite release_detach;
      [apply (ok_to_cache _ _ _ Hb) in Hs|apply (ok_to_pool _ _ _ Hb) in Hs];
      apply (ok_detach removed), ok_release in Hs; try done; by apply ok_retain in Hs.
  - rewrite release_detach. apply (ok_detach removed), ok_release in Hs; [|done..]. by apply ok_retain in Hs.
Qed.

Lemma requeue_fails_ok recycled pushed t s : resources_ok strict (<[i := t]> m, s) ->
  resources_ok strict (m, requeue_fails recycled pushed removed t s).
Proof.
  intros Hs. unfold requeue_fails. destruct recycled.
  - apply requeue_ok in Hs. destruct (requeue removed t s). by apply destroy_ok.
  - apply step_back_ok in Hs. destruct (step_back removed t s). by apply destroy_ok.
Qed.

Lemma settle_ok how pushed t s :
  staged (Settle i how pushed removed) = true -> resources_ok strict (<[i := t]> m, s) ->
  resources_ok strict (m, settle how pushed removed t s).
Proof.
  intros Hh Hs. unfold settle, stage_device_copy.
  destruct (is_device t) eqn:Hd; [destruct (buffer t) as [b|] eqn:Hb; [destruct how; try done|]|];
    try by apply destroy_ok.
  apply destroy_ok. apply (ok_stage _ _ _ Hb) in Hs. by rewrite Hd in Hs.
Qed.

Lemma reserve_ok t s : attachment t = None -> resources_ok strict (<[i := t]> m, s) ->
  let '(t, s) := reserve t s in resources_ok strict (<[i := t]> m, s).
Proof.
  intros Ha Hs. unfold reserve. destruct (has_slot t) eqn:Hh; [done|]. by apply ok_reserve.
Qed.

(** The end of [try_admit]: the slot and the buffer are there. *)
Lemma hand_over how h dev buf s :
  resources_ok strict (<[i := mkMulti h None true dev buf]> m, s) ->
  let '(t, s) := match how with
                 | NotAdded => (mkMulti h None false dev buf, release_slot true s)
                 | _ => (mkMulti h (Some h) true dev buf, set_multi ({[h]} ∪ multi s) s)
                 end in resources_ok strict (<[i := t]> m, s).
Proof.
  intros Hs. destruct how; try by apply (ok_attach (mkMulti h None true dev buf)).
  by apply (ok_release (mkMulti h None true dev buf)).
Qed.

Lemma admit_ok how t s : attachment t = None -> buffer t = None -> resources_ok strict (<[i := t]> m, s) ->
  let '(t, s) := pass_gates how removed t s in resources_ok strict (<[i := t]> m, s).
Proof.
  intros Ha Hb Hs. destruct t as [h a held dev buf]. simpl in Ha, Hb. subst a buf.
  pose proof (ok_release (mkMulti h None held dev None) s eq_refl Hs) as Hr.
  assert (Hv : resources_ok strict (<[i := mkMulti h None true dev None]> m,
    if held then s else set_slots (slots s + 1) s)).
  { destruct held; [done|]. by apply (ok_reserve (mkMulti h None false dev None)). }
  unfold pass_gates. simpl in *. set (s1 := if held then s else _) in *. clearbody s1.
  pose proof (ok_release (mkMulti h None true dev None) _ eq_refl Hv) as Hr1. simpl in Hr1.
  destruct dev.
  - pose proof (ok_get_buffer (mkMulti h None true true None) _ eq_refl Hv) as Hg. simpl in Hg.
    destruct (get_buffer s1) as [b s2]. pose proof (hand_over how _ _ _ _ Hg). by destruct how.
  - pose proof (hand_over how _ _ _ _ Hv). by destruct how.
Qed.
End parts.

(** The device gives a buffer back when the copy before is done. *)
Lemma device_ok strict m s : resources_ok strict (m, s) -> resources_ok strict (m, device_step s).
Proof.
  intros Hs. unfold device_step. destruct (stream s) as [|[b|b] l] eqn:Hl; [done| |].
  all: destruct Hs as [H1 H2 H3 H4 H5 H6 H7 H8 H9]; simpl in *; rewrite Hl in H6.
  - destruct H6 as [_ H6]. split; simpl; try done. intros c. specialize (H1 c). unfold buffer_places in *.
    simpl in *. rewrite Hl, occurs_cons in H1. by rewrite decide_False in H1.
  - split; simpl; try done.
    + intros c. specialize (H1 c). unfold buffer_places in *. simpl in *. rewrite Hl, occurs_cons in H1.
      rewrite occurs_cons. repeat case_decide; simplify_eq; lia.
    + rewrite H8, not_copying; [done..|]. specialize (H1 b). unfold buffer_places in H1. simpl in H1.
      rewrite Hl, occurs_cons, decide_True in H1 by done. pose proof (made_range (next_buffer s) b).
      pose proof (occurs_nonneg b (cache s)). pose proof (occurs_nonneg b (pool s)).
      pose proof (occurs_nonneg (Recycle b) l). pose proof (map_count_nonneg (holding b) m). lia.
Qed.

(** A transfer of the map is the one in hand. *)
Lemma taken_out strict (m : gmap nat RemoteMultiTransfer) i t (s : resources) :
  m !! i = Some t -> resources_ok strict (m, s) ->
  delete i m !! i = None /\ resources_ok strict (<[i := t]> (delete i m), s).
Proof. intros Hi Hs. split; [apply lookup_delete_eq|]. by rewrite insert_delete_id. Qed.

Lemma on_transfer_ok strict i f x :
  (forall m t s, m !! i = None -> resources_ok strict (<[i := t]> m, s) ->
     let '(t, s) := f t s in resources_ok strict (<[i := t]> m, s)) ->
  resources_ok strict x -> resources_ok strict (on_transfer i f x).
Proof.
  intros Hf Hx. destruct x as [m s]. unfold on_transfer. simpl. destruct (m !! i) as [t|] eqn:Hi; [|done].
  destruct (taken_out _ _ _ _ _ Hi Hx) as [Hd Hh]. specialize (Hf _ _ _ Hd Hh).
  destruct (f t s) as [t' s']. by rewrite insert_delete_eq in Hf.
Qed.

Lemma ending_transfer_ok strict i f x :
  (forall m t s, m !! i = None -> resources_ok strict (<[i := t]> m, s) -> resources_ok strict (m, f t s)) ->
  resources_ok strict x -> resources_ok strict (ending_transfer i f x).
Proof.
  intros Hf Hx. destruct x as [m s]. unfold ending_transfer. simpl. destruct (m !! i) as [t|] eqn:Hi; [|done].
  destruct (taken_out _ _ _ _ _ Hi Hx) as [Hd Hh]. by apply Hf.
Qed.

Lemma transfer_step_ok strict o x :
  staged o = true -> (strict = true -> detaches o = true) -> resources_ok strict x ->
  resources_ok strict (transfer_step o x).
Proof.
  intros Ho Hd Hx.
  destruct o as [i device|i|i how removed|i how pushed removed|i removed|i recycled pushed removed
                |i pushed removed|]; simpl in *.
  - destruct (x.1 !! i) as [t|] eqn:Hi; [done|]. destruct x as [m s]. simpl in *.
    pose proof (ok_new _ _ _ Hi device _ Hx) as Hn. by destruct (new_transfer device s).
  - apply on_transfer_ok; [|done]. intros m t s Hi Hs. unfold waiting_only.
    destruct (attachment t) eqn:Ha; [done|]. destruct (buffer t); [done|]. by apply reserve_ok.
  - apply on_transfer_ok; [|done]. intros m t s Hi Hs. unfold waiting_only.
    destruct (attachment t) eqn:Ha; [done|]. destruct (buffer t) eqn:Hb; [done|]. by apply admit_ok.
  - apply ending_transfer_ok; [|done]. intros m t s Hi Hs. by apply (settle_ok _ i).
  - apply on_transfer_ok; [|done]. intros m t s Hi Hs. by apply requeue_ok.
  - apply ending_transfer_ok; [|done]. intros m t s Hi Hs. by apply (requeue_fails_ok _ i).
  - apply ending_transfer_ok; [|done]. intros m t s Hi Hs. by apply (destroy_ok _ i).
  - destruct x. by apply device_ok.
Qed.

Lemma no_resources_ok strict : resources_ok strict (∅, no_resources).
Proof.
  split; simpl; try done; try lia.
  - intros b. unfold buffer_places, made. simpl. rewrite !occurs_nil, map_count_none by done. case_decide; lia.
  - intros h. unfold handle_places, made. simpl. rewrite occurs_nil, map_count_none by done. case_decide; lia.
Qed.

Lemma run_transfers_ok strict ops x :
  Forall (fun o => staged o = true) ops -> (strict = true -> Forall (fun o => detaches o = true) ops) ->
  resources_ok strict x -> resources_ok strict (run_transfers ops x).
Proof.
  intros Hops. revert x. induction Hops as [|o ops Ho _ IH]; intros x Hd Hx; simpl; [done|].
  apply IH; [intros Hs; specialize (Hd Hs); by inversion Hd|].
  apply transfer_step_ok; [done| |done]. intros Hs. specialize (Hd Hs). by inversion Hd.
Qed.

Lemma on_multi x h : resources_ok true x ->
  (h ∈ multi x.2 <-> exists i t, x.1 !! i = Some t /\ attachment t = Some h /\ has_slot t = true).
Proof.
  intros Hx. pose proof (ro_multi _ Hx eq_refl h) as Hc. split.
  - intros Hh. rewrite decide_True in Hc by done.
    destruct (decide (filter (fun kv : nat * RemoteMultiTransfer => attached h kv.2) x.1 = ∅)) as [He|He].
    + unfold map_count in Hc. by rewrite He in Hc.
    + apply map_choose in He as (i & t & [Hi Ht]%map_lookup_filter_Some). exists i, t.
      split_and!; [done|done|]. by apply (ro_attached _ Hx i t Hi h).
  - intros (i & t & Hi & Ht & _). pose proof (map_count_pos (attached h) _ _ _ Hi Ht).
    case_decide; [done|lia].
Qed.

(** C14. Whatever becomes of the transfers of a reactor (made, taken from the
    queue, refused at any gate, admitted, retried or failing in it, failed with
    or without a context to push, staged to the device) and whenever the device
    gets to its work, for copies whose event and callback are queued: a bounce
    buffer is given to one transfer at a time, and to none while the device
    copies from it; every easy handle is in the pool or with one transfer; the
    limiter counts the transfers that have a slot, and an attached one has; and
    when all transfers and the device are done every buffer, handle and slot is
    back.  As long as libcurl takes a handle off the multi handle when it is
    asked to, the multi handle has exactly the handles of the attached
    transfers, and no handle is given back while it is there. *)
Theorem transfer_resources_owned (ops : list transfer_op) (m : gmap nat RemoteMultiTransfer) (s : resources) :
  Forall (fun o => staged o = true) ops ->
  run_transfers ops (∅, no_resources) = (m, s) ->
  buffer_misused s = false /\
  (forall b, occurs b (cache s) + occurs b (pool s) + occurs (Recycle b) (stream s) + map_count (holding b) m
             = made (next_buffer s) b) /\
  (forall h, occurs h (free_handles s) + map_count (fun t => easy t = h) m = made (next_handle s) h) /\
  slots s = map_count (fun t => has_slot t = true) m /\
  (forall i t h, m !! i = Some t -> attachment t = Some h -> h = easy t /\ has_slot t = true) /\
  (m = ∅ -> stream s = [] ->
   slots s = 0 /\
   (forall b, 1 <= b < next_buffer s -> b ∈ cache s ++ pool s) /\
   (forall h, 1 <= h < next_handle s -> h ∈ free_handles s)) /\
  (Forall (fun o => detaches o = true) ops ->
   handle_misused s = false /\
   (forall h, h ∈ multi s <-> exists i t, m !! i = Some t /\ attachment t = Some h /\ has_slot t = true) /\
   (m = ∅ -> multi s = ∅)).
Proof.
  intros Hops Hrun. split_and!; [..|intros Hd].
  7: { pose proof (run_transfers_ok true _ _ Hops (fun _ => Hd) (no_resources_ok true)) as Hx. rewrite Hrun in Hx.
       pose proof (fun h => on_multi _ h Hx) as Hm. split; [by apply (ro_handles_fine _ Hx)|]. split; [done|].
       intros ->. apply set_eq. intros h. rewrite Hm. split; [by intros (? & ? & ? & _)|set_solver]. }
  all: assert (Hx : resources_ok false (m, s))
         by (rewrite <- Hrun; apply run_transfers_ok; [done|done|apply no_resources_ok]).
  all: destruct Hx as [H1 H2 _ H4 H5 _ _ H8 _]; simpl in *; try done.
  - intros i t h Hi Hh. by apply (H4 i t Hi h).
  - intros -> Hl. split; [by rewrite H5, map_count_none|]. split.
    + intros b Hb. specialize (H1 b). unfold buffer_places, made in H1. simpl in H1.
      rewrite Hl, map_count_none, occurs_nil, decide_True in H1 by done. apply occurs_pos. rewrite occurs_app. lia.
    + intros h Hh. specialize (H2 h). unfold handle_places, made in H2. simpl in H2.
      rewrite map_count_none, decide_True in H2 by done. apply occurs_pos. lia.
Qed.

(** A device transfer that is retried, one that fails, and a host transfer. *)
Definition demo_transfers : list transfer_op :=
  [Create 0 true; Create 1 true; Create 2 false; Reserve 0; TryAdmit 0 Added true; TryAdmit 1 NoBuffer true;
   TryAdmit 2 Added true; Requeue 0 true; TryAdmit 1 Added true; TryAdmit 0 Added true;
   Settle 0 Staged true true; Drop_ 1 true true; Create 3 true; TryAdmit 3 Added true; DeviceWorks; DeviceWorks;
   RequeueFails 2 false true true; Settle 3 Staged true true; DeviceWorks; DeviceWorks].

Lemma transfer_resources_owned_witness :
  exists s, run_transfers demo_transfers (∅, no_resources) = (∅, s) /\
            buffer_misused s = false /\ handle_misused s = false /\ slots s = 0 /\
            Permutation (cache s ++ pool s) [1; 2] /\ 1 ∈ free_handles s /\ 2 ∈ free_handles s.
Proof.
  eexists. split; [by vm_compute|]. match goal with |- buffer_misused ?s = _ /\ _ => set (x := s) end.
  destruct (transfer_resources_owned demo_transfers ∅ x) as (Hf & _ & _ & _ & _ & Hd & Hm);
    [repeat constructor|by vm_compute|].
  destruct (Hd eq_refl eq_refl) as (Hs & _ & Hh). destruct Hm as (Hm & _); [repeat constructor|].
  split_and!; [done|done|done| | |].
  - done.
  - apply Hh. simpl. lia.
  - apply Hh. simpl. lia.
Defined.

(** An error between the copy and its callback gives the buffer back while the
    device is still to copy from it. *)
Example unrecorded_copy_is_overtaken :
  buffer_misused (run_transfers [Create 0 true; TryAdmit 0 Added true; Settle 0 NotRecorded true true]
                    (∅, no_resources)).2 = true.
Proof. by vm_compute. Qed.

Example unlaunched_callback_is_overtaken :
  buffer_misused (run_transfers [Create 0 true; TryAdmit 0 Added true; Settle 0 NotLaunched true true]
                    (∅, no_resources)).2 = true.
Proof. by vm_compute. Qed.

(** A handle that libcurl does not take off the multi handle is pooled while it
    is there, as the comment of [CurlMultiAttachment::reset] says. *)
Example undetached_handle_is_pooled :
  let s := (run_transfers [Create 0 false; TryAdmit 0 Added true; Settle 0 Staged true false] (∅, no_resources)).2 in
  handle_misused s = true /\ free_handles s = [1] /\ buffer_misused s = false.
Proof. by vm_compute. Qed.
