(* ===== verification/Wakeup.v ===== *)
(** * Reactors that sleep

    The loop of [MultiPollReactor::io_thread_main] around the pool of
    [Reactor]: a thread ends each turn in [curl_multi_poll] and is woken by
    [curl_multi_wakeup], which submissions, the pool's death and the recycling
    of buffers call ([src/detail/multi_poll_reactor.cpp]).  A wakeup is sticky:
    with no poll under way, the next poll returns at once. *)

From stdpp Require Import base list strings relations.
From Stdlib Require Import ZArith Lia.
From S2P Require Import Prelude HttpRetry Reactor.

#[local] Open Scope Z_scope.

(** ** Threads and callers *)

Inductive io_mode := InTurn | Asleep (timeout_ms : Z) | LeftLoop.

#[global] Instance io_mode_eq_dec : EqDecision io_mode.
Proof. solve_decision. Defined.

(** An I/O thread: its mode, whether a wakeup is pending on its multi handle,
    and how many events there had been when its turn began. *)
Record io_thread := mkIoThread {
  io_mode_of : io_mode;
  io_woken : bool;
  io_seen : nat }.

(** The pool, the threads, the number of events so far (a submission, the
    death), and for each event the reactors [wake_all_reactors] has still to
    wake.  The events are ghost state, and so is the number of the one that was
    the death. *)
Record io_world := mkWorld {
  w_pool : pool;
  w_threads : list io_thread;
  w_events : nat;
  w_owed : list (list nat);
  w_death : option nat }.

Definition set_pool (p : pool) (w : io_world) : io_world := mkWorld p (w_threads w) (w_events w) (w_owed w) (w_death w).
Definition set_threads (ts : list io_thread) (w : io_world) : io_world :=
  mkWorld (w_pool w) ts (w_events w) (w_owed w) (w_death w).

Definition set_mode (m : io_mode) (t : io_thread) : io_thread := mkIoThread m (io_woken t) (io_seen t).

(** [wakeup] *)
Definition wakeup (t : io_thread) : io_thread := mkIoThread (io_mode_of t) true (io_seen t).

(** [wake_all_reactors], to come. *)
Definition owe (w : io_world) : io_world :=
  mkWorld (w_pool w) (w_threads w) (w_events w) (w_owed w ++ [seq 0 (length (w_threads w))]) (w_death w).

Definition new_event (w : io_world) : io_world := mkWorld (w_pool w) (w_threads w) (S (w_events w)) (w_owed w) (w_death w).

(** Its next iteration, for the [k]-th event that owes one. *)
Definition wake_next (k : nat) (w : io_world) : io_world :=
  match w_owed w !! k with
  | Some (r :: rs) =>
      mkWorld (w_pool w) (alter wakeup r (w_threads w)) (w_events w) (<[k := rs]> (w_owed w)) (w_death w)
  | _ => w
  end.

(** [submit_pread] *)
Definition submit (ts : list transfer) (w : io_world) : io_world :=
  let w' := set_pool (submit_pread ts (w_pool w)) w in
  if is_dead (w_pool w) then w' else owe (new_event w').

Definition mode_at (r : nat) (w : io_world) : option io_mode := io_mode_of <$> w_threads w !! r.

(** The [catch] of [io_thread_main], with the first critical section of
    [signal_death]. *)
Definition die (r : nat) (e : exn) (w : io_world) : io_world :=
  if decide (mode_at r w = Some InTurn) then
    let w := set_threads (alter (set_mode LeftLoop) r (w_threads w)) (set_pool (leave_loop r (w_pool w)) w) in
    if is_dead (w_pool w) then w
    else
      let w' := owe (new_event (set_pool (signal_death e (w_pool w)) w)) in
      mkWorld (w_pool w') (w_threads w') (w_events w') (w_owed w') (Some (w_events w))
  else w.

Definition pending_empty (r : nat) (p : pool) : bool :=
  match reactors p !! r with
  | Some x => match pending x with [] => true | _ => false end
  | None => true
  end.

(** The end of a turn: [poll(poll_timeout_ms(...))]. *)
Definition fall_asleep (r : nat) (now : Z) (o : PassOutcome) (completed : Z) (w : io_world) : io_world :=
  if decide (mode_at r w = Some InTurn) then
    let t := poll_timeout_ms (pending_empty r (w_pool w)) (queue_size_hint (w_pool w)) now o completed in
    set_threads (alter (set_mode (Asleep t)) r (w_threads w)) w
  else w.

(** The poll returns, which consumes the wakeup, and the loop tests
    [is_dead]. *)
Definition poll_returns (r : nat) (w : io_world) : io_world :=
  match mode_at r w with
  | Some (Asleep _) =>
      let m := if is_dead (w_pool w) then LeftLoop else InTurn in
      let p := if is_dead (w_pool w) then leave_loop r (w_pool w) else w_pool w in
      set_threads (alter (fun _ => mkIoThread m false (w_events w)) r (w_threads w)) (set_pool p w)
  | _ => w
  end.

(** The callback given to [recycle_after]. *)
Definition recycled (r : nat) (w : io_world) : io_world := set_threads (alter wakeup r (w_threads w)) w.

Section io_world.
Variable strerror : CURLcode -> string.
Variable policy : HttpRetryPolicy.

(** What a thread does to the pool in a turn. *)
Inductive turn_op :=
  | TurnPop
  | TurnHand (g : gates) (pass : AdmitPass)
  | TurnReturn
  | TurnRetry (i : nat) (g : gates) (pass : AdmitPass)
  | TurnReap (now : Z) (i : nat) (c : completion) (o : PassOutcome).

Definition turn_step (r : nat) (op : turn_op) (p : pool) : pool :=
  match op with
  | TurnPop => try_pop_queued r p
  | TurnHand g pass => (admit_hand r g pass p).1.1
  | TurnReturn => return_to_queue r p
  | TurnRetry i g pass => (admit_retry r i g pass p).1.1
  | TurnReap now i c o => (reap strerror policy now r i c o p).1
  end.

Inductive world_op :=
  | Submit (ts : list transfer)
  | WakeNext (k : nat)
  | Work (r : nat) (op : turn_op)
  | Sleep (r : nat) (now : Z) (o : PassOutcome) (completed : Z)
  | PollReturns (r : nat)
  | Recycled (r : nat)
  | Die (r : nat) (e : exn)
  | Drain
  | FailAll (r : nat).

Definition world_step (w : io_world) (o : world_op) : io_world :=
  match o with
  | Submit ts => submit ts w
  | WakeNext k => wake_next k w
  | Work r op => if decide (mode_at r w = Some InTurn) then set_pool (turn_step r op (w_pool w)) w else w
  | Sleep r now o completed => fall_asleep r now o completed w
  | PollReturns r => poll_returns r w
  | Recycled r => recycled r w
  | Die r e => die r e w
  | Drain => set_pool (drain_queue (w_pool w)) w
  | FailAll r => if decide (mode_at r w = Some LeftLoop) then set_pool (fail_all_pending r (w_pool w)) w else w
  end.

Definition run_world (ops : list world_op) (w : io_world) : io_world := foldl world_step w ops.

(** The threads a new pool starts. *)
Definition new_world (p : pool) : io_world := mkWorld p (replicate (length (reactors p)) (mkIoThread InTurn false 0)) 0 [] None.

Definition fresh_submissions (ops : list world_op) : Prop :=
  Forall (fun o => match o with Submit ts => Forall fresh ts | _ => True end) ops.

(** ** The pool of [Reactor] *)

Lemma turn_step_pool r op p : pool_step strerror policy p (turn_step r op p).
Proof. destruct op; simpl; constructor. Qed.

Lemma set_queue_death q p : death_reason (set_queue q p) = death_reason p.
Proof. done. Qed.

Lemma turn_step_death r op p : death_reason (turn_step r op p) = death_reason p.
Proof.
  destruct op; simpl; unfold try_pop_queued, admit_hand, return_to_queue, admit_retry, reap;
    repeat (case_match; simplify_eq/=; try done).
Qed.

(** ** No wakeup is lost *)

(** A thread in the loop has begun its turn after every event, or has a wakeup
    pending, or is owed one. *)
Record thread_ok (events : nat) (owed : list (list nat)) (death : option nat) (r : nat) (t : io_thread) : Prop := mkThreadOk {
  seen_events : (io_seen t <= events)%nat;
  told : io_mode_of t = LeftLoop \/ io_woken t = true \/ io_seen t = events \/ exists rs, rs ∈ owed /\ r ∈ rs;
  before_death : forall d, death = Some d -> io_mode_of t <> LeftLoop -> (io_seen t <= d)%nat;
  sleeps_at_most : forall ms, io_mode_of t = Asleep ms -> 0 <= ms <= 1000 }.

Definition thread_in (w : io_world) : nat -> io_thread -> Prop := thread_ok (w_events w) (w_owed w) (w_death w).

Record world_ok (w : io_world) : Prop := mkWorldOk {
  threads_ok : forall r t, w_threads w !! r = Some t -> thread_in w r t;
  death_known : match w_death w with
                | Some d => is_dead (w_pool w) = true /\ (d < w_events w)%nat
                | None => is_dead (w_pool w) = false
                end }.

Lemma set_pool_ok p w : is_dead p = is_dead (w_pool w) -> world_ok w -> world_ok (set_pool p w).
Proof. intros Hp [Ht Hd]. constructor; [intros r t Hr; by destruct (Ht r t Hr)|]. simpl. by rewrite Hp. Qed.

(** A thread changes by [f], the others stay. *)
Lemma alter_threads_ok f r w :
  (forall t, w_threads w !! r = Some t -> thread_in w r t -> thread_in w r (f t)) ->
  world_ok w -> world_ok (set_threads (alter f r (w_threads w)) w).
Proof.
  intros Hf [Ht Hd]. constructor; [|done]. intros r' t'. simpl. destruct (decide (r = r')) as [<-|Hne].
  - rewrite list_lookup_alter_eq, fmap_Some. intros (t & Hr & ->). by apply Hf, Ht.
  - rewrite list_lookup_alter_ne by done. apply Ht.
Qed.

Lemma thread_dead p w : death_reason p = death_reason (w_pool w) -> is_dead p = is_dead (w_pool w).
Proof. unfold is_dead. by intros ->. Qed.

Lemma leave_loop_death r p : death_reason (leave_loop r p) = death_reason p.
Proof. unfold leave_loop. by repeat case_match. Qed.

Lemma wakeup_ok w r t : thread_in w r t -> thread_in w r (wakeup t).
Proof. intros []. constructor; simpl; auto. Qed.

Lemma owe_threads_ok w r t :
  w_threads w !! r = Some t -> (io_seen t <= w_events w)%nat ->
  (forall d, w_death w = Some d -> io_mode_of t <> LeftLoop -> (io_seen t <= d)%nat) ->
  (forall ms, io_mode_of t = Asleep ms -> 0 <= ms <= 1000) ->
  thread_in (owe (new_event w)) r t.
Proof.
  intros Hr Hs Hd Hms. constructor; simpl; [lia| |done|done]. right. right. right.
  eexists. split; [apply elem_of_app; right; apply list_elem_of_singleton; reflexivity|].
  apply elem_of_seq. apply lookup_lt_Some in Hr. lia.
Qed.

Lemma submit_ok ts w : world_ok w -> world_ok (submit ts w).
Proof.
  intros [Ht Hd]. unfold submit, is_dead in *. destruct (death_reason (w_pool w)) as [e|] eqn:He.
  - apply set_pool_ok; [|by constructor; [|unfold is_dead; rewrite He]].
    unfold is_dead, submit_pread. simpl. by rewrite He.
  - constructor.
    + intros r t Hr. destruct (Ht r t Hr). by apply owe_threads_ok.
    + simpl. unfold is_dead, submit_pread. simpl. rewrite He. simpl. destruct (w_death w); [by destruct Hd|done].
Qed.

Lemma wake_next_ok k w : world_ok w -> world_ok (wake_next k w).
Proof.
  intros Hw. unfold wake_next. destruct (w_owed w !! k) as [[|r rs]|] eqn:Hk; [done| |done].
  destruct Hw as [Ht Hd]. constructor; [|done]. intros r' t'. simpl.
  assert (Hother : forall t, w_threads w !! r' = Some t -> r <> r' \/ io_woken t = true ->
    thread_ok (w_events w) (<[k := rs]> (w_owed w)) (w_death w) r' t).
  { intros t Hr Hor. destruct (Ht r' t Hr) as [H1 H2 H3 H4]. constructor; simpl; auto.
    destruct H2 as [?|[?|[?|(l & Hl & Hin)]]]; auto. destruct Hor as [Hne|?]; [|auto]. right. right. right.
    apply list_elem_of_lookup in Hl as [j Hj]. destruct (decide (j = k)) as [->|Hjk].
    - simplify_eq. apply elem_of_cons in Hin as [?|Hin]; [by subst|]. exists rs. split; [|done].
      apply list_elem_of_lookup. exists k. apply list_lookup_insert_eq. by eapply lookup_lt_Some.
    - exists l. split; [|done]. apply list_elem_of_lookup. exists j. by rewrite list_lookup_insert_ne. }
  destruct (decide (r = r')) as [<-|Hne].
  - rewrite list_lookup_alter_eq, fmap_Some. intros (t & Hr & ->). destruct (Ht r t Hr). constructor; simpl; auto.
  - rewrite list_lookup_alter_ne by done. intros Hr. apply Hother; auto.
Qed.

Lemma die_ok r e w : world_ok w -> world_ok (die r e w).
Proof.
  intros Hw. unfold die. destruct (decide _) as [Hm|]; [|done].
  set (w1 := set_threads _ _).
  assert (Hw1 : world_ok w1).
  { apply set_pool_ok with (p := leave_loop r (w_pool w)) in Hw; [|by apply thread_dead, leave_loop_death].
    apply (alter_threads_ok (set_mode LeftLoop) r) in Hw; [exact Hw|].
    intros t _ []. constructor; simpl; auto; done. }
  destruct (is_dead (w_pool w1)) eqn:Hdead; [done|]. destruct Hw1 as [Ht Hd].
  constructor; simpl.
  - intros r' t Hr. destruct (Ht r' t Hr) as [H1 H2 H3 H4].
    pose proof (owe_threads_ok w1 r' t Hr H1 H3 H4) as Ho. destruct Ho as [O1 O2 O3 O4].
    constructor; simpl; auto. by intros d [= <-] _.
  - split; [|lia]. unfold is_dead, signal_death in *. simpl in *. by destruct (death_reason _) eqn:E; simpl; rewrite ?E.
Qed.

Lemma timeout_range b hint now o completed : 0 <= poll_timeout_ms b hint now o completed <= 1000.
Proof. apply poll_timeout_spec. Qed.

Lemma fall_asleep_ok r now o completed w : world_ok w -> world_ok (fall_asleep r now o completed w).
Proof.
  intros Hw. unfold fall_asleep. destruct (decide _) as [Hm|]; [|done].
  apply alter_threads_ok; [|done]. intros t Hr [H1 H2 H3 H4].
  unfold mode_at in Hm. rewrite Hr in Hm. injection Hm as Hm. rewrite Hm in H2, H3.
  constructor; simpl; [done|naive_solver| |intros ms [= <-]; apply timeout_range]. intros d Hd _. by apply H3.
Qed.

Lemma poll_returns_ok r w : world_ok w -> world_ok (poll_returns r w).
Proof.
  intros Hw. unfold poll_returns. destruct (mode_at r w) as [[|ms|]|]; try done.
  destruct Hw as [Ht Hd]. destruct (is_dead (w_pool w)) eqn:Hdead.
  - apply (alter_threads_ok _ r (set_pool (leave_loop r (w_pool w)) w)).
    + intros t _ _. constructor; simpl; auto; done.
    + apply set_pool_ok; [by apply thread_dead, leave_loop_death|]. constructor; [done|by rewrite Hdead].
  - apply (alter_threads_ok _ r w); [|constructor; [done|by rewrite Hdead]].
    intros t _ _. constructor; simpl; auto; [|done]. intros d Hw. simpl in Hw. rewrite Hw in Hd. destruct Hd; congruence.
Qed.

Lemma world_step_ok w o : world_ok w -> world_ok (world_step w o).
Proof.
  destruct o; simpl; intros Hw.
  - by apply submit_ok.
  - by apply wake_next_ok.
  - destruct (decide _); [|done]. apply set_pool_ok; [apply thread_dead, turn_step_death|done].
  - by apply fall_asleep_ok.
  - by apply poll_returns_ok.
  - apply alter_threads_ok; [|done]. intros t _. apply wakeup_ok.
  - by apply die_ok.
  - apply set_pool_ok; [|done]. apply thread_dead. unfold drain_queue. by destruct (death_reason (w_pool w)) eqn:E.
  - destruct (decide _); [|done]. apply set_pool_ok; [|done]. apply thread_dead. unfold fail_all_pending. by repeat case_match.
Qed.

Lemma run_world_ok ops w : world_ok w -> world_ok (run_world ops w).
Proof. revert w. induction ops as [|o ops IH]; intros w Hw; [done|]. by apply IH, world_step_ok. Qed.

Lemma new_world_ok p : is_dead p = false -> world_ok (new_world p).
Proof.
  intros Hp. constructor; [|done]. intros r t [-> _]%lookup_replicate. constructor; simpl; auto; done.
Qed.

(** The threads and the callers only take steps of [Reactor]. *)
Lemma world_step_pool w o :
  match o with Submit ts => Forall fresh ts | _ => True end ->
  rtc (pool_step strerror policy) (w_pool w) (w_pool (world_step w o)).
Proof.
  assert (Hone : forall p p', pool_step strerror policy p p' -> rtc (pool_step strerror policy) p p') by (intros; by apply rtc_once).
  destruct o; simpl; intros Ho; try done.
  - unfold submit. destruct (is_dead _); apply Hone; by constructor.
  - unfold wake_next. by repeat case_match.
  - destruct (decide _); [|done]. apply Hone, turn_step_pool.
  - unfold fall_asleep. by destruct (decide _).
  - unfold poll_returns. repeat case_match; try done. apply Hone. constructor.
  - unfold die. destruct (decide _); [|done]. set (w1 := set_threads _ _).
    assert (H1 : rtc (pool_step strerror policy) (w_pool w) (w_pool w1)) by (apply Hone; constructor).
    destruct (is_dead (w_pool w1)); [done|]. etrans; [exact H1|]. apply Hone. constructor.
  - apply Hone. constructor.
  - destruct (decide _); [|done]. apply Hone. constructor.
Qed.

Lemma run_world_pool ops w :
  fresh_submissions ops -> rtc (pool_step strerror policy) (w_pool w) (w_pool (run_world ops w)).
Proof.
  intros Ho. revert w. induction Ho as [|o ops Ho _ IH]; intros w; [done|]. simpl.
  etrans; [by apply world_step_pool|apply IH].
Qed.

(** C27. No wakeup is lost.  However callers and reactor threads interleave, in a
    state where every [wake_all_reactors] has ended, a reactor that sleeps with
    no wakeup pending has begun its last turn after the last submission, so it
    has seen the queue with it; the pool is alive, so none sleeps through its
    death; and its poll ends within a second.  The pool has only taken the steps
    of its own operations. *)
Theorem no_wakeup_lost (p : pool) (ops : list world_op) (r : nat) (t : io_thread) (ms : Z) :
  let w := run_world ops (new_world p) in
  is_dead p = false -> fresh_submissions ops -> Forall (fun rs => rs = []) (w_owed w) ->
  w_threads w !! r = Some t -> io_mode_of t = Asleep ms -> io_woken t = false ->
  io_seen t = w_events w /\ is_dead (w_pool w) = false /\ 0 <= ms <= 1000 /\
  rtc (pool_step strerror policy) p (w_pool w).
Proof.
  intros w Hp Hfresh Howed Hr Hm Hw.
  destruct (run_world_ok ops (new_world p) (new_world_ok p Hp)) as [Ht Hd]. fold w in Ht, Hd.
  destruct (Ht r t Hr) as [H1 H2 H3 H4].
  assert (Hseen : io_seen t = w_events w).
  { destruct H2 as [?|[?|[?|(rs & Hrs & Hin)]]]; [congruence|congruence|done|].
    rewrite Forall_forall in Howed. rewrite (Howed rs Hrs) in Hin. by apply not_elem_of_nil in Hin. }
  split_and!; [done| |by apply H4|by apply H4|by apply (run_world_pool ops (new_world p))].
  destruct (w_death w) as [d|] eqn:Hdeath; [|done]. destruct Hd as [_ Hd]. specialize (H3 d eq_refl).
  rewrite Hm in H3. specialize (H3 ltac:(done)). lia.
Qed.
End io_world.

(** ** Two reactors *)

Definition two_reactors : pool :=
  mkPool [] 0 None false (replicate 2 (mkReactor [] [] None 0 (Some 2) false false)) [] [].

Definition calm : PassOutcome := mkPassOutcome None false.
Definition a_pass : AdmitPass := mkAdmitPass calm 5 [].

(** Both sleep; a transfer is submitted and both are woken. *)
Definition woken_for_work : list world_op :=
  [Sleep 0 5 calm 0; Sleep 1 5 calm 0; Submit [demo_transfer 1 true]; WakeNext 0; WakeNext 0; PollReturns 0; PollReturns 1].

Definition run_two (ops : list world_op) : io_world := run_world demo_text demo_policy (woken_for_work ++ ops) (new_world two_reactors).

(** The first takes it, the second finds nothing and sleeps. *)
Definition taken : list world_op :=
  [Work 0 TurnPop; Work 0 (TurnHand (mkGates (inr true) None) a_pass); Sleep 1 5 calm 0; Sleep 0 5 calm 0].

Lemma no_wakeup_lost_witness :
  io_seen (mkIoThread (Asleep 1000) false 1) = w_events (run_two taken) /\
  queue (w_pool (run_two taken)) = [] /\ rtc (pool_step demo_text demo_policy) two_reactors (w_pool (run_two taken)).
Proof.
  destruct (no_wakeup_lost demo_text demo_policy two_reactors (woken_for_work ++ taken) 1
              (mkIoThread (Asleep 1000) false 1) 1000) as (H1 & _ & _ & H2); try reflexivity.
  - repeat constructor.
  - repeat constructor.
  - split; [exact H1|]. split; [reflexivity|exact H2].
Defined.

(** The first takes it, and while it has it the second finds the queue empty
    and goes to sleep for a second.  The first gets no bounce buffer and puts
    the transfer back: nobody wakes the second, which has slots and, with a
    cache of its own, buffers. *)
Definition taken_and_returned : list world_op :=
  [Work 0 TurnPop; Sleep 1 5 calm 0; Work 0 (TurnHand (mkGates (inr false) None) a_pass); Work 0 TurnReturn;
   Sleep 0 5 (defer_for_resource calm) 0].

Example returned_work_waits :
  let w := run_two taken_and_returned in
  queue (w_pool w) = [demo_transfer 1 true] /\ queue_size_hint (w_pool w) = 1 /\ w_owed w = [[]] /\
  w_threads w = replicate 2 (mkIoThread (Asleep 1000) false 1) /\
  requests <$> reactors (w_pool w) = [0; 0].
Proof. vm_compute. done. Qed.
