(* ===== verification/RemoteCallback.v ===== *)
(** * Receiving remote data

    [src/detail/remote_callback.cpp], and [BounceBufferH2D] and
    [callback_device_memory] of [src/remote_handle.cpp].  libcurl hands the body
    of a response over in chunks; a callback puts each in host memory, in a
    pinned buffer, or through a bounce buffer in device memory.

    A chunk is the list of its bytes.  [receive] is the part of libcurl's
    documented behaviour the code relies on: the callback gets the chunks in
    order, and a return value other than the length of the chunk ends the
    transfer. *)

From stdpp Require Import base list strings.
From Stdlib Require Import ZArith Lia Setoid Morphisms.
From S2P Require Import Prelude.

#[local] Open Scope Z_scope.

(** ** Memory *)

Definition memory := Z -> Z.

Definition same_memory (m m' : memory) : Prop := forall a, m a = m' a.

#[global] Instance same_memory_equivalence : Equivalence same_memory.
Proof. split; [by intros m a|intros m m' H a; by rewrite H|intros x y z H1 H2 a; by rewrite H1, H2]. Qed.

(** The bytes [l] written at address [d]. *)
Definition store (d : Z) (l : list Z) (m : memory) : memory :=
  fun a => if d <=? a then default (m a) (l !! Z.to_nat (a - d)) else m a.

#[global] Instance store_proper d l : Proper (same_memory ==> same_memory) (store d l).
Proof. intros m m' H a. unfold store. by rewrite H. Qed.

Lemma store_nil d m : same_memory (store d [] m) m.
Proof. intros a. unfold store. by destruct (d <=? a). Qed.

Lemma store_app d l k m :
  same_memory (store d (l ++ k) m) (store (d + Z.of_nat (length l)) k (store d l m)).
Proof.
  intros a. unfold store. destruct (d <=? a) eqn:Hd; bool_to_prop.
  - destruct (d + Z.of_nat (length l) <=? a) eqn:Hk; bool_to_prop.
    + rewrite (lookup_ge_None_2 l) by lia. simpl. rewrite lookup_app_r by lia.
      by replace (Z.to_nat (a - d) - length l)%nat with (Z.to_nat (a - (d + Z.of_nat (length l)))) by lia.
    + by rewrite lookup_app_l by lia.
  - rewrite (proj2 (Z.leb_gt _ _)); [done|lia].
Qed.

Lemma store_in d l m i : (i < length l)%nat -> l !! i = Some (store d l m (d + Z.of_nat i)).
Proof.
  intros Hi. unfold store. rewrite (proj2 (Z.leb_le _ _)) by lia.
  replace (Z.to_nat (d + Z.of_nat i - d)) with i by lia.
  destruct (l !! i) eqn:E; [done|]. apply lookup_ge_None in E. lia.
Qed.

Lemma store_out d l m a : a < d \/ d + Z.of_nat (length l) <= a -> store d l m a = m a.
Proof.
  intros Ha. unfold store. case_bool; [|done]. by rewrite lookup_ge_None_2 by lia.
Qed.

(** What was there before does not matter under a longer write. *)
Lemma store_cover d l k m :
  (length k <= length l)%nat -> same_memory (store d l (store d k m)) (store d l m).
Proof.
  intros Hl a. unfold store. destruct (d <=? a) eqn:Hd; bool_to_prop; [|done].
  destruct (l !! Z.to_nat (a - d)) eqn:E; [done|]. apply lookup_ge_None in E.
  simpl. by rewrite lookup_ge_None_2 by lia.
Qed.

(** ** Copies *)

Definition memcpy (dst : Z) (src : list Z) (nbytes : Z) (m : memory) : memory :=
  store dst (take (Z.to_nat nbytes) src) m.

(** The variables of [copy_nontemporal_impl], and the addresses its streaming
    stores were given. *)
Record nt_copy := mkNt {
  nt_dst : Z; nt_src : list Z; nt_nbytes : Z; nt_mem : memory; nt_stores : list Z }.

(** The head, up to an aligned destination. *)
Definition nt_head (alignment : Z) (s : nt_copy) : nt_copy :=
  let misaligned := nt_dst s mod alignment in
  if misaligned =? 0 then s
  else
    let head := Z.min (nt_nbytes s) (alignment - misaligned) in
    mkNt (nt_dst s + head) (drop (Z.to_nat head) (nt_src s)) (nt_nbytes s - head)
      (memcpy (nt_dst s) (nt_src s) head (nt_mem s)) (nt_stores s).

Definition nt_body (alignment : Z) (s : nt_copy) : result nt_copy :=
  mret (mkNt (nt_dst s + alignment) (drop (Z.to_nat alignment) (nt_src s)) (nt_nbytes s - alignment)
          (memcpy (nt_dst s) (nt_src s) alignment (nt_mem s)) (nt_stores s ++ [nt_dst s])).

Definition copy_nontemporal_impl (dst : Z) (src : list Z) (nbytes : Z) (m : memory)
    : result nt_copy :=
  let alignment := 32 in
  s ← while_loop (Z.to_nat nbytes) (fun s => nt_nbytes s >=? alignment) (nt_body alignment)
        (nt_head alignment (mkNt dst src nbytes m []));
  mret (if nt_nbytes s =? 0 then s
        else mkNt (nt_dst s) (nt_src s) (nt_nbytes s)
               (memcpy (nt_dst s) (nt_src s) (nt_nbytes s) (nt_mem s)) (nt_stores s)).

(** The environment settings, read once, and the processor. *)
Record copy_config := mkCopyConfig {
  discard_data_enabled : bool;
  nontemporal_copy_enabled : bool;
  nontemporal_copy_threshold : Z;
  cpu_supports_avx2 : bool }.

Definition threshold_of_env (env : Z) : result Z :=
  _ ← expect (env >=? 0) (InvalidArgument
        "KVIKIO_REMOTE_IO_NONTEMPORAL_COPY_THRESHOLD has to be a non-negative integer");
  mret env.

Definition copy_nontemporal (c : copy_config) (dst : Z) (src : list Z) (nbytes : Z) (m : memory)
    : result memory :=
  if cpu_supports_avx2 c then nt_mem <$> copy_nontemporal_impl dst src nbytes m
  else mret (memcpy dst src nbytes m).

Definition copy_received_data (c : copy_config) (dst : Z) (src : list Z) (nbytes range_size : Z)
    (m : memory) : result memory :=
  if nontemporal_copy_enabled c && (range_size >=? nontemporal_copy_threshold c) then
    copy_nontemporal c dst src nbytes m
  else mret (memcpy dst src nbytes m).

(** ** The context of a transfer *)

Record CallbackContext := mkCtx {
  buf : Z;
  size : Z;
  offset : Z;
  overflow_error : bool;
  pinned_buffer : Z }.

Definition reset_for_retry (ctx : CallbackContext) : CallbackContext :=
  mkCtx (buf ctx) (size ctx) 0 false (pinned_buffer ctx).

Definition set_overflow (ctx : CallbackContext) : CallbackContext :=
  mkCtx (buf ctx) (size ctx) (offset ctx) true (pinned_buffer ctx).

Definition advance (nbytes : Z) (ctx : CallbackContext) : CallbackContext :=
  mkCtx (buf ctx) (size ctx) (offset ctx + nbytes) (overflow_error ctx) (pinned_buffer ctx).

Section callbacks.
Variable CURL_WRITEFUNC_ERROR : Z.
Variable c : copy_config.

(** The callbacks return the count for libcurl, the context and the memory. *)
Definition callback_host_memory (data : list Z) (size_ nmemb : Z) (ctx : CallbackContext)
    (m : memory) : result (Z * CallbackContext * memory) :=
  let nbytes := size_ *% nmemb in
  if size ctx <? offset ctx +% nbytes then mret (CURL_WRITEFUNC_ERROR, set_overflow ctx, m)
  else
    m ← (if discard_data_enabled c then mret m
         else copy_received_data c (buf ctx + offset ctx) data nbytes (size ctx) m);
    mret (nbytes, advance nbytes ctx, m).

Definition callback_pinned_buffer (data : list Z) (size_ nmemb : Z) (ctx : CallbackContext)
    (m : memory) : result (Z * CallbackContext * memory) :=
  let nbytes := size_ *% nmemb in
  if size ctx <? offset ctx +% nbytes then mret (CURL_WRITEFUNC_ERROR, set_overflow ctx, m)
  else
    m ← copy_received_data c (pinned_buffer ctx + offset ctx) data nbytes (size ctx) m;
    mret (nbytes, advance nbytes ctx, m).

Definition callback_get_string_response (data : list Z) (size_ num_bytes : Z) (response : list Z)
    : Z * list Z :=
  let new_data_size := size_ *% num_bytes in
  (new_data_size, response ++ take (Z.to_nat new_data_size) data).

(** ** The host-to-device bounce buffer *)

Record BounceBufferH2D := mkH2D {
  dev : Z;
  host_buffer : Z;
  host_buffer_size : Z;
  dev_offset : Z;
  host_offset : Z }.

Definition new_h2d (device_buffer host_buffer host_buffer_size : Z) : BounceBufferH2D :=
  mkH2D device_buffer host_buffer host_buffer_size 0 0.

(** Host and device memory. *)
Record memories := mkMem { host : memory; device : memory }.

(** Whether the CUDA copy of that many bytes succeeds. *)
Variable cuda_copy_ok : BounceBufferH2D -> Z -> bool.

Definition read_host (m : memory) (a n : Z) : list Z := (fun i => m (a + i)) <$> seqZ 0 n.

Definition write_to_device (src : list Z) (size_ : Z) (b : BounceBufferH2D) (m : memories)
    : result (BounceBufferH2D * memories) :=
  if size_ >? 0 then
    _ ← expect (cuda_copy_ok b size_) (CUfileException "CUDA error");
    mret (mkH2D (dev b) (host_buffer b) (host_buffer_size b) (dev_offset b + size_) (host_offset b),
          mkMem (host m) (memcpy (dev b + dev_offset b) src size_ (device m)))
  else mret (b, m).

Definition flush (b : BounceBufferH2D) (m : memories) : result (BounceBufferH2D * memories) :=
  '(b, m) ← write_to_device (read_host (host m) (host_buffer b) (host_offset b)) (host_offset b) b m;
  mret (mkH2D (dev b) (host_buffer b) (host_buffer_size b) (dev_offset b) 0, m).

Definition write (data : list Z) (size_ range_size : Z) (b : BounceBufferH2D) (m : memories)
    : result (BounceBufferH2D * memories) :=
  '(b, m) ← (if host_buffer_size b -% host_offset b <? size_ then flush b m else mret (b, m));
  if host_buffer_size b <? size_ then write_to_device data size_ b m
  else if size_ >? 0 then
    h ← copy_received_data c (host_buffer b + host_offset b) data size_ range_size (host m);
    mret (mkH2D (dev b) (host_buffer b) (host_buffer_size b) (dev_offset b) (host_offset b + size_),
          mkMem h (device m))
  else mret (b, m).

Definition h2d_reset_for_retry (b : BounceBufferH2D) : BounceBufferH2D :=
  mkH2D (dev b) (host_buffer b) (host_buffer_size b) 0 0.

Definition callback_device_memory (data : list Z) (size_ nmemb : Z) (ctx : CallbackContext)
    (s : BounceBufferH2D * memories)
    : result (Z * CallbackContext * (BounceBufferH2D * memories)) :=
  let nbytes := size_ *% nmemb in
  if size ctx <? offset ctx +% nbytes then mret (CURL_WRITEFUNC_ERROR, set_overflow ctx, s)
  else
    s ← write data nbytes (size ctx) s.1 s.2;
    mret (nbytes, advance nbytes ctx, s).

End callbacks.

(** libcurl hands over the chunks of a response; whether it got to the end. *)
Fixpoint receive {S : Type} (callback : list Z -> Z -> Z -> CallbackContext -> S ->
    result (Z * CallbackContext * S)) (chunks : list (list Z)) (ctx : CallbackContext) (s : S)
    : result (bool * CallbackContext * S) :=
  match chunks with
  | [] => mret (true, ctx, s)
  | data :: chunks =>
      let nmemb := Z.of_nat (length data) in
      r ← callback data 1 nmemb ctx s;
      let '(n, ctx, s) := r in
      if n =? nmemb then receive callback chunks ctx s else mret (false, ctx, s)
  end.

(** ** The streaming copy is a memcpy *)

Section nontemporal.
Variables (dst nbytes : Z) (src : list Z) (m : memory).
Hypothesis Hn : 0 <= nbytes <= Z.of_nat (length src).

(** [k] bytes have been copied. *)
Record copied (s : nt_copy) (k : Z) : Prop := mkCopied {
  cp_range : 0 <= k <= nbytes;
  cp_dst : nt_dst s = dst + k;
  cp_src : nt_src s = drop (Z.to_nat k) src;
  cp_left : nt_nbytes s = nbytes - k;
  cp_mem : same_memory (nt_mem s) (store dst (take (Z.to_nat k) src) m);
  cp_stores : Forall (fun a => (32 | a)) (nt_stores s) }.

Lemma copied_more s k n stores :
  copied s k -> 0 <= n <= nt_nbytes s -> Forall (fun a => (32 | a)) stores ->
  copied (mkNt (nt_dst s + n) (drop (Z.to_nat n) (nt_src s)) (nt_nbytes s - n)
            (memcpy (nt_dst s) (nt_src s) n (nt_mem s)) stores) (k + n).
Proof.
  intros [Hk Hd Hs Hl Hm _] Hnn Hst. constructor; simpl; try lia; [| |done].
  - rewrite Hs, drop_drop. f_equal. lia.
  - unfold memcpy. rewrite Hd, Hs, Hm. rewrite Z2Nat.inj_add by lia.
    rewrite <- take_take_drop, store_app, length_take_le by lia. by rewrite Z2Nat.id by lia.
Qed.

Lemma nt_head_copied : exists k,
  copied (nt_head 32 (mkNt dst src nbytes m [])) k /\
  (32 <= nt_nbytes (nt_head 32 (mkNt dst src nbytes m [])) ->
   (32 | nt_dst (nt_head 32 (mkNt dst src nbytes m [])))).
Proof.
  assert (H0 : copied (mkNt dst src nbytes m []) 0).
  { constructor; simpl; try lia; [by rewrite drop_0| |done]. rewrite take_0. by rewrite store_nil. }
  unfold nt_head. simpl. destruct (dst mod 32 =? 0) eqn:E; bool_to_prop.
  - exists 0. split; [done|]. intros _. by apply Z.mod_divide.
  - pose proof (Z.mod_pos_bound dst 32 ltac:(lia)).
    exists (0 + Z.min nbytes (32 - dst mod 32)). split.
    + apply (copied_more _ 0 (Z.min nbytes (32 - dst mod 32)) [] H0); [simpl; lia|done].
    + simpl. intros Hl. rewrite Z.min_r by lia. apply Z.mod_divide; [lia|].
      replace (dst + (32 - dst mod 32)) with (dst - dst mod 32 + 1 * 32) by lia.
      rewrite Z.mod_add, Zminus_mod_idemp_r by lia. by rewrite Z.sub_diag.
Qed.

Lemma copy_nontemporal_impl_spec :
  exists s, copy_nontemporal_impl dst src nbytes m = Ok s /\
    same_memory (nt_mem s) (memcpy dst src nbytes m) /\ Forall (fun a => (32 | a)) (nt_stores s).
Proof.
  unfold copy_nontemporal_impl. apply returns_ok, returns_bind.
  eapply returns_mono; [eapply (while_rule (fun s => exists k, copied s k /\
      (32 <= nt_nbytes s -> (32 | nt_dst s))) nt_nbytes (fun _ => False))| |done].
  - intros s (k & Hs & Ha) Hc. bool_to_prop. split; [lia|].
    pose proof (copied_more s k 32 (nt_stores s ++ [nt_dst s]) Hs) as Hmore. simpl.
    split; [|lia]. exists (k + 32). split.
    + apply Hmore; [lia|]. apply Forall_app. rewrite Forall_singleton. split; [apply Hs|by apply Ha].
    + intros _. apply Z.divide_add_r; [by apply Ha|done].
  - apply nt_head_copied.
  - destruct nt_head_copied as (k & [Hk _ _ Hl _ _] & _). lia.
  - intros s [(k & Hs & Ha) _]. simpl. destruct (nt_nbytes s =? 0) eqn:E; bool_to_prop.
    + pose proof Hs as [Hk _ _ Hl Hm Hst]. split; [|done]. rewrite Hm.
      unfold memcpy. by replace k with nbytes by lia.
    + pose proof (copied_more s k (nt_nbytes s) (nt_stores s) Hs) as Hmore.
      destruct Hmore as [_ _ _ _ Hm Hst]; [destruct Hs; lia|apply Hs|]. simpl in *.
      split; [|done]. rewrite Hm. unfold memcpy. by replace (k + nt_nbytes s) with nbytes by (destruct Hs; lia).
Qed.
End nontemporal.

Lemma copy_nontemporal_spec c dst src nbytes m :
  0 <= nbytes <= Z.of_nat (length src) ->
  exists m', copy_nontemporal c dst src nbytes m = Ok m' /\ same_memory m' (memcpy dst src nbytes m).
Proof.
  intros Hn. unfold copy_nontemporal. destruct (cpu_supports_avx2 c); [|by eexists].
  destruct (copy_nontemporal_impl_spec dst nbytes src m Hn) as (s & -> & Hm & _). by eexists.
Qed.

Lemma copy_received_data_spec c dst src nbytes range_size m :
  0 <= nbytes <= Z.of_nat (length src) ->
  exists m', copy_received_data c dst src nbytes range_size m = Ok m' /\
    same_memory m' (memcpy dst src nbytes m).
Proof.
  intros Hn. unfold copy_received_data. case_bool; [by apply copy_nontemporal_spec|by eexists].
Qed.

Lemma memcpy_all dst src m : memcpy dst src (Z.of_nat (length src)) m = store dst src m.
Proof. unfold memcpy. by rewrite Nat2Z.id, firstn_all. Qed.

(** ** What a callback promises *)

Definition at_offset (n : Z) (ctx : CallbackContext) : CallbackContext :=
  mkCtx (buf ctx) (size ctx) n false (pinned_buffer ctx).

Abbreviation chunk_length l := (Z.of_nat (length l)) (only parsing).

Abbreviation write_callback S := (list Z -> Z -> Z -> CallbackContext -> S ->
  result (Z * CallbackContext * S)) (only parsing).

(** [holds l s]: the destination [s] holds the bytes [l].  A chunk that fits is
    taken whole, one that does not is refused and nothing is written; a retry
    starts over. *)
Class Sink {S : Type} (err : Z) (callback : write_callback S) (reset : S -> S)
    (ctx0 : CallbackContext) (holds : list Z -> S -> Prop) := {
  sink_takes done data s :
    holds done s -> chunk_length done + chunk_length data <= size ctx0 ->
    exists s', callback data 1 (chunk_length data) (at_offset (chunk_length done) ctx0) s
        = Ok (chunk_length data, at_offset (chunk_length done + chunk_length data) ctx0, s') /\
      holds (done ++ data) s';
  sink_refuses done data s :
    holds done s -> size ctx0 < chunk_length done + chunk_length data < SIZE_MOD ->
    callback data 1 (chunk_length data) (at_offset (chunk_length done) ctx0) s
      = Ok (err, set_overflow (at_offset (chunk_length done) ctx0), s);
  sink_resets done s : holds done s -> holds [] (reset s) }.

(** Attempts that fail are followed by the code's retry callback. *)
Fixpoint fetch {S : Type} (callback : write_callback S) (reset : S -> S)
    (failed : list (list (list Z))) (last : list (list Z)) (ctx : CallbackContext) (s : S)
    : result (bool * CallbackContext * S) :=
  match failed with
  | [] => receive callback last ctx s
  | chunks :: failed =>
      r ← receive callback chunks ctx s;
      let '(_, ctx, s) := r in
      fetch callback reset failed last (reset_for_retry ctx) (reset s)
  end.

Section sink.
Context {S : Type} {err : Z} {callback : write_callback S} {reset : S -> S}
  {ctx0 : CallbackContext} {holds : list Z -> S -> Prop}
  `{Hsink : !Sink err callback reset ctx0 holds}.
Hypothesis Hsize : 0 <= size ctx0 < SIZE_MOD - err.

(** What libcurl documents of its chunks. *)
Definition small_chunks (chunks : list (list Z)) : Prop :=
  Forall (fun d => chunk_length d < err) chunks.

Lemma receive_sink chunks done s :
  small_chunks chunks -> holds done s -> chunk_length done <= size ctx0 ->
  exists (ok : bool) kept s',
    receive callback chunks (at_offset (chunk_length done) ctx0) s
      = Ok (ok, (if ok then at_offset (chunk_length kept) ctx0
                 else set_overflow (at_offset (chunk_length kept) ctx0)), s') /\
    ok = bool_decide (chunk_length (done ++ concat chunks) <= size ctx0) /\
    holds kept s' /\ chunk_length kept <= size ctx0 /\
    (ok = true -> kept = done ++ concat chunks) /\
    (ok = false -> kept `prefix_of` done ++ concat chunks).
Proof.
  revert done s. induction chunks as [|data chunks IH]; intros done s Hsmall Hh Hd; simpl.
  - exists true, done, s. rewrite app_nil_r, bool_decide_eq_true_2 by done. done.
  - apply Forall_cons in Hsmall as [Hdata Hsmall]. fold (small_chunks chunks) in Hsmall.
    destruct (Z.le_gt_cases (chunk_length done + chunk_length data) (size ctx0)) as [Hle|Hgt].
    + destruct (sink_takes done data s Hh Hle) as (s' & -> & Hh'). simpl. rewrite Z.eqb_refl.
      replace (chunk_length done + chunk_length data) with (chunk_length (done ++ data))
        in * by (rewrite length_app; lia).
      destruct (IH (done ++ data) s' Hsmall Hh' Hle) as (ok & kept & s'' & Hr & Hok).
      exists ok, kept, s''. rewrite Hr, app_assoc. done.
    + rewrite (sink_refuses done data s Hh) by lia. simpl.
      rewrite (proj2 (Z.eqb_neq err _)) by lia. exists false, done, s.
      rewrite bool_decide_eq_false_2 by (rewrite !length_app; lia).
      split_and!; try done. intros _. by exists (data ++ concat chunks).
Qed.

Lemma reset_at_offset n (b : bool) :
  reset_for_retry (if b then at_offset n ctx0 else set_overflow (at_offset n ctx0)) = at_offset 0 ctx0.
Proof. by destruct b. Qed.

Lemma fetch_sink failed last s :
  Forall small_chunks failed -> small_chunks last -> holds [] s ->
  exists (ok : bool) kept s',
    fetch callback reset failed last (at_offset 0 ctx0) s
      = Ok (ok, (if ok then at_offset (chunk_length kept) ctx0
                 else set_overflow (at_offset (chunk_length kept) ctx0)), s') /\
    ok = bool_decide (chunk_length (concat last) <= size ctx0) /\
    holds kept s' /\
    (ok = true -> kept = concat last) /\ (ok = false -> kept `prefix_of` concat last).
Proof.
  intros Hf Hl. revert s. induction Hf as [|chunks failed Hc _ IH]; intros s Hh; simpl.
  - destruct (receive_sink last [] s Hl Hh) as (ok & kept & s' & Hr & Hok & Hk & _ & Ht & Hp);
      [simpl; lia|]. by exists ok, kept, s'.
  - destruct (receive_sink chunks [] s Hc Hh) as (ok & kept & s' & Hr & _ & Hk & _);
      [simpl; lia|]. change (chunk_length []) with 0 in Hr. rewrite Hr. csimpl.
    rewrite reset_at_offset. apply IH. by eapply sink_resets.
Qed.
End sink.

(** ** The destinations *)

(** The [n] bytes at [base] begin with [l]; the rest of the memory is [m0]. *)
Definition holds_at (base n : Z) (m0 : memory) (l : list Z) (m : memory) : Prop :=
  (forall i x, l !! i = Some x -> m (base + Z.of_nat i) = x) /\
  (forall a, a < base \/ base + n <= a -> m a = m0 a).

Lemma holds_at_store base n m0 l k m m' :
  holds_at base n m0 l m -> Z.of_nat (length l) + Z.of_nat (length k) <= n ->
  same_memory m' (store (base + Z.of_nat (length l)) k m) -> holds_at base n m0 (l ++ k) m'.
Proof.
  intros [Hl Hf] Hn Hm. split.
  - intros i x Hi. rewrite Hm. apply lookup_app_Some in Hi as [Hi|[Hge Hi]].
    + rewrite store_out; [by apply Hl|]. apply lookup_lt_Some in Hi. lia.
    + apply lookup_lt_Some in Hi as Hlt.
      replace (base + Z.of_nat i) with (base + Z.of_nat (length l) + Z.of_nat (i - length l)) by lia.
      pose proof (store_in (base + Z.of_nat (length l)) k m (i - length l) Hlt) as Hs. congruence.
  - intros a Ha. rewrite Hm, store_out by lia. by apply Hf.
Qed.

Lemma holds_at_nil base n m0 l m : holds_at base n m0 l m -> holds_at base n m0 [] m.
Proof. intros [_ Hf]. split; [by intros i x ?|done]. Qed.

Section destinations.
Context (err : Z) (c : copy_config).

(** The sums the callbacks make stay within the word. *)
Lemma room_check (ctx : CallbackContext) (l k : list Z) :
  Z.of_nat (length l) + Z.of_nat (length k) < SIZE_MOD ->
  1 *% Z.of_nat (length k) = Z.of_nat (length k) /\
  Z.of_nat (length l) +% Z.of_nat (length k) = Z.of_nat (length l) + Z.of_nat (length k).
Proof. intros Hb. rewrite Z.mul_1_l, !wrap64_small by lia. done. Qed.

#[export] Instance host_sink ctx0 m0 :
  size ctx0 < SIZE_MOD -> discard_data_enabled c = false ->
  Sink err (callback_host_memory err c) (fun m => m) ctx0 (holds_at (buf ctx0) (size ctx0) m0).
Proof.
  intros Hsize Hdiscard. constructor.
  - intros done data m Hh Hle. unfold callback_host_memory.
    destruct (room_check ctx0 done data) as [-> Hsum]; [lia|]. simpl. rewrite Hsum.
    rewrite (proj2 (Z.ltb_ge _ _)) by done. rewrite Hdiscard.
    destruct (copy_received_data_spec c (buf ctx0 + Z.of_nat (length done)) data
      (Z.of_nat (length data)) (size ctx0) m) as (m' & -> & Hm); [lia|]. simpl.
    rewrite memcpy_all in Hm. exists m'. split; [done|]. by eapply holds_at_store.
  - intros done data m Hh Hlt. unfold callback_host_memory.
    destruct (room_check ctx0 done data) as [-> Hsum]; [lia|]. simpl. rewrite Hsum.
    by rewrite (proj2 (Z.ltb_lt _ _)) by lia.
  - intros done m. apply holds_at_nil.
Qed.

#[export] Instance pinned_sink ctx0 m0 :
  size ctx0 < SIZE_MOD ->
  Sink err (callback_pinned_buffer err c) (fun m => m) ctx0
    (holds_at (pinned_buffer ctx0) (size ctx0) m0).
Proof.
  intros Hsize. constructor.
  - intros done data m Hh Hle. unfold callback_pinned_buffer.
    destruct (room_check ctx0 done data) as [-> Hsum]; [lia|]. simpl. rewrite Hsum.
    rewrite (proj2 (Z.ltb_ge _ _)) by done.
    destruct (copy_received_data_spec c (pinned_buffer ctx0 + Z.of_nat (length done)) data
      (Z.of_nat (length data)) (size ctx0) m) as (m' & -> & Hm); [lia|]. simpl.
    rewrite memcpy_all in Hm. exists m'. split; [done|]. by eapply holds_at_store.
  - intros done data m Hh Hlt. unfold callback_pinned_buffer.
    destruct (room_check ctx0 done data) as [-> Hsum]; [lia|]. simpl. rewrite Hsum.
    by rewrite (proj2 (Z.ltb_lt _ _)) by lia.
  - intros done m. apply holds_at_nil.
Qed.

(** Through the bounce buffer: what has been received is in device memory, the
    rest of it still in the buffer. *)
Record h2d_holds (d hb hs n : Z) (m0 : memories) (l : list Z) (s : BounceBufferH2D * memories)
    : Prop := mkH2dHolds {
  hh_buffer : dev s.1 = d /\ host_buffer s.1 = hb /\ host_buffer_size s.1 = hs;
  hh_host_offset : 0 <= host_offset s.1 <= hs;
  hh_split : exists sent kept, l = sent ++ kept /\
    Z.of_nat (length sent) = dev_offset s.1 /\ Z.of_nat (length kept) = host_offset s.1 /\
    holds_at d n (device m0) sent (device s.2) /\
    holds_at hb hs (host m0) kept (host s.2) }.

Variable copy_ok : BounceBufferH2D -> Z -> bool.
Hypothesis Hcopy : forall b n, copy_ok b n = true.

Lemma read_host_holds hb hs m0 l m :
  holds_at hb hs m0 l m -> read_host m hb (Z.of_nat (length l)) = l.
Proof.
  intros [Hl _]. unfold read_host. apply list_eq. intros i. rewrite list_lookup_fmap.
  destruct (decide (i < length l)%nat) as [Hi|Hi].
  - rewrite lookup_seqZ_lt by lia. simpl. destruct (lookup_lt_is_Some_2 l i Hi) as [x Hx].
    rewrite Hx. f_equal. by apply Hl.
  - rewrite lookup_seqZ_ge by lia. simpl. symmetry. apply lookup_ge_None_2. lia.
Qed.

Lemma write_to_device_spec src b m :
  exists m', write_to_device copy_ok src (Z.of_nat (length src)) b m
    = Ok (mkH2D (dev b) (host_buffer b) (host_buffer_size b)
            (dev_offset b + Z.of_nat (length src)) (host_offset b), m') /\
    host m' = host m /\
    same_memory (device m') (store (dev b + dev_offset b) src (device m)).
Proof.
  unfold write_to_device. destruct (Z.of_nat (length src) >? 0) eqn:E; bool_to_prop.
  - rewrite Hcopy. simpl. eexists. split; [done|]. simpl. by rewrite memcpy_all.
  - assert (length src = 0%nat) as Hl by lia. rewrite Hl. apply nil_length_inv in Hl as ->.
    exists m. rewrite Z.add_0_r. destruct b. split; [done|]. by rewrite store_nil.
Qed.

Lemma flush_spec d hb hs n m0 l s :
  Z.of_nat (length l) <= n -> h2d_holds d hb hs n m0 l s ->
  exists s', flush copy_ok s.1 s.2 = Ok s' /\ h2d_holds d hb hs n m0 l s' /\ host_offset s'.1 = 0.
Proof.
  intros Hn [(Hd & Hb & Hs) Hho (sent & kept & -> & Hsent & Hkept & Hdev & Hhost)].
  rewrite length_app in Hn. unfold flush. rewrite <- Hkept, Hb, (read_host_holds _ _ _ _ _ Hhost).
  destruct (write_to_device_spec kept s.1 s.2) as (m' & -> & Hm & Hdm). simpl.
  eexists. split; [done|]. split; [|done]. constructor; simpl; [done|lia|].
  exists (sent ++ kept), []. rewrite app_nil_r, length_app, Hm.
  split_and!; [done|lia|done| |by eapply holds_at_nil].
  eapply holds_at_store; [done|lia|]. rewrite Hsent, <- Hd. exact Hdm.
Qed.

Lemma write_spec d hb hs n m0 l data range_size s :
  0 <= hs < SIZE_MOD -> Z.of_nat (length l) + Z.of_nat (length data) <= n ->
  h2d_holds d hb hs n m0 l s ->
  exists s', write c copy_ok data (Z.of_nat (length data)) range_size s.1 s.2 = Ok s' /\
    h2d_holds d hb hs n m0 (l ++ data) s'.
Proof.
  intros Hhs Hn Hh. unfold write.
  assert (Hfirst : exists s', (if host_buffer_size s.1 -% host_offset s.1 <? Z.of_nat (length data)
      then flush copy_ok s.1 s.2 else mret (s.1, s.2)) = Ok s' /\ h2d_holds d hb hs n m0 l s' /\
      (Z.of_nat (length data) <= hs - host_offset s'.1 \/ host_offset s'.1 = 0)).
  { pose proof Hh as [(_ & _ & Hs) Hho _]. rewrite Hs, wrap64_small by lia. case_bool.
    - destruct (flush_spec d hb hs n m0 l s) as (s' & -> & Hh' & H0); [lia|done|]. eauto.
    - exists s. destruct s. split; [done|]. split; [done|left; lia]. }
  destruct Hfirst as ([b m] & -> & [(Hd & Hb & Hs) Hho (sent & kept & -> & Hsent & Hkept & Hdev & Hhost)] & Hroom).
  simpl in *. rewrite Hs. rewrite length_app in Hn. case_bool.
  - assert (Hk0 : kept = []) by (apply nil_length_inv; destruct Hroom; lia). subst kept.
    rewrite app_nil_r. destruct (write_to_device_spec data b m) as (m' & -> & Hm & Hdm).
    eexists. split; [done|]. constructor; simpl; [done|lia|].
    exists (sent ++ data), []. rewrite app_nil_r, length_app, Hm. split_and!; try done; [lia|].
    eapply holds_at_store; [done|lia|]. rewrite Hsent, <- Hd. exact Hdm.
  - case_bool.
    + destruct (copy_received_data_spec c (host_buffer b + host_offset b) data
        (Z.of_nat (length data)) range_size (host m)) as (h & -> & Hm); [lia|]. simpl.
      rewrite memcpy_all in Hm. eexists. split; [done|]. constructor; simpl; [done|lia|].
      exists sent, (kept ++ data). rewrite app_assoc, length_app. split_and!; try done; [lia|].
      eapply holds_at_store; [done|lia|]. rewrite Hkept, <- Hb. exact Hm.
    + assert (data = []) as -> by (apply nil_length_inv; lia). rewrite app_nil_r.
      eexists. split; [done|]. constructor; simpl; [done|lia|]. by exists sent, kept.
Qed.

#[export] Instance device_sink ctx0 d hb hs m0 :
  size ctx0 < SIZE_MOD -> 0 <= hs < SIZE_MOD ->
  Sink err (callback_device_memory err c copy_ok) (fun s => (h2d_reset_for_retry s.1, s.2)) ctx0
    (h2d_holds d hb hs (size ctx0) m0).
Proof.
  intros Hsize Hhs. constructor.
  - intros done data s Hh Hle. unfold callback_device_memory.
    destruct (room_check ctx0 done data) as [-> Hsum]; [lia|]. simpl. rewrite Hsum.
    rewrite (proj2 (Z.ltb_ge _ _)) by done.
    destruct (write_spec d hb hs (size ctx0) m0 done data (size ctx0) s) as (s' & Hw & Hh');
      [done|done|done|]. simpl in *. rewrite Hw. by exists s'.
  - intros done data m Hh Hlt. unfold callback_device_memory.
    destruct (room_check ctx0 done data) as [-> Hsum]; [lia|]. simpl. rewrite Hsum.
    by rewrite (proj2 (Z.ltb_lt _ _)) by lia.
  - intros done s [Hb Hho (sent & kept & _ & _ & _ & Hdev & Hhost)]. constructor; simpl; [done|lia|].
    exists [], []. split_and!; try done; by eapply holds_at_nil.
Qed.
End destinations.

(** ** Results *)

(** The streaming copy, whatever the alignment of its destination, ends
    and has the effect of [memcpy] (its vector stores all at 32-byte aligned
    addresses), so the copy of received data does the same under every
    configuration. *)
Theorem received_data_is_copied (c : copy_config) (dst nbytes range_size : Z) (src : list Z)
    (m : memory) :
  0 <= nbytes <= Z.of_nat (length src) ->
  (exists s, copy_nontemporal_impl dst src nbytes m = Ok s /\
     same_memory (nt_mem s) (memcpy dst src nbytes m) /\
     Forall (fun a => (32 | a)) (nt_stores s)) /\
  exists m', copy_received_data c dst src nbytes range_size m = Ok m' /\
    same_memory m' (memcpy dst src nbytes m).
Proof.
  intros Hn. split; [by apply copy_nontemporal_impl_spec|by apply copy_received_data_spec].
Qed.

(** How a fetch through a host or pinned destination ends. *)
Definition received (base : Z) (ctx0 : CallbackContext) (body : list Z) (m0 : memory)
    (r : bool * CallbackContext * memory) : Prop :=
  r.1.1 = bool_decide (Z.of_nat (length body) <= size ctx0) /\
  overflow_error r.1.2 = negb r.1.1 /\
  (r.1.1 = true -> offset r.1.2 = Z.of_nat (length body) /\
     forall i x, body !! i = Some x -> r.2 (base + Z.of_nat i) = x) /\
  (forall a, a < base \/ base + size ctx0 <= a -> r.2 a = m0 a).

(** A range received in any number of chunks, after any number of failed
    attempts, is complete and in place exactly when it fits the request;
    otherwise the overflow is flagged.  Nothing outside the destination is ever
    written, neither by this attempt nor by an earlier one. *)
Theorem host_receive (err : Z) (c : copy_config) (ctx0 : CallbackContext) (m0 : memory)
    (failed : list (list (list Z))) (last : list (list Z)) :
  0 <= err -> 0 <= size ctx0 < SIZE_MOD - err ->
  Forall (small_chunks (err := err)) failed -> small_chunks (err := err) last ->
  (discard_data_enabled c = false ->
   returns (fetch (callback_host_memory err c) (fun m => m) failed last (at_offset 0 ctx0) m0)
     (received (buf ctx0) ctx0 (concat last) m0) (fun _ => False)) /\
  returns (fetch (callback_pinned_buffer err c) (fun m => m) failed last (at_offset 0 ctx0) m0)
    (received (pinned_buffer ctx0) ctx0 (concat last) m0) (fun _ => False).
Proof.
  intros Herr Hsize Hf Hl.
  assert (Hall : forall base callback,
    Sink err callback (fun m => m) ctx0 (holds_at base (size ctx0) m0) ->
    returns (fetch callback (fun m => m) failed last (at_offset 0 ctx0) m0)
      (received base ctx0 (concat last) m0) (fun _ => False)).
  { intros base callback Hsink.
    destruct (fetch_sink (holds := holds_at base (size ctx0) m0) Hsize failed last m0 Hf Hl)
      as (ok & kept & m' & -> & Hok & [Hk Hframe] & Ht & _); [by split|].
    simpl. unfold received. simpl. rewrite <- Hok.
    split; [done|]. destruct ok; simpl; (split; [done|]); (split; [|done]); [|done].
    intros _. rewrite <- (Ht eq_refl). done. }
  split; [intros Hdisc|]; apply Hall; [apply host_sink|apply pinned_sink]; lia || done.
Qed.

(** Through the bounce buffer, whatever its size and however the response
    is cut into chunks, a transfer that fits leaves, after the final flush,
    exactly its bytes in device memory, earlier attempts having left no trace;
    neither memory is touched outside the destination and the buffer. *)
Theorem device_receive (err : Z) (c : copy_config) (copy_ok : BounceBufferH2D -> Z -> bool)
    (ctx0 : CallbackContext) (d hb hs : Z) (m0 : memories)
    (failed : list (list (list Z))) (last : list (list Z)) :
  0 <= err -> 0 <= size ctx0 < SIZE_MOD - err -> 0 <= hs < SIZE_MOD ->
  (forall b n, copy_ok b n = true) ->
  Forall (small_chunks (err := err)) failed -> small_chunks (err := err) last ->
  Z.of_nat (length (concat last)) <= size ctx0 ->
  returns
    (r ← fetch (callback_device_memory err c copy_ok) (fun s => (h2d_reset_for_retry s.1, s.2))
           failed last (at_offset 0 ctx0) (new_h2d d hb hs, m0);
     s ← flush copy_ok r.2.1 r.2.2; mret (r.1, s.2))
    (fun r => r.1.1 = true /\ offset r.1.2 = Z.of_nat (length (concat last)) /\
       holds_at d (size ctx0) (device m0) (concat last) (device r.2) /\
       (forall a, a < hb \/ hb + hs <= a -> host r.2 a = host m0 a))
    (fun _ => False).
Proof.
  intros Herr Hsize Hhs Hcopy Hf Hl Hfit.
  pose proof (device_sink err c copy_ok Hcopy ctx0 d hb hs m0 ltac:(lia) Hhs) as Hsink.
  destruct (fetch_sink (holds := h2d_holds d hb hs (size ctx0) m0) Hsize failed last
    (new_h2d d hb hs, m0) Hf Hl) as (ok & kept & s & -> & Hok & Hk & Ht & _).
  { constructor; simpl; [done|lia|]. exists [], []. by split_and!. }
  rewrite bool_decide_eq_true_2 in Hok by done. subst ok. rewrite (Ht eq_refl) in *. simpl.
  destruct (flush_spec copy_ok Hcopy d hb hs (size ctx0) m0 (concat last) s Hfit Hk)
    as (s' & -> & [_ Hho (sent & rest & Hsplit & Hsent & Hrest & Hdev & Hhost)] & H0). simpl.
  assert (rest = []) as -> by (apply nil_length_inv; lia). rewrite app_nil_r in Hsplit. subst sent.
  split_and!; [done|done|exact Hdev|]. apply Hhost.
Qed.

(** Two chunks into a buffer at 40, after an attempt that overflowed. *)
Definition demo_config : copy_config := mkCopyConfig false true 4 true.
Definition demo_ctx : CallbackContext := mkCtx 40 5 0 false 80.

Example received_data_is_copied_witness :
  0 <= 40 <= Z.of_nat (length (seqZ 0 40)) /\
  (exists s, copy_nontemporal_impl 7 (seqZ 0 40) 40 (fun _ => 0) = Ok s /\
     same_memory (nt_mem s) (memcpy 7 (seqZ 0 40) 40 (fun _ => 0)) /\
     Forall (fun a => (32 | a)) (nt_stores s)) /\
  exists m', copy_received_data demo_config 7 (seqZ 0 40) 40 5 (fun _ => 0) = Ok m' /\
    same_memory m' (memcpy 7 (seqZ 0 40) 40 (fun _ => 0)).
Proof.
  split; [done|]. apply (received_data_is_copied demo_config 7 40 5 (seqZ 0 40)). done.
Defined.

Example host_receive_witness :
  returns (fetch (callback_host_memory 4294967295 demo_config) (fun m => m)
      [[[1; 2; 3]; [4; 5; 6]]] [[1; 2]; [3; 4; 5]] (at_offset 0 demo_ctx) (fun _ => 0))
    (received 40 demo_ctx [1; 2; 3; 4; 5] (fun _ => 0)) (fun _ => False).
Proof.
  refine (proj1 (host_receive 4294967295 demo_config demo_ctx (fun _ => 0)
    [[[1; 2; 3]; [4; 5; 6]]] [[1; 2]; [3; 4; 5]] _ _ _ _) eq_refl);
    [lia|simpl; lia|repeat constructor..].
Defined.

Example device_receive_witness :
  returns
    (r ← fetch (callback_device_memory 4294967295 demo_config (fun _ _ => true))
           (fun s => (h2d_reset_for_retry s.1, s.2)) [[[1; 2; 3]]] [[1; 2]; [3; 4; 5]]
           (at_offset 0 demo_ctx) (new_h2d 40 200 2, mkMem (fun _ => 0) (fun _ => 9));
     s ← flush (fun _ _ => true) r.2.1 r.2.2; mret (r.1, s.2))
    (fun r => r.1.1 = true /\ offset r.1.2 = 5 /\
       holds_at 40 5 (fun _ => 9) [1; 2; 3; 4; 5] (device r.2) /\
       (forall a, a < 200 \/ 200 + 2 <= a -> host r.2 a = 0))
    (fun _ => False).
Proof.
  apply (device_receive 4294967295 demo_config (fun _ _ => true) demo_ctx 40 200 2
    (mkMem (fun _ => 0) (fun _ => 9)) [[[1; 2; 3]]] [[1; 2]; [3; 4; 5]]);
    [lia|simpl; lia|lia|done|repeat constructor|repeat constructor|simpl; lia].
Defined.
