(* ===== verification/Regex.v ===== *)
(** * Regular expressions

    The URL patterns, the header patterns and the status-code lists of the
    library are ECMAScript expressions given to [std::regex].  This file holds
    the part of that language they use: an executable matcher by derivatives,
    proved against the language of an expression, the leftmost search, and the
    character classes.  [.] excludes line terminators; with [icase] a letter of
    the pattern matches both cases. *)

From stdpp Require Import base list strings.
From Stdlib Require Import ZArith Lia Ascii.
From S2P Require Import Prelude Utils.

#[local] Open Scope nat_scope.

Abbreviation chars := (list ascii) (only parsing).

Inductive regex :=
  | Void
  | Eps
  | Set_ (p : ascii -> bool)
  | Cat (r s : regex)
  | Alt (r s : regex)
  | Star (r : regex).

(** ** The language *)

Inductive lang : regex -> list ascii -> Prop :=
  | l_eps : lang Eps []
  | l_set p c : p c = true -> lang (Set_ p) [c]
  | l_cat r s u v : lang r u -> lang s v -> lang (Cat r s) (u ++ v)
  | l_left r s u : lang r u -> lang (Alt r s) u
  | l_right r s u : lang s u -> lang (Alt r s) u
  | l_nil r : lang (Star r) []
  | l_more r u v : lang r u -> lang (Star r) v -> lang (Star r) (u ++ v).

#[export] Hint Constructors lang : regex.

(** ** The matcher *)

Fixpoint nullable (r : regex) : bool :=
  match r with
  | Void | Set_ _ => false
  | Eps | Star _ => true
  | Cat r s => nullable r && nullable s
  | Alt r s => nullable r || nullable s
  end.

Fixpoint deriv (c : ascii) (r : regex) : regex :=
  match r with
  | Void | Eps => Void
  | Set_ p => if p c then Eps else Void
  | Cat r s => if nullable r then Alt (Cat (deriv c r) s) (deriv c s) else Cat (deriv c r) s
  | Alt r s => Alt (deriv c r) (deriv c s)
  | Star r => Cat (deriv c r) (Star r)
  end.

(** [std::regex_match]: the whole string. *)
Definition regex_match (s : list ascii) (r : regex) : bool :=
  nullable (foldl (fun r c => deriv c r) r s).

Lemma nullable_lang r : nullable r = true <-> lang r [].
Proof.
  split.
  - induction r as [| |p|r IHr s IHs|r IHr s IHs|r IHr]; simpl; intros H; try done; auto with regex.
    + apply andb_true_iff in H as [H1 H2]. rewrite <- (app_nil_l []). auto with regex.
    + apply orb_true_iff in H as [H|H]; auto with regex.
  - remember [] as w eqn:Hw. induction 1 as [|p c|r s u v H1 IH1 H2 IH2| | |r|r u v H1 IH1 H2 IH2];
      simpl; try done.
    + apply app_eq_nil in Hw as [-> ->]. by rewrite IH1, IH2.
    + by rewrite IHlang.
    + rewrite IHlang by done. by rewrite orb_true_r.
Qed.

(** A non-empty member of a starred language starts with a non-empty part. *)
Lemma star_cons r c w : lang (Star r) (c :: w) ->
  exists u v, w = u ++ v /\ lang r (c :: u) /\ lang (Star r) v.
Proof.
  remember (Star r) as s eqn:Hs. remember (c :: w) as x eqn:Hx. intros H. revert Hs w Hx.
  induction H as [| | | | | |r' u v H1 _ H2 IH2]; intros Hs w Hx; try done.
  injection Hs as ->. destruct u as [|a u]; [by apply IH2|]. injection Hx as -> <-. eauto.
Qed.

Lemma deriv_lang r c w : lang (deriv c r) w <-> lang r (c :: w).
Proof.
  revert w. induction r as [| |p|r IHr s IHs|r IHr s IHs|r IHr]; intros w; simpl.
  - split; inversion 1.
  - split; inversion 1.
  - destruct (p c) eqn:Hp; split; inversion 1; subst; auto with regex; congruence.
  - assert (Hcat : lang (Cat (deriv c r) s) w -> lang (Cat r s) (c :: w)).
    { inversion 1 as [| |? ? u v Hu Hv| | | |]; subst. rewrite app_comm_cons.
      apply l_cat; [by apply IHr|done]. }
    assert (Hinv : lang (Cat r s) (c :: w) ->
      lang (Cat (deriv c r) s) w \/ (nullable r = true /\ lang s (c :: w))).
    { inversion 1 as [| |? ? u v Hu Hv Heq| | | |]; subst. destruct u as [|a u].
      - right. simpl in *. subst. split; [by apply nullable_lang|done].
      - left. simpl in *. simplify_eq. apply l_cat; [by apply IHr|done]. }
    destruct (nullable r) eqn:Hn; split.
    + inversion 1; subst; [by apply Hcat|]. rewrite <- (app_nil_l (c :: w)).
      apply l_cat; [by apply nullable_lang|by apply IHs].
    + intros [H|[_ H]]%Hinv; [by apply l_left|by apply l_right, IHs].
    + exact Hcat.
    + by intros [H|[H _]]%Hinv.
  - split; inversion 1; subst; rewrite ?IHr, ?IHs in *; auto with regex.
    + apply l_left. by apply IHr.
    + apply l_right. by apply IHs.
  - split.
    + inversion 1 as [| |? ? u v Hu Hv| | | |]; subst. rewrite app_comm_cons.
      apply l_more; [by apply IHr|done].
    + intros (u & v & -> & Hu & Hv)%star_cons. apply l_cat; [by apply IHr|done].
Qed.

(** The matcher decides the language. *)
Lemma regex_match_lang s r : regex_match s r = true <-> lang r s.
Proof.
  unfold regex_match. revert r. induction s as [|c s IH]; intros r; simpl.
  - apply nullable_lang.
  - by rewrite IH, deriv_lang.
Qed.

#[global] Instance lang_dec r s : Decision (lang r s).
Proof.
  destruct (regex_match s r) eqn:E.
  - left. by apply regex_match_lang.
  - right. intros H%regex_match_lang. congruence.
Defined.

(** ** Building patterns *)

Definition ascii_eqb (a b : ascii) : bool := Ascii.eqb a b.

(** A character of the pattern, and one under [icase]. *)
Definition Chr (a : ascii) : regex := Set_ (ascii_eqb a).
Definition ChrI (a : ascii) : regex := Set_ (fun c => ascii_eqb (tolower a) (tolower c)).

Fixpoint Lit_of (f : ascii -> regex) (s : list ascii) : regex :=
  match s with [] => Eps | c :: s => Cat (f c) (Lit_of f s) end.

Definition LitI (s : string) : regex := Lit_of ChrI (String.list_ascii_of_string s).

Definition line_terminator (c : ascii) : bool :=
  let n := nat_of_ascii c in (n =? 10) || (n =? 13).

Definition not_char (a c : ascii) : bool := negb (ascii_eqb a c).
Definition is_digit (c : ascii) : bool :=
  let n := nat_of_ascii c in (48 <=? n) && (n <=? 57).

Definition Dot : regex := Set_ (fun c => negb (line_terminator c)).
Definition Digit : regex := Set_ is_digit.
Definition Space : regex := Set_ isspace.
Definition Any : regex := Set_ (fun _ => true).
Definition Plus (r : regex) : regex := Cat r (Star r).
Definition Opt (r : regex) : regex := Alt Eps r.

Fixpoint Seq (l : list regex) : regex :=
  match l with [] => Eps | [r] => r | r :: l => Cat r (Seq l) end.

(** [std::regex_search] without captures. *)
Definition regex_search (s : list ascii) (r : regex) : bool :=
  regex_match s (Cat (Star Any) (Cat r (Star Any))).

(** The leftmost place where [at_] matches. *)
Fixpoint leftmost {A : Type} (at_ : list ascii -> option A) (s : list ascii) : option A :=
  match at_ s with
  | Some x => Some x
  | None => match s with [] => None | _ :: s => leftmost at_ s end
  end.

(** The longest prefix of characters of a class, and the rest. *)
Fixpoint span (p : ascii -> bool) (s : list ascii) : list ascii * list ascii :=
  match s with
  | c :: s' => if p c then let '(u, v) := span p s' in (c :: u, v) else ([], s)
  | [] => ([], [])
  end.

(** What is left after a literal, under [eq]. *)
Fixpoint strip_prefix (eq : ascii -> ascii -> bool) (lit s : list ascii) : option (list ascii) :=
  match lit, s with
  | [], s => Some s
  | a :: lit, c :: s => if eq a c then strip_prefix eq lit s else None
  | _ :: _, [] => None
  end.

Definition eq_icase (a c : ascii) : bool := ascii_eqb (tolower a) (tolower c).

(** ** Lemmas *)

Lemma lang_set_star p u : lang (Star (Set_ p)) u <-> Forall (fun c => p c = true) u.
Proof.
  split.
  - induction u as [|c u IH]; [done|]. intros (v & w & -> & Hv & Hw)%star_cons.
    inversion Hv; subst. simpl in *. constructor; [done|by apply IH].
  - induction 1 as [|c u Hc _ IH]; [apply l_nil|].
    change (c :: u) with ([c] ++ u). by apply l_more; [apply l_set|].
Qed.

Lemma lang_set_plus p u : lang (Plus (Set_ p)) u <-> u <> [] /\ Forall (fun c => p c = true) u.
Proof.
  unfold Plus. split.
  - inversion 1 as [| |? ? v w Hv Hw| | | |]; subst. inversion Hv; subst. split; [done|].
    constructor; [done|by apply lang_set_star].
  - intros [Hne Hu]. destruct Hu as [|c u Hc Hu]; [done|].
    change (c :: u) with ([c] ++ u). apply l_cat; [by apply l_set|by apply lang_set_star].
Qed.

Lemma lang_cat r s u : lang (Cat r s) u <-> exists v w, u = v ++ w /\ lang r v /\ lang s w.
Proof.
  split; [inversion 1; subst; eauto|]. intros (v & w & -> & Hv & Hw). by apply l_cat.
Qed.

(** A literal under [eq] in front. *)
Lemma lang_lit (eq : ascii -> ascii -> bool) lit r u :
  lang (Cat (Lit_of (fun a => Set_ (eq a)) lit) r) u
  <-> exists w, strip_prefix eq lit u = Some w /\ lang r w.
Proof.
  revert u. induction lit as [|a lit IH]; intros u.
  - rewrite lang_cat. simpl. split.
    + intros (v & w & -> & Hv & Hw). inversion Hv; subst. eauto.
    + intros (w & [= <-] & Hw). exists [], u. split_and!; [done|apply l_eps|done].
  - rewrite lang_cat. split.
    + intros (v & w & -> & Hv & Hw). simpl in Hv. apply lang_cat in Hv as (x & y & -> & Hx & Hy).
      inversion Hx; subst. simpl. rewrite H0. apply IH. apply lang_cat. eauto.
    + intros (w & Hs & Hw). destruct u as [|c u]; [done|]. simpl in Hs.
      destruct (eq a c) eqn:E; [|done].
      assert (Hu : lang (Cat (Lit_of (fun a => Set_ (eq a)) lit) r) u) by (apply IH; eauto).
      apply lang_cat in Hu as (x & y & -> & Hx & Hy). exists (c :: x), y.
      split_and!; [done| |done]. simpl. change (c :: x) with ([c] ++ x).
      by apply l_cat; [apply l_set|].
Qed.

Lemma span_app p s : let '(u, v) := span p s in
  s = u ++ v /\ Forall (fun c => p c = true) u /\ match v with c :: _ => p c = false | [] => True end.
Proof.
  induction s as [|c s IH]; [done|]. simpl. destruct (p c) eqn:E; [|done].
  destruct (span p s) as [u v]. destruct IH as (-> & Hu & Hv). split_and!; [done|by constructor|done].
Qed.

Lemma span_unique p u v :
  Forall (fun c => p c = true) u -> match v with c :: _ => p c = false | [] => True end ->
  span p (u ++ v) = (u, v).
Proof.
  intros Hu Hv. induction Hu as [|c u Hc _ IH]; simpl.
  - destruct v as [|c v]; simpl; [done|]. by rewrite Hv.
  - by rewrite Hc, IH.
Qed.

Lemma strip_prefix_app (eq : ascii -> ascii -> bool) lit s :
  (forall a, eq a a = true) -> strip_prefix eq lit (lit ++ s) = Some s.
Proof. intros Heq. induction lit as [|a lit IH]; simpl; [done|]. by rewrite Heq. Qed.

Lemma ascii_eqb_refl a : ascii_eqb a a = true.
Proof. apply Ascii.eqb_refl. Qed.

(** ** Numbers in text *)

Section numbers.
#[local] Open Scope Z_scope.

Definition digit_value (c : ascii) : Z := Z.of_nat (nat_of_ascii c) - 48.

Definition digits_value (l : list ascii) : Z := foldl (fun n c => 10 * n + digit_value c) 0 l.

(** What [std::stoi], [std::stol] and [stream >> n] read: leading white space, a
    sign, digits; [None] when there is no digit.  The range of the type is
    theirs to check. *)
Definition scan_integer (s : list ascii) : option Z :=
  let s := drop_spaces s in
  let '(sign, s) :=
    match s with
    | c :: s' => if ascii_eqb c "-"%char then (-1, s') else if ascii_eqb c "+"%char then (1, s') else (1, s)
    | [] => (1, s)
    end in
  match (span is_digit s).1 with
  | [] => None
  | ds => Some (sign * digits_value ds)
  end.

Lemma digits_value_snoc l c : digits_value (l ++ [c]) = 10 * digits_value l + digit_value c.
Proof. unfold digits_value. by rewrite foldl_app. Qed.

Lemma digit_nonneg c : is_digit c = true -> 0 <= digit_value c <= 9.
Proof.
  unfold is_digit, digit_value. intros [H1 H2]%andb_true_iff.
  apply Nat.leb_le in H1, H2. lia.
Qed.

Lemma digits_value_nonneg l : Forall (fun c => is_digit c = true) l -> 0 <= digits_value l.
Proof.
  induction l as [|c l IH] using rev_ind; [done|]. intros [Hl Hc]%Forall_app. apply Forall_cons in Hc as [Hc _].
  rewrite digits_value_snoc. pose proof (digit_nonneg c Hc). specialize (IH Hl). lia.
Qed.

Lemma digit_not_special c : is_digit c = true ->
  isspace c = false /\ ascii_eqb c "-"%char = false /\ ascii_eqb c "+"%char = false.
Proof. by destruct c as [[] [] [] [] [] [] [] []]. Qed.

Lemma scan_integer_digits ds rest :
  ds <> [] -> Forall (fun c => is_digit c = true) ds ->
  match rest with c :: _ => is_digit c = false | [] => True end ->
  scan_integer (ds ++ rest) = Some (digits_value ds).
Proof.
  intros Hne Hds Hrest.
  assert (Hspan : span is_digit (ds ++ rest) = (ds, rest)) by by apply span_unique.
  destruct ds as [|c ds]; [done|]. apply Forall_cons in Hds as [Hc Hds].
  destruct (digit_not_special c Hc) as (Hsp & Hm & Hp). unfold scan_integer.
  change ((c :: ds) ++ rest) with (c :: (ds ++ rest)) in *.
  simpl drop_spaces. rewrite Hsp, Hm, Hp, Hspan. cbn [fst]. by rewrite Z.mul_1_l.
Qed.
End numbers.
