(* ===== verification/Numerals.v ===== *)
(** * Numbers and their digits

    Streams and [std::to_string] print an integer with stdpp's [pretty]; the
    digits it prints are those that [scan_integer] and [from_chars] read. *)

From stdpp Require Import base list strings pretty.
From Stdlib Require Import ZArith Lia Ascii.
From S2P Require Import Prelude Utils Regex.

#[local] Open Scope Z_scope.

(** The characters of a string. *)
Abbreviation chars_of := String.list_ascii_of_string (only parsing).

Definition is_digits (l : list ascii) : Prop := Forall (fun c => is_digit c = true) l.

Lemma chars_of_app s t : chars_of (s +:+ t) = chars_of s ++ chars_of t.
Proof. induction s as [|c s IH]; simpl; [done|]. by rewrite IH. Qed.

Lemma string_app_nil s : s +:+ "" = s.
Proof. induction s as [|c s IH]; [done|]. change (String c (s +:+ "") = String c s). by rewrite IH. Qed.

Lemma digits_value_cons c l : digits_value (c :: l) = digit_value c * 10 ^ Z.of_nat (length l) + digits_value l.
Proof.
  induction l as [|d l IH] using rev_ind; [simpl; unfold digits_value; simpl; lia|].
  rewrite app_comm_cons, !digits_value_snoc, IH, length_app, Nat2Z.inj_add, Z.pow_add_r; simpl Z.of_nat; lia.
Qed.

Lemma digits_value_app l k : digits_value (l ++ k) = digits_value l * 10 ^ Z.of_nat (length k) + digits_value k.
Proof.
  induction k as [|c k IH] using rev_ind; [rewrite app_nil_r; unfold digits_value at 3; simpl; lia|].
  rewrite app_assoc, !digits_value_snoc, IH, length_app, Nat2Z.inj_add, Z.pow_add_r; simpl Z.of_nat; lia.
Qed.

Lemma pretty_char_digit x : (x < 10)%N ->
  is_digit (pretty_N_char x) = true /\ digit_value (pretty_N_char x) = Z.of_N x.
Proof.
  intros Hx. assert (x = 0 \/ x = 1 \/ x = 2 \/ x = 3 \/ x = 4 \/ x = 5 \/ x = 6 \/ x = 7 \/ x = 8 \/ x = 9)%N as H
    by lia.
  by repeat (destruct H as [->|H]; [done|]); subst x.
Qed.

Lemma pretty_go_digits x s :
  exists ds, chars_of (pretty_N_go x s) = ds ++ chars_of s /\ is_digits ds /\ digits_value ds = Z.of_N x /\
    ((0 < x)%N -> ds <> []).
Proof.
  revert s. induction (N.lt_wf_0 x) as [x _ IH]; intros s.
  assert (x = 0 \/ 0 < x)%N as [->|Hx] by lia.
  - exists []. rewrite pretty_N_go_0. split_and!; [done|constructor|done|lia].
  - rewrite pretty_N_go_step by done. pose proof (N.mod_lt x 10 ltac:(lia)) as Hm.
    destruct (pretty_char_digit _ Hm) as [Hd Hv].
    destruct (IH (x `div` 10)%N ltac:(apply N.div_lt; lia) (String (pretty_N_char (x `mod` 10)) s))
      as (ds & -> & Hds & Hval & _).
    exists (ds ++ [pretty_N_char (x `mod` 10)]). split_and!.
    + by rewrite <- app_assoc.
    + apply Forall_app. split; [done|]. by constructor.
    + rewrite digits_value_snoc, Hv, Hval. pose proof (N.div_mod x 10 ltac:(lia)). lia.
    + intros _ Hn. by apply app_eq_nil in Hn as [_ ?].
Qed.

(** What is printed reads back. *)
Lemma pretty_digits n : 0 <= n ->
  is_digits (chars_of (pretty n)) /\ digits_value (chars_of (pretty n)) = n /\ chars_of (pretty n) <> [].
Proof.
  intros Hn. destruct n as [|p|p]; [split_and!; [by repeat constructor|done..]| |lia].
  change (pretty (Zpos p)) with (pretty_N_go (Npos p) "").
  destruct (pretty_go_digits (Npos p) "") as (ds & -> & Hds & Hv & Hne). simpl. rewrite app_nil_r.
  split_and!; [done|done|by apply Hne].
Qed.

Lemma digits_value_bound l : is_digits l -> digits_value l < 10 ^ Z.of_nat (length l).
Proof.
  induction l as [|c l IH] using rev_ind; [done|]. intros [Hl Hc]%Forall_app. apply Forall_cons in Hc as [Hc _].
  rewrite digits_value_snoc, length_app, Nat2Z.inj_add, Z.pow_add_r by lia. change (10 ^ Z.of_nat (length [c])) with 10.
  pose proof (digit_nonneg c Hc). specialize (IH Hl). lia.
Qed.

(** Digits of value zero are zeros. *)
Lemma zero_digits l : is_digits l -> (digits_value l = 0 <-> Forall (fun c => c = "0"%char) l).
Proof.
  intros Hl. induction Hl as [|c l Hc Hl IH]; [by split|].
  rewrite digits_value_cons, Forall_cons, <- IH. pose proof (digit_nonneg c Hc).
  pose proof (digits_value_nonneg l Hl). pose proof (Z.pow_pos_nonneg 10 (Z.of_nat (length l)) ltac:(lia) ltac:(lia)).
  split.
  - intros Hz. assert (digit_value c = 0) as Hc0 by nia. split; [|nia].
    by destruct c as [[] [] [] [] [] [] [] []].
  - intros [-> ->]. done.
Qed.

Lemma scan_pretty z : scan_integer (chars_of (pretty z)) = Some z.
Proof.
  destruct (decide (0 <= z)) as [Hz|Hz].
  - destruct (pretty_digits z Hz) as (Hd & Hv & Hne).
    pose proof (scan_integer_digits _ [] Hne Hd I) as Hs. by rewrite app_nil_r, Hv in Hs.
  - destruct z as [|p|p]; try lia. destruct (pretty_digits (Zpos p)) as (Hd & Hv & Hne); [lia|].
    change (chars_of (pretty (Zneg p))) with ("-"%char :: chars_of (pretty (Zpos p))).
    unfold scan_integer. cbn [drop_spaces]. change (isspace "-"%char) with false. cbn iota beta.
    change (ascii_eqb "-"%char "-"%char) with true. cbn iota beta.
    pose proof (span_unique is_digit _ [] Hd I) as Hs. rewrite app_nil_r in Hs. rewrite Hs. cbn [fst].
    destruct (chars_of (pretty (Zpos p))) eqn:He; [done|]. rewrite Hv. done.
Qed.
