(* ===== verification/TextFormat.v ===== *)
(** * Sizes, rates and durations as text

    [src/detail/string_utils.cpp]: a magnitude in doubles, a unit and a number
    of decimals. *)

From stdpp Require Import base list strings pretty.
From Stdlib Require Import ZArith Lia Ascii SpecFloat.
From S2P Require Import Prelude Utils Regex Numerals Doubles.

#[local] Open Scope Z_scope.

Inductive TrimZeroFraction := TrimNo | TrimYes.

(** [find_first_not_of('0')] finds nothing. *)
Fixpoint only_zeros (s : string) : bool :=
  match s with
  | String c s => Ascii.eqb c "0"%char && only_zeros s
  | EmptyString => true
  end.

(** The part from the first point on, if it is zeros only. *)
Fixpoint trim_zero_fraction (s : string) : string :=
  match s with
  | String c rest =>
      if Ascii.eqb c "."%char then if only_zeros rest then "" else s
      else String c (trim_zero_fraction rest)
  | EmptyString => ""
  end.

Definition format (value magnitude : double) (unit_ : string) (num_decimals : Z) (trim : TrimZeroFraction)
    : string :=
  let ret := (if fltb value (double_of 0) then "-" else "") +:+ fixed num_decimals magnitude in
  let ret := match trim with
             | TrimYes => if 0 <? num_decimals then trim_zero_fraction ret else ret
             | TrimNo => ret
             end in
  ret +:+ " " +:+ unit_.

(** The loop over the units: divide while the magnitude reaches the next one. *)
Fixpoint scale_units (base magnitude : double) (unit_ : string) (larger : list string) : double * string :=
  match larger with
  | u :: larger =>
      if fgeb magnitude base then scale_units base (fdiv magnitude base) u larger else (magnitude, unit_)
  | [] => (magnitude, unit_)
  end.

Definition larger_units : list string := ["KiB"; "MiB"; "GiB"; "TiB"; "PiB"; "EiB"; "ZiB"; "YiB"].

Definition format_nbytes (nbytes num_decimals : Z) (trim : TrimZeroFraction) : string :=
  let '(magnitude, unit_) := scale_units (double_of 1024) (double_of nbytes) "B" larger_units in
  format (double_of nbytes) magnitude unit_ num_decimals trim.

Definition format_rate (bytes_per_sec : double) (num_decimals : Z) (trim : TrimZeroFraction) : string :=
  let magnitude := fabs bytes_per_sec in
  let '(magnitude, unit_) :=
    if isfinite magnitude then
      scale_units (double_of 1000) magnitude "B/s" ["kB/s"; "MB/s"; "GB/s"; "TB/s"; "PB/s"]
    else (magnitude, "B/s") in
  format bytes_per_sec magnitude unit_ num_decimals trim.

(** The literals [1e-3], [1e-6], [1e-9]: nearest doubles, as is the quotient of
    two integers that are exact. *)
Definition negative_power (z : Z) : double := fdiv (double_of 1) (double_of z).

Definition large_units : list (string * double) :=
  [("d", double_of 86400); ("h", double_of 3600); ("min", double_of 60)].
Definition small_units : list (string * double) :=
  [("s", double_of 1); ("ms", negative_power 1000); ("us", negative_power 1000000);
   ("ns", negative_power 1000000000)].

(** The first unit that the magnitude reaches. *)
Fixpoint first_reached (magnitude : double) (unit_ : string) (candidates : list (string * double))
    : double * string :=
  match candidates with
  | (u, scale) :: rest =>
      if fgeb magnitude scale then (fdiv magnitude scale, u) else first_reached magnitude unit_ rest
  | [] => (magnitude, unit_)
  end.

(** [duration<double>{duration}.count()]. *)
Definition seconds_of (ns : Z) : double := fdiv (double_of ns) (double_of 1000000000).

Definition format_duration (ns num_decimals : Z) (trim : TrimZeroFraction) : string :=
  let seconds := seconds_of ns in
  let magnitude := fabs seconds in
  let '(magnitude, unit_) :=
    if isfinite magnitude then
      let '(magnitude, unit_) := first_reached magnitude "s" large_units in
      if fltb magnitude (double_of 1) then first_reached magnitude unit_ small_units else (magnitude, unit_)
    else (magnitude, "s") in
  format seconds magnitude unit_ num_decimals trim.

Example half : format_nbytes 1536 2 TrimYes = "1.50 KiB".
Proof. by vm_compute. Qed.
Example whole : format_nbytes 1024 2 TrimYes = "1 KiB" /\ format_nbytes 1024 2 TrimNo = "1.00 KiB".
Proof. by vm_compute. Qed.
Example all_ones : format_nbytes 18446744073709551615 2 TrimYes = "16 EiB".
Proof. by vm_compute. Qed.
(** The unit is chosen before the number is rounded. *)
Example just_below_a_mebibyte : format_nbytes 1048575 2 TrimYes = "1024 KiB".
Proof. by vm_compute. Qed.
Example a_rate : format_rate (double_of 1234567) 2 TrimYes = "1.23 MB/s".
Proof. by vm_compute. Qed.
Example durations :
  format_duration 0 2 TrimYes = "0 s" /\ format_duration 1 2 TrimYes = "1 ns" /\
  format_duration 1500000 2 TrimYes = "1.50 ms" /\ format_duration (-90000000000) 2 TrimYes = "-1.50 min" /\
  format_duration 86400000000000 2 TrimYes = "1 d".
Proof. by vm_compute. Qed.

(** ** The text of a size *)

(** The whole part alone when the fraction is zero, if that is asked for. *)
Definition number_text (q : Z) (d : nat) (trim : TrimZeroFraction) : string :=
  match trim with
  | TrimYes => if q mod 10 ^ Z.of_nat d =? 0 then pretty (q / 10 ^ Z.of_nat d) else decimals d q
  | TrimNo => decimals d q
  end.

(** In integers alone: the value, rounded to a double's precision, over the
    largest power of 1024 it reaches, to [d] decimals. *)
Definition nbytes_text (n : Z) (d : nat) (trim : TrimZeroFraction) : string :=
  let v := round53 n in
  let k := Z.log2 v / 10 in
  number_text (round_half_even (v * 10 ^ Z.of_nat d) (1024 ^ k)) d trim
    +:+ " " +:+ List.nth (Z.to_nat k) ("B" :: larger_units) "".

Lemma only_zeros_chars s : only_zeros s = true <-> Forall (fun c => c = "0"%char) (chars_of s).
Proof.
  induction s as [|c s IH]; simpl; [by split|].
  by rewrite andb_true_iff, IH, Ascii.eqb_eq, Forall_cons.
Qed.

Lemma trim_digits s t : is_digits (chars_of s) ->
  trim_zero_fraction (s +:+ String "."%char t) = s +:+ (if only_zeros t then "" else String "."%char t).
Proof.
  induction s as [|c s IH]; intros Hs; simpl in *.
  - done.
  - apply Forall_cons in Hs as [Hc Hs]. rewrite IH by done.
    destruct (Ascii.eqb_spec c "."%char) as [->|]; done.
Qed.

Lemma zeros_digits k : chars_of (zeros k) = replicate k "0"%char.
Proof. induction k as [|k IH]; simpl; [done|]. by rewrite IH. Qed.

Lemma zeros_only k : only_zeros (zeros k) = true.
Proof. induction k; simpl; [done|]. done. Qed.

Lemma only_zeros_app s t : only_zeros (s +:+ t) = only_zeros s && only_zeros t.
Proof. induction s as [|c s IH]; simpl; [done|]. by rewrite IH, andb_assoc. Qed.

Lemma padded_zero k n : 0 <= n -> only_zeros (padded k n) = (n =? 0).
Proof.
  intros Hn. unfold padded. rewrite only_zeros_app, zeros_only. simpl.
  destruct (pretty_digits n Hn) as (Hd & Hv & _). apply eq_true_iff_eq.
  by rewrite only_zeros_chars, <- zero_digits, Hv, Z.eqb_eq.
Qed.

Lemma trim_decimals d q : (0 < d)%nat -> 0 <= q ->
  trim_zero_fraction (decimals d q) = number_text q d TrimYes.
Proof.
  intros Hd Hq. unfold number_text, decimals. rewrite (proj2 (Nat.eqb_neq d 0)) by lia.
  set (one := 10 ^ Z.of_nat d). assert (0 < one) as Hone by (apply Z.pow_pos_nonneg; lia).
  pose proof (Z.mod_pos_bound q one Hone). pose proof (Z.div_pos q one Hq Hone).
  destruct (pretty_digits (q / one)) as (Hdig & _ & _); [done|].
  change ("." +:+ padded d (q mod one)) with (String "."%char (padded d (q mod one))).
  rewrite trim_digits, padded_zero by (done || lia).
  destruct (q mod one =? 0); [|done]. by rewrite string_app_nil.
Qed.

Lemma scale_units_normal m e u larger : 2 ^ 52 <= Zpos m < 2 ^ 53 -> 0 <= e + 52 <= 900 ->
  (e + 52) / 10 <= Z.of_nat (length larger) ->
  scale_units (double_of 1024) (S754_finite false m e) u larger
  = (S754_finite false m (e - 10 * ((e + 52) / 10)), List.nth (Z.to_nat ((e + 52) / 10)) (u :: larger) "").
Proof.
  intros Hm. revert e u. induction larger as [|u' larger IH]; intros e u He Hl; cbn [scale_units].
  - simpl in Hl. pose proof (Z.div_pos (e + 52) 10 ltac:(lia) ltac:(lia)).
    replace ((e + 52) / 10) with 0 by lia. simpl. by rewrite Z.sub_0_r.
  - rewrite double_of_1024, fgeb_pow2 by done. destruct (Z.leb_spec (10 - 52) e) as [Hge|Hlt].
    + rewrite fdiv_pow2 by (done || lia). rewrite <- double_of_1024.
      assert ((e + 52) / 10 = (e - 10 + 52) / 10 + 1) as Hk
        by (rewrite <- Z.div_add by lia; f_equal; lia).
      pose proof (Z.div_pos (e - 10 + 52) 10 ltac:(lia) ltac:(lia)). simpl length in Hl.
      rewrite IH by lia. rewrite Hk. replace (Z.to_nat (_ + 1)) with (S (Z.to_nat ((e - 10 + 52) / 10))) by lia.
      simpl List.nth. do 2 f_equal. lia.
    + rewrite Z.div_small by lia. simpl. by rewrite Z.sub_0_r.
Qed.

Lemma format_number value x unit_ d trim q : 0 <= q ->
  fltb value (double_of 0) = false -> fixed (Z.of_nat d) x = decimals d q ->
  format value x unit_ (Z.of_nat d) trim = number_text q d trim +:+ " " +:+ unit_.
Proof.
  intros Hq Hv Hx. unfold format. rewrite Hv, Hx. cbn [String.append]. f_equal.
  destruct trim; [done|]. destruct d as [|d]; [|rewrite <- trim_decimals by lia].
  - simpl. unfold number_text, decimals. simpl. change (10 ^ Z.of_nat 0) with 1.
    by rewrite Z.mod_1_r, Z.div_1_r.
  - done.
Qed.

Lemma fixed_normal d m e : fixed (Z.of_nat d) (S754_finite false m e) = decimals d (scaled m e d).
Proof. unfold fixed. rewrite (proj2 (Z.ltb_ge _ _)), Nat2Z.id by lia. done. Qed.

Lemma represents_log2 m e v :
  2 ^ 52 <= Zpos m < 2 ^ 53 -> 0 < v ->
  (if 0 <=? e then Zpos m * 2 ^ e = v else Zpos m = v * 2 ^ (- e)) -> Z.log2 v = e + 52.
Proof.
  intros Hm Hv He. pose proof (normal_log2 _ Hm) as Hl. destruct (Z.leb_spec 0 e).
  - subst v. rewrite Z.log2_mul_pow2 by lia. lia.
  - rewrite He, Z.log2_mul_pow2 in Hl by lia. lia.
Qed.

Lemma round53_bounds n : 0 < n < SIZE_MOD -> 0 < round53 n <= SIZE_MOD.
Proof.
  intros Hn. unfold round53. set (k := Z.log2 n - 52). destruct (Z.leb_spec k 0); [lia|].
  assert (Z.log2 n < 64) by (apply Z.log2_lt_pow2; lia).
  pose proof (Z.log2_spec n ltac:(lia)) as [Hl Hu].
  assert (0 < 2 ^ k) as Hb by (apply Z.pow_pos_nonneg; lia).
  pose proof (round_half_even_near n (2 ^ k) Hb).
  replace (Z.log2 n) with (52 + k) in Hl by lia. replace (Z.succ (Z.log2 n)) with (53 + k) in Hu by lia.
  rewrite Z.pow_add_r in Hl, Hu by lia.
  assert (2 ^ k <= 2 ^ 11) by (apply Z.pow_le_mono_r; lia).
  set (r := round_half_even n (2 ^ k)) in *. split; [nia|].
  destruct (decide (r <= 2 ^ 53 - 1)) as [Hr|Hr].
  - assert (SIZE_MOD = 2 ^ 53 * 2 ^ 11) as -> by done. nia.
  - assert (r <= 2 ^ 53) by nia. assert (SIZE_MOD = 2 ^ 53 * 2 ^ 11) as -> by done. nia.
Qed.

(** [format_nbytes] prints every 64-bit size as the exact arithmetic on
    integers does: the size, rounded to the 53 bits of a double when it is
    larger than they hold, over the largest power of 1024 that it reaches,
    rounded half to even to the requested decimals, without a fraction that is
    zero when that is asked for.  The divisions of the loop lose nothing. *)
Theorem format_nbytes_exact (n : Z) (d : nat) (trim : TrimZeroFraction) :
  0 <= n < SIZE_MOD -> format_nbytes n (Z.of_nat d) trim = nbytes_text n d trim.
Proof.
  intros Hn. unfold nbytes_text, format_nbytes. destruct (decide (n = 0)) as [->|Hn0].
  { change (scale_units _ _ _ _) with (double_of 0, "B"). change (round53 0) with 0. cbn iota beta.
    rewrite Z.mul_0_l. apply format_number; [done..|]. unfold fixed.
    by rewrite (proj2 (Z.ltb_ge _ _)), Nat2Z.id by lia. }
  destruct (double_of_spec n) as (m & e & Hx & Hm & He & Hv); [lia|]. rewrite Hx.
  destruct (round53_bounds n) as [Hpos Hle]; [lia|].
  pose proof (represents_log2 _ _ _ Hm Hpos Hv) as Hlog. rewrite Hlog.
  pose proof (Z.log2_nonneg (round53 n)). pose proof (Z.log2_le_mono _ _ Hle) as Hl64.
  change (Z.log2 SIZE_MOD) with 64 in Hl64.
  pose proof (Z.div_lt_upper_bound (e + 52) 10 7 ltac:(lia) ltac:(lia)).
  pose proof (Z.div_pos (e + 52) 10 ltac:(lia) ltac:(lia)).
  rewrite scale_units_normal by (done || simpl; lia). set (k := (e + 52) / 10) in *.
  pose proof (Z.div_mod (e + 52) 10 ltac:(lia)) as Hdm. pose proof (Z.mod_pos_bound (e + 52) 10 ltac:(lia)).
  fold k in Hdm. replace (1024 ^ k) with (2 ^ (10 * k)) by (by rewrite Z.pow_mul_r by lia).
  pose proof (scaled_represents m e _ d Hpos Hv (10 * k) ltac:(lia) ltac:(lia)) as Hs.
  apply format_number; [|done|by rewrite fixed_normal, Hs].
  rewrite <- Hs. unfold scaled. rewrite (proj2 (Z.leb_gt _ _)) by lia.
  pose proof (round_half_even_near (Zpos m * 10 ^ Z.of_nat d) (2 ^ - (e - 10 * k))
    ltac:(apply Z.pow_pos_nonneg; lia)).
  pose proof (Z.pow_pos_nonneg 2 (- (e - 10 * k)) ltac:(lia) ltac:(lia)).
  pose proof (Z.pow_pos_nonneg 10 (Z.of_nat d) ltac:(lia) ltac:(lia)). nia.
Qed.

Lemma format_nbytes_exact_witness :
  0 <= 9007199254740993 < SIZE_MOD /\ format_nbytes 9007199254740993 2 TrimNo = "8.00 PiB".
Proof.
  split; [lia|]. change 2 with (Z.of_nat 2).
  rewrite (format_nbytes_exact 9007199254740993 2 TrimNo) by lia. by vm_compute.
Defined.

(** The unit is chosen before the rounding: just below a power of 1024 the text
    reads 1024 of the unit below. *)
Example rounds_up_to_1024 : format_nbytes 1048575 2 TrimYes = "1024 KiB".
Proof. by vm_compute. Qed.
