(* ===== verification/Defaults.v ===== *)
(** * Settings

    [src/defaults.cpp] with [include/kvikio/defaults.hpp],
    [src/compat_mode.cpp] and [src/http_status_codes.cpp]: how the settings of
    the process are read from the environment, how they are changed, and what
    a compatibility mode resolves to.  The environment is a parameter; the
    thread pool is its number of threads. *)

From stdpp Require Import base list strings pretty.
From Stdlib Require Import ZArith Lia Ascii.
From S2P Require Import Prelude Utils Regex.

#[local] Open Scope Z_scope.

Definition text_of (s : string) : list ascii := String.list_ascii_of_string s.

(** ** Compatibility mode *)

Inductive CompatMode := OFF | ON | AUTO.

#[global] Instance CompatMode_eq_dec : EqDecision CompatMode.
Proof. solve_decision. Defined.

Definition parse_compat_mode_str (compat_mode_str : string) : result CompatMode :=
  let tmp := normalize_env_value compat_mode_str in
  if bool_decide (tmp ∈ ["on"; "true"; "yes"; "1"]) then mret ON
  else if bool_decide (tmp ∈ ["off"; "false"; "no"; "0"]) then mret OFF
  else if bool_decide (tmp = "auto") then mret AUTO
  else Err (InvalidArgument ("Unknown compatibility mode: " +:+ tmp)).

(** [is_cufile_available()] is asked once; its answer is a parameter. *)
Definition infer_compat_mode_if_auto (cufile_available : bool) (compat_mode : CompatMode)
    : CompatMode :=
  match compat_mode with
  | AUTO => if cufile_available then OFF else ON
  | _ => compat_mode
  end.

Definition is_compat_mode_preferred (cufile_available : bool) (compat_mode : CompatMode) : bool :=
  bool_decide (compat_mode = ON) ||
  (bool_decide (compat_mode = AUTO) &&
   bool_decide (infer_compat_mode_if_auto cufile_available compat_mode = ON)).

(** ** Lists of HTTP status codes *)

Definition three_digits : regex := Seq [Digit; Digit; Digit].

Definition more_codes : regex :=
  Seq [Star Space; Chr ","%char; Star Space; three_digits; Star Space].

(** Three digits between white space, then any number of further codes, each
    after a comma. *)
Definition check_pattern : regex :=
  Seq [Star Space; three_digits; Star Space; Star more_codes].

(** The matches of [\d+] from left to right; [run] is the one being read. *)
Fixpoint digit_runs (run s : list ascii) : list (list ascii) :=
  match s with
  | [] => match run with [] => [] | _ => [run] end
  | c :: s =>
      if is_digit c then digit_runs (run ++ [c]) s
      else match run with [] => digit_runs [] s | _ => run :: digit_runs [] s end
  end.

(** [std::stoi] of a match. *)
Definition parse_http_status_codes (env_var_name status_codes : string) : result (list Z) :=
  _ ← expect (regex_match (text_of status_codes) check_pattern)
        (InvalidArgument (env_var_name +:+ ": invalid format, expected comma-separated integers."));
  mret (digits_value <$> digit_runs [] (text_of status_codes)).

(** ** The environment *)

Inductive RemoteIOBackend := EASY_THREADPOOL | MULTI_POLL.

Definition INT_MAX : Z := 2147483647.

Section environment.
Variable getenv : string -> option string.

Definition unknown_value (name value : string) : exn :=
  InvalidArgument ("unknown config value " +:+ name +:+ "=" +:+ value).

(** [getenv_or<T>] for an integer type from [lo] to [hi]. *)
Definition getenv_or_integer (lo hi : Z) (env_var_name : string) (default_val : Z) : result Z :=
  match getenv env_var_name with
  | None => mret default_val
  | Some env_val =>
      match scan_integer (text_of env_val) with
      | Some n =>
          if (lo <=? n) && (n <=? hi) then mret n else Err (unknown_value env_var_name env_val)
      | None => Err (unknown_value env_var_name env_val)
      end
  end.

Definition getenv_or_int : string -> Z -> result Z := getenv_or_integer (- INT_MAX - 1) INT_MAX.
Definition getenv_or_long : string -> Z -> result Z := getenv_or_integer (- SSIZE_MAX - 1) SSIZE_MAX.

(** [getenv_or<bool>]; only [std::stoi]'s [invalid_argument] is caught. *)
Definition getenv_or_bool (env_var_name : string) (default_val : bool) : result bool :=
  match getenv env_var_name with
  | None => mret default_val
  | Some env_val =>
      match scan_integer (text_of env_val) with
      | Some n =>
          if (- INT_MAX - 1 <=? n) && (n <=? INT_MAX) then mret (negb (n =? 0))
          else Err (OutOfRange "stoi")
      | None =>
          let normalized := normalize_env_value env_val in
          if bool_decide (normalized ∈ ["true"; "on"; "yes"]) then mret true
          else if bool_decide (normalized ∈ ["false"; "off"; "no"]) then mret false
          else Err (unknown_value env_var_name env_val)
      end
  end.

Definition getenv_or_compat_mode (env_var_name : string) (default_val : CompatMode)
    : result CompatMode :=
  match getenv env_var_name with
  | None => mret default_val
  | Some env_val => parse_compat_mode_str env_val
  end.

Definition getenv_or_codes (env_var_name : string) (default_val : list Z) : result (list Z) :=
  match getenv env_var_name with
  | None => mret default_val
  | Some int_str =>
      if bool_decide (int_str = EmptyString) then mret default_val
      else parse_http_status_codes env_var_name int_str
  end.

Definition getenv_or_backend (env_var_name : string) (default_val : RemoteIOBackend)
    : result RemoteIOBackend :=
  match getenv env_var_name with
  | None => mret default_val
  | Some env_val =>
      let normalized := normalize_env_value env_val in
      if bool_decide (normalized = "easy_threadpool") then mret EASY_THREADPOOL
      else if bool_decide (normalized = "multi_poll") then mret MULTI_POLL
      else Err (unknown_value env_var_name env_val)
  end.

(** One round of the loop over the aliases of a variable: the one found last
    and its value. *)
Definition alias_round (target : option (string * string)) (env_var_name : string)
    : result (option (string * string)) :=
  match getenv env_var_name with
  | None => mret target
  | Some env_val =>
      _ ← match target with
          | Some (name, val) =>
              expect (bool_decide (val = env_val)) (InvalidArgument
                ("Environment variable " +:+ env_var_name +:+ " (" +:+ env_val +:+
                 ") has already been set by its alias " +:+ name +:+ " (" +:+ val +:+
                 ") with a different value."))
          | None => mret tt
          end;
      mret (Some (env_var_name, env_val))
  end.

(** [getenv_or<int>] of several names: the name, the value and whether it was
    set. *)
Definition getenv_or_aliases (env_var_names : list string) (default_val : Z)
    : result (string * Z * bool) :=
  _ ← expect (negb (length env_var_names =? 0)%nat)
        (InvalidArgument "`env_var_names` must contain at least one environment variable name.");
  target ← foldM alias_round None env_var_names;
  match target with
  | None => mret (EmptyString, default_val, false)
  | Some (name, _) => res ← getenv_or_int name default_val; mret (name, res, true)
  end.

Definition get_num_threads_from_env : result Z :=
  '(env_var_name, num_threads, _) ← getenv_or_aliases ["KVIKIO_NTHREADS"; "KVIKIO_NUM_THREADS"] 1;
  _ ← expect (num_threads >? 0)
        (InvalidArgument (env_var_name +:+ " has to be a positive integer"));
  mret num_threads.

(** ** The settings *)

Record defaults := mkDefaults {
  _thread_pool : Z;             (* its number of threads *)
  _compat_mode : CompatMode;
  _task_size : Z;
  _gds_threshold : Z;
  _bounce_buffer_size : Z;
  _http_max_attempts : Z;
  _http_timeout : Z;
  _http_status_codes : list Z;
  _auto_direct_io_read : bool;
  _auto_direct_io_read_overread : bool;
  _auto_direct_io_write : bool;
  _thread_pool_per_block_device : bool;
  _remote_io_backend : RemoteIOBackend;
  _remote_io_num_reactors : Z;
  _remote_io_max_concurrent_requests : Z }.

Definition positive (name : string) (env : Z) : result unit :=
  expect (env >? 0) (InvalidArgument (name +:+ " has to be a positive integer")).

(** The constructor. *)
Definition new_defaults : result defaults :=
  threads ← get_num_threads_from_env;
  compat_mode ← getenv_or_compat_mode "KVIKIO_COMPAT_MODE" AUTO;
  task_size ← getenv_or_int "KVIKIO_TASK_SIZE" (4 * 1024 * 1024);
  _ ← positive "KVIKIO_TASK_SIZE" task_size;
  gds_threshold ← getenv_or_int "KVIKIO_GDS_THRESHOLD" (16 * 1024);
  _ ← expect (gds_threshold >=? 0)
        (InvalidArgument "KVIKIO_GDS_THRESHOLD has to be a positive integer");
  bounce_buffer_size ← getenv_or_int "KVIKIO_BOUNCE_BUFFER_SIZE" (16 * 1024 * 1024);
  _ ← positive "KVIKIO_BOUNCE_BUFFER_SIZE" bounce_buffer_size;
  http_max_attempts ← getenv_or_int "KVIKIO_HTTP_MAX_ATTEMPTS" 3;
  _ ← positive "KVIKIO_HTTP_MAX_ATTEMPTS" http_max_attempts;
  http_timeout ← getenv_or_int "KVIKIO_HTTP_TIMEOUT" 60;
  _ ← positive "KVIKIO_HTTP_TIMEOUT" http_timeout;
  http_status_codes ← getenv_or_codes "KVIKIO_HTTP_STATUS_CODES" [429; 500; 502; 503; 504];
  auto_direct_io_read ← getenv_or_bool "KVIKIO_AUTO_DIRECT_IO_READ" false;
  overread ← getenv_or_bool "KVIKIO_AUTO_DIRECT_IO_READ_OVERREAD" false;
  auto_direct_io_write ← getenv_or_bool "KVIKIO_AUTO_DIRECT_IO_WRITE" true;
  per_block_device ← getenv_or_bool "KVIKIO_THREAD_POOL_PER_BLOCK_DEVICE" false;
  backend ← getenv_or_backend "KVIKIO_REMOTE_IO_BACKEND" EASY_THREADPOOL;
  num_reactors ← getenv_or_int "KVIKIO_REMOTE_IO_NUM_REACTORS" 1;
  _ ← positive "KVIKIO_REMOTE_IO_NUM_REACTORS" num_reactors;
  max_requests ← getenv_or_long "KVIKIO_REMOTE_IO_MAX_CONCURRENT_REQUESTS" 256;
  _ ← expect (max_requests >=? 0) (InvalidArgument
        "KVIKIO_REMOTE_IO_MAX_CONCURRENT_REQUESTS has to be a non-negative integer (0 = unlimited)");
  mret (mkDefaults threads compat_mode task_size gds_threshold bounce_buffer_size
    http_max_attempts http_timeout http_status_codes auto_direct_io_read overread
    auto_direct_io_write per_block_device backend num_reactors max_requests).
End environment.

(** *** Changing them

    [pool_started]: [MultiReactorPool::is_instantiated()]. *)

Inductive setter :=
  | SetCompatMode (compat_mode : CompatMode)
  | SetThreadPoolNthreads (nthreads : Z)
  | SetTaskSize (nbytes : Z)
  | SetGdsThreshold (nbytes : Z)
  | SetBounceBufferSize (nbytes : Z)
  | SetHttpMaxAttempts (attempts : Z)
  | SetHttpStatusCodes (status_codes : list Z)
  | SetHttpTimeout (timeout_seconds : Z)
  | SetAutoDirectIoRead (flag : bool)
  | SetAutoDirectIoReadOverread (flag : bool)
  | SetAutoDirectIoWrite (flag : bool)
  | SetThreadPoolPerBlockDevice (flag : bool)
  | SetRemoteIoBackend (backend : RemoteIOBackend)
  | SetRemoteIoNumReactors (num_reactors : Z)
  | SetRemoteIoMaxConcurrentRequests (max_requests : Z).

Definition pool_running (setting : string) : exn :=
  RuntimeError (setting +:+ " cannot be changed after the MULTI_POLL reactor pool has already started").

(** Nothing is stored when a setter throws. *)
Definition apply_setter (pool_started : bool) (c : setter) (d : defaults) : result defaults :=
  let '(mkDefaults tp cm ts gt bb ma ht sc ar ov aw pb rb nr mc) := d in
  match c with
  | SetCompatMode v => mret (mkDefaults tp v ts gt bb ma ht sc ar ov aw pb rb nr mc)
  | SetThreadPoolNthreads v =>
      _ ← expect (v >? 0) (InvalidArgument "number of threads must be a positive integer");
      if v =? tp then mret d
      else mret (mkDefaults v cm ts gt bb ma ht sc ar ov aw pb rb nr mc)
  | SetTaskSize v =>
      _ ← expect (v >? 0) (InvalidArgument "task size must be a positive integer");
      mret (mkDefaults tp cm v gt bb ma ht sc ar ov aw pb rb nr mc)
  | SetGdsThreshold v => mret (mkDefaults tp cm ts v bb ma ht sc ar ov aw pb rb nr mc)
  | SetBounceBufferSize v =>
      _ ← expect (v >? 0) (InvalidArgument "size of the bounce buffer must be a positive integer");
      mret (mkDefaults tp cm ts gt v ma ht sc ar ov aw pb rb nr mc)
  | SetHttpMaxAttempts v =>
      _ ← expect (v >? 0) (InvalidArgument "attempts must be a positive integer");
      mret (mkDefaults tp cm ts gt bb v ht sc ar ov aw pb rb nr mc)
  | SetHttpStatusCodes v => mret (mkDefaults tp cm ts gt bb ma ht v ar ov aw pb rb nr mc)
  | SetHttpTimeout v =>
      _ ← expect (v >? 0) (InvalidArgument "timeout_seconds must be a positive integer");
      mret (mkDefaults tp cm ts gt bb ma v sc ar ov aw pb rb nr mc)
  | SetAutoDirectIoRead v => mret (mkDefaults tp cm ts gt bb ma ht sc v ov aw pb rb nr mc)
  | SetAutoDirectIoReadOverread v => mret (mkDefaults tp cm ts gt bb ma ht sc ar v aw pb rb nr mc)
  | SetAutoDirectIoWrite v => mret (mkDefaults tp cm ts gt bb ma ht sc ar ov v pb rb nr mc)
  | SetThreadPoolPerBlockDevice v => mret (mkDefaults tp cm ts gt bb ma ht sc ar ov aw v rb nr mc)
  | SetRemoteIoBackend v => mret (mkDefaults tp cm ts gt bb ma ht sc ar ov aw pb v nr mc)
  | SetRemoteIoNumReactors v =>
      _ ← expect (v >? 0) (InvalidArgument "remote_io_num_reactors must be a positive integer");
      _ ← expect (negb pool_started) (pool_running "remote_io_num_reactors");
      mret (mkDefaults tp cm ts gt bb ma ht sc ar ov aw pb rb v mc)
  | SetRemoteIoMaxConcurrentRequests v =>
      _ ← expect (negb pool_started) (pool_running "remote_io_max_concurrent_requests");
      mret (mkDefaults tp cm ts gt bb ma ht sc ar ov aw pb rb nr v)
  end.

(** A caller that ignores the setters that throw. *)
Fixpoint apply_setters (cs : list (bool * setter)) (d : defaults) : defaults :=
  match cs with
  | [] => d
  | (pool_started, c) :: cs =>
      apply_setters cs match apply_setter pool_started c d with Ok d' => d' | _ => d end
  end.

(** The argument of a setter is a value of its C++ type. *)
Definition setter_typed (c : setter) : Prop :=
  match c with
  | SetThreadPoolNthreads n | SetRemoteIoNumReactors n => 0 <= n < 4294967296
  | SetTaskSize n | SetGdsThreshold n | SetBounceBufferSize n | SetHttpMaxAttempts n
  | SetRemoteIoMaxConcurrentRequests n => is_size n
  | SetHttpTimeout n => - SSIZE_MAX - 1 <= n <= SSIZE_MAX
  | _ => True
  end.

(** ** Correctness *)

(** What the rest of the library relies on. *)
Record settings_ok (d : defaults) : Prop := mkSettingsOk {
  so_threads : 0 < _thread_pool d < 4294967296;
  so_task : 0 < _task_size d < SIZE_MOD;
  so_gds : 0 <= _gds_threshold d < SIZE_MOD;
  so_bounce : 0 < _bounce_buffer_size d < SIZE_MOD;
  so_attempts : 0 < _http_max_attempts d < SIZE_MOD;
  so_timeout : 0 < _http_timeout d <= SSIZE_MAX;
  so_reactors : 0 < _remote_io_num_reactors d < 4294967296;
  so_requests : 0 <= _remote_io_max_concurrent_requests d < SIZE_MOD }.

Section constructor.
Variable getenv : string -> option string.

(** An integer read from the environment or built in lies in its type. *)
Lemma getenv_or_integer_range lo hi name d :
  lo <= d <= hi -> returns (getenv_or_integer getenv lo hi name d) (fun n => lo <= n <= hi) (fun _ => True).
Proof.
  intros Hd. unfold getenv_or_integer. destruct (getenv name) as [v|]; [|done].
  destruct (scan_integer _) as [n|]; [|done]. destruct (_ && _) eqn:E; [|done]. bool_to_prop. simpl. lia.
Qed.

Lemma get_num_threads_range :
  returns (get_num_threads_from_env getenv) (fun n => 0 < n <= INT_MAX) (fun _ => True).
Proof.
  unfold get_num_threads_from_env. apply returns_bind.
  apply returns_mono with (Q := fun r : string * Z * bool => - INT_MAX - 1 <= r.1.2 <= INT_MAX)
    (E := fun _ => True); [|intros [[n v] b] Hv; simpl in Hv|done].
  - unfold getenv_or_aliases. cbn [length Nat.eqb negb expect mbind result_bind].
    destruct (foldM _ _ _) as [[[n v]|]| |] eqn:Hf; simpl; try done.
    + apply returns_bind. eapply returns_mono; [by apply (getenv_or_integer_range (- INT_MAX - 1) INT_MAX)|done|done].
    + revert Hf. apply foldM_fuel. intros t n. unfold alias_round, expect.
      destruct (getenv n), t as [[? ?]|]; simpl; by repeat case_match.
  - apply returns_bind, returns_expect; [intros Hp|done]. bool_to_prop. simpl. lia.
Qed.

Lemma positive_spec name n : returns (positive name n) (fun _ => 0 < n) (fun _ => True).
Proof. apply returns_expect; [intros H|done]. by bool_to_prop. Qed.

Lemma never_out_of_fuel :
  (forall name d, getenv_or_bool getenv name d <> NoFuel) /\
  (forall name d, getenv_or_compat_mode getenv name d <> NoFuel) /\
  (forall name d, getenv_or_codes getenv name d <> NoFuel) /\
  (forall name d, getenv_or_backend getenv name d <> NoFuel).
Proof.
  unfold getenv_or_bool, getenv_or_compat_mode, getenv_or_codes, getenv_or_backend,
    parse_compat_mode_str, parse_http_status_codes, expect.
  split_and!; intros name d; by repeat (case_match || simpl).
Qed.

Lemma returns_any {A} (m : result A) : m <> NoFuel -> returns m (fun _ => True) (fun _ => True).
Proof. by destruct m. Qed.

(** One read of the constructor: what follows may use the range. *)
Lemma returns_int name d (f : Z -> result defaults) Q :
  - INT_MAX - 1 <= d <= INT_MAX ->
  (forall n, - INT_MAX - 1 <= n <= INT_MAX -> returns (f n) Q (fun _ => True)) ->
  returns (getenv_or_int getenv name d ≫= f) Q (fun _ => True).
Proof.
  intros Hd Hf. apply returns_bind. eapply returns_mono; [by apply getenv_or_integer_range|exact Hf|done].
Qed.

Lemma returns_positive name n (f : unit -> result defaults) Q :
  (0 < n -> returns (f tt) Q (fun _ => True)) ->
  returns (positive name n ≫= f) Q (fun _ => True).
Proof.
  intros Hf. apply returns_bind. eapply returns_mono; [apply positive_spec|by intros []|done].
Qed.

Lemma returns_free {A} (m : result A) (f : A -> result defaults) Q :
  m <> NoFuel -> (forall a, returns (f a) Q (fun _ => True)) ->
  returns (m ≫= f) Q (fun _ => True).
Proof.
  intros Hm Hf. apply returns_bind. eapply returns_mono; [by apply returns_any|auto|done].
Qed.

Lemma new_defaults_spec : returns (new_defaults getenv) settings_ok (fun _ => True).
Proof.
  destruct never_out_of_fuel as (Hb & Hc & Hs & Hr). unfold new_defaults.
  apply returns_bind. eapply returns_mono; [apply get_num_threads_range|intros threads Ht|done].
  apply returns_free; [done|intros cm].
  apply returns_int; [done|intros ts Hts]. apply returns_positive; intros Hts0.
  apply returns_int; [done|intros gt Hgt]. apply returns_bind, returns_expect; [intros Hgt0|done].
  apply returns_int; [done|intros bb Hbb]. apply returns_positive; intros Hbb0.
  apply returns_int; [done|intros ma Hma]. apply returns_positive; intros Hma0.
  apply returns_int; [done|intros ht Hht]. apply returns_positive; intros Hht0.
  do 6 (apply returns_free; [done|intros ?]).
  apply returns_int; [done|intros nr Hnr]. apply returns_positive; intros Hnr0.
  apply returns_bind. eapply returns_mono;
    [by apply (getenv_or_integer_range (- SSIZE_MAX - 1) SSIZE_MAX)|intros mc Hmc|done].
  apply returns_bind, returns_expect; [intros Hmc0|done]. bool_to_prop. unfold INT_MAX in *.
  constructor; simpl; lia.
Qed.
End constructor.

(** A setter keeps the settings in order and, once the reactors run, leaves
    theirs alone. *)
Lemma apply_setter_ok pool_started c d :
  setter_typed c -> settings_ok d ->
  returns (apply_setter pool_started c d)
    (fun d' => settings_ok d' /\
       (pool_started = true ->
          _remote_io_num_reactors d' = _remote_io_num_reactors d /\
          _remote_io_max_concurrent_requests d' = _remote_io_max_concurrent_requests d))
    (fun _ => True).
Proof.
  intros Hc [H1 H2 H3 H4 H5 H6 H7 H8]. destruct d. simpl in *.
  destruct c; simpl in *; unfold is_size in *;
    repeat (apply returns_bind, returns_expect; [intros ?|done]); bool_to_prop;
    try case_bool; (split; [constructor; simpl; lia|]); try done; by intros ->.
Qed.

Lemma apply_setters_ok cs d :
  Forall (fun '(_, c) => setter_typed c) cs -> settings_ok d -> settings_ok (apply_setters cs d).
Proof.
  intros Hcs. revert d. induction Hcs as [|[b c] cs Hc _ IH]; intros d Hd; [done|]. simpl.
  apply IH. pose proof (apply_setter_ok b c d Hc Hd) as Hr.
  destruct (apply_setter b c d); simpl in *; [apply Hr|done|done].
Qed.

Lemma apply_setters_frozen cs d :
  Forall (fun '(b, c) => b = true /\ setter_typed c) cs -> settings_ok d ->
  _remote_io_num_reactors (apply_setters cs d) = _remote_io_num_reactors d /\
  _remote_io_max_concurrent_requests (apply_setters cs d) = _remote_io_max_concurrent_requests d.
Proof.
  intros Hcs. revert d. induction Hcs as [|[b c] cs [-> Hc] _ IH]; intros d Hd; [done|]. simpl.
  pose proof (apply_setter_ok true c d Hc Hd) as Hr.
  destruct (apply_setter true c d) as [d'| |]; simpl in *; [|by apply IH..].
  destruct Hr as [Hd' Hr]. destruct (Hr eq_refl) as [<- <-]. by apply IH.
Qed.

(** C32. Whatever the environment holds, starting up ends, with an error or with
    settings the library can work with (sizes, counts and timeouts positive
    and in their types), and every later sequence of calls to the setters,
    refused ones included, keeps them so; from the moment the reactor pool
    runs, the settings it was built from no longer change. *)
Theorem settings_stay_valid (getenv : string -> option string)
    (before after : list (bool * setter)) :
  Forall (fun '(_, c) => setter_typed c) before ->
  Forall (fun '(b, c) => b = true /\ setter_typed c) after ->
  match new_defaults getenv with
  | Ok d =>
      let running := apply_setters before d in
      settings_ok running /\
      settings_ok (apply_setters after running) /\
      _remote_io_num_reactors (apply_setters after running) = _remote_io_num_reactors running /\
      _remote_io_max_concurrent_requests (apply_setters after running)
        = _remote_io_max_concurrent_requests running
  | Err _ => True
  | NoFuel => False
  end.
Proof.
  intros Hb Ha. pose proof (new_defaults_spec getenv) as Hn.
  destruct (new_defaults getenv) as [d| |]; [|done|done]. cbv zeta.
  assert (Hr : settings_ok (apply_setters before d)) by by apply apply_setters_ok.
  split; [done|]. split; [|by apply apply_setters_frozen].
  apply apply_setters_ok; [|done]. eapply Forall_impl; [exact Ha|]. by intros [b c] [_ ?].
Qed.

Definition sample_env (name : string) : option string :=
  if bool_decide (name = "KVIKIO_NUM_THREADS") then Some "8"
  else if bool_decide (name = "KVIKIO_COMPAT_MODE") then Some " Off "
  else if bool_decide (name = "KVIKIO_TASK_SIZE") then Some "65536"
  else if bool_decide (name = "KVIKIO_AUTO_DIRECT_IO_READ") then Some "yes"
  else if bool_decide (name = "KVIKIO_HTTP_STATUS_CODES") then Some "429, 503"
  else None.

Definition sample_defaults : defaults :=
  mkDefaults 8 OFF 65536 16384 16777216 3 60 [429; 503] true false true false EASY_THREADPOOL 1 256.

Example sample_env_settings : new_defaults sample_env = Ok sample_defaults.
Proof. vm_compute. reflexivity. Qed.

Example settings_stay_valid_witness :
  let before := [(false, SetRemoteIoNumReactors 4); (false, SetTaskSize 0)] in
  let after := [(true, SetRemoteIoNumReactors 2); (true, SetTaskSize 4096)] in
  let running := apply_setters before sample_defaults in
  _remote_io_num_reactors running = 4 /\ _task_size running = 65536 /\
  _task_size (apply_setters after running) = 4096 /\
  settings_ok (apply_setters after running) /\
  _remote_io_num_reactors (apply_setters after running) = 4.
Proof.
  cbv zeta. split_and!; try reflexivity.
  assert (Hb : Forall (fun '(_, c) => setter_typed c)
    [(false, SetRemoteIoNumReactors 4); (false, SetTaskSize 0)])
    by (repeat constructor; simpl; unfold is_size; lia).
  assert (Ha : Forall (fun '(b, c) => b = true /\ setter_typed c)
    [(true, SetRemoteIoNumReactors 2); (true, SetTaskSize 4096)])
    by (repeat constructor; simpl; unfold is_size; lia).
  pose proof (settings_stay_valid sample_env _ _ Hb Ha) as H. rewrite sample_env_settings in H.
  apply H.
Defined.

(** *** Status codes *)

Definition spaces (s : list ascii) : Prop := Forall (fun c => isspace c = true) s.
Definition all_digits (s : list ascii) : Prop := Forall (fun c => is_digit c = true) s.

(** What a list of codes looks like, and the codes. *)
Inductive code_list : list ascii -> list Z -> Prop :=
  | one_code u d v :
      spaces u -> all_digits d -> length d = 3%nat -> spaces v ->
      code_list (u ++ d ++ v) [digits_value d]
  | and_code s l u u' d v :
      code_list s l -> spaces u -> spaces u' -> all_digits d -> length d = 3%nat -> spaces v ->
      code_list (s ++ u ++ ","%char :: u' ++ d ++ v) (l ++ [digits_value d]).

Lemma lang_three_digits d : lang three_digits d <-> all_digits d /\ length d = 3%nat.
Proof.
  unfold three_digits, Digit. simpl. split.
  - intros (x & y & -> & Hx & (z & w & -> & Hz & Hw)%lang_cat)%lang_cat.
    inversion Hx; inversion Hz; inversion Hw; subst. split; [|done]. by repeat constructor.
  - intros [Hd Hl]. destruct d as [|a [|b [|c [|]]]]; try done.
    apply Forall_cons in Hd as [Ha Hd]. apply Forall_cons in Hd as [Hb Hd]. apply Forall_cons in Hd as [Hc _].
    change [a; b; c] with ([a] ++ [b] ++ [c]). repeat apply l_cat; by apply l_set.
Qed.

Lemma lang_spaces u : lang (Star Space) u <-> spaces u.
Proof. apply lang_set_star. Qed.

Lemma lang_more_codes t :
  lang more_codes t <-> exists u u' d v, t = u ++ ","%char :: u' ++ d ++ v /\
    spaces u /\ spaces u' /\ (all_digits d /\ length d = 3%nat) /\ spaces v.
Proof.
  unfold more_codes. cbn [Seq]. split.
  - intros (u & w & -> & Hu%lang_spaces & (c & w' & -> & Hc & (u' & x & -> & Hu'%lang_spaces &
      (d & v & -> & Hd%lang_three_digits & Hv%lang_spaces)%lang_cat)%lang_cat)%lang_cat)%lang_cat.
    inversion Hc as [|p c' Hp| | | | |]; subst. apply Ascii.eqb_eq in Hp as <-. exists u, u', d, v.
    split_and!; try done; by apply Hd.
  - intros (u & u' & d & v & -> & Hu & Hu' & Hd & Hv).
    apply l_cat; [by apply lang_spaces|]. change (","%char :: ?x) with ([","%char] ++ x).
    apply l_cat; [by apply l_set|]. apply l_cat; [by apply lang_spaces|].
    apply l_cat; [by apply lang_three_digits|by apply lang_spaces].
Qed.

Lemma lang_check_pattern s :
  lang check_pattern s <-> exists u d v t, s = (u ++ d ++ v) ++ t /\ spaces u /\
    (all_digits d /\ length d = 3%nat) /\ spaces v /\ lang (Star more_codes) t.
Proof.
  unfold check_pattern. cbn [Seq]. split.
  - intros (u & w & -> & Hu%lang_spaces & (d & w' & -> & Hd%lang_three_digits &
      (v & t & -> & Hv%lang_spaces & Ht)%lang_cat)%lang_cat)%lang_cat.
    exists u, d, v, t. by rewrite <- !app_assoc.
  - intros (u & d & v & t & -> & Hu & Hd & Hv & Ht). rewrite <- !app_assoc.
    apply l_cat; [by apply lang_spaces|]. apply l_cat; [by apply lang_three_digits|].
    apply l_cat; [by apply lang_spaces|done].
Qed.

Lemma code_list_more s l t :
  code_list s l -> lang (Star more_codes) t -> exists l', code_list (s ++ t) l'.
Proof.
  intros Hs Ht. remember (Star more_codes) as r eqn:Hr. revert s l Hs Hr.
  induction Ht as [| | | | |r'|r' t t' Ht _ _ IH]; intros s0 l Hs Hr; try done.
  - exists l. by rewrite app_nil_r.
  - injection Hr as ->. apply lang_more_codes in Ht as (u & u' & d & v & -> & Hu & Hu' & [Hd Hl] & Hv).
    rewrite app_assoc. eapply IH; [|done]. by apply and_code.
Qed.

Lemma star_snoc r u v : lang (Star r) u -> lang r v -> lang (Star r) (u ++ v).
Proof.
  intros Hu Hv. remember (Star r) as s eqn:Hs. revert Hs.
  induction Hu as [| | | | |r'|r' a b Ha _ _ IH]; intros Hs; try done.
  - injection Hs as ->. rewrite <- (app_nil_r ([] ++ v)). apply l_more; [done|apply l_nil].
  - injection Hs as ->. rewrite <- app_assoc. apply l_more; [done|by apply IH].
Qed.

Lemma code_list_lang s l : code_list s l -> lang check_pattern s.
Proof.
  induction 1 as [u d v Hu Hd Hl Hv|s l u u' d v _ IH Hu Hu' Hd Hl Hv]; apply lang_check_pattern.
  - exists u, d, v, []. rewrite app_nil_r. split_and!; try done. apply l_nil.
  - apply lang_check_pattern in IH as (a & e & b & t & -> & Ha & He & Hb & Ht).
    exists a, e, b, (t ++ u ++ ","%char :: u' ++ d ++ v). rewrite <- app_assoc. repeat (split; [done|]).
    apply star_snoc; [done|]. apply lang_more_codes. by exists u, u', d, v.
Qed.

(** *** The digit runs of such a text *)

Definition not_digits (s : list ascii) : Prop := Forall (fun c => is_digit c = false) s.

Lemma spaces_not_digits u : spaces u -> not_digits u.
Proof.
  intros Hu. eapply Forall_impl; [exact Hu|]. intros c. by destruct c as [[] [] [] [] [] [] [] []].
Qed.

Lemma digit_runs_skip u t : not_digits u -> digit_runs [] (u ++ t) = digit_runs [] t.
Proof. induction 1 as [|c u Hc _ IH]; [done|]. simpl. by rewrite Hc. Qed.

Lemma digit_runs_digits run d t :
  all_digits d -> digit_runs run (d ++ t) = digit_runs (run ++ d) t.
Proof.
  intros Hd. revert run. induction Hd as [|c d Hc _ IH]; intros run; [by rewrite app_nil_r|].
  simpl. by rewrite Hc, IH, <- app_assoc.
Qed.

(** A run ends at a character that is not a digit. *)
Lemma digit_runs_app run s c t :
  is_digit c = false -> digit_runs run (s ++ c :: t) = digit_runs run s ++ digit_runs [] (c :: t).
Proof.
  intros Hc. revert run. induction s as [|a s IH]; intros run; simpl.
  - rewrite Hc. by destruct run.
  - destruct (is_digit a); [by rewrite IH|]. destruct run; by rewrite IH.
Qed.

Lemma digit_runs_code u d v :
  not_digits u -> all_digits d -> length d = 3%nat -> not_digits v ->
  digit_runs [] (u ++ d ++ v) = [d].
Proof.
  intros Hu Hd Hl Hv. rewrite digit_runs_skip, digit_runs_digits by done. simpl.
  destruct Hv as [|c v Hc Hv]; simpl.
  - by destruct d.
  - rewrite Hc, <- (app_nil_r v), digit_runs_skip by done. by destruct d.
Qed.

Lemma code_list_runs s l : code_list s l -> digits_value <$> digit_runs [] s = l.
Proof.
  induction 1 as [u d v Hu Hd Hl Hv|s l u u' d v _ IH Hu Hu' Hd Hl Hv].
  - by rewrite digit_runs_code by auto using spaces_not_digits.
  - assert (Hn : not_digits ((u ++ [","%char]) ++ u')).
    { apply Forall_app. split; [|by apply spaces_not_digits]. apply Forall_app.
      split; [by apply spaces_not_digits|by constructor]. }
    change (","%char :: u' ++ d ++ v) with ([","%char] ++ u' ++ d ++ v). rewrite (app_assoc u), (app_assoc _ u').
    pose proof (digit_runs_code _ d v Hn Hd Hl (spaces_not_digits _ Hv)) as Hr.
    destruct ((u ++ [","%char]) ++ u') as [|c w] eqn:Hw;
      [by destruct u|]. change ((c :: w) ++ d ++ v) with (c :: (w ++ d ++ v)) in *.
    apply Forall_cons in Hn as [Hc _]. rewrite digit_runs_app by done.
    by rewrite fmap_app, IH, Hr.
Qed.

Lemma code_list_range s l : code_list s l -> l <> [] /\ Forall (fun n => 0 <= n <= 999) l.
Proof.
  assert (Hone : forall d, all_digits d -> length d = 3%nat -> 0 <= digits_value d <= 999).
  { intros d Hd Hl. destruct d as [|a [|b [|c [|]]]]; try done.
    repeat (apply Forall_cons in Hd as [?%digit_nonneg Hd]).
    unfold digits_value. simpl. lia. }
  induction 1 as [u d v Hu Hd Hl Hv|s l u u' d v _ [_ IH] Hu Hu' Hd Hl Hv].
  - split; [done|]. by repeat constructor; apply Hone.
  - split; [by destruct l|]. apply Forall_app. split; [done|]. by repeat constructor; apply Hone.
Qed.

(** [parse_http_status_codes] takes exactly the comma-separated lists of
    three-digit numbers, white space allowed around each, and returns their
    values in order; every other text is refused. *)
Theorem parse_http_status_codes_spec (env_var_name status_codes : string) (l : list Z) :
  (parse_http_status_codes env_var_name status_codes = Ok l <-> code_list (text_of status_codes) l) /\
  (forall e, parse_http_status_codes env_var_name status_codes = Err e ->
     e = InvalidArgument (env_var_name +:+ ": invalid format, expected comma-separated integers.") /\
     forall l, ~ code_list (text_of status_codes) l) /\
  (parse_http_status_codes env_var_name status_codes = Ok l ->
     l <> [] /\ Forall (fun n => 0 <= n <= 999) l).
Proof.
  assert (Hiff : parse_http_status_codes env_var_name status_codes = Ok l
    <-> code_list (text_of status_codes) l).
  { unfold parse_http_status_codes, expect. destruct (regex_match _ _) eqn:Hm; cbn [mbind result_bind].
    - split.
      + intros [= <-]. apply regex_match_lang, lang_check_pattern in Hm
          as (u & d & v & t & -> & Hu & [Hd Hl] & Hv & Ht).
        destruct (code_list_more _ _ t (one_code u d v Hu Hd Hl Hv) Ht) as [l' Hl'].
        by rewrite (code_list_runs _ _ Hl').
      + intros <-%code_list_runs. done.
    - split; [done|]. intros Hl%code_list_lang%regex_match_lang. congruence. }
  split; [exact Hiff|]. split.
  - unfold parse_http_status_codes, expect. intros e. destruct (regex_match _ _) eqn:Hm; [done|].
    intros [= <-]. split; [done|]. intros l' Hl%code_list_lang%regex_match_lang. congruence.
  - intros Hl%Hiff. by apply code_list_range in Hl.
Qed.
