(* ===== verification/FileHandle.v ===== *)
(** * File handles: descriptors and compatibility mode

    [FileWrapper], [CUFileHandleWrapper] and the opening of files of
    [src/file_utils.cpp]; [CompatModeManager] of
    [src/compat_mode_manager.cpp]; construction, moves, [close] and
    destruction of [FileHandle] of [src/file_handle.cpp].

    The operating system and cuFile are parameters.  Their state, as far as it
    matters here, is the set of open descriptors and the descriptors registered
    with cuFile; it also remembers whether something was ever released twice,
    or a descriptor closed while it was registered. *)

From stdpp Require Import base list strings gmap sets fin_maps.
From Stdlib Require Import ZArith Lia Ascii.
From S2P Require Import Prelude Defaults.

#[local] Open Scope Z_scope.

(** ** The operating system *)

Record os := mkOs {
  open_fds : gset Z;
  registered_fds : gmap Z Z;    (* by cuFile handle *)
  calls : nat;                  (* made so far *)
  misused : bool }.

(** [open] and [cuFileHandleRegister] answer with an error code or with a
    descriptor, a handle. *)
Class Platform := {
  sys_open : os -> string -> Z -> Z -> Z + Z;
  cufile_register : os -> Z -> Z + Z }.

(** A descriptor or handle that is given out is not in use. *)
Class PlatformLaws `{Platform} := {
  sys_open_fresh o path flags mode fd :
    sys_open o path flags mode = inr fd -> 0 <= fd /\ fd ∉ open_fds o;
  cufile_register_fresh o fd h :
    cufile_register o fd = inr h -> registered_fds o !! h = None;
  cufile_register_error o fd err : cufile_register o fd = inl err -> err <> 0 }.

Definition os_close (fd : Z) (o : os) : os :=
  mkOs (open_fds o ∖ {[fd]}) (registered_fds o) (S (calls o))
    (misused o || negb (bool_decide (fd ∈ open_fds o))
     || bool_decide (map_Exists (fun _ x => x = fd) (registered_fds o))).

Definition os_deregister (h : Z) (o : os) : os :=
  mkOs (open_fds o) (delete h (registered_fds o)) (S (calls o))
    (misused o || bool_decide (registered_fds o !! h = None)).

(** ** Opening files *)

Definition O_RDONLY : Z := 0.
Definition O_WRONLY : Z := 1.
Definition O_RDWR : Z := 2.
Definition O_CREAT : Z := 64.
Definition O_TRUNC : Z := 512.
Definition O_DIRECT : Z := 16384.
Definition O_CLOEXEC : Z := 524288.

Definition open_fd_parse_flags (flags : string) (o_direct : bool) : result Z :=
  match flags with
  | EmptyString => Err (InvalidArgument "Unknown file open flag")
  | String c rest =>
      let plus := match rest with String "+"%char _ => true | _ => false end in
      file_flags ←
        (if Ascii.eqb c "r"%char then mret (if plus then O_RDWR else O_RDONLY)
         else if Ascii.eqb c "w"%char then
           mret (Z.lor (if plus then O_RDWR else O_WRONLY) (Z.lor O_CREAT O_TRUNC))
         else if Ascii.eqb c "a"%char then Err (InvalidArgument "Open flag 'a' isn't supported")
         else Err (InvalidArgument "Unknown file open flag"));
      let file_flags := Z.lor file_flags O_CLOEXEC in
      mret (if o_direct then Z.lor file_flags O_DIRECT else file_flags)
  end.

Section platform.
Context `{Platform}.

Definition os_open (file_path : string) (file_flags mode : Z) : st os Z := fun o =>
  match sys_open o file_path file_flags mode with
  | inr fd => (inr fd, mkOs ({[fd]} ∪ open_fds o) (registered_fds o) (S (calls o)) (misused o))
  | inl _ => (inl (GenericSystemError "Unable to open file."),
              mkOs (open_fds o) (registered_fds o) (S (calls o)) (misused o))
  end.

Definition open_fd (file_path flags : string) (o_direct : bool) (mode : Z) : st os Z :=
  file_flags ← of_result (open_fd_parse_flags flags o_direct);
  os_open file_path file_flags mode.

(** ** FileWrapper: the descriptor, or -1 *)

Definition opened (fd : Z) : bool := negb (fd =? -1).

Definition wrapper_open (file_path flags : string) (o_direct : bool) (mode fd : Z) : st os Z :=
  if negb (opened fd) then open_fd file_path flags o_direct mode else mret fd.

Definition wrapper_close (fd : Z) (o : os) : Z * os :=
  if opened fd then (-1, os_close fd o) else (fd, o).

(** ** CUFileHandleWrapper *)

Record CUFileHandleWrapper := mkCUFile { cu_handle : Z; cu_registered : bool }.

Definition no_cufile : CUFileHandleWrapper := mkCUFile 0 false.

(** [register_handle]: the error code, 0 for success, unless already
    registered. *)
Definition register_handle (fd : Z) (c : CUFileHandleWrapper) (o : os)
    : option Z * (CUFileHandleWrapper * os) :=
  if cu_registered c then (None, (c, o))
  else match cufile_register o fd with
  | inr h => (Some 0, (mkCUFile h true,
      mkOs (open_fds o) (<[h := fd]> (registered_fds o)) (S (calls o)) (misused o)))
  | inl err => (Some err, (c, mkOs (open_fds o) (registered_fds o) (S (calls o)) (misused o)))
  end.

Definition unregister_handle (c : CUFileHandleWrapper) (o : os) : CUFileHandleWrapper * os :=
  if cu_registered c then (mkCUFile (cu_handle c) false, os_deregister (cu_handle c) o) else (c, o).

(** ** FileHandle *)

Record CompatModeManager := mkManager {
  compat_mode_requested : CompatMode;
  preferred : bool;             (* [_is_compat_mode_preferred] *)
  preferred_for_async : bool }.

Definition no_manager : CompatModeManager := mkManager AUTO true true.

Record FileHandle := mkFileHandle {
  file_direct_on : Z;
  file_direct_off : Z;
  initialized : bool;
  nbytes_cache : Z;
  cufile_handle : CUFileHandleWrapper;
  compat_mode_manager : CompatModeManager;
  file_path : string;
  thread_pool : option Z }.

Definition empty_handle : FileHandle := mkFileHandle (-1) (-1) false 0 no_cufile no_manager "" None.

Definition set_direct_on (fd : Z) (h : FileHandle) : FileHandle :=
  mkFileHandle fd (file_direct_off h) (initialized h) (nbytes_cache h) (cufile_handle h)
    (compat_mode_manager h) (file_path h) (thread_pool h).
Definition set_direct_off (fd : Z) (h : FileHandle) : FileHandle :=
  mkFileHandle (file_direct_on h) fd (initialized h) (nbytes_cache h) (cufile_handle h)
    (compat_mode_manager h) (file_path h) (thread_pool h).
Definition set_cufile (c : CUFileHandleWrapper) (h : FileHandle) : FileHandle :=
  mkFileHandle (file_direct_on h) (file_direct_off h) (initialized h) (nbytes_cache h) c
    (compat_mode_manager h) (file_path h) (thread_pool h).

(** *** CompatModeManager's constructor, which opens the handle's files *)

(** [file_handle->_file_direct_off.open(...)] and the same with O_DIRECT. *)
Definition open_direct_off (path flags : string) (mode : Z) : st (FileHandle * os) unit :=
  fun '(h, o) =>
    match wrapper_open path flags false mode (file_direct_off h) o with
    | (inr fd, o) => (inr tt, (set_direct_off fd h, o))
    | (inl e, o) => (inl e, (h, o))
    end.

Definition open_direct_on (path flags : string) (mode : Z) : st (FileHandle * os) unit :=
  fun '(h, o) =>
    match wrapper_open path flags true mode (file_direct_on h) o with
    | (inr fd, o) => (inr tt, (set_direct_on fd h, o))
    | (inl e, o) => (inl e, (h, o))
    end.

(** [_cufile_handle.register_handle(_file_direct_on.fd())] and [.value()],
    which throws when the handle was registered before. *)
Definition register_direct_on : st (FileHandle * os) Z :=
  fun '(h, o) =>
    let '(err, (c, o)) := register_handle (file_direct_on h) (cufile_handle h) o in
    match err with
    | Some err => (inr err, (set_cufile c h, o))
    | None => (inl (RuntimeError "bad optional access"), (set_cufile c h, o))
    end.

Definition cufile_error : exn := CUfileException "cuFile error".

(** The settings the decision depends on, and whether cuFile has a
    configuration file. *)
Record gds_setup := mkSetup {
  cufile_available : bool;
  config_path_empty : bool;
  direct_io_read : bool;
  direct_io_write : bool }.

(** The end of the constructor: register with cuFile. *)
Definition register_with_cufile (g : gds_setup) (requested : CompatMode)
    : st (FileHandle * os) CompatModeManager :=
  error_code ← register_direct_on;
  preferred ←
    (if bool_decide (requested = AUTO) && negb (error_code =? 0) then mret true
     else _ ← require (error_code =? 0) cufile_error; mret false);
  mret (mkManager requested preferred (preferred || config_path_empty g)).

Definition new_manager (g : gds_setup) (path flags : string) (mode : Z) (requested : CompatMode)
    : st (FileHandle * os) CompatModeManager :=
  _ ← open_direct_off path flags mode;
  let preferred := is_compat_mode_preferred (cufile_available g) requested in
  if preferred && negb (direct_io_read g) && negb (direct_io_write g) then
    mret (mkManager requested preferred true)
  else
    opened_on ← attempt (open_direct_on path flags mode);
    match opened_on, requested with
    | inl _, ON => mret (mkManager requested preferred true)
    | inl _, AUTO => mret (mkManager requested true true)
    | inl e, OFF => throw e
    | inr _, _ =>
        if preferred then mret (mkManager requested preferred true)
        else register_with_cufile g requested
    end.

(** [validate_compat_mode_for_async]. *)
Definition validate_compat_mode_for_async (g : gds_setup) (m : CompatModeManager) : result unit :=
  if preferred_for_async m && bool_decide (compat_mode_requested m = OFF) && config_path_empty g
  then Err (RuntimeError "Missing cuFile configuration file.")
  else mret tt.

(** *** The life of a handle *)

(** The members' destructors, last member first. *)
Definition destroy_members (h : FileHandle) (o : os) : os :=
  let '(_, o) := unregister_handle (cufile_handle h) o in
  let '(_, o) := wrapper_close (file_direct_off h) o in
  (wrapper_close (file_direct_on h) o).2.

(** [FileHandle(file_path, flags, mode, compat_mode)]; [pool_of] is
    [get_thread_pool_per_block_device].  When the manager's constructor throws,
    the members built so far are destroyed. *)
Definition new_file_handle (g : gds_setup) (pool_of : string -> option Z)
    (path flags : string) (mode : Z) (compat_mode : CompatMode) : st os FileHandle := fun o =>
  let h := mkFileHandle (-1) (-1) true 0 no_cufile no_manager "" None in
  match new_manager g path flags mode compat_mode (h, o) with
  | (inr m, (h, o)) =>
      (inr (mkFileHandle (file_direct_on h) (file_direct_off h) (initialized h) (nbytes_cache h)
              (cufile_handle h) m path (pool_of path)), o)
  | (inl e, (h, o)) => (inl e, destroy_members h o)
  end.

Definition closed (h : FileHandle) : bool := negb (initialized h).

Definition close (h : FileHandle) (o : os) : FileHandle * os :=
  if closed h then (h, o)
  else
    let '(c, o) := unregister_handle (cufile_handle h) o in
    let '(off, o) := wrapper_close (file_direct_off h) o in
    let '(on, o) := wrapper_close (file_direct_on h) o in
    (mkFileHandle on off false 0 c (compat_mode_manager h) (file_path h) None, o).

(** The move constructor: the new handle and what is left of [other]. *)
Definition move_handle (other : FileHandle) : FileHandle * FileHandle :=
  (other,
   mkFileHandle (-1) (-1) false 0 no_cufile (compat_mode_manager other) "" None).

(** Move assignment from another handle: [close] first. *)
Definition move_assign_handle (h other : FileHandle) (o : os) : (FileHandle * FileHandle) * os :=
  let '(_, o) := close h o in (move_handle other, o).

Definition destroy_handle (h : FileHandle) (o : os) : os :=
  let '(h, o) := close h o in destroy_members h o.

(** *** Accessors *)

Definition handle (h : FileHandle) : result Z :=
  _ ← expect (negb (closed h)) (CUfileException "File handle is closed");
  _ ← expect (negb (preferred (compat_mode_manager h)))
        (CUfileException "The underlying cuFile handle isn't available in compatibility mode");
  mret (cu_handle (cufile_handle h)).

Definition fd (o_direct : bool) (h : FileHandle) : Z :=
  if o_direct then file_direct_on h else file_direct_off h.

Definition is_direct_io_supported (h : FileHandle) : bool := negb (file_direct_on h =? -1).
End platform.

(** ** What a handle owns *)

Definition fd_set (fd : Z) : gset Z := if opened fd then {[fd]} else ∅.

Definition own_fds (h : FileHandle) : gset Z := fd_set (file_direct_on h) ∪ fd_set (file_direct_off h).

Definition own_regs (h : FileHandle) : gmap Z Z :=
  if cu_registered (cufile_handle h) then {[cu_handle (cufile_handle h) := file_direct_on h]} else ∅.

(** A closed handle owns nothing; only an open O_DIRECT descriptor is
    registered; the two descriptors differ. *)
Record handle_ok (h : FileHandle) : Prop := mkHandleOk {
  hk_closed : initialized h = false ->
    file_direct_on h = -1 /\ file_direct_off h = -1 /\ cu_registered (cufile_handle h) = false;
  hk_registered : cu_registered (cufile_handle h) = true -> file_direct_on h <> -1;
  hk_distinct : file_direct_on h <> -1 -> file_direct_on h <> file_direct_off h }.

(** [h] and the rest of the process, which owns [F] and [R], share the system
    between them; every registered descriptor is open, and nothing was misused. *)
Record holds (h : FileHandle) (F : gset Z) (R : gmap Z Z) (o : os) : Prop := mkHolds {
  ho_ok : handle_ok h;
  ho_fds : open_fds o = own_fds h ∪ F;
  ho_fds_apart : own_fds h ## F;
  ho_regs : registered_fds o = own_regs h ∪ R;
  ho_regs_apart : own_regs h ##ₘ R;
  ho_frame : forall c x, R !! c = Some x -> x ∈ F;
  ho_misused : misused o = false }.

Lemma elem_of_fd_set x fd : x ∈ fd_set fd <-> x = fd /\ fd <> -1.
Proof.
  unfold fd_set, opened. destruct (fd =? -1) eqn:E; simpl; bool_to_prop; set_solver.
Qed.

Lemma fd_set_opened fd : fd <> -1 -> fd_set fd = {[fd]}.
Proof. intros Hfd. unfold fd_set, opened. by rewrite (proj2 (Z.eqb_neq _ _) Hfd). Qed.

Lemma empty_holds F R o :
  open_fds o = F -> registered_fds o = R -> (forall c x, R !! c = Some x -> x ∈ F) ->
  misused o = false -> forall b p m, holds (mkFileHandle (-1) (-1) b 0 no_cufile m p None) F R o.
Proof.
  intros <- <- Hf Hm b p m. set (h := mkFileHandle _ _ _ _ _ _ _ _).
  assert (Ho : own_fds h = ∅) by (unfold own_fds; simpl; set_solver).
  assert (Hr : own_regs h = ∅) by done.
  split; rewrite ?Ho, ?Hr, ?(left_id_L ∅ (∪)); try done; apply map_disjoint_empty_l.
Qed.

Section ownership.
Context `{PlatformLaws}.

Lemma unregister_holds h F R o :
  holds h F R o ->
  let '(c, o') := unregister_handle (cufile_handle h) o in
  cu_registered c = false /\ holds (set_cufile c h) F R o'.
Proof.
  intros [Hok Hfd Hfda Hr Hra Hf Hm]. unfold unregister_handle.
  destruct (cu_registered (cufile_handle h)) eqn:Hc.
  - split; [done|]. unfold own_regs in Hr, Hra. rewrite Hc in Hr, Hra.
    assert (Hl : R !! cu_handle (cufile_handle h) = None)
      by by apply map_disjoint_singleton_l in Hra.
    split; simpl; try done.
    + destruct Hok as [H1 H2 H3]. split; simpl; try done. intros Hi. by destruct (H1 Hi) as (? & ? & ?).
    + rewrite Hr, <- insert_union_singleton_l. rewrite delete_insert_id by done.
      unfold own_regs. simpl. by rewrite (left_id_L ∅ (∪)).
    + unfold own_regs. simpl. apply map_disjoint_empty_l.
    + rewrite Hm, Hr. rewrite <- insert_union_singleton_l, lookup_insert_eq. done.
  - split; [done|]. unfold set_cufile. destruct h; simpl in *. by split.
Qed.

Lemma close_fd_frame (x : Z) (S F : gset Z) (o : os) :
  x <> -1 -> open_fds o = ({[x]} ∪ S) ∪ F -> ({[x]} ∪ S) ## F -> x ∉ S ->
  misused o = false -> (forall c y, registered_fds o !! c = Some y -> y <> x) ->
  open_fds (os_close x o) = S ∪ F /\ misused (os_close x o) = false.
Proof.
  intros Hx Hfd Hd Hns Hm Hr. split; [simpl; rewrite Hfd; set_solver|]. simpl.
  rewrite Hm, (bool_decide_eq_true_2 (x ∈ open_fds o)) by (rewrite Hfd; set_solver). simpl.
  apply bool_decide_eq_false_2. intros (c & y & Hy & ->). by apply (Hr c x).
Qed.

Lemma wrapper_close_fd x o : (wrapper_close x o).1 = -1.
Proof. unfold wrapper_close, opened. destruct (x =? -1) eqn:E; simpl; by bool_to_prop. Qed.

Lemma close_off_holds h F R o :
  holds h F R o -> holds (set_direct_off (-1) h) F R (wrapper_close (file_direct_off h) o).2.
Proof.
  intros Hh. pose proof Hh as [Hok Hfd Hfda Hr Hra Hf Hm]. unfold wrapper_close.
  destruct (opened (file_direct_off h)) eqn:Ho; unfold opened in Ho; bool_to_prop; simpl.
  - assert (Hsplit : own_fds h = {[file_direct_off h]} ∪ fd_set (file_direct_on h))
      by (unfold own_fds; rewrite (fd_set_opened _ Ho); apply (comm_L (∪))).
    assert (Hns : file_direct_off h ∉ fd_set (file_direct_on h)).
    { rewrite elem_of_fd_set. intros [E1 E2]. by apply (hk_distinct h Hok E2). }
    rewrite Hsplit in Hfd, Hfda.
    destruct (close_fd_frame (file_direct_off h) _ _ o Ho Hfd Hfda Hns Hm) as [Hfd' Hm'].
    { intros c y Hc ->. rewrite Hr in Hc. apply lookup_union_Some in Hc as [Hc|Hc]; [| |done].
      - unfold own_regs in Hc. destruct (cu_registered (cufile_handle h)) eqn:E; [|done].
        apply lookup_singleton_Some in Hc as [_ Heq].
        by apply (hk_distinct h Hok (hk_registered h Hok E)).
      - apply Hf in Hc. set_solver. }
    assert (Hown : own_fds (set_direct_off (-1) h) = fd_set (file_direct_on h))
      by (unfold own_fds; simpl; set_solver).
    split; rewrite ?Hown; try done; [|set_solver].
    destruct Hok as [H1 H2 H3]. split; simpl; try done.
    intros Hi. by destruct (H1 Hi) as (? & ? & ?).
  - unfold set_direct_off. rewrite <- Ho. by destruct h.
Qed.

Lemma close_on_holds h F R o :
  cu_registered (cufile_handle h) = false -> holds h F R o ->
  holds (set_direct_on (-1) h) F R (wrapper_close (file_direct_on h) o).2.
Proof.
  intros Hnr Hh. pose proof Hh as [Hok Hfd Hfda Hr Hra Hf Hm]. unfold wrapper_close.
  destruct (opened (file_direct_on h)) eqn:Ho; unfold opened in Ho; bool_to_prop; simpl.
  - assert (Hsplit : own_fds h = {[file_direct_on h]} ∪ fd_set (file_direct_off h))
      by (unfold own_fds; by rewrite (fd_set_opened _ Ho)).
    assert (Hns : file_direct_on h ∉ fd_set (file_direct_off h)).
    { rewrite elem_of_fd_set. intros [E1 E2]. by apply (hk_distinct h Hok Ho). }
    rewrite Hsplit in Hfd, Hfda.
    assert (Hregs : own_regs h = ∅) by (unfold own_regs; by rewrite Hnr).
    rewrite Hregs in Hr, Hra.
    destruct (close_fd_frame (file_direct_on h) _ _ o Ho Hfd Hfda Hns Hm) as [Hfd' Hm'].
    { intros c y Hc ->. rewrite Hr, (left_id_L ∅ (∪)) in Hc. apply Hf in Hc. set_solver. }
    assert (Hown : own_fds (set_direct_on (-1) h) = fd_set (file_direct_off h))
      by (unfold own_fds; simpl; set_solver).
    assert (Hregs' : own_regs (set_direct_on (-1) h) = ∅) by (unfold own_regs; simpl; by rewrite Hnr).
    split; rewrite ?Hown, ?Hregs'; try done; [|set_solver].
    destruct Hok as [H1 H2 H3]. split; simpl; try done; [|congruence].
    intros Hi. by destruct (H1 Hi) as (? & ? & ?).
  - unfold set_direct_on. rewrite <- Ho. by destruct h.
Qed.

Lemma holds_nothing h F R o :
  file_direct_on h = -1 -> file_direct_off h = -1 -> cu_registered (cufile_handle h) = false ->
  holds h F R o -> open_fds o = F /\ registered_fds o = R /\ misused o = false.
Proof.
  intros H1 H2 H3 [_ Hfd _ Hr _ _ Hm].
  assert (own_fds h = ∅) as Ho by (unfold own_fds; by rewrite H1, H2).
  assert (own_regs h = ∅) as Hg by (unfold own_regs; by rewrite H3).
  rewrite Hfd, Hr, Ho, Hg, !(left_id_L ∅ (∪)). done.
Qed.

Lemma destroy_members_frees h F R o :
  holds h F R o ->
  let o' := destroy_members h o in open_fds o' = F /\ registered_fds o' = R /\ misused o' = false.
Proof.
  intros Hh. unfold destroy_members. pose proof (unregister_holds h F R o Hh) as Hu.
  destruct (unregister_handle _ o) as [c o1]. destruct Hu as [Hc Hu].
  pose proof (close_off_holds _ F R o1 Hu) as Hoff. simpl in Hoff.
  destruct (wrapper_close (file_direct_off h) o1) as [x o2].
  pose proof (close_on_holds (set_direct_off (-1) (set_cufile c h)) F R o2 Hc Hoff) as Hon. simpl in Hon.
  exact (holds_nothing (set_direct_on (-1) (set_direct_off (-1) (set_cufile c h))) F R _
           eq_refl eq_refl Hc Hon).
Qed.

Lemma close_holds h F R o :
  holds h F R o ->
  let '(h', o') := close h o in
  file_direct_on h' = -1 /\ file_direct_off h' = -1 /\ cu_registered (cufile_handle h') = false /\
  initialized h' = false /\ holds h' F R o'.
Proof.
  intros Hh. unfold close, closed. destruct (initialized h) eqn:Hi; simpl.
  - pose proof (unregister_holds h F R o Hh) as Hu.
    destruct (unregister_handle _ o) as [c o1]. destruct Hu as [Hc Hu].
    pose proof (close_off_holds _ F R o1 Hu) as Hoff. simpl in Hoff.
    pose proof (wrapper_close_fd (file_direct_off h) o1) as E1.
    destruct (wrapper_close (file_direct_off h) o1) as [x o2]. simpl in E1. subst x.
    pose proof (close_on_holds (set_direct_off (-1) (set_cufile c h)) F R o2 Hc Hoff) as Hon. simpl in Hon.
    pose proof (wrapper_close_fd (file_direct_on h) o2) as E2.
    destruct (wrapper_close (file_direct_on h) o2) as [x o3]. simpl in E2. subst x.
    split_and!; try done. destruct Hon as [Hok Hfd Hfda Hr Hra Hf Hm]. split; try done. destruct Hok as [_ H2 H3]. by split.
  - pose proof (hk_closed h (ho_ok _ _ _ _ Hh) Hi) as (? & ? & ?). by split_and!.
Qed.

Lemma destroy_handle_frees h F R o :
  holds h F R o ->
  let o' := destroy_handle h o in open_fds o' = F /\ registered_fds o' = R /\ misused o' = false.
Proof.
  intros Hh. unfold destroy_handle. pose proof (close_holds h F R o Hh) as Hc.
  destruct (close h o) as [h' o']. destruct Hc as (_ & _ & _ & _ & Hc). by apply destroy_members_frees.
Qed.

(** *** Construction *)

(** The handle is being built: it is marked open, not registered yet. *)
Definition building (h : FileHandle) (F : gset Z) (R : gmap Z Z) (o : os) : Prop :=
  initialized h = true /\ cu_registered (cufile_handle h) = false /\ holds h F R o.

Lemma open_fd_spec path flags od mode o F R h :
  holds h F R o ->
  ends (open_fd path flags od mode) o
    (fun fd o' => 0 <= fd /\ fd ∉ open_fds o /\
       o' = mkOs ({[fd]} ∪ open_fds o) (registered_fds o) (calls o') (misused o))
    (fun _ o' => holds h F R o').
Proof.
  intros Hh. unfold open_fd. apply ends_bind.
  unfold of_result, ends. destruct (open_fd_parse_flags flags od) as [f|e|]; [|exact Hh..].
  unfold os_open. destruct (sys_open o path f mode) as [err|fd] eqn:Ho.
  - destruct Hh as [? ? ? ? ? ? ?]. by split.
  - destruct (sys_open_fresh _ _ _ _ _ Ho). done.
Qed.

(** Registered descriptors are open ones. *)
Lemma registered_open h F R o c x :
  holds h F R o -> registered_fds o !! c = Some x -> x ∈ open_fds o.
Proof.
  intros [Hok Hfd _ Hr Hra Hf _] Hc. rewrite Hr in Hc. rewrite Hfd.
  apply lookup_union_Some in Hc as [Hc|Hc]; [| |done].
  - unfold own_regs in Hc. destruct (cu_registered _) eqn:E; [|done].
    apply lookup_singleton_Some in Hc as [_ <-]. apply elem_of_union_l. unfold own_fds.
    rewrite (fd_set_opened _ (hk_registered h Hok E)). set_solver.
  - apply Hf in Hc. set_solver.
Qed.

Lemma open_direct_off_building path flags mode h F R o :
  building h F R o -> file_direct_off h = -1 ->
  ends (open_direct_off path flags mode) (h, o)
    (fun _ '(h', o') => building h' F R o' /\ file_direct_off h' <> -1 /\
       file_direct_on h' = file_direct_on h)
    (fun _ '(h', o') => building h' F R o').
Proof.
  intros (Hi & Hc & Hh) Hoff. pose proof Hh as [Hok Hfd Hfda Hr Hra Hf Hm].
  unfold ends, open_direct_off, wrapper_open. rewrite Hoff. simpl.
  pose proof (open_fd_spec path flags false mode o F R h Hh) as Hs. unfold ends in Hs.
  destruct (open_fd path flags false mode o) as [[e|fd] o']; [done|].
  destruct Hs as (Hfd0 & Hfresh & ->). simpl. split; [|lia]. split; [done|]. split; [done|].
  assert (Hown : own_fds (set_direct_off fd h) = {[fd]} ∪ own_fds h).
  { unfold own_fds. simpl. rewrite (fd_set_opened fd), Hoff by lia. set_solver. }
  rewrite Hfd in Hfresh.
  split; rewrite ?Hown; simpl; try done; [|rewrite Hfd; set_solver|set_solver].
  destruct Hok as [H1 H2 H3]. split; simpl; [congruence|congruence|].
  intros Hne. intros <-. apply Hfresh. unfold own_fds. rewrite fd_set_opened by done. set_solver.
Qed.

Lemma open_direct_on_building path flags mode h F R o :
  building h F R o -> file_direct_on h = -1 ->
  ends (open_direct_on path flags mode) (h, o)
    (fun _ '(h', o') => building h' F R o' /\ file_direct_on h' <> -1 /\
       file_direct_off h' = file_direct_off h)
    (fun _ '(h', o') => building h' F R o' /\ h' = h).
Proof.
  intros (Hi & Hc & Hh) Hon. pose proof Hh as [Hok Hfd Hfda Hr Hra Hf Hm].
  unfold ends, open_direct_on, wrapper_open. rewrite Hon. simpl.
  pose proof (open_fd_spec path flags true mode o F R h Hh) as Hs. unfold ends in Hs.
  destruct (open_fd path flags true mode o) as [[e|fd] o']; [done|].
  destruct Hs as (Hfd0 & Hfresh & ->). simpl. split; [|lia]. split; [done|]. split; [done|].
  assert (Hown : own_fds (set_direct_on fd h) = {[fd]} ∪ own_fds h).
  { unfold own_fds. simpl. rewrite (fd_set_opened fd), Hon by lia. set_solver. }
  assert (Hregs : own_regs (set_direct_on fd h) = own_regs h) by (unfold own_regs; simpl; by rewrite Hc).
  rewrite Hfd in Hfresh.
  split; rewrite ?Hown, ?Hregs; simpl; try done; [|rewrite Hfd; set_solver|set_solver].
  destruct Hok as [H1 H2 H3]. split; simpl; [congruence|congruence|].
  intros _ ->. apply Hfresh. unfold own_fds. rewrite (fd_set_opened (file_direct_off h)) by lia. set_solver.
Qed.

Lemma register_direct_on_holds h F R o :
  building h F R o -> file_direct_on h <> -1 ->
  ends register_direct_on (h, o)
    (fun err '(h', o') => initialized h' = true /\ holds h' F R o' /\
       file_direct_on h' = file_direct_on h /\ file_direct_off h' = file_direct_off h /\
       cu_registered (cufile_handle h') = (err =? 0))
    (fun _ _ => False).
Proof.
  intros (Hi & Hc & Hh) Hon. pose proof Hh as [Hok Hfd Hfda Hr Hra Hf Hm].
  unfold ends, register_direct_on, register_handle. rewrite Hc.
  destruct (cufile_register o (file_direct_on h)) as [err|c] eqn:Hreg.
  - pose proof (cufile_register_error _ _ _ Hreg). split; [done|]. split; [split; try done; destruct Hok as [K1 K2 K3]; by split|].
    split; [done|]. split; [done|]. simpl. rewrite Hc. symmetry. by apply Z.eqb_neq.
  - pose proof (cufile_register_fresh _ _ _ Hreg) as Hfresh.
    assert (Hnone : own_regs h = ∅) by (unfold own_regs; by rewrite Hc).
    rewrite Hnone, (left_id_L ∅ (∪)) in Hr.
    split; [done|]. split; [|done].
    assert (Hregs : own_regs (set_cufile (mkCUFile c true) h) = {[c := file_direct_on h]}) by done.
    split; rewrite ?Hregs; simpl; try done.
    + destruct Hok as [H1 H2 H3]. split; simpl; try done. congruence.
    + by rewrite Hr, <- insert_union_singleton_l.
    + rewrite Hr in Hfresh. by apply map_disjoint_singleton_l.
Qed.

(** What the manager's constructor leaves behind, the members of the handle
    included, when it returns and when it throws. *)
Definition opened_files (F : gset Z) (R : gmap Z Z) (m : CompatModeManager) (h : FileHandle) (o : os)
    : Prop :=
  initialized h = true /\ holds h F R o /\ file_direct_off h <> -1 /\
  cu_registered (cufile_handle h) = negb (preferred m).

Definition partly_opened (F : gset Z) (R : gmap Z Z) (h : FileHandle) (o : os) : Prop :=
  holds h F R o.

Lemma register_with_cufile_spec g requested h F R o :
  building h F R o -> file_direct_on h <> -1 -> file_direct_off h <> -1 ->
  ends (register_with_cufile g requested) (h, o)
    (fun m '(h', o') => opened_files F R m h' o') (fun _ '(h', o') => partly_opened F R h' o').
Proof.
  intros Hb Hon Hoff. unfold register_with_cufile. apply ends_bind.
  eapply ends_mono; [by apply register_direct_on_holds| |done].
  intros err [h' o'] (Hi & Hh & _ & Hoff' & Hreg). cbn beta in *. unfold ends.
  assert (Hoff'' : file_direct_off h' <> -1) by congruence.
  unfold mbind, st_bind, mret, st_ret.
  destruct (bool_decide (requested = AUTO) && negb (err =? 0)) eqn:E.
  - apply andb_true_iff in E as [_ E%negb_true_iff]. rewrite E in Hreg. by split_and!.
  - unfold require. destruct (err =? 0) eqn:E'; simpl; [|done]. by split_and!.
Qed.

Lemma new_manager_spec g path flags mode requested F R h o :
  building h F R o -> file_direct_on h = -1 -> file_direct_off h = -1 ->
  ends (new_manager g path flags mode requested) (h, o)
    (fun m '(h', o') => opened_files F R m h' o') (fun _ '(h', o') => partly_opened F R h' o').
Proof.
  intros Hb Hon Hoff. unfold new_manager. apply ends_bind.
  eapply ends_mono; [by apply open_direct_off_building| |intros e [h' o'] (_ & _ & Hh); exact Hh].
  intros _ [h1 o1] (Hb1 & Hoff1 & Hon1). cbn beta. rewrite Hon in Hon1.
  set (p := is_compat_mode_preferred _ _).
  assert (Hdone : forall h' o' m, preferred m = true -> building h' F R o' -> file_direct_off h' <> -1 ->
    opened_files F R m h' o').
  { intros h' o' m Hp (Hi & Hc & Hh) Ho. split; [done|]. split; [done|]. split; [done|]. by rewrite Hc, Hp. }
  destruct (p && _ && _) eqn:E.
  { apply andb_true_iff in E as [[E _]%andb_true_iff _]. by apply Hdone. }
  apply ends_bind, ends_attempt. eapply ends_mono; [by apply open_direct_on_building| |].
  - intros [] [h2 o2] (Hb2 & Hon2 & Hoff2). cbn beta.
    assert (file_direct_off h2 <> -1) by congruence.
    destruct p eqn:Hp; [by destruct requested; apply Hdone|].
    destruct requested; by apply register_with_cufile_spec.
  - intros e [h2 o2] (Hb2 & ->). cbn beta. destruct requested; [by destruct Hb2 as (_ & _ & ?)| |].
    + apply Hdone; [|done|done]. unfold p. done.
    + by apply Hdone.
Qed.

Lemma new_file_handle_spec g pool_of path flags mode compat F R o :
  open_fds o = F -> registered_fds o = R -> (forall c x, R !! c = Some x -> x ∈ F) ->
  misused o = false ->
  ends (new_file_handle g pool_of path flags mode compat) o
    (fun h o' => holds h F R o' /\ initialized h = true /\ file_direct_off h <> -1 /\
       cu_registered (cufile_handle h) = negb (preferred (compat_mode_manager h)))
    (fun _ o' => open_fds o' = F /\ registered_fds o' = R /\ misused o' = false).
Proof.
  intros Ho Hr Hf Hm. unfold ends, new_file_handle. set (h0 := mkFileHandle _ _ _ _ _ _ _ _).
  assert (Hb : building h0 F R o) by (split; [done|]; split; [done|]; by apply empty_holds).
  pose proof (new_manager_spec g path flags mode compat F R h0 o Hb eq_refl eq_refl) as Hs.
  unfold ends in Hs. destruct (new_manager _ _ _ _ _ _) as [[e|m] [h o']].
  - by apply destroy_members_frees.
  - destruct Hs as (Hi & Hh & Hoff & Hreg). simpl. split_and!; try done.
    destruct Hh as [Hok Hfd Hfda Hr' Hra Hf' Hm']. split; try done.
    destruct Hok as [K1 K2 K3]. by split.
Qed.
End ownership.

(** ** Many handles

    Everything a program can do with the handles it has, [i] and [j] naming
    objects. *)
Inductive handle_op :=
  | Construct (i : nat) (path flags : string) (mode : Z) (compat_mode : CompatMode)
  | MoveConstruct (i j : nat)   (* i from j *)
  | MoveAssign (i j : nat)      (* i = std::move(j) *)
  | Close (i : nat)
  | Destroy (i : nat).

Section lives.
Context `{PlatformLaws}.
Variables (g : gds_setup) (pool_of : string -> option Z).

(** An operation on an object that does not exist, or a construction in the
    place of one that does, does nothing. *)
Definition life_step (op : handle_op) (s : gmap nat FileHandle * os) : gmap nat FileHandle * os :=
  let '(hs, o) := s in
  match op with
  | Construct i path flags mode compat_mode =>
      match hs !! i with
      | Some _ => (hs, o)
      | None =>
          match new_file_handle g pool_of path flags mode compat_mode o with
          | (inr h, o) => (<[i := h]> hs, o)
          | (inl _, o) => (hs, o)
          end
      end
  | MoveConstruct i j =>
      match hs !! j, hs !! i with
      | Some other, None =>
          let '(h, other) := move_handle other in (<[i := h]> (<[j := other]> hs), o)
      | _, _ => (hs, o)
      end
  | MoveAssign i j =>
      if decide (i = j) then (hs, o)
      else match hs !! i, hs !! j with
      | Some h, Some other =>
          let '((h, other), o) := move_assign_handle h other o in (<[i := h]> (<[j := other]> hs), o)
      | _, _ => (hs, o)
      end
  | Close i =>
      match hs !! i with
      | Some h => let '(h, o) := close h o in (<[i := h]> hs, o)
      | None => (hs, o)
      end
  | Destroy i =>
      match hs !! i with
      | Some h => (delete i hs, destroy_handle h o)
      | None => (hs, o)
      end
  end.

(** The handles [hs] own exactly the descriptors [F] and registrations [R],
    each of them once. *)
Inductive store_owns : gmap nat FileHandle -> gset Z -> gmap Z Z -> Prop :=
  | owns_nothing : store_owns ∅ ∅ ∅
  | owns_one i h hs F R :
      store_owns hs F R -> hs !! i = None -> handle_ok h ->
      own_fds h ## F -> own_regs h ##ₘ R ->
      store_owns (<[i := h]> hs) (own_fds h ∪ F) (own_regs h ∪ R).

Lemma own_regs_fds h c x : handle_ok h -> own_regs h !! c = Some x -> x ∈ own_fds h.
Proof.
  intros Hok. unfold own_regs, own_fds. destruct (cu_registered _) eqn:E; [|done].
  intros [_ <-]%lookup_singleton_Some. rewrite (fd_set_opened _ (hk_registered h Hok E)). set_solver.
Qed.

Lemma store_frame hs F R c x : store_owns hs F R -> R !! c = Some x -> x ∈ F.
Proof.
  induction 1 as [|i h hs F R _ IH _ Hok _ Hd]; [done|].
  intros [Hc|Hc]%lookup_union_Some; [| |done].
  - apply own_regs_fds in Hc; [|done]. set_solver.
  - apply IH in Hc. set_solver.
Qed.

(** Any handle of the store can be taken out of it. *)
Lemma store_take hs F R i h :
  store_owns hs F R -> hs !! i = Some h ->
  exists F' R', store_owns (delete i hs) F' R' /\ handle_ok h /\
    F = own_fds h ∪ F' /\ own_fds h ## F' /\ R = own_regs h ∪ R' /\ own_regs h ##ₘ R'.
Proof.
  intros Hs. revert i h. induction Hs as [|j k hs F R Hs IH Hj Hok Hd Hdr]; intros i h Hi; [done|].
  destruct (decide (i = j)) as [->|Hne].
  - rewrite lookup_insert_eq in Hi. injection Hi as ->.
    rewrite delete_insert_id by done. by exists F, R.
  - rewrite lookup_insert_ne in Hi by done.
    destruct (IH i h Hi) as (F' & R' & Hs' & Hokh & -> & Hdh & -> & Hdrh).
    apply map_disjoint_union_r in Hdr as [Hdr1 Hdr2].
    exists (own_fds k ∪ F'), (own_regs k ∪ R'). split_and!; [|done|set_solver|set_solver| |].
    + rewrite delete_insert_ne by done. apply owns_one; [done| |done|set_solver|done].
      by rewrite lookup_delete_ne.
    + rewrite !(assoc_L (∪)). f_equal. by apply map_union_comm.
    + apply map_disjoint_union_r. split; [by apply map_disjoint_sym|done].
Qed.

Definition life_ok (s : gmap nat FileHandle * os) : Prop :=
  store_owns s.1 (open_fds s.2) (registered_fds s.2) /\ misused s.2 = false.

(** Out of the store, and back into it. *)
Lemma life_take hs o i h :
  life_ok (hs, o) -> hs !! i = Some h ->
  exists F R, store_owns (delete i hs) F R /\ holds h F R o.
Proof.
  intros [Hs Hm] Hi. simpl in *.
  destruct (store_take _ _ _ i h Hs Hi) as (F & R & Hs' & Hok & Hf & Hd & Hr & Hdr).
  exists F, R. split; [done|]. split; try done. intros c x Hc. by eapply store_frame.
Qed.

Lemma life_put hs F R o i h :
  store_owns (delete i hs) F R -> holds h F R o -> life_ok (<[i := h]> hs, o).
Proof.
  intros Hs [Hok Hf Hd Hr Hdr _ Hm]. split; [|done]. simpl. rewrite Hf, Hr, <- insert_delete_eq.
  apply owns_one; try done. apply lookup_delete_eq.
Qed.

Lemma owns_put hs F R i h :
  store_owns hs F R -> hs !! i = None -> handle_ok h -> own_fds h = ∅ -> own_regs h = ∅ ->
  store_owns (<[i := h]> hs) F R.
Proof.
  intros Hs Hi Hok Hf Hr. rewrite <- (left_id_L ∅ (∪) F), <- (left_id_L ∅ (∪) R), <- Hf, <- Hr.
  apply owns_one; try done; rewrite ?Hf, ?Hr; [set_solver|apply map_disjoint_empty_l].
Qed.

(** A handle that has been moved from. *)
Lemma moved_from_owns_nothing other :
  let left := (move_handle other).2 in
  handle_ok left /\ own_fds left = ∅ /\ own_regs left = ∅.
Proof. split; [by split|]. by split. Qed.

Lemma life_move_assign hs o i j h other :
  i <> j -> life_ok (hs, o) -> hs !! i = Some h -> hs !! j = Some other ->
  life_ok (<[i := other]> (<[j := (move_handle other).2]> hs), (close h o).2).
Proof.
  intros Hne Hok Hi Hj. destruct (life_take hs o i h Hok Hi) as (F & R & Hs & Hh).
  pose proof (close_holds h F R o Hh) as Hc. destruct (close h o) as [h' o']. cbn [snd].
  destruct Hc as (H1 & H2 & H3 & _ & Hh').
  destruct (holds_nothing h' F R o' H1 H2 H3 Hh') as (<- & <- & Hm). split; [|done]. cbn [fst snd].
  assert (Hj' : delete i hs !! j = Some other) by by rewrite lookup_delete_ne.
  destruct (store_take _ _ _ j other Hs Hj') as (F'' & R'' & Hs'' & Hoko & Hf & Hd & Hr & Hdr).
  destruct (moved_from_owns_nothing other) as (Hokl & Hfl & Hrl).
  rewrite Hf, Hr.
  assert (Hmap : <[i := other]> (<[j := (move_handle other).2]> hs)
    = <[i := other]> (<[j := (move_handle other).2]> (delete j (delete i hs)))).
  { apply map_eq. intros k. destruct (decide (k = i)) as [->|Hki]; [by rewrite !lookup_insert_eq|].
    rewrite !(lookup_insert_ne _ i k) by done.
    destruct (decide (k = j)) as [->|Hkj]; [by rewrite !lookup_insert_eq|].
    by rewrite !lookup_insert_ne, !lookup_delete_ne. }
  rewrite Hmap. apply owns_one; try done.
  - apply owns_put; [done|apply lookup_delete_eq|done..].
  - by rewrite lookup_insert_ne, lookup_delete_ne, lookup_delete_eq by done.
Qed.

Lemma life_step_ok op s : life_ok s -> life_ok (life_step op s).
Proof.
  destruct s as [hs o]. intros Hok. destruct op as [i path flags mode c|i j|i j|i|i]; cbn [life_step].
  - destruct (hs !! i) eqn:Hi; [done|]. destruct Hok as [Hs Hm]. cbn [fst snd] in *.
    pose proof (new_file_handle_spec g pool_of path flags mode c _ _ o eq_refl eq_refl
      (fun c x => store_frame _ _ _ c x Hs) Hm) as Hn.
    unfold ends in Hn. destruct (new_file_handle _ _ _ _ _ _ o) as [[e|h] o'].
    + destruct Hn as (Hf & Hr & Hm'). split; [|done]. simpl. by rewrite Hf, Hr.
    + destruct Hn as (Hh & _). eapply life_put; [|exact Hh]. by rewrite delete_id.
  - destruct (hs !! j) as [other|] eqn:Hj; [|done]. destruct (hs !! i) eqn:Hi; [done|].
    destruct Hok as [Hs Hm]. cbn [move_handle].
    destruct (moved_from_owns_nothing other) as (Hokl & Hfl & Hrl).
    destruct (store_take _ _ _ j other Hs Hj) as (F & R & Hs' & Hoko & Hf & Hd & Hr & Hdr).
    split; [|done]. cbn [fst snd] in *. rewrite Hf, Hr, <- (insert_delete_eq hs j).
    apply owns_one; try done.
    + apply owns_put; [done|apply lookup_delete_eq|done..].
    + destruct (decide (i = j)) as [->|]; [congruence|].
      by rewrite lookup_insert_ne, lookup_delete_ne by done.
  - destruct (decide (i = j)) as [|Hne]; [done|].
    destruct (hs !! i) as [h|] eqn:Hi; [|done]. destruct (hs !! j) as [other|] eqn:Hj; [|done].
    pose proof (life_move_assign hs o i j h other Hne Hok Hi Hj) as Hm.
    unfold move_assign_handle. by destruct (close h o).
  - destruct (hs !! i) as [h|] eqn:Hi; [|done].
    destruct (life_take hs o i h Hok Hi) as (F & R & Hs & Hh).
    pose proof (close_holds h F R o Hh) as Hc. destruct (close h o) as [h' o'].
    destruct Hc as (_ & _ & _ & _ & Hh'). by eapply life_put.
  - destruct (hs !! i) as [h|] eqn:Hi; [|done].
    destruct (life_take hs o i h Hok Hi) as (F & R & Hs & Hh).
    destruct (destroy_handle_frees h F R o Hh) as (Hf & Hr & Hm).
    split; [|done]. simpl. by rewrite Hf, Hr.
Qed.

Definition live (ops : list handle_op) (s : gmap nat FileHandle * os) : gmap nat FileHandle * os :=
  foldl (fun s op => life_step op s) s ops.

Lemma live_ok ops s : life_ok s -> life_ok (live ops s).
Proof.
  unfold live. revert s. induction ops as [|op ops IH]; intros s Hs; [done|]. simpl.
  by apply IH, life_step_ok.
Qed.

Lemma store_closed hs F R :
  store_owns hs F R -> map_Forall (fun _ h => initialized h = false) hs -> F = ∅ /\ R = ∅.
Proof.
  induction 1 as [|i h hs F R _ IH Hi Hok _ _]; [done|]. intros Hall.
  apply map_Forall_insert in Hall as [Hh Hall]; [|done]. destruct (IH Hall) as [-> ->].
  destruct (hk_closed h Hok Hh) as (H1 & H2 & H3).
  unfold own_fds, own_regs. rewrite H1, H2, H3. split; [|by rewrite (left_id_L ∅ (∪))].
  change (fd_set (-1)) with (∅ : gset Z). by rewrite !(left_id_L ∅ (∪)).
Qed.
End lives.

(** C13. However handles are constructed (successfully or not), moved,
    move-assigned, closed and destroyed, every open descriptor and every cuFile
    registration belongs to exactly one handle, none is ever released twice,
    no descriptor is closed while cuFile still holds it, and once every
    remaining handle is closed the process has no descriptor left. *)
Theorem handles_own_descriptors `{PlatformLaws} (g : gds_setup) (pool_of : string -> option Z)
    (ops : list handle_op) (calls : nat) :
  let '(hs, o) := live g pool_of ops (∅, mkOs ∅ ∅ calls false) in
  misused o = false /\ store_owns hs (open_fds o) (registered_fds o) /\
  (map_Forall (fun _ h => initialized h = false) hs -> open_fds o = ∅ /\ registered_fds o = ∅).
Proof.
  pose proof (live_ok g pool_of ops (∅, mkOs ∅ ∅ calls false)) as Hl.
  destruct (live g pool_of ops (∅, mkOs ∅ ∅ calls false)) as [hs o].
  destruct Hl as [Hs Hm]; [split; [apply owns_nothing|done]|]. cbn [fst snd] in *.
  split; [done|]. split; [done|]. intros Hall. by eapply store_closed.
Qed.

(** A platform: the lowest free descriptor from 3 on, and cuFile handles that
    count up; O_DIRECT is refused for paths that end in a tilde. *)
Definition next_fd (l : list Z) : Z := foldr Z.max 2 l + 1.

#[export] Instance test_platform : Platform :=
  {| sys_open o path flags mode :=
       if bool_decide (path = "tmpfs") && negb (Z.land flags O_DIRECT =? 0) then inl 22
       else inr (next_fd (elements (open_fds o)));
     cufile_register o fd := inr (next_fd (elements (dom (registered_fds o)))) |}.

Lemma next_fd_above l x : x ∈ l -> x < next_fd l.
Proof.
  unfold next_fd. induction l as [|y l IH]; [by intros ?%elem_of_nil|].
  intros [->|Hx]%elem_of_cons; simpl; [|specialize (IH Hx)]; lia.
Qed.

Lemma next_fd_pos l : 0 <= next_fd l.
Proof. unfold next_fd. induction l; simpl; lia. Qed.

#[export] Instance test_platform_laws : PlatformLaws.
Proof.
  split; simpl; try done.
  - intros o path flags mode fd. case_match; [done|]. intros [= <-]. split; [apply next_fd_pos|].
    intros Hin%elem_of_elements%next_fd_above. lia.
  - intros o fd h [= <-]. apply not_elem_of_dom. intros Hin%elem_of_elements%next_fd_above. lia.
Qed.

(** Three files, one without Direct I/O, one whose constructor throws. *)
Definition sample_ops : list handle_op :=
  [Construct 0 "a" "r" 420 AUTO; Construct 1 "tmpfs" "w" 420 AUTO; Construct 2 "tmpfs" "r" 420 OFF;
   MoveConstruct 3 0; MoveAssign 1 3; Close 3; Destroy 0].

Definition sample_setup : gds_setup := mkSetup true false false true.

Example sample_life :
  let '(hs, o) := live sample_setup (fun _ => None) sample_ops (∅, mkOs ∅ ∅ 0 false) in
  elements (open_fds o) = [3; 4] /\ map_to_list (registered_fds o) = [(3, 4)] /\
  (file_direct_on <$> hs !! 1%nat) = Some 4 /\ misused o = false.
Proof. vm_compute. split_and!; reflexivity. Qed.

Example handles_own_descriptors_witness :
  let '(hs, o) := live sample_setup (fun _ => None) (sample_ops ++ [Close 1]) (∅, mkOs ∅ ∅ 0 false) in
  misused o = false /\ open_fds o = ∅ /\ registered_fds o = ∅.
Proof.
  pose proof (handles_own_descriptors sample_setup (fun _ => None) (sample_ops ++ [Close 1]) 0) as H.
  destruct (live _ _ _ _) as [hs o] eqn:E. destruct H as (Hm & _ & Hc). split; [exact Hm|]. apply Hc.
  assert (Hhs : hs = (live sample_setup (fun _ => None) (sample_ops ++ [Close 1]) (∅, mkOs ∅ ∅ 0 false)).1)
    by by rewrite E.
  rewrite Hhs. apply (bool_decide_unpack _). vm_compute. exact I.
Defined.

(** ** Which mode a handle ends up in *)

(** What the documentation of [CompatMode] promises, given whether the file
    opens with O_DIRECT and whether cuFile accepts it: the mode preferred for
    synchronous I/O, or [None] when opening fails. *)
Definition promised_mode (available direct_ok register_ok : bool) (requested : CompatMode)
    : option bool :=
  match requested with
  | ON => Some true
  | OFF => if direct_ok && register_ok then Some false else None
  | AUTO => Some (negb (available && direct_ok && register_ok))
  end.

Definition succeeds {E A} (r : E + A) : bool := match r with inr _ => true | inl _ => false end.

Section modes.
Context `{PlatformLaws}.
Variables (g : gds_setup) (path flags : string) (mode : Z).

(** Whether the second opening works, and the registration of what it gave. *)
Definition direct_opens (o : os) : bool := succeeds (open_fd path flags true mode o).1.

Definition cufile_accepts (o : os) : bool :=
  match open_fd path flags true mode o with
  | (inr fd, o) => succeeds (cufile_register o fd)
  | (inl _, _) => false
  end.

Lemma register_decided requested h o :
  cu_registered (cufile_handle h) = false ->
  let accepts := succeeds (cufile_register o (file_direct_on h)) in
  match register_with_cufile g requested (h, o) with
  | (inr m, (h', _)) =>
      m = mkManager requested (negb accepts) (negb accepts || config_path_empty g) /\
      cu_registered (cufile_handle h') = accepts /\ (requested <> AUTO -> accepts = true)
  | (inl _, _) => requested <> AUTO /\ accepts = false
  end.
Proof.
  intros Hc. unfold register_with_cufile, register_direct_on, register_handle.
  unfold mbind, st_bind. rewrite Hc.
  destruct (cufile_register o (file_direct_on h)) as [err|c] eqn:Hr; simpl.
  - pose proof (cufile_register_error _ _ _ Hr) as He. apply Z.eqb_neq in He. rewrite He.
    destruct requested; unfold require; simpl; rewrite ?He; simpl; by rewrite ?Hc.
  - destruct requested; unfold require; simpl; done.
Qed.

Lemma new_manager_decided requested h o :
  cu_registered (cufile_handle h) = false -> file_direct_on h = -1 -> file_direct_off h = -1 ->
  match open_fd path flags false mode o with
  | (inl e, _) => (new_manager g path flags mode requested (h, o)).1 = inl e
  | (inr _, o1) =>
      match new_manager g path flags mode requested (h, o),
            promised_mode (cufile_available g) (direct_opens o1) (cufile_accepts o1) requested with
      | (inr m, (h', _)), Some p =>
          m = mkManager requested p (p || config_path_empty g) /\
          cu_registered (cufile_handle h') = negb p
      | (inl _, _), None => True
      | _, _ => False
      end
  end.
Proof.
  intros Hc Hon Hoff. unfold new_manager, open_direct_off, wrapper_open, direct_opens, cufile_accepts.
  unfold mbind, st_bind. rewrite Hoff. change (negb (opened (-1))) with true. cbn iota.
  destruct (open_fd path flags false mode o) as [[e|off] o1]; [done|].
  set (p := is_compat_mode_preferred _ _).
  assert (Hp : p = match requested with ON => true | OFF => false | AUTO => negb (cufile_available g) end)
    by (unfold p; destruct requested, (cufile_available g); reflexivity).
  destruct (p && _ && _) eqn:E.
  { apply andb_true_iff in E as [[E _]%andb_true_iff _]. rewrite E in Hp. simpl.
    destruct requested; simpl; [done| |]; rewrite ?Hc; [done|].
    by destruct (cufile_available g). }
  unfold attempt, open_direct_on, wrapper_open. change (file_direct_on (set_direct_off off h)) with (file_direct_on h).
  rewrite Hon.
  change (negb (opened (-1))) with true. cbn iota.
  destruct (open_fd path flags true mode o1) as [[e|on] o2]; simpl.
  - rewrite ?andb_false_r. simpl.
    destruct requested; simpl; rewrite ?Hc; [done|by rewrite Hp|by rewrite ?andb_false_r].
  - destruct p.
    + destruct requested; simpl; rewrite ?Hc; [done|done|]. by destruct (cufile_available g).
    + pose proof (register_decided requested (set_direct_on on (set_direct_off off h)) o2 Hc) as Hr.
      simpl in Hr. destruct requested; [| |]; try done.
      all: destruct (register_with_cufile _ _ _) as [[e|m] [h' o']];
        destruct (cufile_register o2 on) as [err|c]; simpl in *; try tauto; try by destruct Hr.
      all: destruct Hr as (-> & Hreg & Ha); try (specialize (Ha ltac:(done)); done).
      all: destruct (cufile_available g); simpl in *; try done; by rewrite Hreg.
Qed.
End modes.

(** Opening a file gives the mode that was promised: [ON] is always the
    POSIX path, [OFF] is the cuFile path or an error, [AUTO] is the cuFile path
    exactly when cuFile is available, the file opens with O_DIRECT and cuFile
    accepts it; the file is registered exactly on the cuFile path, and streams
    are used only when cuFile also has a configuration file. *)
Theorem open_compat_mode `{PlatformLaws} (g : gds_setup) (pool_of : string -> option Z)
    (path flags : string) (mode : Z) (requested : CompatMode) (o : os) :
  match open_fd path flags false mode o with
  | (inl e, _) => (new_file_handle g pool_of path flags mode requested o).1 = inl e
  | (inr _, o1) =>
      match new_file_handle g pool_of path flags mode requested o,
            promised_mode (cufile_available g) (direct_opens path flags mode o1)
              (cufile_accepts path flags mode o1) requested with
      | (inr h, _), Some p =>
          compat_mode_manager h = mkManager requested p (p || config_path_empty g) /\
          cu_registered (cufile_handle h) = negb p
      | (inl _, _), None => True
      | _, _ => False
      end
  end.
Proof.
  unfold new_file_handle. set (h0 := mkFileHandle _ _ _ _ _ _ _ _).
  pose proof (new_manager_decided g path flags mode requested h0 o eq_refl eq_refl eq_refl) as Hn.
  destruct (open_fd path flags false mode o) as [[e|fd] o1];
    destruct (new_manager g path flags mode requested (h0, o)) as [[e'|m] [h o']]; simpl in *;
    try done; congruence.
Qed.

Example open_compat_mode_witness :
  let o := mkOs ∅ ∅ 0 false in
  (open_fd "a" "r" false 420 o).1 = inr 3 /\
  match new_file_handle sample_setup (fun _ => None) "a" "r" 420 AUTO o with
  | (inr h, _) => compat_mode_manager h = mkManager AUTO false false /\
                  cu_registered (cufile_handle h) = true
  | _ => False
  end /\
  match new_file_handle sample_setup (fun _ => None) "tmpfs" "r" 420 AUTO o with
  | (inr h, _) => compat_mode_manager h = mkManager AUTO true true /\
                  cu_registered (cufile_handle h) = false
  | _ => False
  end.
Proof.
  split; [vm_compute; reflexivity|].
  pose proof (open_compat_mode sample_setup (fun _ => None) "a" "r" 420 AUTO (mkOs ∅ ∅ 0 false)) as H1.
  pose proof (open_compat_mode sample_setup (fun _ => None) "tmpfs" "r" 420 AUTO (mkOs ∅ ∅ 0 false)) as H2.
  split; vm_compute in H1, H2 |- *; assumption.
Defined.
