(* ===== verification/Cuda.v ===== *)
(** * CUDA pointers and contexts, and the error checks

    The CUDA queries of [src/utils.cpp] and the checks of
    [include/kvikio/error.hpp] they go through.  The driver is a parameter: an
    error code and a value for each query.  What the code changes is modelled:
    the stack of current contexts of the thread and the cache of primary
    contexts of the process. *)

From stdpp Require Import base list strings gmap.
From Stdlib Require Import ZArith Lia.
From S2P Require Import Prelude.

#[local] Open Scope Z_scope.

(** ** Error checks *)

Definition CUDA_SUCCESS : Z := 0.
Definition CUDA_ERROR_INVALID_VALUE : Z := 1.
Definition CUDA_ERROR_NOT_INITIALIZED : Z := 3.
Definition CUDA_ERROR_STUB_LIBRARY : Z := 34.

(** [CUfileError_t] *)
Record CUfileError_t := mkCUfileError { err : Z; cu_err : Z }.

Definition CU_FILE_SUCCESS : Z := 0.
Definition CUFILEOP_BASE_ERR : Z := 5000.
Definition CU_FILE_CUDA_DRIVER_ERROR : Z := CUFILEOP_BASE_ERR + 20.

(** The texts of error codes: [GetErrorName] and [GetErrorString], [None] for
    [CUDA_ERROR_INVALID_VALUE]; [cufileop_status_error]; [strerror]. *)
Class ErrorTexts := {
  GetErrorName : Z -> option string;
  GetErrorString : Z -> option string;
  cufileop_status_error : Z -> string;
  strerror_text : Z -> string }.

Section errors.
Context `{ErrorTexts}.

(** The exceptions' messages are without the source position. *)
Definition cuda_error (error : Z) : exn :=
  if error =? CUDA_ERROR_STUB_LIBRARY then
    CUfileException "CUDA_ERROR_STUB_LIBRARY(The CUDA driver loaded is a stub library)"
  else
    CUfileException (default "unknown" (GetErrorName error) +:+ "("
                       +:+ default "unknown" (GetErrorString error) +:+ ")").

Definition cuda_driver_try {S} (error : Z) : st S unit :=
  require (error =? CUDA_SUCCESS) (cuda_error error).

Definition cufile_try {S} (error : CUfileError_t) : st S unit :=
  if negb (err error =? CU_FILE_SUCCESS) then
    _ ← (if err error =? CU_FILE_CUDA_DRIVER_ERROR then cuda_driver_try (cu_err error) else mret tt);
    throw (CUfileException (cufileop_status_error (err error)))
  else mret tt.

Definition bytes_error (nbytes_done : Z) : exn :=
  let err := - nbytes_done in
  CUfileException (if err >? CUFILEOP_BASE_ERR then cufileop_status_error err
                   else strerror_text err).

Definition cufile_check_bytes_done {S} (nbytes_done : Z) : st S unit :=
  require (negb (nbytes_done <? 0)) (bytes_error nbytes_done).

Definition check_linux_call {S} (return_value error_value : Z) (extra_msg : string) : st S unit :=
  require (negb (return_value =? error_value)) (GenericSystemError extra_msg).
End errors.

(** A check that fails does not change the state. *)
Lemma driver_try_ends `{ErrorTexts} {S} (error : Z) (s : S) Q (E : exn -> S -> Prop) :
  (forall e, E e s) -> Q tt s -> ends (cuda_driver_try error) s Q E.
Proof. intros HE HQ. unfold ends, cuda_driver_try, require. by destruct (_ =? _); simpl. Qed.

Lemma cufile_try_ends `{ErrorTexts} {S} e (s : S) Q (E : exn -> S -> Prop) :
  (forall x, E x s) -> Q tt s -> ends (cufile_try e) s Q E.
Proof.
  intros HE HQ. unfold cufile_try, ends. destruct (negb _); [|done].
  unfold mbind, st_bind, cuda_driver_try, require. destruct (err e =? _); [|apply HE].
  destruct (cu_err e =? _); apply HE.
Qed.

(** ** Pointers and contexts *)

Record CudaProcess := mkProcess {
  ctx_stack : list Z;            (* of the calling thread; the top is current *)
  primary_cache : gmap Z Z;      (* [_cache], by device ordinal *)
  retained : list Z }.           (* primary contexts retained, by ordinal *)

(** The driver's answers, each an error code and a value. *)
Class CudaDriver := {
  pointer_memory_type : Z -> Z * Z;
  pointer_device_ordinal : Z -> Z * Z;
  pointer_context : Z -> Z * Z;
  pointer_device_pointer : Z -> Z -> Z * Z;    (* in the current context *)
  DeviceGet : Z -> Z * Z;
  DevicePrimaryCtxRetain : Z -> Z * Z;
  CtxGetCurrent : Z;
  CtxPushCurrent : Z -> Z;
  CtxPopCurrent : Z -> Z;
  MemGetAddressRange : Z -> Z -> Z * (Z * Z) }. (* in the current context *)

Definition CU_MEMORYTYPE_HOST : Z := 1.

Section cuda.
Context `{ErrorTexts} `{CudaDriver}.

(** The current context, 0 when there is none. *)
Definition current_context (s : CudaProcess) : Z := default 0 (head (ctx_stack s)).

Definition is_host_memory (ptr : Z) : st CudaProcess bool :=
  let '(result, memtype) := pointer_memory_type ptr in
  if result =? CUDA_ERROR_NOT_INITIALIZED then mret true
  else
    _ ← cuda_driver_try result;
    mret ((memtype =? 0) || (memtype =? CU_MEMORYTYPE_HOST)).

Definition get_device_ordinal_from_pointer (dev_ptr : Z) : st CudaProcess Z :=
  let '(result, ordinal) := pointer_device_ordinal dev_ptr in
  _ ← cuda_driver_try result;
  mret ordinal.

(** [DevicePrimaryCtxRetain] and its effect on the driver's count. *)
Definition retain_primary (ordinal : Z) : st CudaProcess Z :=
  let '(e, dev) := DeviceGet ordinal in
  _ ← cuda_driver_try e;
  let '(e, ctx) := DevicePrimaryCtxRetain dev in
  _ ← cuda_driver_try e;
  _ ← modify (fun s => mkProcess (ctx_stack s) (primary_cache s) (retained s ++ [ordinal]));
  mret ctx.

(** Under the function's mutex. *)
Definition get_primary_cuda_context (ordinal : Z) : st CudaProcess Z :=
  s ← get_st;
  match primary_cache s !! ordinal with
  | Some ctx => mret ctx
  | None =>
      ctx ← retain_primary ordinal;
      _ ← modify (fun s => mkProcess (ctx_stack s) (<[ordinal := ctx]> (primary_cache s)) (retained s));
      mret ctx
  end.

Definition get_context_associated_pointer (dev_ptr : Z) : st CudaProcess (option Z) :=
  let '(err, ctx) := pointer_context dev_ptr in
  if (err =? CUDA_SUCCESS) && negb (ctx =? 0) then mret (Some ctx)
  else
    _ ← (if negb (err =? CUDA_ERROR_INVALID_VALUE) then cuda_driver_try err else mret tt);
    mret None.

Definition current_context_can_access_pointer (dev_ptr : Z) : st CudaProcess bool :=
  s ← get_st;
  let '(err, current_ctx_dev_ptr) := pointer_device_pointer (current_context s) dev_ptr in
  if (err =? CUDA_SUCCESS) && (current_ctx_dev_ptr =? dev_ptr) then mret true
  else
    _ ← (if negb (err =? CUDA_ERROR_INVALID_VALUE) then cuda_driver_try err else mret tt);
    mret false.

Definition get_context_from_pointer (devPtr : Z) : st CudaProcess Z :=
  associated ← get_context_associated_pointer devPtr;
  match associated with
  | Some ctx => mret ctx
  | None =>
      _ ← cuda_driver_try CtxGetCurrent;
      s ← get_st;
      let ctx := current_context s in
      ok ← (if negb (ctx =? 0) then current_context_can_access_pointer devPtr else mret false);
      if ok : bool then mret ctx
      else get_device_ordinal_from_pointer devPtr ≫= get_primary_cuda_context
  end.

(** The constructor and the destructor of [PushAndPopContext]; the latter only
    reports a failure. *)
Definition push_context (ctx : Z) : st CudaProcess unit :=
  _ ← cuda_driver_try (CtxPushCurrent ctx);
  modify (fun s => mkProcess (ctx :: ctx_stack s) (primary_cache s) (retained s)).

Definition pop_context (s : CudaProcess) : CudaProcess :=
  if CtxPopCurrent (current_context s) =? CUDA_SUCCESS
  then mkProcess (tail (ctx_stack s)) (primary_cache s) (retained s) else s.

(** [{ PushAndPopContext c(ctx); body }] *)
Definition with_context {A} (ctx : Z) (body : st CudaProcess A) : st CudaProcess A := fun s =>
  match push_context ctx s with
  | (inl e, s) => (inl e, s)
  | (inr _, s) => let '(r, s) := body s in (r, pop_context s)
  end.

(** [ctx] is [nullptr] or a context the caller already has. *)
Definition get_alloc_info (devPtr : Z) (ctx : option Z) : st CudaProcess (Z * Z * Z) :=
  ctx ← match ctx with Some ctx => mret ctx | None => get_context_from_pointer devPtr end;
  with_context ctx
    (s ← get_st;
     let '(err, (base_ptr, base_size)) := MemGetAddressRange (current_context s) devPtr in
     _ ← cuda_driver_try err;
     mret (base_ptr, base_size, devPtr -% base_ptr)).

(** ** What the queries leave behind *)

(** The documented behaviour of the driver: a pushed context can be popped, and
    an address range contains the pointer. *)
Class CudaDriverLaws := {
  pop_pushed ctx : CtxPushCurrent ctx = CUDA_SUCCESS -> CtxPopCurrent ctx = CUDA_SUCCESS;
  range_contains ctx p base n : MemGetAddressRange ctx p = (CUDA_SUCCESS, (base, n)) ->
    0 <= base <= p /\ p < base + n /\ base + n <= SIZE_MOD }.

(** Each device's primary context has been retained once and is in the cache. *)
Definition cache_ok (s : CudaProcess) : Prop :=
  NoDup (retained s) /\ forall o, o ∈ retained s <-> is_Some (primary_cache s !! o).

(** [s'] differs from [s] at most by more cached contexts. *)
Definition settled (s s' : CudaProcess) : Prop :=
  ctx_stack s' = ctx_stack s /\ primary_cache s ⊆ primary_cache s' /\ cache_ok s'.

Lemma settled_refl s : cache_ok s -> settled s s.
Proof. done. Qed.

Lemma settled_trans s1 s2 s3 : settled s1 s2 -> settled s2 s3 -> settled s1 s3.
Proof. intros (H1 & H2 & H3) (K1 & K2 & K3). split; [congruence|]. split; [by etrans|done]. Qed.

(** An operation that settles, with what it returns. *)
Definition settles {A} (m : st CudaProcess A) (Q : A -> Prop) : Prop :=
  forall s, cache_ok s -> ends m s (fun a s' => settled s s' /\ Q a) (fun _ => settled s).

Lemma settles_ret {A} (a : A) (Q : A -> Prop) : Q a -> settles (mret a) Q.
Proof. by intros HQ s Hs. Qed.

Lemma settles_bind {A B} (m : st CudaProcess A) (f : A -> st CudaProcess B) P Q :
  settles m P -> (forall a, P a -> settles (f a) Q) -> settles (m ≫= f) Q.
Proof.
  intros Hm Hf s Hs. apply ends_bind. eapply ends_mono; [by apply Hm| |done].
  intros a s1 [H1 Ha]. eapply ends_mono; [apply (Hf a Ha s1), H1|..].
  - intros b s2 [H2 Hb]. split; [by eapply settled_trans|done].
  - intros e s2 H2. by eapply settled_trans.
Qed.

Lemma settles_get {A} (f : CudaProcess -> st CudaProcess A) Q :
  (forall s, settles (f s) Q) -> settles (get_st ≫= f) Q.
Proof. intros Hf s Hs. by apply (Hf s s). Qed.

Lemma settles_try e : settles (cuda_driver_try e) (fun _ => e = CUDA_SUCCESS).
Proof. intros s Hs. unfold cuda_driver_try, require. destruct (e =? CUDA_SUCCESS) eqn:He; by bool_to_prop. Qed.

Lemma settles_weaken {A} (m : st CudaProcess A) (P Q : A -> Prop) :
  settles m P -> (forall a, P a -> Q a) -> settles m Q.
Proof. intros Hm HPQ s Hs. eapply ends_mono; [by apply Hm| |done]. naive_solver. Qed.
End cuda.

(** ** Shared page tables

    [is_ats_available] of [src/mmap.cpp].  The answers of the driver do not
    change, so that the record can be made again at each call. *)

(** The number of devices; an attribute of a device; the device of a context. *)
Class AtsDriver := {
  DeviceGetCount : Z * Z;
  DeviceGetAttribute : Z -> Z * Z;
  CtxGetDevice : Z -> Z * Z }.

Section ats.
Context `{ErrorTexts} `{CudaDriver} `{AtsDriver}.

Definition driver_value {A} (answer : Z * A) : result A :=
  _ ← expect (answer.1 =? CUDA_SUCCESS) (cuda_error answer.1); mret answer.2.

Definition ats_record_device (record : gmap Z Z) (device_ordinal : Z) : result (gmap Z Z) :=
  device_handle ← driver_value (DeviceGet device_ordinal);
  attr ← driver_value (DeviceGetAttribute device_handle);
  mret (<[device_handle := attr]> record).

Definition ats_availability : result (gmap Z Z) :=
  num_devices ← driver_value DeviceGetCount;
  foldM ats_record_device ∅ (seqZ 0 num_devices).

(** In the current context [ctx]. *)
Definition is_ats_available (ctx : Z) : result bool :=
  ats_availability ← ats_availability;
  device_handle ← driver_value (CtxGetDevice ctx);
  match ats_availability !! device_handle with
  | Some attr => mret (negb (attr =? 0))
  | None => Err (OutOfRange "_Map_base::at")
  end.

Lemma driver_value_terminates {A} (answer : Z * A) : driver_value answer <> NoFuel.
Proof. unfold driver_value, expect. by destruct (_ =? _). Qed.

Lemma ats_record_terminates record ordinals : foldM ats_record_device record ordinals <> NoFuel.
Proof.
  apply foldM_fuel. intros m i. unfold ats_record_device.
  pose proof (driver_value_terminates (DeviceGet i)). destruct (driver_value (DeviceGet i)) as [d| |]; try done.
  cbn [mbind result_bind]. pose proof (driver_value_terminates (DeviceGetAttribute d)).
  by destruct (driver_value (DeviceGetAttribute d)).
Qed.

Lemma is_ats_available_terminates ctx : is_ats_available ctx <> NoFuel.
Proof.
  unfold is_ats_available, ats_availability.
  pose proof (driver_value_terminates DeviceGetCount). destruct (driver_value DeviceGetCount) as [n| |]; try done.
  cbn [mbind result_bind]. pose proof (ats_record_terminates ∅ (seqZ 0 n)). destruct (foldM _ _ _) as [m| |]; try done.
  cbn [mbind result_bind]. pose proof (driver_value_terminates (CtxGetDevice ctx)).
  destruct (driver_value (CtxGetDevice ctx)) as [d| |]; try done. cbn [mbind result_bind]. by destruct (m !! d).
Qed.

(** The record has the attribute of every device whose handle it has. *)
Lemma ats_record_entries record ordinals record' :
  foldM ats_record_device record ordinals = Ok record' ->
  (forall d a, record !! d = Some a -> DeviceGetAttribute d = (CUDA_SUCCESS, a)) ->
  forall d a, record' !! d = Some a -> DeviceGetAttribute d = (CUDA_SUCCESS, a).
Proof.
  revert record. induction ordinals as [|i ordinals IH]; intros record; simpl; [by intros [= <-]|].
  destruct (ats_record_device record i) as [m| |] eqn:Hm; simpl; try done. intros Hf Hr. apply (IH m Hf).
  unfold ats_record_device, driver_value in Hm. destruct (DeviceGet i) as [e h]. unfold expect in Hm.
  simpl in Hm. destruct (e =? CUDA_SUCCESS); simpl in Hm; [|done].
  destruct (DeviceGetAttribute h) as [e' a'] eqn:Ha. simpl in Hm. destruct (e' =? CUDA_SUCCESS) eqn:He; simpl in Hm; [|done].
  bool_to_prop. injection Hm as <-. intros d a. rewrite lookup_insert_Some.
  intros [[<- <-]|[_ Hd]]; [by rewrite Ha, He|by apply Hr].
Qed.

(** What [is_ats_available] answers is the attribute of the device of the
    current context. *)
Lemma is_ats_available_spec ctx b :
  is_ats_available ctx = Ok b ->
  exists device attr, CtxGetDevice ctx = (CUDA_SUCCESS, device) /\
    DeviceGetAttribute device = (CUDA_SUCCESS, attr) /\ b = negb (attr =? 0).
Proof.
  unfold is_ats_available, ats_availability. destruct (driver_value DeviceGetCount) as [n| |]; simpl; try done.
  destruct (foldM _ _ _) as [m| |] eqn:Hm; simpl; try done.
  unfold driver_value at 1, expect. destruct (CtxGetDevice ctx) as [e d] eqn:Hc. simpl.
  destruct (e =? CUDA_SUCCESS) eqn:He; simpl; [|done]. bool_to_prop.
  destruct (m !! d) as [a|] eqn:Hd; [|done]. intros [= <-]. exists d, a. rewrite He. split_and!; try done.
  by apply (ats_record_entries _ _ _ Hm).
Qed.
End ats.


(** Run through the queries of a computation. *)
Ltac settle :=
  repeat match goal with
  | |- settles (match ?x with pair _ _ => _ end) _ => destruct x
  | |- settles (get_st ≫= _) _ => apply settles_get; intros ?
  | |- settles (cuda_driver_try _ ≫= _) _ => eapply settles_bind; [apply settles_try|intros ? ?]
  | |- settles (mret _ ≫= _) _ => eapply (settles_bind _ _ (fun _ => True)); [by apply settles_ret|intros ? _]
  | |- settles (if ?b then _ else _) _ => destruct b eqn:?
  | |- settles (if ?b then _ else _ ≫= _) _ => destruct b eqn:?
  | |- settles ((if ?b then _ else _) ≫= _) _ => destruct b eqn:?
  | |- settles (mret _) _ => apply settles_ret
  end.

Section cuda_correct.
Context `{ErrorTexts} `{CudaDriver}.

Lemma is_host_memory_settles p : settles (is_host_memory p) (fun _ => True).
Proof. unfold is_host_memory. by settle. Qed.

Lemma get_device_ordinal_settles p : settles (get_device_ordinal_from_pointer p) (fun _ => True).
Proof. unfold get_device_ordinal_from_pointer. by settle. Qed.

Lemma get_primary_settles ordinal : settles (get_primary_cuda_context ordinal) (fun _ => True).
Proof.
  intros s Hs. unfold get_primary_cuda_context, ends, mbind, st_bind, get_st. simpl.
  destruct (primary_cache s !! ordinal) as [ctx|] eqn:Hc; [done|].
  unfold retain_primary, cuda_driver_try, require.
  destruct (DeviceGet ordinal) as [e1 dev]. destruct (e1 =? CUDA_SUCCESS); [|done].
  unfold mbind, st_bind. simpl. destruct (DevicePrimaryCtxRetain dev) as [e2 ctx].
  destruct (e2 =? CUDA_SUCCESS); [|done]. simpl. split; [|done]. destruct Hs as [Hnd Hin].
  split; [done|]. split; [by apply insert_subseteq|]. split; simpl.
  - apply NoDup_app. split; [done|]. split; [|apply NoDup_singleton].
    intros o Ho ->%list_elem_of_singleton. apply Hin in Ho as [? Ho]. congruence.
  - intros o. rewrite elem_of_app, list_elem_of_singleton, Hin.
    destruct (decide (o = ordinal)) as [->|Hne].
    + rewrite lookup_insert_eq. split; [by eexists|by right].
    + rewrite lookup_insert_ne by done. tauto.
Qed.

Lemma get_context_settles p : settles (get_context_from_pointer p) (fun _ => True).
Proof.
  unfold get_context_from_pointer, get_context_associated_pointer,
    current_context_can_access_pointer.
  assert (Hlast : settles (get_device_ordinal_from_pointer p ≫= get_primary_cuda_context) (fun _ => True)).
  { eapply settles_bind; [apply get_device_ordinal_settles|]. intros o _. apply get_primary_settles. }
  eapply (settles_bind _ _ (fun _ => True)); [by settle|]. intros [ctx|] _; [by settle|].
  eapply settles_bind; [apply settles_try|intros ? _]. apply settles_get; intros s.
  eapply (settles_bind _ _ (fun _ => True)); [by settle|]. intros [] _; [by settle|done].
Qed.

(** The body runs with [ctx] current; the stack is the same afterwards. *)
Lemma with_context_settles `{!CudaDriverLaws} {A} ctx (body : st CudaProcess A) Q :
  settles body Q -> settles (with_context ctx body) Q.
Proof.
  intros Hb s Hs. unfold ends, with_context, push_context, cuda_driver_try, require.
  destruct (CtxPushCurrent ctx =? CUDA_SUCCESS) eqn:Hp; [|done]. bool_to_prop.
  unfold mbind, st_bind. simpl. set (s1 := mkProcess _ _ _).
  pose proof (Hb s1 Hs) as Hb1. unfold ends in Hb1.
  assert (Hpop : forall s2, settled s1 s2 -> settled s (pop_context s2)).
  { intros s2 (Ha & Hb2 & Hc). unfold pop_context, current_context. rewrite Ha. simpl.
    rewrite (pop_pushed ctx Hp). done. }
  destruct (body s1) as [[e|a] s2]; [by apply Hpop|].
  destruct Hb1 as [Hs2 HQ]. split; [by apply Hpop|done].
Qed.

Lemma get_alloc_info_settles `{!CudaDriverLaws} p ctx :
  0 <= p < SIZE_MOD ->
  settles (get_alloc_info p ctx)
    (fun '(base, n, offset) => base + offset = p /\ 0 <= offset < n /\ 0 <= base /\ base + n <= SIZE_MOD).
Proof.
  intros Hp. unfold get_alloc_info. eapply (settles_bind _ _ (fun _ => True)).
  { destruct ctx; [by settle|apply get_context_settles]. }
  intros ctx' _. apply with_context_settles. apply settles_get. intros s.
  destruct (MemGetAddressRange _ _) as [e [base n]] eqn:Hr.
  eapply settles_bind; [apply settles_try|]. cbn beta. intros _ ->. apply settles_ret.
  apply range_contains in Hr. rewrite wrap64_small by lia. lia.
Qed.
End cuda_correct.

(** The queries, by name. *)
Inductive cuda_query :=
  | QHost (p : Z)
  | QContext (p : Z)
  | QPrimary (ordinal : Z)
  | QAlloc (p : Z).

Section queries.
Context `{ErrorTexts} `{CudaDriver}.

Definition run_query (q : cuda_query) : st CudaProcess unit :=
  match q with
  | QHost p => _ ← is_host_memory p; mret tt
  | QContext p => _ ← get_context_from_pointer p; mret tt
  | QPrimary o => _ ← get_primary_cuda_context o; mret tt
  | QAlloc p => _ ← get_alloc_info p None; mret tt
  end.

(** Callers that catch the exceptions. *)
Definition run_queries (qs : list cuda_query) (s : CudaProcess) : CudaProcess :=
  foldl (fun s q => (run_query q s).2) s qs.

Lemma run_query_settles `{!CudaDriverLaws} q :
  match q with QAlloc p => 0 <= p < SIZE_MOD | _ => True end ->
  settles (run_query q) (fun _ => True).
Proof.
  destruct q as [p|p|o|p]; intros Hp; simpl;
    (eapply settles_bind; [|intros ? _; by apply settles_ret]).
  - apply is_host_memory_settles.
  - apply get_context_settles.
  - apply get_primary_settles.
  - by apply get_alloc_info_settles.
Qed.
End queries.

(** Whatever pointer queries a process makes, failing or not, the thread's
    context stack is the one it had, every primary context that was cached is
    still the one the cache gives, and no device's primary context is ever
    retained twice. *)
Theorem cuda_queries_settle `{ErrorTexts} `{CudaDriver} `{!CudaDriverLaws}
    (qs : list cuda_query) (s : CudaProcess) :
  cache_ok s ->
  Forall (fun q => match q with QAlloc p => 0 <= p < SIZE_MOD | _ => True end) qs ->
  let s' := run_queries qs s in
  ctx_stack s' = ctx_stack s /\ primary_cache s ⊆ primary_cache s' /\ NoDup (retained s') /\
  (forall o, o ∈ retained s' <-> is_Some (primary_cache s' !! o)).
Proof.
  intros Hs Hqs. cbv zeta.
  assert (settled s (run_queries qs s)) as (Hst & Hc & Hn & Hr); [|done].
  revert s Hs. induction Hqs as [|q qs Hq _ IH]; intros s Hs; [by apply settled_refl|].
  unfold run_queries. cbn [foldl].
  assert (settled s (run_query q s).2) as Hq1.
  { pose proof (run_query_settles q Hq s Hs) as He. unfold ends in He.
    destruct (run_query q s) as [[e|a] s1]; [done|apply He]. }
  eapply settled_trans; [exact Hq1|]. apply IH, Hq1.
Qed.

Definition no_texts : ErrorTexts :=
  {| GetErrorName _ := None; GetErrorString _ := None; cufileop_status_error _ := "";
     strerror_text _ := "" |}.
(** One device: pointers from 2^16 on are its, in allocations of 2^16 bytes. *)
Definition one_device : CudaDriver :=
  {| pointer_memory_type p := (0, if p <? 65536 then 0 else 2);
     pointer_device_ordinal p := (0, 0);
     pointer_context p := (1, 0);
     pointer_device_pointer _ p := (1, 0);
     DeviceGet o := if o =? 0 then (0, 10) else (101, 0);
     DevicePrimaryCtxRetain d := (0, 77);
     CtxGetCurrent := 0;
     CtxPushCurrent _ := 0;
     CtxPopCurrent _ := 0;
     MemGetAddressRange _ p :=
       if (0 <=? p) && (p <? SIZE_MOD) then (0, (p - p mod 65536, 65536)) else (1, (0, 0)) |}.

(** Its device does not share the page tables of the host. *)
Definition no_ats : AtsDriver :=
  {| DeviceGetCount := (0, 1); DeviceGetAttribute _ := (0, 0); CtxGetDevice _ := (0, 10) |}.

Lemma one_device_laws : CudaDriverLaws (H0 := one_device).
Proof.
  split; [done|]. intros ctx p base n. cbn [MemGetAddressRange one_device].
  destruct (_ && _) eqn:Hp; [|done]. bool_to_prop. intros [= <- <-].
  pose proof (Z.mod_pos_bound p 65536). pose proof (Z.div_mod p 65536).
  assert (p / 65536 < 281474976710656) by (apply Z.div_lt_upper_bound; lia).
  assert (0 <= p / 65536) by (apply Z.div_pos; lia). lia.
Qed.

Section examples.
#[local] Existing Instance no_texts.
#[local] Existing Instance one_device.
#[local] Existing Instance one_device_laws.
#[local] Existing Instance no_ats.

Definition fresh_process : CudaProcess := mkProcess [5] ∅ [].

Example cuda_queries_run :
  get_alloc_info 1048586 None fresh_process
  = (inr (1048576, 65536, 10), mkProcess [5] {[0 := 77]} [0]).
Proof. reflexivity. Qed.

Example no_shared_tables : is_ats_available 5 = Ok false.
Proof. reflexivity. Qed.

Lemma fresh_cache : cache_ok fresh_process.
Proof.
  split; [constructor|]. intros o. simpl. rewrite lookup_empty. split; [|by intros []].
  intros Ho. by apply not_elem_of_nil in Ho.
Qed.

Example cuda_queries_settle_witness :
  cache_ok fresh_process /\
  let s' := run_queries [QHost 5; QPrimary 3; QAlloc 1048586; QContext 2097152] fresh_process in
  ctx_stack s' = [5] /\ (∅ : gmap Z Z) ⊆ primary_cache s' /\ NoDup (retained s') /\
  (forall o, o ∈ retained s' <-> is_Some (primary_cache s' !! o)).
Proof.
  split; [exact fresh_cache|].
  apply (cuda_queries_settle [QHost 5; QPrimary 3; QAlloc 1048586; QContext 2097152]
           fresh_process fresh_cache).
  repeat constructor; lia.
Defined.
End examples.
