(* ===== verification/FileIo.v ===== *)
(** * File I/O

    [FileHandle::read], [write], [pread], [pwrite] and the stream variants of
    [src/file_handle.cpp]: which of the paths below serves a call, how it is
    cut into tasks, and what the tasks do together.

    cuFile, the CUDA pointer queries, the kernel and the bounce buffer pools
    are parameters.  A call leads to a plan: either the work is done when the
    call returns, or tasks have been submitted, which a thread pool runs in any
    order.  The cache of the file size that [nbytes] keeps has a section of its
    own, with the atomic accesses as steps. *)

From stdpp Require Import base list strings.
From Stdlib Require Import ZArith Lia Permutation.
From S2P Require Import Prelude Utils Defaults FileHandle Observation ParallelIo BounceBuffer PosixIo Cuda.

#[local] Open Scope Z_scope.

(** ** Parameters *)

(** [cuFileRead] and [cuFileWrite]: handle, base of the allocation, size, file
    offset, offset into the allocation. *)
Class CuFile := {
  cufile_read : Z -> Z -> Z -> Z -> Z -> io_state -> Z * io_state;
  cufile_write : Z -> Z -> Z -> Z -> Z -> io_state -> Z * io_state }.

Section file_io.
Context `{Kernel} `{CudaCopy} `{CuFile} `{ErrorTexts} `{CudaDriver}.
Context (host_pool : BouncePool) (cuda_pool : bounce_pool_type -> BouncePool).
Context (page : Z) (d : io_defaults).

(** ** One transfer *)

Definition sync_default (sync_default_stream : bool) : result unit :=
  expect (negb sync_default_stream || cuda_stream_ok) cuda_stream_error.

Definition in_compat (h : FileHandle) : bool := preferred (compat_mode_manager h).

Definition read_impl (h : FileHandle) (devPtr_base size file_offset devPtr_offset : Z)
    (sync_default_stream : bool) (s : io_state) : result (Z * io_state) :=
  if in_compat h then
    posix_device_read host_pool cuda_pool page d (file_direct_off h) devPtr_base size file_offset
      devPtr_offset (file_direct_on h) s
  else
    _ ← sync_default sync_default_stream;
    file_off ← convert_size2off file_offset;
    dev_off ← convert_size2off devPtr_offset;
    let '(ret, s) := cufile_read (cu_handle (cufile_handle h)) devPtr_base size file_off dev_off s in
    _ ← expect (negb (ret <? 0)) (bytes_error ret);
    mret (ret, s).

Definition write_impl (h : FileHandle) (devPtr_base size file_offset devPtr_offset : Z)
    (sync_default_stream : bool) (s : io_state) : result (Z * io_state) :=
  if in_compat h then
    posix_device_write host_pool cuda_pool page d (file_direct_off h) devPtr_base size file_offset
      devPtr_offset (file_direct_on h) s
  else
    _ ← sync_default sync_default_stream;
    file_off ← convert_size2off file_offset;
    dev_off ← convert_size2off devPtr_offset;
    let '(ret, s) := cufile_write (cu_handle (cufile_handle h)) devPtr_base size file_off dev_off s in
    _ ← expect (negb (ret =? -1)) (GenericSystemError "Unable to write file");
    _ ← expect (ret >=? 0) (CUfileException ("cuFile error:" +:+ cufileop_status_error (- ret)));
    mret (ret, s).

Definition transfer_impl (op : IOOperationType) : FileHandle -> Z -> Z -> Z -> Z -> bool ->
    io_state -> result (Z * io_state) :=
  match op with PosixIo.READ => read_impl | PosixIo.WRITE => write_impl end.

Definition direction_of (op : IOOperationType) : TransferDirection :=
  match op with PosixIo.READ => Observation.READ | PosixIo.WRITE => Observation.WRITE end.

(** Invalidate the computed file size, before a write. *)
Definition invalidate (op : IOOperationType) (h : FileHandle) : FileHandle :=
  match op with
  | PosixIo.READ => h
  | PosixIo.WRITE =>
      mkFileHandle (file_direct_on h) (file_direct_off h) (initialized h) 0 (cufile_handle h)
        (compat_mode_manager h) (file_path h) (thread_pool h)
  end.

Section observed.
Variables (script : Z -> list call) (thread now : Z).

(** [op] between the start and the finish of a physical observation. *)
Definition observed {S} (physical : PhysicalObservationContext) (file_offset size : Z)
    (op : S -> result (Z * S)) (s : S) (w : world) : result (Z * S * world) :=
  '(physical_recorder, w) ← physical_new script thread now physical file_offset size w;
  '(nbytes, s) ← op s;
  '(_, w) ← physical_finish script thread now nbytes physical_recorder w;
  mret (nbytes, s, w).

(** [read] and [write]: the bytes moved, the handle and the states after. *)
Definition blocking_io (op : IOOperationType) (h : FileHandle)
    (devPtr_base size file_offset devPtr_offset : Z) (sync_default_stream : bool)
    (s : io_state) (w : world) : result (Z * FileHandle * io_state * world) :=
  _ ← expect_not_in_monitor thread w;
  let backend := if in_compat h then POSIX else GDS in
  '(recorder, w) ← logical_new script thread now backend (direction_of op) DEVICE file_offset size
                     (file_path h) None w;
  let physical := mkContext backend (direction_of op) DEVICE (logical_id recorder) (file_path h) None in
  let h := invalidate op h in
  '(nbytes, s, w) ← observed physical file_offset size
                      (transfer_impl op h devPtr_base size file_offset devPtr_offset
                         sync_default_stream) s w;
  '(_, w) ← logical_finish script thread now nbytes recorder w;
  mret (nbytes, h, s, w).

Definition read := blocking_io PosixIo.READ.
Definition write := blocking_io PosixIo.WRITE.

(** ** Parallel transfers *)

(** What the tasks of a plan do: host memory at [base], or device memory at
    [base], whose context is [ctx]. *)
Inductive task_kind := HostTask (base : Z) | DeviceTask (base ctx : Z).

(** [PushAndPopContext] around something that does not look at the stack. *)
Definition in_context {A} (ctx : Z) (body : result A) (p : CudaProcess)
    : result (A * CudaProcess) :=
  '(_, p) ← run_st (push_context ctx) p;
  a ← body;
  mret (a, pop_context p).

Inductive io_plan :=
  | Finished (nbytes : Z)       (* a ready future *)
  | Submitted (pool : Z) (physical : PhysicalObservationContext) (kind : task_kind) (s : submission).

(** The body of a task. *)
Definition run_op (op : IOOperationType) (h : FileHandle) (kind : task_kind) (t : IoTask)
    (s : io_state) : result (Z * io_state) :=
  match kind with
  | HostTask base =>
      let buf := base + tk_devPtr_offset t in
      match op with
      | PosixIo.READ =>
          posix_host_read (H0 := host_pool) page (auto_direct_io_read d) NO (file_direct_off h) buf
            (tk_size t) (tk_file_offset t) (file_direct_on h) s
      | PosixIo.WRITE =>
          posix_host_write (H0 := host_pool) page (auto_direct_io_write d) NO (file_direct_off h) buf
            (tk_size t) (tk_file_offset t) (file_direct_on h) s
      end
  | DeviceTask base _ =>
      transfer_impl op h base (tk_size t) (tk_file_offset t) (tk_devPtr_offset t) false s
  end.

(** The callable given to [parallel_io], on a worker with the process state
    [p].  That it invalidates the cached size when a part has been written is
    [end_write] of [size_step] below. *)
Definition run_task (op : IOOperationType) (h : FileHandle) (physical : PhysicalObservationContext)
    (kind : task_kind) (t : IoTask) (s : io_state) (w : world) (p : CudaProcess)
    : result (Z * io_state * world * CudaProcess) :=
  let body := observed physical (tk_file_offset t) (tk_size t) (run_op op h kind t) s w in
  match kind with
  | HostTask _ => r ← body; mret (r, p)
  | DeviceTask _ ctx => in_context ctx body p
  end.

(** With Direct I/O on the POSIX path, the first task of a read is shortened
    so that the others start at a page boundary. *)
Definition shortened_first_task (op : IOOperationType) (h : FileHandle) (file_offset task_size : Z)
    : result (option Z) :=
  match op with
  | PosixIo.WRITE => mret None
  | PosixIo.READ =>
      if in_compat h && negb (file_direct_on h =? -1) && auto_direct_io_read d then
        aligned ← align_down file_offset page;
        let misalignment := file_offset -% aligned in
        mret (if (misalignment >? 0) && (misalignment <? task_size)
              then Some (task_size -% misalignment) else None)
      else mret None
  end.

(** The device's part of [pread] and [pwrite] when the call is worth tasks. *)
Definition device_tasks (op : IOOperationType) (h : FileHandle)
    (buf size file_offset task_size ctx : Z) (sync_default_stream : bool)
    (opts : option Z -> ParallelIoOptions) (physical : PhysicalObservationContext) (w : world)
    (p : CudaProcess) : result (io_plan * CudaProcess) :=
  '(_, p) ← (if sync_default_stream && negb (in_compat h)
             then in_context ctx (sync_default true) p else mret (tt, p));
  '((devPtr_base, _, devPtr_offset), p) ← run_st (get_alloc_info buf (Some ctx)) p;
  first ← shortened_first_task op h file_offset task_size;
  sub ← parallel_io w thread page size file_offset task_size devPtr_offset (opts first);
  mret (Submitted (pio_thread_pool (opts first)) physical (DeviceTask devPtr_base ctx) sub, p).

Definition shortcut (op : IOOperationType) (h : FileHandle) (buf size file_offset : Z)
    : io_state -> result (Z * io_state) :=
  match op with
  | PosixIo.READ => posix_device_read host_pool cuda_pool page d (file_direct_off h) buf size
                      file_offset 0 (file_direct_on h)
  | PosixIo.WRITE => posix_device_write host_pool cuda_pool page d (file_direct_off h) buf size
                       file_offset 0 (file_direct_on h)
  end.

(** The block device's pool, unless the caller named another than the
    default. *)
Definition actual_thread_pool (h : FileHandle) (thread_pool_arg default_pool : Z) : Z :=
  match thread_pool h with
  | Some own => if thread_pool_arg =? default_pool then own else thread_pool_arg
  | None => thread_pool_arg
  end.

(** [pread] and [pwrite]; [default_pool] is [&defaults::thread_pool()], 0 is
    nullptr. *)
Definition parallel_transfer (op : IOOperationType) (h : FileHandle)
    (buf size file_offset task_size gds_threshold : Z) (sync_default_stream : bool)
    (thread_pool_arg default_pool call_counter : Z) (s : io_state) (w : world) (p : CudaProcess)
    : result (io_plan * FileHandle * io_state * world * CudaProcess) :=
  _ ← expect (negb (thread_pool_arg =? 0)) (CUfileException "The thread pool must not be nullptr");
  _ ← expect (task_size >? 0) (InvalidArgument "`task_size` must be positive");
  let pool := actual_thread_pool h thread_pool_arg default_pool in
  let '((color, idx), _) := get_next_color_and_call_idx call_counter in
  _ ← expect_not_in_monitor thread w;
  '(is_host, p) ← run_st (is_host_memory buf) p;
  let uses_posix := is_host || (size <? gds_threshold) || in_compat h in
  let backend := if uses_posix then POSIX else GDS in
  let kind := if is_host : bool then HOST else DEVICE in
  '(recorder, w) ← logical_new script thread now backend (direction_of op) kind file_offset size
                     (file_path h) None w;
  let physical := mkContext backend (direction_of op) kind (logical_id recorder) (file_path h) None in
  let opts := fun first => mkParallelIoOptions pool idx color first (log_active recorder) in
  let h := invalidate op h in
  if is_host : bool then
    sub ← parallel_io w thread page size file_offset task_size 0 (opts None);
    mret (Submitted pool physical (HostTask buf) sub, h, s, w, p)
  else
    '(ctx, p) ← run_st (get_context_from_pointer buf) p;
    if size <? gds_threshold then
      '((nbytes, s, w), p) ← in_context ctx
          ('(nbytes, s, w) ← observed physical file_offset size
                               (shortcut op h buf size file_offset) s w;
           '(_, w) ← logical_finish script thread now nbytes recorder w;
           mret (nbytes, s, w)) p;
      mret (Finished nbytes, h, s, w, p)
    else
      '(plan, p) ← device_tasks op h buf size file_offset task_size ctx sync_default_stream opts
                     physical w p;
      mret (plan, h, s, w, p).

Definition pread := parallel_transfer PosixIo.READ.
Definition pwrite := parallel_transfer PosixIo.WRITE.
End observed.
End file_io.

(** ** The cached file size *)

(** [nbytes]; 0 in the cache means unknown. *)
Definition nbytes (get_file_size : Z -> result Z) (h : FileHandle) : result (Z * FileHandle) :=
  if closed h then mret (0, h)
  else if nbytes_cache h =? 0 then
    n ← get_file_size (file_direct_off h);
    mret (n, mkFileHandle (file_direct_on h) (file_direct_off h) (initialized h) n (cufile_handle h)
               (compat_mode_manager h) (file_path h) (thread_pool h))
  else mret (nbytes_cache h, h).

(** The accesses of one caller of [nbytes] and one writer to the cache. *)
Record size_state := mkSize {
  on_disk : Z;
  size_cache : Z;
  measured : option Z;          (* the caller has asked the file system *)
  writing : bool }.

(** [serial]: the two do not overlap.  [after]: the writer also invalidates
    when it is done, as the tasks of [pwrite] do and [write] does not. *)
Inductive size_step (serial after : bool) : size_state -> size_state -> Prop :=
  | begin_write n c m :
      (serial = true -> m = None) ->
      size_step serial after (mkSize n c m false) (mkSize n 0 m true)
  | extend n n' c m :
      n <= n' -> size_step serial after (mkSize n c m true) (mkSize n' c m true)
  | end_write n c m :
      size_step serial after (mkSize n c m true) (mkSize n (if after then 0 else c) m false)
  | measure n wr :
      (serial = true -> wr = false) ->
      size_step serial after (mkSize n 0 None wr) (mkSize n 0 (Some n) wr)
  | publish n c k wr :
      size_step serial after (mkSize n c (Some k) wr) (mkSize n k None wr).

(** ** For the examples *)

(** A cuFile that moves everything it is asked to. *)
Definition full_cufile : CuFile :=
  {| cufile_read _ base n off dev s :=
       (n, set_device (blit (device s) (base + dev) (file s) off n) s);
     cufile_write _ base n off dev s :=
       (n, mkIo (host s) (device s) (blit (file s) off (device s) (base + dev) n) (trace s)) |}.

Definition demo_handle (compat : bool) : FileHandle :=
  mkFileHandle 4 3 true 17 (mkCUFile 0 true) (mkManager AUTO compat compat) "f" None.
