(* ===== verification/FileIoSpec.v ===== *)
(** * File I/O: correctness

    What the plans of [FileIo] achieve: in whatever order the pool runs the
    tasks of a [pread] or a [pwrite], together they move exactly the requested
    bytes.  The tasks are run one after the other; they write disjoint ranges
    and read what none of them writes. *)

From stdpp Require Import base list strings relations.
From Stdlib Require Import ZArith Lia Permutation.
From S2P Require Import Prelude Utils Defaults FileHandle Observation ParallelIo BounceBuffer PosixIo Cuda FileIo.

#[local] Open Scope Z_scope.

(** ** A transfer as its effect on two address ranges

    Position [p] of the transfer is an address of the destination and one of
    the source; [rest] is the memory that neither is in.  Positions and
    addresses inside bounce buffers are nobody's business. *)
Record transfer_view := mkView {
  dst : io_state -> Z -> Z;
  src : io_state -> Z -> Z;
  rest : io_state -> Z -> Z;
  dst_seen : Z -> Prop;
  src_seen : Z -> Prop;
  rest_seen : Z -> Prop }.

Definition view_of (area : Z -> Prop) (op : IOOperationType) (kind : task_kind) (shift : Z)
    : transfer_view :=
  match kind, op with
  | HostTask base, PosixIo.READ =>
      mkView (fun s p => host s (base + p)) (fun s p => file s (p + shift)) device
        (fun p => ~ area (base + p)) (fun _ => True) (fun _ => True)
  | HostTask base, PosixIo.WRITE =>
      mkView (fun s p => file s (p + shift)) (fun s p => host s (base + p)) device
        (fun _ => True) (fun p => ~ area (base + p)) (fun _ => True)
  | DeviceTask base _, PosixIo.READ =>
      mkView (fun s p => device s (base + p)) (fun s p => file s (p + shift)) host
        (fun _ => True) (fun _ => True) (fun a => ~ area a)
  | DeviceTask base _, PosixIo.WRITE =>
      mkView (fun s p => file s (p + shift)) (fun s p => device s (base + p)) host
        (fun _ => True) (fun _ => True) (fun a => ~ area a)
  end.

(** The positions [P] have been transferred, and nothing else has changed. *)
Record transferred (v : transfer_view) (P : Z -> Prop) (s s' : io_state) : Prop := mkTransferred {
  tr_in p : dst_seen v p -> src_seen v p -> P p -> dst v s' p = src v s p;
  tr_out p : dst_seen v p -> ~ P p -> dst v s' p = dst v s p;
  tr_src p : src_seen v p -> src v s' p = src v s p;
  tr_rest a : rest_seen v a -> rest v s' a = rest v s a }.

Lemma transferred_nil v s : transferred v (fun _ => False) s s.
Proof. by split. Qed.

Lemma transferred_weaken v P Q s s' :
  (forall p, P p <-> Q p) -> transferred v P s s' -> transferred v Q s s'.
Proof. intros HPQ [H1 H2 H3 H4]. split; [|intros p Hp Hq; apply H2; [done|]|done..]; firstorder. Qed.

(** Transfers in a row, which may even overlap. *)
Lemma transferred_trans v (P Q : Z -> Prop) `{forall p, Decision (Q p)} s s1 s2 :
  transferred v P s s1 -> transferred v Q s1 s2 ->
  transferred v (fun p => P p \/ Q p) s s2.
Proof.
  intros [A1 A2 A3 A4] [B1 B2 B3 B4]. split.
  - intros p Hd Hs [Hp|Hq].
    + destruct (decide (Q p)); [by rewrite B1, A3|]. by rewrite B2, A1.
    + by rewrite B1, A3.
  - intros p Hd Hn. rewrite B2, A2; tauto.
  - intros p Hs. by rewrite B3, A3.
  - intros a Ha. by rewrite B4, A4.
Qed.

(** ** Running the tasks *)

(** The sum of the results and the last state. *)
Definition run_tasks (op : IoTask -> io_state -> result (Z * io_state)) (order : list IoTask)
    (total : Z) (s : io_state) : result (Z * io_state) :=
  foldM (fun r t => '(n, s) ← op t r.2; mret (r.1 + n, s)) (total, s) order.

(** A task moves at most its size and, if it moves all of it, exactly its part. *)
Definition task_ok (v : transfer_view) (t : IoTask) (s : io_state) (r : Z * io_state) : Prop :=
  r.1 <= tk_size t /\ (r.1 = tk_size t -> transferred v (covers t) s r.2).

Lemma run_tasks_exact v op (E : exn -> Prop) (exact_ : Prop) order total s :
  (forall t s, t ∈ order ->
     returns (op t s) (fun r => task_ok v t s r /\ (exact_ -> r.1 = tk_size t)) E) ->
  returns (run_tasks op order total s)
    (fun r => r.1 <= total + sumZ (tk_size <$> order) /\
       (exact_ -> r.1 = total + sumZ (tk_size <$> order)) /\
       (r.1 = total + sumZ (tk_size <$> order) ->
          transferred v (fun p => Exists (fun t => covers t p) order) s r.2)) E.
Proof.
  revert total s. induction order as [|t order IH]; intros total s Hop.
  - simpl. split; [lia|]. split; [lia|]. intros _.
    eapply transferred_weaken; [|apply transferred_nil]. intros p. by rewrite Exists_nil.
  - unfold run_tasks. cbn [foldM fst snd]. apply returns_bind, returns_bind.
    eapply returns_mono; [by apply Hop; left| |done]. intros [n s1] [[Hn Ht] Hx]. cbn [fst snd] in *.
    cbn [mret result_ret returns]. eapply returns_mono; [apply (IH (total + n) s1)| |done].
    { intros t' s' Ht'. apply Hop. by right. }
    intros [m s2] (Hm & Hmx & Htr). cbn [fst snd] in *. csimpl. split; [lia|].
    split; [intros He; specialize (Hx He); specialize (Hmx He); lia|].
    intros Heq. assert (n = tk_size t /\ m = total + n + sumZ (tk_size <$> order)) as [Hn' Hm'] by lia.
    eapply transferred_weaken; [|exact (transferred_trans v _ (fun p => Exists (fun t => covers t p) order)
      _ _ _ (Ht Hn') (Htr Hm'))].
    intros p. by rewrite Exists_cons.
Qed.

(** ** One task *)

Lemma moved_transferred area op base shift t s s' :
  tk_file_offset t = tk_devPtr_offset t + shift ->
  moved area op (base + tk_devPtr_offset t) (tk_file_offset t) (tk_size t) s s' ->
  transferred (view_of area op (HostTask base) shift) (covers t) s s'.
Proof.
  intros Hsh [Hdev H]. unfold covers. destruct op; destruct H as [H1 H2]; split; simpl; try done.
  - intros p Hp _ Hc. rewrite H1 by done. range_case; [f_equal; lia|lia].
  - intros p Hp Hc. rewrite H1 by done. range_case; [lia|done].
  - intros p _ Hp Hc. rewrite H2. range_case; [f_equal; lia|lia].
  - intros p _ Hc. rewrite H2. range_case; [lia|done].
  - intros p Hp. by rewrite H1.
Qed.

Lemma device_moved_transferred (area : Z -> Prop) op base ctx shift t s s' :
  tk_file_offset t = tk_devPtr_offset t + shift ->
  device_moved area op (base + tk_devPtr_offset t) (tk_file_offset t) (tk_size t) s s' ->
  transferred (view_of area op (DeviceTask base ctx) shift) (covers t) s s'.
Proof.
  intros Hsh [Hh H]. unfold covers. destruct op; destruct H as [H1 H2]; split; simpl; try done.
  - intros p _ _ Hc. rewrite H1. range_case; [f_equal; lia|lia].
  - intros p _ Hc. rewrite H1. range_case; [lia|done].
  - intros p _ _ Hc. rewrite H2. range_case; [f_equal; lia|lia].
  - intros p _ Hc. rewrite H2. range_case; [lia|done].
Qed.

(** And back: the whole transfer. *)
Lemma transferred_moved area op base dev off n s s' :
  (op = PosixIo.WRITE -> forall a, base + dev <= a < base + dev + n -> ~ area a) ->
  transferred (view_of area op (HostTask base) (off - dev)) (fun p => dev <= p < dev + n) s s' ->
  moved area op (base + dev) off n s s'.
Proof.
  intros Ha [H1 H2 H3 H4]. split; [intros a; destruct op; by apply (H4 a)|]. destruct op; simpl in *.
  - split; intros a.
    + intros Hn. replace a with (base + (a - base)) by lia. range_case.
      * rewrite (H1 (a - base)); [f_equal; lia|by replace (base + (a - base)) with a in * by lia|done|lia].
      * apply H2; [by replace (base + (a - base)) with a in * by lia|lia].
    + replace a with (a - (off - dev) + (off - dev)) by lia. by apply (H3 (a - (off - dev))).
  - split; intros a.
    + intros Hn. replace a with (base + (a - base)) by lia. apply H3.
      by replace (base + (a - base)) with a by lia.
    + replace a with (a - (off - dev) + (off - dev)) at 1 4 by lia. range_case.
      * rewrite (H1 (a - (off - dev))); [f_equal; lia|done|apply Ha; [done|lia]|lia].
      * apply H2; [done|lia].
Qed.

Lemma transferred_device_moved area op base ctx dev off n s s' :
  transferred (view_of area op (DeviceTask base ctx) (off - dev)) (fun p => dev <= p < dev + n) s s' ->
  device_moved area op (base + dev) off n s s'.
Proof.
  intros [H1 H2 H3 H4]. split; [intros a Ha; destruct op; by apply (H4 a)|].
  destruct op; simpl in *; (split; intros a).
  - replace a with (base + (a - base)) at 1 4 by lia. range_case.
    + rewrite (H1 (a - base)); [f_equal; lia|done|done|lia].
    + apply H2; [done|lia].
  - replace a with (a - (off - dev) + (off - dev)) by lia. by apply (H3 (a - (off - dev))).
  - replace a with (base + (a - base)) by lia. by apply (H3 (a - base)).
  - replace a with (a - (off - dev) + (off - dev)) at 1 4 by lia. range_case.
    + rewrite (H1 (a - (off - dev))); [f_equal; lia|done|done|lia].
    + apply H2; [done|lia].
Qed.

Lemma moved_mono (area area' : Z -> Prop) op buffer offset n s s' :
  (forall a, area a -> area' a) -> moved area op buffer offset n s s' ->
  moved area' op buffer offset n s s'.
Proof.
  intros Ha [Hd H]. split; [done|]. destruct op; destruct H as [H1 H2]; (split; [|done]);
    intros a Hn; apply H1; auto.
Qed.

Lemma device_moved_mono (area area' : Z -> Prop) op dev offset n s s' :
  (forall a, area a -> area' a) -> device_moved area op dev offset n s s' ->
  device_moved area' op dev offset n s s'.
Proof. intros Ha [Hh H]. split; [|done]. intros a Hn. apply Hh. auto. Qed.

(** What cuFile promises of a transfer that returns [n]: that many bytes, at
    most the requested ones, moved between the device and the file. *)
Class CuFileLaws `{CuFile} := {
  cufile_read_moves handle base size off dev s n s' :
    cufile_read handle base size off dev s = (n, s') -> 0 <= n ->
    n <= size /\ device_moved (fun _ => False) PosixIo.READ (base + dev) off n s s';
  cufile_write_moves handle base size off dev s n s' :
    cufile_write handle base size off dev s = (n, s') -> 0 <= n ->
    n <= size /\ device_moved (fun _ => False) PosixIo.WRITE (base + dev) off n s s' }.

Section delivers.
Context `{KernelLaws} `{CudaCopy} `{CuFile} `{!CuFileLaws} `{ErrorTexts} `{CudaDriver} `{!CudaDriverLaws}.
Context (host_pool : BouncePool) (cuda_pool : bounce_pool_type -> BouncePool).
Context (page : Z) (d : io_defaults) (host_area cuda_area : Z -> Prop).
Context `{!StagingLaws host_pool cuda_pool page host_area cuda_area (bounce_buffer_size d)}.

Abbreviation area := (any_area host_area cuda_area).

Lemma posix_host_ok op (auto : bool) fd_off fd_on buf size offset s :
  0 <= size -> 0 <= offset -> offset + size < SSIZE_MAX ->
  (op = PosixIo.READ -> offset + size <= file_size) ->
  (forall a, buf <= a < buf + size -> ~ area a) ->
  returns (posix_host_io (H0 := host_pool) page op NO fd_off buf size offset
             (cur_fd_direct_on auto fd_on) s)
    (fun r => r.1 = size /\ moved area op buf offset size s r.2) (fun _ => True).
Proof.
  intros Hs Ho Hb Hav Ha. destruct staging_page as (k & Hk & Hp). pose proof staging_host as Hlaws.
  pose proof (posix_host_io_all (H1 := host_pool) (page := page) (bounce_area := host_area) k Hk Hp op fd_off
    (cur_fd_direct_on auto fd_on) buf offset size s Hs Ho Hb Hav
    (fun a Ha' Hn => Ha a Ha' (or_introl Hn))) as Hr.
  eapply returns_mono; [exact Hr| |done]. intros [n s'] (Hn & Hm & _). split; [done|].
  eapply moved_mono; [|exact Hm]. by left.
Qed.

Lemma posix_device_ok op h base size offset dev s :
  0 <= size -> 0 <= offset -> offset + size + page < SSIZE_MAX ->
  (op = PosixIo.READ -> offset + size <= file_size) ->
  returns (match op with
           | PosixIo.READ => posix_device_read host_pool cuda_pool page d (file_direct_off h) base
                               size offset dev (file_direct_on h)
           | PosixIo.WRITE => posix_device_write host_pool cuda_pool page d (file_direct_off h) base
                                size offset dev (file_direct_on h)
           end s)
    (fun r => r.1 = size /\ device_moved area op (base + dev) offset size s r.2) (fun _ => True).
Proof.
  intros Hs Ho Hb Hav. destruct staging_page as (k & Hk & Hp).
  assert (0 < page) by (rewrite Hp; apply pow2_pos; lia). destruct op.
  - pose proof (posix_device_read_total host_pool cuda_pool page host_area cuda_area d
      (file_direct_off h) base size offset dev (file_direct_on h) s Hs Ho ltac:(lia) (Hav eq_refl)) as Hr.
    by eapply returns_mono; [exact Hr|done|].
  - pose proof (posix_device_write_total host_pool cuda_pool page host_area cuda_area d
      (file_direct_off h) base size offset dev (file_direct_on h) s Hs Ho ltac:(lia)) as Hr.
    by eapply returns_mono; [exact Hr|done|].
Qed.

Lemma transfer_impl_ok op h base size offset dev s :
  0 <= size -> 0 <= offset -> offset + size + page < SSIZE_MAX ->
  (op = PosixIo.READ -> offset + size <= file_size) ->
  returns (transfer_impl host_pool cuda_pool page d op h base size offset dev false s)
    (fun r => r.1 <= size /\ (in_compat h = true -> r.1 = size) /\
       (r.1 = size -> device_moved area op (base + dev) offset size s r.2)) (fun _ => True).
Proof.
  intros Hs Ho Hb Hav.
  assert (Hposix := posix_device_ok op h base size offset dev s Hs Ho Hb Hav).
  destruct op; simpl; unfold read_impl, write_impl; destruct (in_compat h).
  1, 3: eapply returns_mono; [exact Hposix| |done]; intros [n s'] [Hn Hm]; simpl in *; split; [lia|done].
  - simpl. unfold convert_size2off. destruct (offset <? SSIZE_MAX), (dev <? SSIZE_MAX); try done. simpl.
    destruct (cufile_read _ _ _ _ _ _) as [ret s'] eqn:Hc. destruct (ret <? 0) eqn:Hr; [done|].
    bool_to_prop. apply cufile_read_moves in Hc as [Hle Hm]; [|lia]. simpl. split; [lia|].
    split; [done|]. intros ->. eapply device_moved_mono; [|exact Hm]. done.
  - simpl. unfold convert_size2off. destruct (offset <? SSIZE_MAX), (dev <? SSIZE_MAX); try done. simpl.
    destruct (cufile_write _ _ _ _ _ _) as [ret s'] eqn:Hc. destruct (ret =? -1); simpl; [done|].
    destruct (ret >=? 0) eqn:Hr; simpl; [|done].
    bool_to_prop. apply cufile_write_moves in Hc as [Hle Hm]; [|lia]. simpl. split; [lia|].
    split; [done|]. intros ->. eapply device_moved_mono; [|exact Hm]. done.
Qed.

(** The task serves the POSIX path. *)
Definition posix_task (h : FileHandle) (kind : task_kind) : bool :=
  match kind with HostTask _ => true | DeviceTask _ _ => in_compat h end.

Definition kind_ok (kind : task_kind) (dev size : Z) : Prop :=
  match kind with
  | HostTask base => forall a, base + dev <= a < base + dev + size -> ~ area a
  | DeviceTask _ _ => True
  end.

Lemma run_op_ok op h kind shift t s :
  0 <= tk_size t -> 0 <= tk_file_offset t ->
  tk_file_offset t + tk_size t + page < SSIZE_MAX ->
  (op = PosixIo.READ -> tk_file_offset t + tk_size t <= file_size) ->
  kind_ok kind (tk_devPtr_offset t) (tk_size t) -> tk_file_offset t = tk_devPtr_offset t + shift ->
  returns (run_op host_pool cuda_pool page d op h kind t s)
    (fun r => task_ok (view_of area op kind shift) t s r /\
       (posix_task h kind = true -> r.1 = tk_size t)) (fun _ => True).
Proof.
  intros Hs Ho Hb Hav Hk Hsh. unfold task_ok.
  destruct kind as [base|base ctx]; cbn [kind_ok posix_task run_op] in *.
  - destruct staging_page as (k & Hk' & Hp).
    assert (0 < page) by (rewrite Hp; apply pow2_pos; lia).
    pose proof (posix_host_ok op (match op with PosixIo.READ => auto_direct_io_read d
      | PosixIo.WRITE => auto_direct_io_write d end) (file_direct_off h) (file_direct_on h)
      (base + tk_devPtr_offset t) (tk_size t) (tk_file_offset t) s Hs Ho ltac:(lia) Hav Hk) as Hr.
    destruct op; (eapply returns_mono; [exact Hr| |done]); intros [n s'] [Hn Hm]; cbn [fst snd] in *;
      (split; [|done]); (split; [lia|]); intros _; by apply moved_transferred.
  - eapply returns_mono; [by apply transfer_impl_ok| |done]. intros [n s'] (Hn & Hc & Hm). cbn [fst snd] in *.
    split; [|done]. split; [done|]. intros He. by apply device_moved_transferred, Hm.
Qed.

(** The transfer's effect, from its address in memory. *)
Definition delivered_to (op : IOOperationType) (kind : task_kind) (buf offset n : Z) (s s' : io_state)
    : Prop :=
  match kind with
  | HostTask _ => moved area op buf offset n s s'
  | DeviceTask _ _ => device_moved area op buf offset n s s'
  end.

Definition kind_base (kind : task_kind) : Z :=
  match kind with HostTask base | DeviceTask base _ => base end.

Lemma delivered_transferred op kind dev offset n s s' :
  (op = PosixIo.WRITE -> kind_ok kind dev n) ->
  transferred (view_of area op kind (offset - dev)) (fun p => dev <= p < dev + n) s s' ->
  delivered_to op kind (kind_base kind + dev) offset n s s'.
Proof.
  intros Hk. destruct kind as [base|base ctx]; cbn [kind_ok delivered_to kind_base] in *.
  - by apply transferred_moved.
  - apply transferred_device_moved.
Qed.

(** What a plan promises, however the pool orders its tasks. *)
Definition plan_delivers (op : IOOperationType) (h : FileHandle) (buf size offset : Z)
    (s : io_state) (plan : io_plan) (s' : io_state) : Prop :=
  match plan with
  | Finished n => n = size /\ device_moved area op buf offset size s s'
  | Submitted pool physical kind sub =>
      s' = s /\ pool <> 0 /\
      forall order, Permutation order (all_tasks sub) ->
        returns (run_tasks (run_op host_pool cuda_pool page d op h kind) order 0 s')
          (fun r => r.1 <= size /\ (posix_task h kind = true -> r.1 = size) /\
             (r.1 = size -> delivered_to op kind buf offset size s r.2))
          (fun _ => True)
  end.

Lemma tasks_deliver op h kind dev offset size tasks order s :
  0 <= size -> 0 <= offset -> offset + size + page < SSIZE_MAX ->
  (op = PosixIo.READ -> offset + size <= file_size) ->
  kind_ok kind dev size -> tiles offset dev size tasks -> Permutation order tasks ->
  returns (run_tasks (run_op host_pool cuda_pool page d op h kind) order 0 s)
    (fun r => r.1 <= size /\ (posix_task h kind = true -> r.1 = size) /\
       (r.1 = size -> delivered_to op kind (kind_base kind + dev) offset size s r.2))
    (fun _ => True).
Proof.
  intros Hs Ho Hb Hav Hk Ht Hp.
  assert (Hsum : sumZ (tk_size <$> order) = size).
  { rewrite <- (tiles_sum _ _ _ _ Ht). apply sumZ_perm. by rewrite Hp. }
  eapply returns_mono; [apply (run_tasks_exact (view_of area op kind (offset - dev)) _
    (fun _ => True) (posix_task h kind = true) order 0 s)| |done].
  - intros t s1 Hin. rewrite Hp in Hin.
    pose proof (tiles_within _ _ _ _ _ Ht Hin) as (H0' & Hd1 & Hd2).
    pose proof (tiles_in_step _ _ _ _ _ Ht Hin) as Hstep.
    apply run_op_ok; try lia; [intros Hr; specialize (Hav Hr); lia|].
    destruct kind; [|done]. intros a Ha. apply Hk. lia.
  - intros [n s1] (Hn & Hx & Htr). cbn [fst snd] in *. rewrite Hsum in *.
    split; [lia|]. split; [intros Hq; specialize (Hx Hq); lia|]. intros He.
    apply delivered_transferred; [done|]. eapply transferred_weaken; [|apply Htr; lia].
    intros p. cbv beta. rewrite <- (tiles_cover _ _ _ _ p Ht). by rewrite Hp.
Qed.

Lemma observed_returns {S} script thread now physical offset size (f : S -> result (Z * S)) s0 w Q E :
  quiet w -> returns (f s0) Q E ->
  returns (observed script thread now physical offset size f s0 w) (fun r => Q r.1 /\ quiet r.2) E.
Proof.
  intros Hw Hf. unfold observed.
  destruct (physical_new_quiet script thread now physical offset size w Hw) as (r & w1 & -> & Hw1).
  cbn [mbind result_bind]. apply returns_bind. eapply returns_mono; [exact Hf| |done].
  intros [n s1] HQ.
  destruct (physical_finish_quiet script thread now n r w1 Hw1) as (r' & w2 & -> & Hw2). done.
Qed.

Lemma in_context_returns {A} ctx (body : result A) p Q (E : exn -> Prop) :
  (forall e, E e) -> returns body Q E ->
  returns (in_context ctx body p) (fun r => Q r.1) E.
Proof.
  intros HE Hb. unfold in_context. apply returns_bind.
  unfold run_st, push_context, cuda_driver_try, require, mbind, st_bind.
  destruct (_ =? _); simpl; [|done]. apply returns_bind. by eapply returns_mono.
Qed.

Lemma run_settled {A} (m : st CudaProcess A) p Q :
  settles m Q -> cache_ok p ->
  returns (run_st m p) (fun r => settled p r.2 /\ Q r.1) (fun _ => True).
Proof.
  intros Hm Hp. apply (run_st_returns m p (fun a p' => settled p p' /\ Q a)).
  eapply ends_mono; [by apply Hm|done|done].
Qed.

Lemma shortened_nonneg op h offset task_size :
  0 < task_size -> 0 <= offset < SIZE_MOD ->
  returns (shortened_first_task page d op h offset task_size)
    (fun first => 0 <= default task_size first) (fun _ => True).
Proof.
  intros Ht Ho. destruct op; simpl; [|lia]. destruct (_ && _ && _); simpl; [|lia].
  unfold align_down. destruct (alignment_ok page); simpl; [|done].
  destruct (_ && _); simpl; [apply wrap64_range|lia].
Qed.

Lemma device_tasks_deliver op h buf size offset task_size ctx sync opts physical thread w p s :
  quiet w -> cache_ok p -> 0 < task_size -> 0 <= size -> 0 <= offset ->
  offset + size + page < SSIZE_MAX -> (op = PosixIo.READ -> offset + size <= file_size) ->
  0 <= buf -> buf + size < SIZE_MOD ->
  (forall first, pio_thread_pool (opts first) <> 0 /\ first_task_size (opts first) = first) ->
  returns (device_tasks page d thread op h buf size offset task_size ctx sync opts physical w p)
    (fun r => plan_delivers op h buf size offset s r.1 s) (fun _ => True).
Proof.
  intros Hw Hp Ht Hs Ho Hb Hav Hbuf Hbs Hopts. unfold device_tasks.
  assert (0 < page) by (destruct staging_page as (k & Hk & ->); apply pow2_pos; lia).
  apply returns_bind. apply (returns_mono _ (fun r => cache_ok r.2) _ (fun _ => True)); [| |done].
  { destruct (_ && _); [|done].
    unfold in_context, run_st, push_context, cuda_driver_try, require, mbind, st_bind.
    destruct (_ =? _); simpl; [|done]. unfold sync_default. destruct (_ || _); simpl; [|done].
    unfold pop_context. by destruct (_ =? _). }
  intros [[] p1] Hp1. simpl in Hp1. apply returns_bind.
  eapply returns_mono; [apply run_settled; [apply (get_alloc_info_settles buf (Some ctx)); lia|done]| |done].
  intros [[[base n] dev] p2] [_ (Hbase & Hdev & Hb0 & _)]. apply returns_bind.
  eapply returns_mono; [apply (shortened_nonneg op h offset task_size); lia| |done].
  intros first Hfirst. destruct (Hopts first) as [Hpool Hfs].
  destruct (parallel_io_splits w thread page size offset task_size dev (opts first))
    as (sub & -> & Htiles & _); try lia; [by apply quiet_monitor|by rewrite Hfs|].
  simpl. split; [done|]. split; [done|]. intros order Horder. rewrite <- Hbase.
  by apply (tasks_deliver op h (DeviceTask base ctx) dev offset size (all_tasks sub)).
Qed.
End delivers.

(** C1. A [pread] or [pwrite] delivers.  Whatever mix of host and device memory,
    Direct I/O, compatibility mode, cuFile and thresholds the call meets, its
    plan (a finished transfer, or tasks that the pool may run in any order)
    moves at most the requested bytes; if the results sum up to the requested
    size, which they always do on the POSIX path, then exactly the requested
    bytes have moved to exactly the requested place and nothing outside the
    bounce buffers has changed.  On host memory submitting never fails. *)
Theorem parallel_transfer_delivers `{KernelLaws} `{CudaCopy} `{CuFile} `{!CuFileLaws}
    `{ErrorTexts} `{CudaDriver} `{!CudaDriverLaws} host_pool cuda_pool page (d : io_defaults)
    host_area cuda_area
    `{!StagingLaws host_pool cuda_pool page host_area cuda_area (bounce_buffer_size d)}
    (script : Z -> list call) (thread now : Z) (op : IOOperationType) (h : FileHandle)
    (buf size offset task_size gds_threshold : Z) (sync : bool) (pool default_pool counter : Z)
    (s : io_state) (w : world) (p : CudaProcess) :
  quiet w -> cache_ok p -> pool <> 0 -> thread_pool h <> Some 0 -> 0 < task_size ->
  0 <= size -> 0 <= offset -> offset + size + page < SSIZE_MAX ->
  (op = PosixIo.READ -> offset + size <= file_size) -> 0 <= buf -> buf + size < SIZE_MOD ->
  (forall a, buf <= a < buf + size -> ~ any_area host_area cuda_area a) ->
  returns (parallel_transfer host_pool cuda_pool page d script thread now op h buf size offset
             task_size gds_threshold sync pool default_pool counter s w p)
    (fun '(plan, h', s', w', _) => h' = invalidate op h /\ quiet w' /\
       plan_delivers host_pool cuda_pool page d host_area cuda_area op h' buf size offset s plan s')
    (fun _ => forall p', is_host_memory buf p <> (inr true, p')).
Proof.
  intros Hw Hp Hpool Hown Ht Hs Ho Hb Hav Hbuf Hbs Ha. unfold parallel_transfer.
  assert (0 < page) by (destruct staging_page as (k & Hk & ->); apply pow2_pos; lia).
  replace (pool =? 0) with false by lia. replace (task_size >? 0) with true by lia.
  cbn [negb expect mbind result_bind].
  assert (Hactual : actual_thread_pool h pool default_pool <> 0).
  { unfold actual_thread_pool. destruct (thread_pool h); [destruct (_ =? _)|]; congruence. }
  set (actual := actual_thread_pool h pool default_pool) in *.
  destruct (get_next_color_and_call_idx counter) as [[color idx] ?].
  unfold expect_not_in_monitor at 1. rewrite (quiet_monitor w thread Hw).
  cbn [negb expect mbind result_bind].
  pose proof (is_host_memory_settles buf p Hp) as Hhost. unfold ends in Hhost.
  assert (Hrun : run_st (is_host_memory buf) p = match is_host_memory buf p with
    (inr b, p') => Ok (b, p') | (inl e, _) => Err e end) by done. rewrite Hrun. clear Hrun.
  destruct (is_host_memory buf p) as [[e|is_host] p1]; [done|].
  destruct Hhost as [(_ & _ & Hp1) _]. cbn [mbind result_bind].
  set (backend := if _ : bool then POSIX else GDS).
  destruct (logical_new_quiet script thread now backend (direction_of op)
    (if is_host then HOST else DEVICE) offset size (file_path h) None w Hw) as (r & w1 & -> & Hw1).
  cbn [mbind result_bind]. set (physical := mkContext _ _ _ _ _ _). destruct is_host.
  - set (opts := mkParallelIoOptions _ _ _ _ _).
    destruct (parallel_io_splits w1 thread page size offset task_size 0 opts)
      as (sub & -> & Htiles & _); try done; try (simpl; lia); [by apply quiet_monitor|].
    cbn [mbind result_bind mret result_ret returns]. repeat (split; [done|]). cbn [plan_delivers].
    intros order Horder. eapply returns_mono;
      [apply (tasks_deliver host_pool cuda_pool page d host_area cuda_area op _ (HostTask buf) 0 offset
         size (all_tasks sub)); try done| |done].
    + intros a. rewrite Z.add_0_r. apply Ha.
    + intros r' Hr. cbn [kind_base] in Hr. by rewrite Z.add_0_r in Hr.
  - eapply (returns_mono _ _ _ (fun _ => True)); [|intros x Hx; exact Hx|congruence].
    apply returns_bind. eapply returns_mono; [by apply run_settled; [apply get_context_settles|]| |done].
    intros [ctx p2] [(_ & _ & Hp2) _]. simpl in Hp2. destruct (size <? gds_threshold).
    + apply returns_bind. eapply returns_mono.
      * apply (in_context_returns ctx _ p2 (fun r => r.1.1 = size /\
          device_moved (any_area host_area cuda_area) op buf offset size s r.1.2 /\ quiet r.2) (fun _ => True)); [done|].
        pose proof (observed_returns script thread now physical offset size _ s w1 _ _ Hw1
          (posix_device_ok host_pool cuda_pool page d host_area cuda_area op (invalidate op h) buf size
             offset 0 s Hs Ho Hb Hav)) as Hobs.
        apply returns_bind. eapply returns_mono; [exact Hobs| |done].
        intros [[n s1] w2] [[Hn Hm] Hw2]. simpl in *.
        destruct (logical_finish_quiet script thread now n r w2 Hw2) as (r' & w3 & -> & Hw3).
        simpl. by rewrite Z.add_0_r in Hm.
      * intros [[[n s1] w2] p3] (Hn & Hm & Hw2). done.
      * done.
    + apply returns_bind. eapply returns_mono;
        [apply (device_tasks_deliver host_pool cuda_pool page d host_area cuda_area op _ buf size offset
           task_size ctx sync _ physical thread w1 p2 s); try done|by intros [plan p3]|done].
Qed.

(** ** The shortened first task *)

Lemma tiles_aligned page off dev n ts t :
  (page | off) -> Forall (fun t => (page | tk_size t)) ts -> tiles off dev n (ts ++ [t]) ->
  Forall (fun t => (page | tk_file_offset t)) (ts ++ [t]).
Proof.
  intros Hoff Hts. revert off dev n Hoff. induction Hts as [|u ts Hu _ IH]; intros off dev n Hoff; simpl.
  - intros (<- & _). by constructor.
  - intros (<- & _ & _ & Ht). constructor; [done|]. eapply IH; [|exact Ht].
    by apply Z.divide_add_r.
Qed.

(** The first task ends at a page boundary. *)
Lemma first_task_ends_page k page offset task_size :
  0 <= k < 63 -> page = 2 ^ k -> (page | task_size) -> 0 < task_size < SIZE_MOD -> 0 <= offset < SIZE_MOD ->
  exists first,
    (aligned ← align_down offset page;
     let misalignment := offset -% aligned in
     mret (if (misalignment >? 0) && (misalignment <? task_size)
           then Some (task_size -% misalignment) else None)) = Ok first /\
    0 <= default task_size first <= task_size /\ (page | offset + default task_size first).
Proof.
  intros Hk Hpage Hdiv Ht Ho. assert (0 < page) by (rewrite Hpage; apply pow2_pos; lia).
  assert (Hle : page <= task_size) by (apply Z.divide_pos_le; [lia|done]).
  rewrite Hpage, align_down_ok by (lia || done). rewrite <- Hpage. cbn [mbind result_bind].
  pose proof (Z.mod_pos_bound offset page ltac:(lia)) as Hmod.
  pose proof (Z.div_mod offset page ltac:(lia)) as Hdm.
  replace (offset - page * (offset / page)) with (offset mod page) by lia.
  rewrite (wrap64_small (offset mod page)) by lia.
  replace (offset mod page <? task_size) with true by lia. rewrite andb_true_r.
  eexists. split; [done|]. destruct (offset mod page >? 0) eqn:Hz; bool_to_prop; simpl.
  - rewrite wrap64_small by lia. split; [lia|].
    replace (offset + (task_size - offset mod page)) with (task_size + offset / page * page) by lia.
    apply Z.divide_add_r; [done|apply Z.divide_factor_r].
  - split; [lia|]. apply Z.divide_add_r; [|done]. exists (offset / page). lia.
Qed.

(** Direct I/O on the POSIX path: when the task size is a multiple of the
    page size, every task of a device read but the first starts at a page
    boundary of the file, wherever the read itself starts. *)
Theorem read_tasks_aligned `{KernelLaws} `{CudaCopy} `{ErrorTexts} `{CudaDriver} `{!CudaDriverLaws}
    (k page : Z) (d : io_defaults) (thread : Z) (h : FileHandle)
    (buf size offset task_size ctx : Z) (opts : option Z -> ParallelIoOptions)
    (physical : PhysicalObservationContext) (w : world) (p : CudaProcess) :
  0 <= k < 63 -> page = 2 ^ k -> (page | task_size) -> 0 < task_size < SIZE_MOD ->
  in_monitor thread w = false -> cache_ok p ->
  (forall first, pio_thread_pool (opts first) <> 0 /\ first_task_size (opts first) = first) ->
  0 <= size -> 0 <= offset -> offset + size < SSIZE_MAX -> 0 <= buf -> buf + size < SIZE_MOD ->
  in_compat h = true -> file_direct_on h <> -1 -> auto_direct_io_read d = true ->
  returns (device_tasks page d thread PosixIo.READ h buf size offset task_size ctx false opts physical w p)
    (fun r => match r.1 with
       | Submitted _ _ _ (SplitTasks (first :: middle) last) =>
           Forall (fun t => (page | tk_file_offset t)) (middle ++ [last])
       | _ => True
       end) (fun _ => True).
Proof.
  intros Hk Hpage Hdiv Ht Hm Hp Hopts Hs Ho Hb Hbuf Hbs Hc Hon Had. unfold device_tasks. simpl.
  assert (0 < page) by (rewrite Hpage; apply pow2_pos; lia).
  apply returns_bind.
  eapply returns_mono; [apply run_settled; [apply (get_alloc_info_settles buf (Some ctx)); lia|done]| |done].
  intros [[[base n] dev] p2] [_ (Hbase & Hdev & Hb0 & _)].
  destruct (first_task_ends_page k page offset task_size Hk Hpage Hdiv Ht ltac:(lia))
    as (first & Hfirst & Hfs & Hend).
  assert (shortened_first_task page d PosixIo.READ h offset task_size = Ok first) as Hshort.
  { unfold shortened_first_task. rewrite Hc, Had.
    replace (file_direct_on h =? -1) with false by lia. exact Hfirst. }
  unfold shortened_first_task in Hshort. rewrite Hshort.
  cbn [mbind result_bind mret result_ret]. destruct (Hopts first) as [Hpool Hopt].
  destruct (parallel_io_splits w thread page size offset task_size dev (opts first))
    as (sub & -> & Htiles & Hsizes & Hsingle); try lia; try done; [rewrite Hopt; lia|].
  simpl. destruct sub as [t|tasks last]; [done|].
  destruct Hsizes as (f & middle & -> & Hf & Hmid & _). rewrite Hopt in Hf.
  assert (task_size < size).
  { destruct (decide (task_size < size)) as [|Hn]; [done|].
    destruct (proj2 Hsingle ltac:(lia)) as [t Hd]. done. }
  rewrite Z.min_l in Hf by lia. simpl in Htiles. destruct Htiles as (_ & _ & _ & Htiles).
  rewrite Hf in Htiles. eapply tiles_aligned; [exact Hend| |exact Htiles].
  eapply Forall_impl; [exact Hmid|]. by intros t ->.
Qed.

(** ** The cached file size *)

Definition size_fresh (s : size_state) : Prop :=
  (writing s = true -> size_cache s = 0 /\ measured s = None) /\
  (size_cache s = 0 \/ size_cache s = on_disk s) /\
  (forall k, measured s = Some k -> k = on_disk s).

Lemma size_step_fresh after s s' : size_step true after s s' -> size_fresh s -> size_fresh s'.
Proof.
  unfold size_fresh. destruct 1 as [n c m Hm|n n' c m Hn|n c m|n wr Hwr|n c k wr]; simpl;
    intros (Hw & Hc & Hk).
  - rewrite (Hm eq_refl). split; [done|]. split; [by left|done].
  - destruct (Hw eq_refl) as [-> ->]. split; [done|]. split; [by left|done].
  - destruct (Hw eq_refl) as [-> ->]. split; [done|]. split; [left; by destruct after|done].
  - rewrite (Hwr eq_refl). split; [done|]. split; [by left|congruence].
  - specialize (Hk k eq_refl) as ->. destruct wr; [by destruct (Hw eq_refl)|].
    split; [done|]. split; [by right|done].
Qed.

(** Unless a call of [nbytes] overlaps a write, what the handle has cached,
    and what a caller is about to cache, is the size of the file. *)
Theorem nbytes_fresh_when_serial (after : bool) (n : Z) (s : size_state) :
  rtc (size_step true after) (mkSize n 0 None false) s ->
  writing s = false ->
  (size_cache s = 0 \/ size_cache s = on_disk s) /\
  (forall k, measured s = Some k -> k = on_disk s).
Proof.
  intros Hr Hw.
  assert (Hinv : size_fresh s); [|by destruct Hinv as (_ & Hc & Hk)].
  clear Hw. remember (mkSize n 0 None false) as s0 eqn:Hs0.
  assert (size_fresh s0) as Hf by (subst; split; [done|]; split; [by left|done]).
  clear Hs0. induction Hr as [|s0 s1 s2 Hs _ IH]; [done|]. apply IH. by eapply size_step_fresh.
Qed.

Example nbytes_fresh_when_serial_witness :
  let s := mkSize 20 20 None false in
  rtc (size_step true true) (mkSize 10 0 None false) s /\ writing s = false /\
  (size_cache s = 0 \/ size_cache s = on_disk s) /\
  (forall k, measured s = Some k -> k = on_disk s).
Proof.
  cbv zeta.
  assert (Hr : rtc (size_step true true) (mkSize 10 0 None false) (mkSize 20 20 None false)).
  { eapply rtc_l; [by apply begin_write|]. eapply rtc_l; [by apply (extend _ _ 10 20)|].
    eapply rtc_l; [apply end_write|]. eapply rtc_l; [by apply measure|].
    eapply rtc_l; [apply publish|]. apply rtc_refl. }
  split; [exact Hr|]. split; [done|].
  apply (nbytes_fresh_when_serial true 10 (mkSize 20 20 None false) Hr eq_refl).
Defined.

(** Overlapping, the old size can stay, whether or not the writer invalidates
    again at the end. *)
Example nbytes_race_is_stale (after : bool) :
  rtc (size_step false after) (mkSize 10 0 None false) (mkSize 20 10 None false).
Proof.
  eapply rtc_l; [by apply measure|]. eapply rtc_l; [by apply begin_write|].
  eapply rtc_l; [by apply (extend _ _ 10 20)|]. eapply rtc_l; [apply end_write|].
  replace (if after then 0 else 0) with 0 by (by destruct after).
  eapply rtc_l; [apply publish|]. apply rtc_refl.
Qed.

(** ** Examples *)

Lemma full_cufile_laws : CuFileLaws (H := full_cufile).
Proof.
  split; intros handle base size off dev s n s' [= <- <-] Hn; (split; [lia|]); split; try done;
    split; intros a; simpl; unfold blit; by range_case.
Qed.

Section demo.
#[local] Existing Instance full_cufile.
#[local] Existing Instance full_cufile_laws.
#[local] Existing Instance no_texts.
#[local] Existing Instance one_device.
#[local] Existing Instance one_device_laws.

(** Through the page cache and Direct I/O: the first task is shortened. *)
Example parallel_transfer_run :
  (fun '(plan, _, _, _, _) => plan) <$>
    parallel_transfer (fixed_pool 8192) (fixed_cuda_pool 8192) 4096 overread (fun _ => []) 1 0
      PosixIo.READ (demo_handle true) 131082 9000 1000 4096 0 false 1 1 0 test_state initial_world
      fresh_process
  = Ok (Submitted 1 (mkContext POSIX Observation.READ DEVICE None "f" None) (DeviceTask 131072 77)
      (SplitTasks [mkTask 3096 1000 10; mkTask 4096 4096 3106] (mkTask 1808 8192 7202))).
Proof. vm_compute. reflexivity. Qed.

Example parallel_transfer_delivers_witness :
  1000 + 9000 + 4096 < SSIZE_MAX /\
  returns (parallel_transfer (fixed_pool 8192) (fixed_cuda_pool 8192) 4096 overread (fun _ => []) 1 0
      PosixIo.READ (demo_handle true) 131082 9000 1000 4096 0 false 1 1 0 test_state initial_world
      fresh_process)
    (fun '(plan, h', s', w', _) => h' = invalidate PosixIo.READ (demo_handle true) /\ quiet w' /\
       plan_delivers (fixed_pool 8192) (fixed_cuda_pool 8192) 4096 overread fixed_area fixed_cuda_area
         PosixIo.READ h' 131082 9000 1000 test_state plan s')
    (fun _ => forall p', is_host_memory 131082 fresh_process <> (inr true, p')).
Proof.
  split; [lia|].
  apply (parallel_transfer_delivers (fixed_pool 8192) (fixed_cuda_pool 8192) 4096 overread
    fixed_area fixed_cuda_area (StagingLaws0 := fixed_staging 8192 ltac:(lia)) (fun _ => []) 1 0
    PosixIo.READ (demo_handle true) 131082 9000 1000 4096 0 false 1 1 0 test_state initial_world
    fresh_process); try done; try (unfold any_area, fixed_area, fixed_cuda_area; lia).
  - exact initial_quiet.
  - exact fresh_cache.
Defined.

Example read_tasks_aligned_witness :
  (4096 | 8192) /\ in_monitor 1 initial_world = false /\ cache_ok fresh_process /\
  returns (device_tasks 4096 overread 1 PosixIo.READ (demo_handle true) 131082 60000 1000 8192 77 false
             (fun first => mkParallelIoOptions 1 0 0 first false)
             (mkContext POSIX Observation.READ DEVICE None "f" None) initial_world fresh_process)
    (fun r => match r.1 with
       | Submitted _ _ _ (SplitTasks (first :: middle) last) =>
           Forall (fun t => (4096 | tk_file_offset t)) (middle ++ [last])
       | _ => True
       end) (fun _ => True).
Proof.
  split; [by exists 2|]. split; [done|]. split; [exact fresh_cache|].
  apply (read_tasks_aligned 12 4096 overread 1 (demo_handle true) 131082 60000 1000 8192 77
    (fun first => mkParallelIoOptions 1 0 0 first false)); try done; try lia.
  - by exists 2.
  - exact fresh_cache.
Defined.
End demo.
