(* ===== verification/PageCache.v ===== *)
(** * The page cache of files

    The size, the page cache residency and the dropping of the page cache of
    [src/file_utils.cpp].  The kernel and the shell are parameters; what the
    functions hold while they run, descriptors and mappings, is state. *)

From stdpp Require Import base list list_numbers gmap sets strings.
From Stdlib Require Import ZArith Lia Ascii.
From S2P Require Import Prelude Utils FileHandle.

#[local] Open Scope Z_scope.
#[local] Open Scope word_scope.

(** What was asked of the kernel. *)
Inductive cache_call :=
  | Sync
  | Fdatasync (fd : Z)
  | Fadvise (fd offset length : Z)
  | Shell (command : string).

(** A mapping: descriptor, offset, length. *)
Record pc_state := mkPc {
  files : os;
  mapped : gmap Z (Z * Z * Z);
  trace : list cache_call }.

(** The kernel: the size of a file, a mapping or a failure, whether unmapping
    succeeds, the residency bytes of a mapping, codes; [popen]: the error output
    of a command, when it can be started. *)
Class CachePlatform := {
  page_size : Z;
  fstat_size : Z -> option Z;
  sys_mmap : gmap Z (Z * Z * Z) -> Z -> Z -> Z -> option Z;
  munmap_ok : Z -> Z -> bool;
  mincore : Z * Z * Z -> option (list Z);
  fdatasync_ok : Z -> bool;
  posix_fadvise : Z -> Z -> Z -> Z;
  popen : string -> option string }.

(** Mappings are fresh and can be unmapped; [resident] says which pages of a
    descriptor's file are cached, the other bits are arbitrary. *)
Class CacheLaws `{CachePlatform} (resident : Z -> Z -> bool) := {
  mmap_fresh m fd off len addr : sys_mmap m fd off len = Some addr -> m !! addr = None;
  munmap_mapped addr len : munmap_ok addr len = true;
  mincore_pages fd off len bytes : 0 <= len -> mincore (fd, off, len) = Some bytes ->
    Z.of_nat (length bytes) = (len + page_size - 1) / page_size /\
    forall i b, bytes !! i = Some b -> Z.testbit b 0 = resident fd (off / page_size + Z.of_nat i) }.

Section page_cache.
Context `{Platform} `{CachePlatform}.

Definition on_files {A} (m : st os A) : st pc_state A := fun s =>
  let '(r, o) := m (files s) in (r, mkPc o (mapped s) (trace s)).

Definition close_fd (fd : Z) (s : pc_state) : pc_state :=
  mkPc (os_close fd (files s)) (mapped s) (trace s).

(** [ScopeExit]: the cleanup runs however the scope ends; what it throws is
    only reported. *)
Definition scope_exit {S A} (cleanup : S -> S) (m : st S A) : st S A :=
  r ← attempt m;
  _ ← modify cleanup;
  match r with inl e => throw e | inr a => mret a end.

(** [get_file_size(int)] *)
Definition fd_size (fd : Z) : st pc_state Z :=
  match fstat_size fd with
  | Some n => mret n
  | None => throw (GenericSystemError "Unable to query file size.")
  end.

(** [FileHandle::m644] *)
Definition m644 : Z := 420.

(** [get_file_size(std::string)]; closing succeeds. *)
Definition get_file_size (file_path : string) : st pc_state Z :=
  fd ← on_files (open_fd file_path "r" false m644);
  result ← fd_size fd;
  _ ← modify (close_fd fd);
  mret result.

Definition mmap (padded_length fd offset : Z) : st pc_state Z :=
  s ← get_st;
  match sys_mmap (mapped s) fd offset padded_length with
  | Some addr =>
      _ ← put_st (mkPc (files s) (<[addr := (fd, offset, padded_length)]> (mapped s)) (trace s));
      mret addr
  | None => throw (GenericSystemError "mmap failed.")
  end.

Definition munmap (addr padded_length : Z) (s : pc_state) : pc_state :=
  if munmap_ok addr padded_length then mkPc (files s) (delete addr (mapped s)) (trace s) else s.

(** The bytes with the lowest bit set. *)
Definition count_resident (is_in_page_cache : list Z) : Z :=
  Z.of_nat (length (filter (fun b => Z.land b 1 <> 0) is_in_page_cache)).

Definition query_residency (addr padded_length : Z) : st pc_state (Z * Z) :=
  let num_pages := (padded_length +% page_size -% 1) / page_size in
  s ← get_st;
  match mapped s !! addr ≫= mincore with
  | Some bytes => mret (count_resident bytes, num_pages)
  | None => throw (GenericSystemError "mincore")
  end.

(** [get_page_cache_info(int)] *)
Definition fd_page_cache_info (fd offset length : Z) : st pc_state (Z * Z) :=
  aligned_offset ← of_result (align_down offset page_size);
  file_size ← fd_size fd;
  if offset >=? file_size then mret (0, 0)
  else
    let padded_length :=
      if length =? 0 then file_size -% aligned_offset
      else Z.min file_size (length +% offset) -% aligned_offset in
    addr ← mmap padded_length fd aligned_offset;
    scope_exit (munmap addr padded_length) (query_residency addr padded_length).

(** [get_page_cache_info(std::string)] *)
Definition get_page_cache_info (file_path : string) (offset length : Z) : st pc_state (Z * Z) :=
  fd ← on_files (open_fd file_path "r" false m644);
  scope_exit (close_fd fd) (fd_page_cache_info fd offset length).

(** ** Dropping *)

Definition ask (c : cache_call) : st pc_state unit :=
  modify (fun s => mkPc (files s) (mapped s) (trace s ++ [c])).

(** [drop_file_page_cache(int)] *)
Definition fd_drop_page_cache (fd offset length : Z) (sync_first : bool) : st pc_state unit :=
  _ ← (if sync_first then
         _ ← ask (Fdatasync fd);
         require (fdatasync_ok fd) (GenericSystemError "fdatasync failed")
       else mret tt);
  _ ← ask (Fadvise fd offset length);
  require (posix_fadvise fd offset length =? 0) (GenericSystemError "posix_fadvise failed").

(** [drop_file_page_cache(std::string)]: the [FileWrapper] closes in its
    destructor. *)
Definition drop_file_page_cache (file_path : string) (offset length : Z) (sync_first : bool)
    : st pc_state unit :=
  fd ← on_files (wrapper_open file_path "r" false m644 (-1));
  scope_exit (fun s => mkPc (wrapper_close fd (files s)).2 (mapped s) (trace s))
    (fd_drop_page_cache fd offset length sync_first).

(** [fgets(buffer, 128)]: up to a newline, 127 characters or the end; what
    [error_out += buffer] appends ends before a zero byte. *)
Fixpoint fgets (n : nat) (s : list ascii) : list ascii * list ascii :=
  match n, s with
  | S n, c :: s => if Ascii.eqb c "010"%char then ([c], s)
                   else let '(l, r) := fgets n s in (c :: l, r)
  | _, _ => ([], s)
  end.

Fixpoint c_string (l : list ascii) : list ascii :=
  match l with
  | c :: l => if Ascii.eqb c "000"%char then [] else c :: c_string l
  | [] => []
  end.

Record reading := mkReading { unread : list ascii; error_out : list ascii; at_end : bool }.

Definition read_output (fuel : nat) (output : list ascii) : result reading :=
  while_loop fuel (fun r => negb (at_end r))
    (fun r => match unread r with
              | [] => Ok (mkReading [] (error_out r) true)
              | _ => let '(line, rest) := fgets 127 (unread r) in
                     Ok (mkReading rest (error_out r ++ c_string line) false)
              end)
    (mkReading output [] false).

Definition redirected (cmd : string) : string := "( " +:+ cmd +:+ " 3>&2 2>&1 1>&3) 2>/dev/null".

Definition exec_cmd (cmd : string) : st pc_state bool :=
  _ ← ask (Shell (redirected cmd));
  match popen (redirected cmd) with
  | None => throw (GenericSystemError "popen() failed")
  | Some out =>
      r ← of_result (read_output (S (String.length out)) (String.list_ascii_of_string out));
      mret (match error_out r with [] => true | _ => false end)
  end.

Fixpoint exec_any (cmds : list string) : st pc_state bool :=
  match cmds with
  | [] => mret false
  | cmd :: cmds => ok ← exec_cmd cmd; if ok : bool then mret true else exec_any cmds
  end.

Definition drop_cmds (reclaim_dentries_and_inodes : bool) : list string :=
  let param := if reclaim_dentries_and_inodes then "3" else "1" in
  ["/sbin/sysctl vm.drop_caches=" +:+ param; "sudo /sbin/sysctl vm.drop_caches=" +:+ param].

Definition drop_system_page_cache (reclaim_dentries_and_inodes sync_first : bool) : st pc_state bool :=
  _ ← (if sync_first then ask Sync else mret tt);
  exec_any (drop_cmds reclaim_dentries_and_inodes).

Definition clear_page_cache (reclaim_dentries_and_inodes clear_dirty_pages : bool) : st pc_state bool :=
  drop_system_page_cache reclaim_dentries_and_inodes clear_dirty_pages.

(** ** Residency *)

Lemma scope_exit_ends {S A} (cleanup : S -> S) (m : st S A) s (Q : A -> S -> Prop) (E : exn -> S -> Prop) :
  ends m s (fun a s' => Q a (cleanup s')) (fun e s' => E e (cleanup s')) -> ends (scope_exit cleanup m) s Q E.
Proof.
  unfold scope_exit, ends, attempt, modify, mbind, st_bind. by destruct (m s) as [[e|a] s'].
Qed.

Lemma land_1 b : Z.land b 1 <> 0 <-> Z.testbit b 0 = true.
Proof.
  change 1 with (Z.ones 1). rewrite Z.land_ones by lia. change (2 ^ 1) with 2.
  rewrite Z.bit0_odd, Zmod_odd. destruct (Z.odd b); lia.
Qed.

(** The number of pages from [first] on, out of [n], that are resident. *)
Definition resident_pages (resident : Z -> bool) (first n : Z) : Z :=
  Z.of_nat (length (filter (fun p => resident p = true) (seqZ first n))).

Lemma count_resident_pages (resident : Z -> bool) bytes first :
  (forall i b, bytes !! i = Some b -> Z.testbit b 0 = resident (first + Z.of_nat i)) ->
  count_resident bytes = resident_pages resident first (Z.of_nat (length bytes)).
Proof.
  unfold count_resident, resident_pages. intros Hb. f_equal. revert first Hb.
  induction bytes as [|b bytes IH]; intros first Hb; [done|].
  simpl length. rewrite Nat2Z.inj_succ, seqZ_cons by lia. rewrite Z.pred_succ.
  pose proof (Hb 0%nat b eq_refl) as H0'. rewrite Z.add_0_r in H0'.
  specialize (IH (Z.succ first)). rewrite !filter_cons.
  assert (Hb' : forall i b, bytes !! i = Some b -> Z.testbit b 0 = resident (Z.succ first + Z.of_nat i)).
  { intros i b' Hi. rewrite (Hb (S i) b' Hi). f_equal. lia. }
  specialize (IH Hb'). destruct (decide (Z.land b 1 <> 0)) as [Hd|Hd]; rewrite land_1 in Hd.
  - rewrite decide_True by congruence. simpl. by rewrite IH.
  - rewrite decide_False by congruence. exact IH.
Qed.

(** The pages that overlap the range, and their number: nothing beyond the end
    of the file, and no length stands for the rest of it. *)
Definition pages_of_range (size offset length : Z) : Z * Z :=
  if offset >=? size then (0, 0)
  else let limit := if length =? 0 then size else Z.min size (offset + length) in
       (offset / page_size, (limit + page_size - 1) / page_size - offset / page_size).

Lemma residency_of_range resident `{!CacheLaws resident} k fd offset length s size :
  page_size = 2 ^ k -> 0 <= k < 63 -> 0 <= offset -> 0 <= length -> offset + length < SIZE_MOD ->
  0 <= size < 2 ^ 63 -> fstat_size fd = Some size ->
  ends (fd_page_cache_info fd offset length) s
    (fun r s' => s' = s /\ r = let '(first, n) := pages_of_range size offset length in
                              (resident_pages (resident fd) first n, n))
    (fun _ s' => s' = s).
Proof.
  intros Hps Hk Ho Hl Hsum Hsz Hst. unfold fd_page_cache_info, of_result, fd_size.
  assert (Hpos : 0 < page_size < 2 ^ 63).
  { rewrite Hps. split; [apply pow2_pos; lia|]. apply Z.pow_lt_mono_r; lia. }
  assert (Hdown : align_down offset page_size = Ok (page_size * (offset / page_size))).
  { rewrite Hps. apply align_down_ok; unfold is_size; lia. }
  rewrite Hdown, Hst.
  apply ends_bind. unfold ends at 1. simpl. apply ends_bind. unfold ends at 1. simpl. unfold pages_of_range.
  destruct (offset >=? size) eqn:Hge; [by split|]. bool_to_prop.
  set (limit := if length =? 0 then size else Z.min size (offset + length)).
  assert (Hlim : offset < limit \/ limit = offset /\ length = 0) by (unfold limit; destruct (length =? 0) eqn:?; bool_to_prop; lia).
  assert (Hlim' : offset < limit <= size) by (unfold limit in *; destruct (length =? 0) eqn:?; bool_to_prop; lia).
  set (first := offset / page_size). assert (Hfirst : 0 <= page_size * first <= offset).
  { unfold first. split; [apply Z.mul_nonneg_nonneg; [lia|apply Z.div_pos; lia]|apply Z.mul_div_le; lia]. }
  assert (Hpad : (if length =? 0 then size -% page_size * first
                  else Z.min size (length +% offset) -% page_size * first) = limit - page_size * first).
  { assert (2 ^ 63 < SIZE_MOD) by done. unfold limit in *. rewrite (wrap64_small (length + offset)) by lia.
    destruct (length =? 0); rewrite wrap64_small by lia; [done|]. by rewrite (Z.add_comm length). }
  rewrite Hpad. set (padded := limit - page_size * first).
  assert (Hnum : (padded +% page_size -% 1) / page_size = (limit + page_size - 1) / page_size - first).
  { assert (2 ^ 63 + 2 ^ 63 = SIZE_MOD) by done. unfold padded. rewrite (wrap64_small (_ + page_size)) by lia.
    rewrite wrap64_small by lia.
    replace (limit - page_size * first + page_size - 1) with (limit + page_size - 1 + - first * page_size) by ring.
    rewrite Z.div_add by lia. lia. }
  apply ends_bind. unfold mmap. apply ends_bind. unfold ends at 1, get_st.
  destruct (sys_mmap (mapped s) fd (page_size * first) padded) as [addr|] eqn:Hm; [|done].
  apply ends_bind. unfold ends at 1, put_st. unfold ends at 1. simpl.
  apply mmap_fresh in Hm. apply scope_exit_ends. unfold query_residency. rewrite Hnum.
  apply ends_bind. unfold ends at 1, get_st. simpl. rewrite lookup_insert_eq. simpl.
  assert (Hsame : munmap addr padded (mkPc (files s) (<[addr := (fd, page_size * first, padded)]> (mapped s)) (trace s)) = s).
  { unfold munmap. rewrite munmap_mapped. simpl. rewrite delete_insert_id by done. by destruct s. }
  destruct (mincore (fd, page_size * first, padded)) as [bytes|] eqn:Hb; unfold ends; simpl; [|done].
  split; [done|]. apply mincore_pages in Hb as [Hlen Hbits]; [|unfold padded; lia].
  rewrite (Z.mul_comm page_size first), Z.div_mul in Hbits by lia.
  assert (Hlen' : Z.of_nat (List.length bytes) = (limit + page_size - 1) / page_size - first).
  { rewrite Hlen. unfold padded.
    replace (limit - page_size * first + page_size - 1) with (limit + page_size - 1 + - first * page_size) by ring.
    rewrite Z.div_add by lia. lia. }
  by rewrite (count_resident_pages (resident fd) bytes first Hbits), Hlen'.
Qed.

(** The descriptors that are open are as they were; the calls of the kernel are
    counted. *)
Definition same_files (o o' : os) : Prop :=
  open_fds o' = open_fds o /\ registered_fds o' = registered_fds o /\ misused o' = misused o.

(** Only open descriptors are registered with cuFile. *)
Definition registered_open (o : os) : Prop :=
  map_Forall (fun _ fd => fd ∈ open_fds o) (registered_fds o).

Lemma open_close_same `{!PlatformLaws} path flags o_direct mode o :
  registered_open o ->
  ends (open_fd path flags o_direct mode) o
    (fun fd o' => open_fds o' = {[fd]} ∪ open_fds o /\ opened fd = true /\ same_files o (os_close fd o'))
    (fun _ o' => same_files o o').
Proof.
  intros Hreg. unfold open_fd. apply ends_bind. unfold of_result.
  destruct (open_fd_parse_flags flags o_direct) as [fl|e|]; [|by unfold ends..].
  unfold ends at 1, os_open, ends. destruct (sys_open o path fl mode) as [e|fd] eqn:Ho; [done|].
  apply sys_open_fresh in Ho as [Hfd Hnew]. split; [done|].
  split; [unfold opened; replace (fd =? -1) with false by lia; done|]. split_and!; simpl; [set_solver|done|].
  rewrite bool_decide_eq_true_2 by set_solver. rewrite bool_decide_eq_false_2.
  - by rewrite !orb_false_r.
  - intros (h & fd' & Hh & ->). by apply Hreg in Hh.
Qed.
End page_cache.

(** [get_page_cache_info] reports, of the pages of the file that overlap the
    range (clamped to the file, all of the rest when the length is 0), how many
    there are and how many are resident; and whether it returns or throws, the
    descriptor it opened is closed and the mapping it made is gone. *)
Theorem page_cache_info_counts `{PlatformLaws} `{CachePlatform} (resident : Z -> Z -> bool)
    `{!CacheLaws resident} k file_path offset length s :
  page_size = 2 ^ k -> 0 <= k < 63 -> 0 <= offset -> 0 <= length -> offset + length < SIZE_MOD ->
  (forall fd n, fstat_size fd = Some n -> 0 <= n < 2 ^ 63) -> registered_open (files s) ->
  ends (get_page_cache_info file_path offset length) s
    (fun r s' => (same_files (files s) (files s') /\ mapped s' = mapped s) /\
       exists fd size, fstat_size fd = Some size /\
         let '(first, n) := pages_of_range size offset length in
         r = (resident_pages (resident fd) first n, n))
    (fun _ s' => same_files (files s) (files s') /\ mapped s' = mapped s).
Proof.
  intros Hps Hk Ho Hl Hsum Hsz Hreg. unfold get_page_cache_info. apply ends_bind.
  pose proof (open_close_same file_path "r" false m644 (files s) Hreg) as Hopen.
  unfold ends in Hopen. unfold ends at 1, on_files.
  destruct (open_fd file_path "r" false m644 (files s)) as [[e|fd] o]; [done|].
  destruct Hopen as (_ & _ & Hclose). apply scope_exit_ends. set (s1 := mkPc o (mapped s) (trace s)).
  destruct (fstat_size fd) as [size|] eqn:Hst.
  - eapply ends_mono; [by apply (residency_of_range resident k fd offset length s1 size); eauto| |].
    + intros r s2 [-> Hr]. split; [done|]. exists fd, size. split; [done|].
      destruct (pages_of_range size offset length). exact Hr.
    + intros e s2 ->. done.
  - unfold fd_page_cache_info, fd_size. apply ends_bind. unfold of_result.
    destruct (align_down offset page_size); unfold ends at 1; try done.
    apply ends_bind. unfold ends at 1. by rewrite Hst.
Qed.

(** ** Dropping *)

Lemma fgets_app n s l r : fgets n s = (l, r) -> s = l ++ r.
Proof.
  revert s l r. induction n as [|n IH]; intros s l r; [by destruct s; intros [= <- <-]|].
  destruct s as [|c s]; [by intros [= <- <-]|]. simpl. destruct (Ascii.eqb c _); [by intros [= <- <-]|].
  destruct (fgets n s) as [l' r'] eqn:Hf. intros [= <- <-]. simpl. f_equal. by apply IH.
Qed.

Lemma fgets_progress n c s l r : fgets (S n) (c :: s) = (l, r) -> l <> [].
Proof. simpl. destruct (Ascii.eqb c _); [by intros [= <- <-]|]. destruct (fgets n s). by intros [= <- <-]. Qed.

Lemma c_string_id l : Forall (fun c => c <> "000"%char) l -> c_string l = l.
Proof.
  induction 1 as [|c l Hc _ IH]; [done|]. simpl. rewrite IH. by apply Ascii.eqb_neq in Hc as ->.
Qed.

(** The whole output is read, and fuel for one line per character is enough. *)
Lemma read_output_ok output :
  Forall (fun c => c <> "000"%char) output ->
  exists r, read_output (S (List.length output)) output = Ok r /\ error_out r = output.
Proof.
  intros Hz. destruct (returns_ok (read_output (S (List.length output)) output) (fun r => error_out r = output)) as (r & Hr);
    [|by exists r].
  eapply returns_mono; [apply (while_rule
    (fun r => error_out r ++ unread r = output /\ (at_end r = true -> unread r = []))
    (fun r => if at_end r then 0 else Z.of_nat (List.length (unread r)) + 1) (fun _ => False))| |done].
  - intros [un er en] [Ho Ha] Hc. cbn [unread error_out at_end] in *. destruct en; [done|]. split; [lia|].
    destruct un as [|c un]; [simpl; split; [done|lia]|].
    destruct (fgets 127 (c :: un)) as [line rest] eqn:Hf. pose proof (fgets_progress _ _ _ _ _ Hf) as Hp.
    apply fgets_app in Hf. cbn [returns unread error_out at_end]. rewrite Hf in Ho.
    assert (Hline : c_string line = line).
    { apply c_string_id. rewrite <- Ho in Hz. by apply Forall_app in Hz as [_ [? _]%Forall_app]. }
    rewrite Hline. split; [split; [by rewrite <- app_assoc|done]|].
    assert (List.length (c :: un) = List.length line + List.length rest)%nat by (rewrite Hf; apply length_app).
    destruct line; [done|]. simpl in *. lia.
  - done.
  - simpl. lia.
  - intros r [[Ho Ha] Hc]. apply negb_false_iff in Hc. specialize (Ha Hc). by rewrite Ha, app_nil_r in Ho.
Qed.

(** A command succeeded when it wrote nothing to its error output. *)
Lemma exec_cmd_spec `{CachePlatform} cmd out s :
  popen (redirected cmd) = Some out -> Forall (fun c => c <> "000"%char) (String.list_ascii_of_string out) ->
  exec_cmd cmd s = (inr (bool_decide (out = "")), mkPc (files s) (mapped s) (trace s ++ [Shell (redirected cmd)])).
Proof.
  intros Hp Hz. unfold exec_cmd, ask, modify, mbind, st_bind. rewrite Hp. unfold of_result.
  destruct (read_output_ok _ Hz) as (r & Hr & He).
  assert (Hlen : List.length (String.list_ascii_of_string out) = String.length out).
  { clear. induction out as [|c out IH]; simpl; [done|by rewrite IH]. }
  rewrite Hlen in Hr. rewrite Hr. simpl. rewrite He. by destruct out.
Qed.

(** The command without [sudo] is tried first, and the other one only when it
    fails. *)
Lemma drop_system_page_cache_spec `{CachePlatform} reclaim sync out1 out2 s c1 c2 :
  drop_cmds reclaim = [c1; c2] ->
  popen (redirected c1) = Some out1 -> popen (redirected c2) = Some out2 ->
  Forall (fun c => c <> "000"%char) (String.list_ascii_of_string out1) ->
  Forall (fun c => c <> "000"%char) (String.list_ascii_of_string out2) ->
  let '(r, s') := drop_system_page_cache reclaim sync s in
  r = inr (bool_decide (out1 = "" \/ out2 = "")) /\
  trace s' = trace s ++ (if sync : bool then [Sync] else []) ++ [Shell (redirected c1)]
             ++ (if decide (out1 = "") then [] else [Shell (redirected c2)]).
Proof.
  intros Hc Hp1 Hp2 Hz1 Hz2. unfold drop_system_page_cache. rewrite Hc.
  assert (Hrun : forall s0, let '(r, s') := exec_any [c1; c2] s0 in
    r = inr (bool_decide (out1 = "" \/ out2 = "")) /\
    trace s' = trace s0 ++ [Shell (redirected c1)] ++ (if decide (out1 = "") then [] else [Shell (redirected c2)])).
  { intros s0. cbn [exec_any]. unfold mbind, st_bind. rewrite (exec_cmd_spec c1 out1) by done.
    case_bool_decide as H1'; simpl.
    - rewrite bool_decide_eq_true_2 by (by left). by rewrite decide_True.
    - rewrite (exec_cmd_spec c2 out2) by done. rewrite decide_False by done. simpl.
      case_bool_decide as H2'; simpl; rewrite <- app_assoc; split; try done; f_equal; symmetry.
      + apply bool_decide_eq_true_2. by right.
      + apply bool_decide_eq_false_2. tauto. }
  destruct sync; [|exact (Hrun s)]. set (s1 := mkPc (files s) (mapped s) (trace s ++ [Sync])).
  specialize (Hrun s1). change ((_ ← ask Sync; exec_any [c1; c2]) s) with (exec_any [c1; c2] s1).
  destruct (exec_any [c1; c2] s1) as [r s']. destruct Hrun as [-> ->]. split; [done|]. unfold s1. cbn [trace]. by rewrite <- app_assoc.
Qed.

(** Dropping a file's pages asks for exactly the range, after the file was
    synchronised when that was asked for, and leaves no descriptor open. *)
Lemma drop_file_page_cache_spec `{PlatformLaws} `{CachePlatform} file_path offset length sync s :
  registered_open (files s) ->
  ends (drop_file_page_cache file_path offset length sync) s
    (fun _ s' => same_files (files s) (files s') /\ exists fd,
       trace s' = trace s ++ (if sync : bool then [Fdatasync fd] else []) ++ [Fadvise fd offset length])
    (fun _ s' => same_files (files s) (files s')).
Proof.
  intros Hreg. unfold drop_file_page_cache, wrapper_open. simpl (negb (opened (-1))). cbv iota. apply ends_bind.
  pose proof (open_close_same file_path "r" false m644 (files s) Hreg) as Hopen.
  unfold ends in Hopen. unfold ends at 1, on_files.
  destruct (open_fd file_path "r" false m644 (files s)) as [[e|fd] o]; [done|].
  destruct Hopen as (_ & Hfd & Hclose). apply scope_exit_ends. unfold wrapper_close, fd_drop_page_cache. rewrite Hfd.
  unfold ask, require. destruct sync.
  - apply ends_bind, ends_bind. unfold ends at 1, modify. destruct (fdatasync_ok fd); [|done].
    unfold ends at 1. simpl. apply ends_bind. unfold ends at 1. destruct (_ =? 0); [|done]. unfold ends. simpl.
    split; [done|]. exists fd. by rewrite <- app_assoc.
  - apply ends_bind. unfold ends at 1. simpl. apply ends_bind. unfold ends at 1, modify.
    destruct (_ =? 0); [|done]. unfold ends. simpl. split; [done|]. by exists fd.
Qed.

(** ** A kernel whose even pages are cached *)

Definition even_pages : CachePlatform := {|
  page_size := 4096;
  fstat_size fd := if fd =? 99 then None else Some 10000;
  sys_mmap m _ _ len := if len =? 0 then None else Some (next_id (map_to_list m).*1);
  munmap_ok _ _ := true;
  mincore m := let '(_, off, len) := m in
    Some ((fun p => if Z.even p then 1 else 254) <$> seqZ (off / 4096) ((len + 4095) / 4096));
  fdatasync_ok _ := true;
  posix_fadvise _ _ _ := 0;
  popen cmd := Some "" |}.

Lemma even_pages_laws : @CacheLaws even_pages (fun _ p => Z.even p).
Proof.
  split; simpl.
  - intros m fd off len addr. destruct (len =? 0); [done|]. intros [= <-].
    destruct (m !! _) as [x|] eqn:Hx; [|done]. exfalso.
    apply elem_of_map_to_list, (list_elem_of_fmap_2 fst) in Hx. by apply next_id_fresh in Hx.
  - done.
  - intros fd off len bytes Hlen [= <-]. replace (len + 4096 - 1) with (len + 4095) by lia. split.
    + rewrite length_fmap, length_seqZ. apply Z2Nat.id, Z.div_pos; lia.
    + intros i b Hi. rewrite list_lookup_fmap in Hi. apply fmap_Some in Hi as (p & Hp & ->).
      apply lookup_seqZ in Hp as [-> _]. by destruct (Z.even _).
Qed.

Definition start : pc_state := mkPc (mkOs {[3]} ∅ 0 false) ∅ [].

(** Bytes 5000 to 9999 are in pages 1 and 2, of which 2 is cached. *)
Lemma page_cache_info_counts_witness :
  (@get_page_cache_info test_platform even_pages "data" 5000 5000 start).1 = inr (1, 2) /\
  ends (@get_page_cache_info test_platform even_pages "data" 5000 5000) start
    (fun r s' => (same_files (files start) (files s') /\ mapped s' = mapped start) /\
       exists fd size, @fstat_size even_pages fd = Some size /\
         let '(first, n) := @pages_of_range even_pages size 5000 5000 in
         r = (resident_pages (fun p => Z.even p) first n, n))
    (fun _ s' => same_files (files start) (files s') /\ mapped s' = mapped start).
Proof.
  split; [vm_compute; reflexivity|].
  apply (@page_cache_info_counts test_platform test_platform_laws even_pages (fun _ p => Z.even p) even_pages_laws
           12 "data" 5000 5000 start); try lia.
  - reflexivity.
  - simpl. intros fd n. destruct (fd =? 99); [done|]. intros [= <-]. lia.
  - simpl. apply map_Forall_empty.
Defined.

(** A length that does not fit behind the offset is not clamped to the file:
    the sum wraps to 0. *)
Example long_range_is_not_clamped :
  (@get_page_cache_info test_platform even_pages "data" 1 (SIZE_MOD - 1) start).1 =
  inl (GenericSystemError "mmap failed.").
Proof. vm_compute. reflexivity. Qed.

(** A kernel that opens files and cannot stat them: [get_file_size] leaves the
    descriptor open. *)
Definition no_stat : CachePlatform := {|
  page_size := 4096; fstat_size _ := None; sys_mmap _ _ _ _ := None; munmap_ok _ _ := true;
  mincore _ := None; fdatasync_ok _ := true; posix_fadvise _ _ _ := 0; popen _ := None |}.

Example failed_stat_leaks_the_descriptor :
  size (open_fds (files (@get_file_size test_platform no_stat "data" start).2)) = 2%nat.
Proof. vm_compute. reflexivity. Qed.
