(* ===== verification/BlockDevice.v ===== *)
(** * Block devices and their thread pools

    [get_block_device_info] of [src/file_utils.cpp] and
    [get_thread_pool_per_block_device] of [src/file_handle.cpp]: from the path
    of a file to the device it is on, and from the device to one thread pool for
    all files on it.  The kernel's answers (stat, sysfs) are parameters. *)

From stdpp Require Import base list gmap strings pretty.
From Stdlib Require Import ZArith Lia Ascii.
From S2P Require Import Prelude Utils Regex.

#[local] Open Scope Z_scope.

(** ** Device numbers

    [makedev], [major] and [minor] of the C library. *)

Definition makedev (maj min : Z) : Z :=
  Z.lor (Z.lor (Z.shiftl (Z.land maj 4095) 8) (Z.shiftl (Z.land maj 4294963200) 32))
        (Z.lor (Z.land min 255) (Z.shiftl (Z.land min 4294967040) 12)).

Definition dev_major (dev : Z) : Z :=
  Z.lor (Z.land (Z.shiftr dev 8) 4095) (Z.land (Z.shiftr dev 32) 4294963200).

Definition dev_minor (dev : Z) : Z :=
  Z.lor (Z.land dev 255) (Z.land (Z.shiftr dev 12) 4294967040).

(** ** Paths of sysfs: absolute, by component *)

Abbreviation sys_path := (list string) (only parsing).

Definition path_string (p : sys_path) : string :=
  match p with [] => "/" | _ => String.concat "" ((fun c => "/" +:+ c) <$> p) end.
Definition parent_path (p : sys_path) : sys_path := removelast p.
Definition filename (p : sys_path) : string := default "" (last p).

(** ** The number file *)

Definition UINT_MAX : Z := 4294967295.

(** [stream >> n] for an unsigned int: the value stored, whether the stream is
    still good, and what is left. *)
Definition read_unsigned (s : list ascii) : Z * bool * list ascii :=
  let s := drop_spaces s in
  let '(negative, s) := match s with
                        | c :: s' => if Ascii.eqb c "-"%char then (true, s')
                                     else if Ascii.eqb c "+"%char then (false, s') else (false, s)
                        | [] => (false, [])
                        end in
  let '(digits, rest) := span is_digit s in
  match digits with
  | [] => (0, false, rest)
  | _ => let n := digits_value digits in
         if n >? UINT_MAX then (UINT_MAX, false, rest)
         else (if negative : bool then (- n) mod (UINT_MAX + 1) else n, true, rest)
  end.

(** [stream >> c]: the character stored when there is one. *)
Definition read_char (s : list ascii) : option ascii * list ascii :=
  match drop_spaces s with c :: s' => (Some c, s') | [] => (None, []) end.

(** [ifs >> dev_major_id >> colon >> dev_minor_id]: a stream that has failed
    stores nothing more. *)
Definition read_device (maj min : Z) (s : list ascii) : Z * ascii * Z :=
  let '(maj, good, s) := read_unsigned s in
  if negb good then (maj, "000"%char, min)
  else match read_char s with
       | (None, _) => (maj, "000"%char, min)
       | (Some c, s) => let '(min, _, _) := read_unsigned s in (maj, c, min)
       end.

(** ** The device of a file *)

Record BlockDeviceInfo := mkBlockDevice { bd_id : Z; bd_major : Z; bd_minor : Z; bd_name : string }.

(** [^nvme\d+n\d+$] *)
Definition nvme_pattern : regex :=
  Seq [Lit_of Chr (String.list_ascii_of_string "nvme"); Plus Digit; Chr "n"%char; Plus Digit].

Section device.
(** [stat]'s device; [access]; [realpath]; the existence and the contents of a
    file. *)
Context (stat_dev : string -> option Z) (sysfs_exists : string -> bool)
  (realpath : string -> option sys_path) (exists_ : string -> bool)
  (contents : string -> option (list ascii)).

Definition sysfs_path (dev : Z) : string :=
  "/sys/dev/block/" +:+ pretty (dev_major dev) +:+ ":" +:+ pretty (dev_minor dev).

Definition check {A} (o : option A) (e : exn) : result A :=
  match o with Some a => Ok a | None => Err e end.

(** A partition's parent is its device. *)
Definition base_device (resolved : sys_path) : sys_path :=
  if exists_ (path_string (resolved ++ ["partition"])) then parent_path resolved else resolved.

(** The file with the numbers, and the name: the controller's of an NVMe
    namespace. *)
Definition dev_file_of (cur_path : sys_path) : string * string :=
  let block_dev_name := filename cur_path in
  if regex_match (String.list_ascii_of_string block_dev_name) nvme_pattern
  then let controller_path := parent_path cur_path in
       (path_string (controller_path ++ ["dev"]), filename controller_path)
  else (path_string cur_path +:+ "/dev", block_dev_name).

Definition resolve_block_device (file_path : string) : result BlockDeviceInfo :=
  dev ← check (stat_dev file_path) (GenericSystemError "stat");
  let sysfs := sysfs_path dev in
  _ ← expect (sysfs_exists sysfs)
        (GenericSystemError ("sysfs path " +:+ sysfs +:+ " for file " +:+ file_path +:+ " does not exist."));
  resolved ← check (realpath sysfs) (GenericSystemError "Path failed to resolve");
  let '(dev_file, name) := dev_file_of (base_device resolved) in
  text ← check (contents dev_file) (CUfileException ("Block device file cannot be opened: " +:+ dev_file));
  let '(maj, colon, min) := read_device (dev_major dev) (dev_minor dev) text in
  _ ← expect (Ascii.eqb colon ":"%char)
        (CUfileException ("Parsing failed. Unexpected character encountered: " +:+ String colon ""));
  mret (mkBlockDevice (makedev maj min) maj min name).

(** [file_path_to_info_map] *)
Definition get_block_device_info (file_path : string) : st (gmap string BlockDeviceInfo) BlockDeviceInfo :=
  known ← get_st;
  match known !! file_path with
  | Some info => mret info
  | None =>
      info ← of_result (resolve_block_device file_path);
      _ ← modify (fun known => match known !! file_path with
                               | Some _ => known
                               | None => <[file_path := info]> known
                               end);
      mret info
  end.

(** The cache is transparent as long as the kernel keeps its answers. *)
Lemma get_block_device_info_cached known file_path :
  (forall p info, known !! p = Some info -> resolve_block_device p = Ok info) ->
  let '(r, known') := get_block_device_info file_path known in
  of_result (S := unit) (resolve_block_device file_path) tt = (r, tt) /\
  (forall p info, known' !! p = Some info -> resolve_block_device p = Ok info).
Proof.
  intros Hk. unfold get_block_device_info, get_st, mbind, st_bind.
  destruct (known !! file_path) as [info|] eqn:Hf; [by rewrite (Hk _ _ Hf)|].
  unfold of_result. destruct (resolve_block_device file_path) as [info|e|] eqn:Hr; [|done|done].
  simpl. split; [done|]. rewrite Hf. intros p i [[<- <-]|[_ Hp]]%lookup_insert_Some; [done|by apply Hk].
Qed.
End device.

(** ** One thread pool per device *)

(** The maps from paths and devices to pools; the flag of the defaults; pools
    are numbered, 0 is the default pool. *)
Record device_pools := mkPools {
  per_device : bool;
  file_path_to_thread_pool : gmap string Z;
  dev_id_to_thread_pool : gmap Z Z;
  next_pool : Z }.

Definition no_pools : device_pools := mkPools false ∅ ∅ 1.

(** The fast path, under the mutex. *)
Definition known_pool (file_path : string) (s : device_pools) : option Z := file_path_to_thread_pool s !! file_path.

(** The second critical section; [emplace] keeps an entry that is there. *)
Definition emplace (file_path : string) (pool : Z) (m : gmap string Z) : gmap string Z :=
  match m !! file_path with Some _ => m | None => <[file_path := pool]> m end.

Definition pool_of_device (file_path : string) (id : Z) (s : device_pools) : Z * device_pools :=
  match dev_id_to_thread_pool s !! id with
  | Some pool =>
      (pool, mkPools (per_device s) (emplace file_path pool (file_path_to_thread_pool s))
               (dev_id_to_thread_pool s) (next_pool s))
  | None =>
      let pool := next_pool s in
      (pool, mkPools (per_device s) (emplace file_path pool (file_path_to_thread_pool s))
               (<[id := pool]> (dev_id_to_thread_pool s)) (next_pool s + 1))
  end.

(** A call of [get_thread_pool_per_block_device]: entered, past the fast path,
    with its device, returned. *)
Inductive device_call :=
  | Entered (file_path : string)
  | Missed (file_path : string)
  | Resolved (file_path : string) (id : Z)
  | Returned (file_path : string) (pool : Z).

Section pools.
(** The device of a path, when it has one. *)
Context (device : string -> option Z).

(** The next step of a call; it takes its critical sections one at a time. *)
Definition advance (c : device_call) (s : device_pools) : device_call * device_pools :=
  match c with
  | Entered p =>
      if negb (per_device s) then (Returned p 0, s)
      else match known_pool p s with Some pool => (Returned p pool, s) | None => (Missed p, s) end
  | Missed p => match device p with Some id => (Resolved p id, s) | None => (Returned p 0, s) end
  | Resolved p id => let '(pool, s) := pool_of_device p id s in (Returned p pool, s)
  | Returned p pool => (c, s)
  end.

(** Calls are made, run in any order, and the flag is set at any time. *)
Inductive pool_step : gmap nat device_call * device_pools -> gmap nat device_call * device_pools -> Prop :=
  | ps_call calls s i p : calls !! i = None -> pool_step (calls, s) (<[i := Entered p]> calls, s)
  | ps_advance calls s i c c' s' : calls !! i = Some c -> advance c s = (c', s') ->
      pool_step (calls, s) (<[i := c']> calls, s')
  | ps_set_flag calls s flag :
      pool_step (calls, s) (calls, mkPools flag (file_path_to_thread_pool s) (dev_id_to_thread_pool s) (next_pool s)).

Definition pools_reachable (x : gmap nat device_call * device_pools) : Prop := rtc pool_step (∅, no_pools) x.

(** Every known pool is that of a device. *)
Definition pool_known (s : device_pools) (p : string) (pool : Z) : Prop :=
  exists id, device p = Some id /\ dev_id_to_thread_pool s !! id = Some pool.

Record pools_ok (x : gmap nat device_call * device_pools) : Prop := mkPoolsOk {
  pk_ids id pool : dev_id_to_thread_pool x.2 !! id = Some pool -> 0 < pool < next_pool x.2;
  pk_once id id' pool : dev_id_to_thread_pool x.2 !! id = Some pool ->
    dev_id_to_thread_pool x.2 !! id' = Some pool -> id = id';
  pk_paths p pool : file_path_to_thread_pool x.2 !! p = Some pool -> pool_known x.2 p pool;
  pk_resolved i p id : x.1 !! i = Some (Resolved p id) -> device p = Some id;
  pk_returned i p pool : x.1 !! i = Some (Returned p pool) -> pool = 0 \/ pool_known x.2 p pool;
  pk_next : 0 < next_pool x.2 }.

Lemma pool_known_mono s s' p pool :
  dev_id_to_thread_pool s ⊆ dev_id_to_thread_pool s' -> pool_known s p pool -> pool_known s' p pool.
Proof. intros Hs (id & Hd & Hp). exists id. split; [done|]. by eapply lookup_weaken. Qed.

Lemma pool_of_device_ok p id s pool s' :
  device p = Some id -> pool_of_device p id s = (pool, s') ->
  (forall id pool, dev_id_to_thread_pool s !! id = Some pool -> 0 < pool < next_pool s) -> 0 < next_pool s ->
  (forall id id' pool, dev_id_to_thread_pool s !! id = Some pool -> dev_id_to_thread_pool s !! id' = Some pool -> id = id') ->
  (forall p pool, file_path_to_thread_pool s !! p = Some pool -> pool_known s p pool) ->
  dev_id_to_thread_pool s ⊆ dev_id_to_thread_pool s' /\ pool_known s' p pool /\
  (forall id pool, dev_id_to_thread_pool s' !! id = Some pool -> 0 < pool < next_pool s') /\ 0 < next_pool s' /\
  (forall id id' pool, dev_id_to_thread_pool s' !! id = Some pool -> dev_id_to_thread_pool s' !! id' = Some pool -> id = id') /\
  (forall p pool, file_path_to_thread_pool s' !! p = Some pool -> pool_known s' p pool).
Proof.
  intros Hd Hs Hids Hnext Honce Hpaths.
  assert (Hem : forall s' pool, dev_id_to_thread_pool s ⊆ dev_id_to_thread_pool s' -> pool_known s' p pool ->
    forall q pool', emplace p pool (file_path_to_thread_pool s) !! q = Some pool' -> pool_known s' q pool').
  { intros s1 pool1 Hsub Hk q pool' Hq. unfold emplace in Hq. destruct (file_path_to_thread_pool s !! p).
    - by eapply pool_known_mono, Hpaths.
    - apply lookup_insert_Some in Hq as [[<- <-]|[_ Hq]]; [done|by eapply pool_known_mono, Hpaths]. }
  unfold pool_of_device in Hs. destruct (dev_id_to_thread_pool s !! id) as [q|] eqn:Hid; injection Hs as <- <-.
  - split; [done|]. assert (Hk : pool_known s p q) by by exists id.
    split; [exact Hk|]. split; [done|]. split; [done|]. split; [done|]. by apply Hem.
  - assert (Hsub : dev_id_to_thread_pool s ⊆ <[id := next_pool s]> (dev_id_to_thread_pool s)) by by apply insert_subseteq.
    set (s' := mkPools _ _ _ _). assert (Hk : pool_known s' p (next_pool s)).
    { exists id. split; [done|]. apply lookup_insert_eq. }
    split; [exact Hsub|]. split; [exact Hk|]. simpl. split; [|split; [lia|split; [|by apply (Hem s')]]].
    + intros id' q [[<- <-]|[_ Hq]]%lookup_insert_Some; [lia|]. specialize (Hids _ _ Hq). lia.
    + intros id1 id2 q [[<- <-]|[_ Hq]]%lookup_insert_Some [[<- ?]|[_ Hq']]%lookup_insert_Some; [done| | |by eapply Honce].
      * specialize (Hids _ _ Hq'). lia.
      * specialize (Hids _ _ Hq). lia.
Qed.

Lemma device_pool_step_ok x y : pool_step x y -> pools_ok x -> pools_ok y.
Proof.
  intros Hstep [A1 A2 A3 A4 A5 A6]. destruct Hstep as [calls s i p Hi|calls s i c c' s' Hi Hadv|calls s flag]; simpl in *.
  - split; simpl; try done; intros j q z [[<- [=]]|[_ Hj]]%lookup_insert_Some; eauto.
  - assert (Hsame : s' = s -> (forall p id, c' = Resolved p id -> device p = Some id) ->
      (forall p pool, c' = Returned p pool -> pool = 0 \/ pool_known s p pool) -> pools_ok (<[i := c']> calls, s')).
    { intros -> Hres Hret. split; simpl; try done; intros j q z [[<- ->]|[_ Hj]]%lookup_insert_Some; eauto. }
    destruct c as [p|p|p id|p pool]; simpl in Hadv.
    + destruct (negb (per_device s)); [injection Hadv as <- <-; apply Hsame; [done|done|naive_solver]|].
      unfold known_pool in Hadv. destruct (_ !! p) as [pool|] eqn:Hp; injection Hadv as <- <-;
        apply Hsame; try done; intros q z [= <- <-]. right. by apply A3.
    + destruct (device p) as [id|] eqn:Hd; injection Hadv as <- <-; apply Hsame; naive_solver.
    + destruct (pool_of_device p id s) as [pool s1] eqn:Hp. injection Hadv as <- <-.
      destruct (pool_of_device_ok p id s pool s1 (A4 _ _ _ Hi) Hp A1 A6 A2 A3) as (B1 & B2 & B3 & B4 & B5 & B6).
      split; simpl; try done.
      * intros j q z [[_ [=]]|[_ Hj]]%lookup_insert_Some. by eapply A4.
      * intros j q z [[_ [= <- <-]]|[_ Hj]]%lookup_insert_Some; [by right|].
        destruct (A5 _ _ _ Hj) as [|Hk]; [by left|right]. by eapply pool_known_mono.
    + injection Hadv as <- <-. apply Hsame; [done|done|]. intros q z [= <- <-]. by eapply A5.
  - by split.
Qed.

(** C16. In every interleaving of calls of [get_thread_pool_per_block_device],
    with the setting switched on and off in between: two files that were given
    pools of their own share a pool exactly when they are on the same device,
    a file without a device is given the default pool, and every pool that was
    made belongs to one device. *)
Theorem pools_follow_devices calls s :
  pools_reachable (calls, s) ->
  (forall i j p q a b, calls !! i = Some (Returned p a) -> calls !! j = Some (Returned q b) ->
     a <> 0 -> b <> 0 -> a = b <-> device p = device q) /\
  (forall i p a, calls !! i = Some (Returned p a) -> device p = None -> a = 0) /\
  (forall id id' pool, dev_id_to_thread_pool s !! id = Some pool -> dev_id_to_thread_pool s !! id' = Some pool -> id = id').
Proof.
  intros Hr. assert (Hok : pools_ok (calls, s)).
  { assert (Hinit : pools_ok (∅, no_pools)).
    { unfold no_pools. split; simpl; try lia; intros *; by rewrite ?lookup_empty. }
    revert Hinit. unfold pools_reachable in Hr. induction Hr as [|x y z Hxy _ IH]; [done|].
    intros Hx. by apply IH, (device_pool_step_ok x y). }
  destruct Hok as [A1 A2 A3 A4 A5 A6]. simpl in *. split; [|split; [|exact A2]].
  - intros i j p q a b Hi Hj Ha Hb. destruct (A5 _ _ _ Hi) as [|(d & Hd & Hp)]; [done|].
    destruct (A5 _ _ _ Hj) as [|(d' & Hd' & Hq)]; [done|]. split.
    + intros ->. rewrite Hd, Hd'. f_equal. by eapply A2.
    + rewrite Hd, Hd'. intros [= ->]. congruence.
  - intros i p a Hi Hd. destruct (A5 _ _ _ Hi) as [|(d & Hd' & _)]; [done|congruence].
Qed.
End pools.

(** Two files of one device, asked for at the same time: both calls miss the
    fast path, and both are given the pool that the first one makes; a third
    file is on no device. *)
Definition two_on_one (p : string) : option Z :=
  if decide (p = "/data/a") then Some 2049 else if decide (p = "/data/b") then Some 2049 else None.

Definition race_calls : gmap nat device_call :=
  <[0%nat := Returned "/data/a" 1]> (<[1%nat := Returned "/data/b" 1]> (<[2%nat := Returned "/proc/c" 0]> ∅)).

Definition race_pools : device_pools :=
  mkPools true (<["/data/a" := 1]> (<["/data/b" := 1]> ∅)) (<[2049 := 1]> ∅) 2.

(** One call's next step. *)
Definition advance_call (device : string -> option Z) (i : nat) (x : gmap nat device_call * device_pools)
    : gmap nat device_call * device_pools :=
  match x.1 !! i with
  | Some c => let '(c', s') := advance device c x.2 in (<[i := c']> x.1, s')
  | None => x
  end.

Lemma advance_call_reachable device i x :
  pools_reachable device x -> pools_reachable device (advance_call device i x).
Proof.
  intros Hr. unfold advance_call. destruct x as [calls s]. simpl. destruct (calls !! i) as [c|] eqn:Hi; [|done].
  destruct (advance device c s) as [c' s'] eqn:Ha. eapply rtc_r; [exact Hr|]. by eapply ps_advance.
Qed.

Lemma race_reachable : pools_reachable two_on_one (race_calls, race_pools).
Proof.
  set (x0 := (<[2%nat := Entered "/proc/c"]> (<[1%nat := Entered "/data/b"]> (<[0%nat := Entered "/data/a"]> ∅)),
    mkPools true ∅ ∅ 1) : gmap nat device_call * device_pools).
  assert (Hx : pools_reachable two_on_one x0).
  { unfold x0, pools_reachable. eapply rtc_l; [exact (ps_set_flag two_on_one ∅ no_pools true)|].
    eapply rtc_l; [apply (ps_call two_on_one _ _ 0%nat "/data/a"); reflexivity|].
    eapply rtc_l; [apply (ps_call two_on_one _ _ 1%nat "/data/b"); reflexivity|].
    eapply rtc_l; [apply (ps_call two_on_one _ _ 2%nat "/proc/c"); reflexivity|]. apply rtc_refl. }
  replace (race_calls, race_pools) with
    (foldl (fun x i => advance_call two_on_one i x) x0 [0; 1; 0; 1; 2; 2; 0; 1]%nat) by (vm_compute; reflexivity).
  simpl. by repeat apply advance_call_reachable.
Qed.

Lemma pools_follow_devices_witness :
  (1 = 1 <-> two_on_one "/data/a" = two_on_one "/data/b") /\ two_on_one "/proc/c" = None.
Proof.
  destruct (pools_follow_devices two_on_one race_calls race_pools race_reachable) as (Hshare & Hnone & _).
  split; [|reflexivity].
  apply (Hshare 0%nat 1%nat "/data/a" "/data/b" 1 1); [reflexivity|reflexivity|discriminate|discriminate].
Defined.

(** ** Device numbers and their text *)

Lemma testbit_low12 i : 0 <= i -> Z.testbit 4095 i = (i <? 12).
Proof. intros Hi. change 4095 with (Z.ones 12). destruct (Z.ltb_spec i 12);
  [by apply Z.ones_spec_low|by apply Z.ones_spec_high]. Qed.

Lemma testbit_low8 i : 0 <= i -> Z.testbit 255 i = (i <? 8).
Proof. intros Hi. change 255 with (Z.ones 8). destruct (Z.ltb_spec i 8);
  [by apply Z.ones_spec_low|by apply Z.ones_spec_high]. Qed.

Lemma testbit_high20 i : 0 <= i -> Z.testbit 4294963200 i = ((12 <=? i) && (i <? 32))%bool.
Proof.
  intros Hi. change 4294963200 with (Z.shiftl (Z.ones 20) 12). rewrite Z.shiftl_spec by done.
  destruct (Z.leb_spec 12 i); simpl.
  - destruct (Z.ltb_spec i 32); [apply Z.ones_spec_low; lia|apply Z.ones_spec_high; lia].
  - apply Z.testbit_neg_r. lia.
Qed.

Lemma testbit_high24 i : 0 <= i -> Z.testbit 4294967040 i = ((8 <=? i) && (i <? 32))%bool.
Proof.
  intros Hi. change 4294967040 with (Z.shiftl (Z.ones 24) 8). rewrite Z.shiftl_spec by done.
  destruct (Z.leb_spec 8 i); simpl.
  - destruct (Z.ltb_spec i 32); [apply Z.ones_spec_low; lia|apply Z.ones_spec_high; lia].
  - apply Z.testbit_neg_r. lia.
Qed.

Lemma testbit_above n i k : 0 <= n < 2 ^ k -> 0 <= k <= i -> Z.testbit n i = false.
Proof. intros Hn Hi. rewrite <- (Z.mod_small n (2 ^ k)) by lia. apply Z.mod_pow2_bits_high. lia. Qed.

(** One bit of a device number. *)
Lemma makedev_bit maj min i :
  0 <= i ->
  Z.testbit (makedev maj min) i =
  if i <? 8 then Z.testbit min i
  else if i <? 20 then Z.testbit maj (i - 8)
  else if i <? 44 then Z.testbit min (i - 12)
  else if i <? 64 then Z.testbit maj (i - 32)
  else false.
Proof.
  intros Hi. unfold makedev. rewrite !Z.lor_spec, !Z.shiftl_spec, !Z.land_spec by done.
  rewrite testbit_low8 by done.
  assert (Hneg : forall n j, j < 0 -> Z.testbit n j = false) by (intros; apply Z.testbit_neg_r; lia).
  destruct (Z.lt_ge_cases i 12), (Z.lt_ge_cases i 32);
  repeat match goal with |- context [?a <? ?b] => destruct (Z.ltb_spec a b) end; try lia;
  repeat first [rewrite (Hneg _ (i - 8)) by lia | rewrite (Hneg _ (i - 12)) by lia | rewrite (Hneg _ (i - 32)) by lia];
  rewrite ?testbit_low12, ?testbit_high20, ?testbit_high24 by lia;
  repeat match goal with
  | |- context [?a <? ?b] => destruct (Z.ltb_spec a b); try lia
  | |- context [?a <=? ?b] => destruct (Z.leb_spec a b); try lia
  end; simpl; rewrite ?andb_true_r, ?andb_false_r, ?orb_false_r; try done.
Qed.

(** The numbers of a device can be read back from its identifier, so that
    devices with different numbers have different pools. *)
Lemma makedev_roundtrip maj min :
  0 <= maj < 2 ^ 32 -> 0 <= min < 2 ^ 32 ->
  dev_major (makedev maj min) = maj /\ dev_minor (makedev maj min) = min.
Proof.
  intros Hmaj Hmin. split; apply Z.bits_inj'; intros i Hi; unfold dev_major, dev_minor;
    rewrite !Z.lor_spec, !Z.land_spec, !Z.shiftr_spec, ?testbit_low12, ?testbit_low8, ?testbit_high20, ?testbit_high24 by lia;
    rewrite !makedev_bit by lia; rewrite ?Z.add_simpl_r;
    repeat match goal with
    | |- context [?a <? ?b] => destruct (Z.ltb_spec a b); try lia
    | |- context [?a <=? ?b] => destruct (Z.leb_spec a b); try lia
    end; simpl; rewrite ?andb_true_r, ?andb_false_r, ?orb_false_r; try done; try (f_equal; lia);
    symmetry; (apply (testbit_above _ i 32); lia).
Qed.

(** ** A machine with an NVMe controller and a disk

    Files under /n are on a partition of a namespace, /m is on another namespace
    of the same controller, and /d is on a partition of a disk. *)

Definition sample_stat (path : string) : option Z :=
  if decide (path = "/n/x") then Some (makedev 259 3) else if decide (path = "/m/y") then Some (makedev 259 8)
  else if decide (path = "/d/z") then Some (makedev 8 1) else None.

Definition sample_realpath (path : string) : option (list string) :=
  if decide (path = "/sys/dev/block/259:3") then Some ["sys"; "devices"; "nvme"; "nvme0"; "nvme0n1"; "nvme0n1p3"]
  else if decide (path = "/sys/dev/block/259:8") then Some ["sys"; "devices"; "nvme"; "nvme0"; "nvme0n2"]
  else if decide (path = "/sys/dev/block/8:1") then Some ["sys"; "devices"; "block"; "sda"; "sda1"] else None.

Definition sample_exists (path : string) : bool :=
  bool_decide (path = "/sys/devices/nvme/nvme0/nvme0n1/nvme0n1p3/partition")
  || bool_decide (path = "/sys/devices/block/sda/sda1/partition").

Definition sample_contents (path : string) : option (list ascii) :=
  if decide (path = "/sys/devices/nvme/nvme0/dev") then Some (String.list_ascii_of_string "240:0")
  else if decide (path = "/sys/devices/block/sda/dev") then Some (String.list_ascii_of_string "8:0") else None.

Definition sample_resolve : string -> result BlockDeviceInfo :=
  resolve_block_device sample_stat (fun _ => true) sample_realpath sample_exists sample_contents.

Example namespaces_share_their_controller :
  sample_resolve <$> ["/n/x"; "/m/y"; "/d/z"] =
  [Ok (mkBlockDevice (makedev 240 0) 240 0 "nvme0"); Ok (mkBlockDevice (makedev 240 0) 240 0 "nvme0");
   Ok (mkBlockDevice (makedev 8 0) 8 0 "sda")].
Proof. vm_compute. reflexivity. Qed.

(** Only the separator is checked: a file without a minor number counts as
    minor 0. *)
Example missing_minor_is_zero :
  read_device 8 1 (String.list_ascii_of_string "8:x") = (8, ":"%char, 0).
Proof. vm_compute. reflexivity. Qed.
