(* ===== verification/Driver.v ===== *)
(** * The cuFile library and its driver

    Loading of cuFile ([src/shim/cufile.cpp], [src/shim/utils.cpp]), the driver
    object and its properties ([src/cufile/driver.cpp]) and the configuration
    path ([src/cufile/config.cpp]).  cuFile and the dynamic linker are
    parameters. *)

From stdpp Require Import base list gmap strings.
From Stdlib Require Import ZArith Lia.
From S2P Require Import Prelude Cuda.

#[local] Open Scope Z_scope.

(** ** The library *)

Section library.
(** The dynamic linker: an error text, or that the library, the symbol, is
    there; [cuFileGetVersion]; [uname] and [std::filesystem]. *)
Context (dlopen : string -> option string) (dlsym : string -> string -> option string)
  (GetVersion : Z * Z) (cufile_found version_api_found : bool)
  (uname : option string) (is_directory exists_ : string -> option bool)
  (getenv : string -> option string).

Definition load_library (name : string) : result string :=
  match dlopen name with
  | None => mret name
  | Some dlerror => Err (RuntimeError dlerror)
  end.

Definition get_symbol (lib name : string) : result unit :=
  match dlsym lib name with
  | None => mret tt
  | Some err => Err (RuntimeError err)
  end.

Fixpoint get_symbols (lib : string) (names : list string) : result unit :=
  match names with
  | [] => mret tt
  | name :: names => _ ← get_symbol lib name; get_symbols lib names
  end.

Definition driver_symbols : list string :=
  ["cuFileHandleRegister"; "cuFileHandleDeregister"; "cuFileRead"; "cuFileWrite";
   "cuFileBufRegister"; "cuFileBufDeregister"; "cuFileDriverOpen"; "cuFileDriverClose";
   "cuFileDriverGetProperties"; "cuFileDriverSetPollMode"; "cuFileDriverSetMaxCacheSize";
   "cuFileDriverSetMaxPinnedMemSize"].

Definition batch_symbols : list string :=
  ["cuFileBatchIOSetUp"; "cuFileBatchIOSubmit"; "cuFileBatchIOGetStatus"; "cuFileBatchIOCancel";
   "cuFileBatchIODestroy"; "cuFileReadAsync"; "cuFileWriteAsync"; "cuFileStreamRegister";
   "cuFileStreamDeregister"].

(** [cuFileAPI::cuFileAPI]: the [version] of the instance, 0 to start with. *)
Definition new_cufile_api : result Z :=
  if negb cufile_found then Err (RuntimeError "KvikIO not compiled with cuFile.h")
  else
    lib ← load_library "libcufile.so.0";
    _ ← get_symbols lib driver_symbols;
    version ← (if version_api_found then
                 match get_symbol lib "cuFileGetVersion" with
                 | Ok _ => let '(error, ver) := GetVersion in
                           mret (if error =? CU_FILE_SUCCESS then ver else 0)
                 | Err (RuntimeError _) => mret 1070
                 | Err e => Err e
                 | NoFuel => NoFuel
                 end
               else mret 1070);
    _ ← get_symbols lib batch_symbols;
    mret version.

Definition is_cufile_library_available : bool :=
  if cufile_found then is_ok new_cufile_api else false.

(** [None]: the call failed. *)
Definition is_running_in_wsl : bool :=
  match uname with
  | Some name => match String.index 0 "icrosoft" name with Some _ => true | None => false end
  | None => false
  end.

Definition run_udev_readable : bool := default false (is_directory "/run/udev").

Definition is_cufile_available : bool :=
  is_cufile_library_available && run_udev_readable && negb is_running_in_wsl.

Definition cufile_version : Z :=
  if cufile_found then match new_cufile_api with Ok version => version | _ => 0 end else 0.

(** [lookup_config_path]; [exists_] throws on an error ([None]). *)
Definition lookup_config_path : result string :=
  let exists_ path := match exists_ path with
                      | Some b => mret b
                      | None => Err (GenericSystemError path)
                      end in
  from_env ← match getenv "CUFILE_ENV_PATH_JSON" with
             | Some env => b ← exists_ env; mret (if b : bool then Some env else None)
             | None => mret None
             end;
  match from_env with
  | Some env => mret env
  | None => b ← exists_ "/etc/cufile.json"; mret (if b : bool then "/etc/cufile.json" else "")
  end.

Lemma get_symbols_returns lib names :
  returns (get_symbols lib names) (fun _ => Forall (fun name => dlsym lib name = None) names)
    (fun e => (exists text, e = RuntimeError text) /\ Exists (fun name => is_Some (dlsym lib name)) names).
Proof.
  induction names as [|name names IH]; [constructor|]. simpl. unfold get_symbol.
  destruct (dlsym lib name) as [text|] eqn:Hs; simpl.
  - split; [by exists text|]. left. by exists text.
  - eapply returns_mono; [apply IH|by constructor|]. intros e [? ?]. split; [done|by right].
Qed.

(** cuFile counts as available on a supported system exactly when the library
    and all symbols but that of the version are there, and then the version is
    that of the library or 1070. *)
Lemma cufile_available_iff :
  is_cufile_available = true <->
  cufile_found = true /\ dlopen "libcufile.so.0" = None /\
  Forall (fun name => dlsym "libcufile.so.0" name = None) (driver_symbols ++ batch_symbols) /\
  is_directory "/run/udev" = Some true /\ is_running_in_wsl = false.
Proof.
  unfold is_cufile_available, is_cufile_library_available, run_udev_readable, new_cufile_api, load_library.
  rewrite !andb_true_iff, negb_true_iff, Forall_app.
  destruct cufile_found; [|naive_solver]. simpl negb. cbv iota.
  assert (Hd : default false (is_directory "/run/udev") = true <-> is_directory "/run/udev" = Some true).
  { destruct (is_directory "/run/udev") as [[|]|]; naive_solver. }
  rewrite Hd. clear Hd. destruct (dlopen "libcufile.so.0"); [simpl; naive_solver|]. cbn [mbind result_bind mret result_ret].
  pose proof (get_symbols_returns "libcufile.so.0" driver_symbols) as H1'.
  destruct (get_symbols _ driver_symbols); simpl in H1'; [|simpl|done].
  2:{ split; [naive_solver|]. intros (_ & _ & [Hf _] & _). destruct H1' as [_ Hx].
      apply Exists_exists in Hx as (name & Hin & [t Ht]). rewrite Forall_forall in Hf. specialize (Hf name Hin). congruence. }
  cbn [mbind result_bind].
  assert (Hv : exists v, (if version_api_found then
    match get_symbol "libcufile.so.0" "cuFileGetVersion" with
    | Ok _ => let '(error, ver) := GetVersion in mret (if error =? CU_FILE_SUCCESS then ver else 0)
    | Err (RuntimeError _) => mret 1070 | Err e => Err e | NoFuel => NoFuel end
    else mret 1070) = Ok v).
  { destruct version_api_found; [|by eexists]. unfold get_symbol. destruct (dlsym _ _); [by eexists|].
    destruct GetVersion. by eexists. }
  destruct Hv as [v ->]. cbn [mbind result_bind].
  pose proof (get_symbols_returns "libcufile.so.0" batch_symbols) as H2'.
  destruct (get_symbols _ batch_symbols); simpl in H2'; [simpl; tauto|simpl|done].
  split; [naive_solver|]. intros (_ & _ & [_ Hf] & _). destruct H2' as [_ Hx].
  apply Exists_exists in Hx as (name & Hin & [t Ht]). rewrite Forall_forall in Hf. specialize (Hf name Hin). congruence.
Qed.
End library.

(** Without [cuFileGetVersion] the version is 1070, although
    [cufile_version] is documented to return 0 for a library older than
    1.8. *)
Example old_library_has_a_version :
  cufile_version (fun _ => None)
    (fun _ name => if decide (name = "cuFileGetVersion") then Some "undefined symbol" else None)
    (0, 1080) true true = 1070.
Proof. vm_compute. reflexivity. Qed.

(** ** Properties of the driver *)

Definition CU_FILE_USE_POLL_MODE : Z := 0.
Definition CU_FILE_ALLOW_COMPAT_MODE : Z := 1.

Definition get_driver_flag (prop flag : Z) : bool := negb (Z.land prop (Z.shiftl 1 flag) =? 0).

(** [prop |= 1U << flag] and [prop &= ~(1U << flag)] on 32 bits. *)
Definition set_driver_flag (prop flag : Z) (val : bool) : Z :=
  if val then Z.lor prop (Z.shiftl 1 flag)
  else Z.land prop (Z.land (Z.lnot (Z.shiftl 1 flag)) (Z.ones 32)).

Lemma testbit_bit flag i : 0 <= flag -> 0 <= i -> Z.testbit (Z.shiftl 1 flag) i = (i =? flag).
Proof.
  intros Hf Hi. rewrite Z.shiftl_1_l. destruct (Z.eqb_spec i flag) as [->|Hne].
  - by apply Z.pow2_bits_true.
  - apply Z.pow2_bits_false. congruence.
Qed.

Lemma get_driver_flag_testbit prop flag : 0 <= flag -> get_driver_flag prop flag = Z.testbit prop flag.
Proof.
  intros Hf. unfold get_driver_flag. destruct (Z.testbit prop flag) eqn:Ht.
  - apply negb_true_iff, Z.eqb_neq. intros Hz.
    assert (Hb : Z.testbit (Z.land prop (Z.shiftl 1 flag)) flag = true).
    { rewrite Z.land_spec, Ht, testbit_bit, Z.eqb_refl by lia. done. }
    by rewrite Hz, Z.bits_0 in Hb.
  - apply negb_false_iff, Z.eqb_eq, Z.bits_inj'. intros i Hi.
    rewrite Z.land_spec, testbit_bit, Z.bits_0 by lia. destruct (Z.eqb_spec i flag) as [->|]; [by rewrite Ht|].
    apply andb_false_r.
Qed.

(** Setting a flag changes that flag and no other. *)
Lemma set_driver_flag_spec prop flag flag' val :
  0 <= prop < 2 ^ 32 -> 0 <= flag < 32 -> 0 <= flag' < 32 ->
  0 <= set_driver_flag prop flag val < 2 ^ 32 /\
  get_driver_flag (set_driver_flag prop flag val) flag' =
  if decide (flag' = flag) then val else get_driver_flag prop flag'.
Proof.
  intros Hp Hf Hf'. assert (Hone : 0 <= Z.shiftl 1 flag < 2 ^ 32).
  { rewrite Z.shiftl_1_l. split; [lia|]. apply Z.pow_lt_mono_r; lia. }
  split.
  - unfold set_driver_flag. destruct val.
    + split; [apply Z.lor_nonneg; lia|]. apply Z.log2_lt_cancel. rewrite Z.log2_lor by lia.
      rewrite Z.log2_pow2 by lia.
      assert (forall x, 0 <= x < 2 ^ 32 -> Z.log2 x < 32); [|apply Z.max_lub_lt; auto].
      intros x Hx. destruct (Z.eq_dec x 0) as [->|]; [simpl; lia|]. apply Z.log2_lt_pow2; lia.
    + rewrite Z.land_assoc, Z.land_ones by lia. apply Z.mod_pos_bound. lia.
  - rewrite !get_driver_flag_testbit by lia. unfold set_driver_flag. destruct val.
    + rewrite Z.lor_spec, testbit_bit by lia. case_decide as Hd.
      * by rewrite Hd, Z.eqb_refl, orb_true_r.
      * apply Z.eqb_neq in Hd. by rewrite Hd, orb_false_r.
    + rewrite !Z.land_spec, Z.lnot_spec, testbit_bit, Z.ones_spec_low by lia. rewrite andb_true_r. case_decide as Hd.
      * by rewrite Hd, Z.eqb_refl, andb_false_r.
      * apply Z.eqb_neq in Hd. by rewrite Hd, andb_true_r.
Qed.

Lemma set_same_flag prop flag :
  0 <= prop < 2 ^ 32 -> 0 <= flag < 32 -> set_driver_flag prop flag (get_driver_flag prop flag) = prop.
Proof.
  intros Hp Hf. rewrite get_driver_flag_testbit by lia. apply Z.bits_inj'. intros i Hi.
  unfold set_driver_flag. destruct (Z.testbit prop flag) eqn:Ht.
  - rewrite Z.lor_spec, testbit_bit by lia. destruct (Z.eqb_spec i flag) as [->|]; [by rewrite Ht|apply orb_false_r].
  - rewrite !Z.land_spec, Z.lnot_spec, testbit_bit by lia.
    destruct (Z.ltb_spec i 32).
    + rewrite Z.ones_spec_low by lia. destruct (Z.eqb_spec i flag) as [->|]; [by rewrite Ht|by rewrite !andb_true_r].
    + assert (Hz : Z.testbit prop i = false); [|by rewrite Hz].
      rewrite <- (Z.mod_small prop (2 ^ 32)) by lia. apply Z.mod_pow2_bits_high. lia.
Qed.

(** [CUfileDrvProps_t] *)
Record CUfileDrvProps := mkDrvProps {
  major_version : Z;
  minor_version : Z;
  dcontrolflags : Z;
  poll_thresh_size : Z;
  max_device_cache_size : Z;
  per_buffer_cache_size : Z;
  max_device_pinned_mem_size : Z;
  max_batch_io_size : Z }.

Definition zero_props : CUfileDrvProps := mkDrvProps 0 0 0 0 0 0 0 0.

Definition with_flags (v : Z) (p : CUfileDrvProps) : CUfileDrvProps :=
  mkDrvProps (major_version p) (minor_version p) v (poll_thresh_size p) (max_device_cache_size p)
    (per_buffer_cache_size p) (max_device_pinned_mem_size p) (max_batch_io_size p).
Definition with_poll_thresh (v : Z) (p : CUfileDrvProps) : CUfileDrvProps :=
  mkDrvProps (major_version p) (minor_version p) (dcontrolflags p) v (max_device_cache_size p)
    (per_buffer_cache_size p) (max_device_pinned_mem_size p) (max_batch_io_size p).
Definition with_cache_size (v : Z) (p : CUfileDrvProps) : CUfileDrvProps :=
  mkDrvProps (major_version p) (minor_version p) (dcontrolflags p) (poll_thresh_size p) v
    (per_buffer_cache_size p) (max_device_pinned_mem_size p) (max_batch_io_size p).
Definition with_pinned_size (v : Z) (p : CUfileDrvProps) : CUfileDrvProps :=
  mkDrvProps (major_version p) (minor_version p) (dcontrolflags p) (poll_thresh_size p)
    (max_device_cache_size p) (per_buffer_cache_size p) v (max_batch_io_size p).

(** The calls that set properties. *)
Inductive driver_call :=
  | DriverSetPollMode (poll : bool) (poll_threshold_size : Z)
  | DriverSetMaxCacheSize (size : Z)
  | DriverSetMaxPinnedMemSize (size : Z).

(** What a call that succeeds sets. *)
Definition driver_effect (c : driver_call) (p : CUfileDrvProps) : CUfileDrvProps :=
  match c with
  | DriverSetPollMode poll size =>
      with_poll_thresh size (with_flags (set_driver_flag (dcontrolflags p) CU_FILE_USE_POLL_MODE poll) p)
  | DriverSetMaxCacheSize size => with_cache_size size p
  | DriverSetMaxPinnedMemSize size => with_pinned_size size p
  end.

(** The codes of [DriverGetProperties] and of the calls above, given the
    driver's own properties; these properties after a call that succeeds; the
    codes of opening and closing. *)
Class DriverCalls := {
  GetPropertiesError : CUfileDrvProps -> CUfileError_t;
  CallError : driver_call -> CUfileDrvProps -> CUfileError_t;
  DriverAfter : driver_call -> CUfileDrvProps -> CUfileDrvProps;
  OpenError : CUfileError_t;
  CloseError : CUfileError_t }.

(** The setters do what they are documented to do. *)
Class DriverCallsLaws `{DriverCalls} := {
  driver_after c p : DriverAfter c p = driver_effect c p }.

(** [DriverProperties] beside the driver it asks. *)
Record drv_state := mkDrv {
  driver : CUfileDrvProps;
  props : CUfileDrvProps;      (* [_props] *)
  initialized : bool }.        (* [_initialized] *)

Definition set_props (p : CUfileDrvProps) (s : drv_state) : drv_state :=
  mkDrv (driver s) p (initialized s).

Section properties.
(** [cufile_found] is [KVIKIO_CUFILE_FOUND]; without it each operation but
    [is_gds_available] only throws. *)
Context `{ErrorTexts} `{DriverCalls} (cufile_found : bool).

Definition compiled {A} (m : st drv_state A) : st drv_state A :=
  if cufile_found then m else throw (CUfileException "KvikIO not compiled with cuFile.h").

Definition lazy_init : st drv_state unit :=
  s ← get_st;
  if initialized s then mret tt
  else
    _ ← put_st (mkDrv (driver s) (props s) true);
    _ ← cufile_try (GetPropertiesError (driver s));
    modify (fun s => set_props (driver s) s).

Definition call_driver (c : driver_call) : st drv_state unit :=
  s ← get_st;
  _ ← cufile_try (CallError c (driver s));
  put_st (mkDrv (DriverAfter c (driver s)) (props s) (initialized s)).

(** A getter of one property. *)
Definition get_prop {A} (f : CUfileDrvProps -> A) : st drv_state A :=
  compiled (_ ← lazy_init; s ← get_st; mret (f (props s))).

Definition get_nvfs_major_version : st drv_state Z := get_prop major_version.
Definition get_nvfs_minor_version : st drv_state Z := get_prop minor_version.

Definition is_gds_available : st drv_state bool :=
  if negb cufile_found then mret false
  else
    major ← get_nvfs_major_version;
    if negb (major =? 0) then mret true
    else minor ← get_nvfs_minor_version; mret (negb (minor =? 0)).

Definition get_nvfs_allow_compat_mode : st drv_state bool :=
  get_prop (fun p => get_driver_flag (dcontrolflags p) CU_FILE_ALLOW_COMPAT_MODE).
Definition get_nvfs_poll_mode : st drv_state bool :=
  get_prop (fun p => get_driver_flag (dcontrolflags p) CU_FILE_USE_POLL_MODE).
Definition get_nvfs_poll_thresh_size : st drv_state Z := get_prop poll_thresh_size.

Definition set_nvfs_poll_mode (enable : bool) : st drv_state unit :=
  compiled
    (_ ← lazy_init;
     size ← get_nvfs_poll_thresh_size;
     _ ← call_driver (DriverSetPollMode enable size);
     modify (fun s => set_props (with_flags
       (set_driver_flag (dcontrolflags (props s)) CU_FILE_USE_POLL_MODE enable) (props s)) s)).

Definition set_nvfs_poll_thresh_size (size_in_kb : Z) : st drv_state unit :=
  compiled
    (_ ← lazy_init;
     poll ← get_nvfs_poll_mode;
     _ ← call_driver (DriverSetPollMode poll size_in_kb);
     modify (fun s => set_props (with_poll_thresh size_in_kb (props s)) s)).

Definition get_nvfs_statusflags : st drv_state (list Z) :=
  get_prop (fun p =>
    (if get_driver_flag (dcontrolflags p) CU_FILE_USE_POLL_MODE then [CU_FILE_USE_POLL_MODE] else []) ++
    (if get_driver_flag (dcontrolflags p) CU_FILE_ALLOW_COMPAT_MODE then [CU_FILE_ALLOW_COMPAT_MODE] else [])).

Definition get_max_device_cache_size : st drv_state Z := get_prop max_device_cache_size.

Definition set_max_device_cache_size (size_in_kb : Z) : st drv_state unit :=
  compiled
    (_ ← lazy_init;
     _ ← call_driver (DriverSetMaxCacheSize size_in_kb);
     modify (fun s => set_props (with_cache_size size_in_kb (props s)) s)).

Definition get_per_buffer_cache_size : st drv_state Z := get_prop per_buffer_cache_size.
Definition get_max_pinned_memory_size : st drv_state Z := get_prop max_device_pinned_mem_size.

Definition set_max_pinned_memory_size (size_in_kb : Z) : st drv_state unit :=
  compiled
    (_ ← lazy_init;
     _ ← call_driver (DriverSetMaxPinnedMemSize size_in_kb);
     modify (fun s => set_props (with_pinned_size size_in_kb (props s)) s)).

Definition get_max_batch_io_size : st drv_state Z := get_prop max_batch_io_size.

(** ** Opening and closing *)

Definition driver_open {S} : st S unit :=
  require (err OpenError =? CU_FILE_SUCCESS)
    (RuntimeError ("Unable to open GDS file driver: " +:+ cufileop_status_error (err OpenError))).

Definition driver_close {S} : st S unit :=
  require (err CloseError =? CU_FILE_SUCCESS)
    (RuntimeError ("Unable to close GDS file driver: " +:+ cufileop_status_error (err CloseError))).

(** [DriverInitializer] without [KVIKIO_CUFILE_FOUND] does nothing. *)
Definition new_initializer {S} : st S unit := if cufile_found then driver_open else mret tt.

(** [~DriverInitializer] is [noexcept] and catches [CUfileException]: the
    result says whether the program is terminated. *)
Definition destroy_initializer {S} (s : S) : bool :=
  if cufile_found then
    match driver_close s with
    | (inl (CUfileException _), _) => false
    | (inl _, _) => true
    | (inr _, _) => false
    end
  else false.

(** [driver_close] does not throw what the destructor catches, so a driver that
    cannot be closed terminates the program. *)
Lemma failed_close_terminates {S} (s : S) :
  cufile_found = true -> err CloseError <> CU_FILE_SUCCESS -> destroy_initializer s = true.
Proof.
  intros Hc He. unfold destroy_initializer, driver_close, require. rewrite Hc.
  by apply Z.eqb_neq in He as ->.
Qed.
End properties.

(** ** The cached properties are the driver's *)

Inductive prop_op :=
  | GetMajor | GetMinor | GdsAvailable | AllowCompat | PollMode | PollThresh
  | SetPollMode (enable : bool) | SetPollThresh (size_in_kb : Z) | StatusFlags
  | MaxCacheSize | SetMaxCacheSize (size_in_kb : Z) | PerBufferSize
  | MaxPinnedSize | SetMaxPinnedSize (size_in_kb : Z) | MaxBatchSize.

Inductive prop_val := VZ (n : Z) | VB (b : bool) | VL (l : list Z) | VU.

Section tracking.
Context `{ErrorTexts} `{DriverCalls} `{!DriverCallsLaws}.
Context (reachable : forall d, err (GetPropertiesError d) = CU_FILE_SUCCESS).

Definition answer {S A} (f : A -> prop_val) (m : st S A) : st S prop_val := a ← m; mret (f a).

Definition prop_step (o : prop_op) : st drv_state prop_val :=
  match o with
  | GetMajor => answer VZ (get_nvfs_major_version true)
  | GetMinor => answer VZ (get_nvfs_minor_version true)
  | GdsAvailable => answer VB (is_gds_available true)
  | AllowCompat => answer VB (get_nvfs_allow_compat_mode true)
  | PollMode => answer VB (get_nvfs_poll_mode true)
  | PollThresh => answer VZ (get_nvfs_poll_thresh_size true)
  | SetPollMode enable => answer (fun _ => VU) (set_nvfs_poll_mode true enable)
  | SetPollThresh size => answer (fun _ => VU) (set_nvfs_poll_thresh_size true size)
  | StatusFlags => answer VL (get_nvfs_statusflags true)
  | MaxCacheSize => answer VZ (get_max_device_cache_size true)
  | SetMaxCacheSize size => answer (fun _ => VU) (set_max_device_cache_size true size)
  | PerBufferSize => answer VZ (get_per_buffer_cache_size true)
  | MaxPinnedSize => answer VZ (get_max_pinned_memory_size true)
  | SetMaxPinnedSize size => answer (fun _ => VU) (set_max_pinned_memory_size true size)
  | MaxBatchSize => answer VZ (get_max_batch_io_size true)
  end.

(** The specification: every operation asks the driver itself. *)
Definition flag (d : CUfileDrvProps) (f : Z) : bool := get_driver_flag (dcontrolflags d) f.

Definition ask_call (c : driver_call) : st CUfileDrvProps prop_val :=
  d ← get_st;
  _ ← cufile_try (CallError c d);
  _ ← put_st (DriverAfter c d);
  mret VU.

Definition ask_driver (o : prop_op) : st CUfileDrvProps prop_val :=
  d ← get_st;
  match o with
  | GetMajor => mret (VZ (major_version d))
  | GetMinor => mret (VZ (minor_version d))
  | GdsAvailable => mret (VB (negb ((major_version d =? 0) && (minor_version d =? 0))))
  | AllowCompat => mret (VB (flag d CU_FILE_ALLOW_COMPAT_MODE))
  | PollMode => mret (VB (flag d CU_FILE_USE_POLL_MODE))
  | PollThresh => mret (VZ (poll_thresh_size d))
  | SetPollMode enable => ask_call (DriverSetPollMode enable (poll_thresh_size d))
  | SetPollThresh size => ask_call (DriverSetPollMode (flag d CU_FILE_USE_POLL_MODE) size)
  | StatusFlags => mret (VL (filter (fun f => flag d f = true)
                               [CU_FILE_USE_POLL_MODE; CU_FILE_ALLOW_COMPAT_MODE]))
  | MaxCacheSize => mret (VZ (max_device_cache_size d))
  | SetMaxCacheSize size => ask_call (DriverSetMaxCacheSize size)
  | PerBufferSize => mret (VZ (per_buffer_cache_size d))
  | MaxPinnedSize => mret (VZ (max_device_pinned_mem_size d))
  | SetMaxPinnedSize size => ask_call (DriverSetMaxPinnedMemSize size)
  | MaxBatchSize => mret (VZ (max_batch_io_size d))
  end.

Fixpoint run_props {S} (step : prop_op -> st S prop_val) (ops : list prop_op) (s : S)
    : list (exn + prop_val) * S :=
  match ops with
  | [] => ([], s)
  | o :: ops => let '(r, s) := step o s in
                let '(rs, s) := run_props step ops s in (r :: rs, s)
  end.

(** The flags of the driver fit 32 bits. *)
Definition tracks (d : CUfileDrvProps) (s : drv_state) : Prop :=
  driver s = d /\ (initialized s = true -> props s = d) /\ 0 <= dcontrolflags d < 2 ^ 32.

Lemma lazy_init_tracks d s :
  tracks d s -> lazy_init s = (inr tt, mkDrv d d true).
Proof.
  intros (Hd & Hi & Hf). unfold lazy_init, get_st, put_st, mbind, st_bind. destruct (initialized s) eqn:Hini.
  - rewrite <- (Hi eq_refl) at 2. rewrite <- Hd, <- Hini. by destruct s.
  - unfold cufile_try. rewrite reachable. simpl. by rewrite Hd.
Qed.

Lemma get_prop_tracks {A} (f : CUfileDrvProps -> A) d s :
  tracks d s -> get_prop true f s = (inr (f d), mkDrv d d true).
Proof.
  intros Ht. unfold get_prop, compiled, mbind, st_bind. by rewrite (lazy_init_tracks d s Ht).
Qed.

Lemma tracked d : 0 <= dcontrolflags d < 2 ^ 32 -> tracks d (mkDrv d d true).
Proof. done. Qed.

(** A check looks at no state. *)
Lemma cufile_try_stateless e : exists r, forall (S : Type) (s : S), cufile_try e s = (r, s).
Proof.
  unfold cufile_try. destruct (negb (err e =? CU_FILE_SUCCESS)); [|by eexists].
  destruct (err e =? CU_FILE_CUDA_DRIVER_ERROR); [|by eexists].
  unfold cuda_driver_try, require. destruct (cu_err e =? CUDA_SUCCESS); by eexists.
Qed.

Lemma setter_tracks c d s (g : CUfileDrvProps -> CUfileDrvProps) :
  tracks d s -> g d = driver_effect c d ->
  let m := call_driver c ≫= fun _ => modify (fun s => set_props (g (props s)) s) in
  let '(r, s') := answer (fun _ => VU) m (mkDrv d d true) in
  let '(r', d') := ask_call c d in r = r' /\ driver s' = d' /\ props s' = d' /\ initialized s' = true.
Proof.
  intros (Hd & Hi & Hf) Hg. unfold answer, ask_call, call_driver, get_st, put_st, modify, mbind, st_bind. simpl.
  destruct (cufile_try_stateless (CallError c d)) as [[e|[]] Hr]; rewrite !Hr; simpl; [done|].
  by rewrite driver_after, Hg.
Qed.

Lemma effect_flags c d : 0 <= dcontrolflags d < 2 ^ 32 -> 0 <= dcontrolflags (driver_effect c d) < 2 ^ 32.
Proof.
  intros Hf. destruct c; simpl; try done.
  apply (set_driver_flag_spec (dcontrolflags d) CU_FILE_USE_POLL_MODE 0); unfold CU_FILE_USE_POLL_MODE; lia.
Qed.

(** One operation and the driver's answer. *)
Definition simulates (o : prop_op) (d : CUfileDrvProps) (s : drv_state) : Prop :=
  let '(r, s') := prop_step o s in
  let '(r', d') := ask_driver o d in r = r' /\ tracks d' s'.

Lemma setter_simulates o c d s (g : CUfileDrvProps -> CUfileDrvProps) :
  tracks d s -> g d = driver_effect c d -> ask_driver o d = ask_call c d ->
  prop_step o s = answer (fun _ => VU) (call_driver c ≫= fun _ => modify (fun s => set_props (g (props s)) s))
                    (mkDrv d d true) ->
  simulates o d s.
Proof.
  intros Ht Hg Ha Hp. unfold simulates. rewrite Ha, Hp. pose proof (setter_tracks c d s g Ht Hg) as Hs.
  cbv zeta in Hs. destruct (answer _ _ _) as [r s'].
  assert (Hd : let '(_, d') := ask_call c d in d' = d \/ d' = driver_effect c d).
  { unfold ask_call, get_st, put_st, mbind, st_bind. destruct (cufile_try_stateless (CallError c d)) as [[e|[]] Hr];
      rewrite Hr; simpl; [by left|right; apply driver_after]. }
  destruct (ask_call c d) as [r' d']. destruct Hs as (-> & H1' & H2' & H3'). split; [done|]. split; [done|].
  split; [done|]. destruct Ht as (_ & _ & Hf). destruct Hd as [->| ->]; [done|by apply effect_flags].
Qed.

Lemma prop_step_simulates o d s : tracks d s -> simulates o d s.
Proof.
  intros Ht. pose proof Ht as (_ & _ & Hf). pose proof (tracked d Hf) as Htr.
  pose proof (fun A (f : CUfileDrvProps -> A) => get_prop_tracks f d s Ht) as Hget.
  pose proof (fun A (f : CUfileDrvProps -> A) => get_prop_tracks f d _ Htr) as Hget'.
  destruct o as [ | | | | | |enable|size| | |size| | |size| ].
  all: try (unfold simulates; cbn [prop_step]; unfold ask_driver, answer, get_st, mbind, st_bind;
    unfold get_nvfs_major_version, get_nvfs_minor_version, get_nvfs_allow_compat_mode, get_nvfs_poll_mode,
      get_nvfs_poll_thresh_size, get_max_device_cache_size, get_per_buffer_cache_size,
      get_max_pinned_memory_size, get_max_batch_io_size; rewrite Hget; by simpl).
  - unfold simulates. cbn [prop_step]. unfold is_gds_available, answer, ask_driver, get_st, mbind, st_bind.
    cbn [negb]. unfold get_nvfs_major_version, get_nvfs_minor_version. rewrite Hget.
    destruct (major_version d =? 0) eqn:Hm; cbn [negb]; cbv beta iota; [by rewrite Hget'|done].
  - apply (setter_simulates _ (DriverSetPollMode enable (poll_thresh_size d)) d s
      (fun p => with_flags (set_driver_flag (dcontrolflags p) CU_FILE_USE_POLL_MODE enable) p)); try done.
    cbn [prop_step]. unfold answer, set_nvfs_poll_mode, compiled, mbind, st_bind.
    rewrite (lazy_init_tracks d s Ht). unfold get_nvfs_poll_thresh_size. by rewrite Hget'.
  - apply (setter_simulates _ (DriverSetPollMode (flag d CU_FILE_USE_POLL_MODE) size) d s (with_poll_thresh size)).
    + done.
    + simpl. unfold flag. rewrite set_same_flag by (unfold CU_FILE_USE_POLL_MODE; lia). by destruct d.
    + done.
    + cbn [prop_step]. unfold answer, set_nvfs_poll_thresh_size, compiled, mbind, st_bind.
      rewrite (lazy_init_tracks d s Ht). unfold get_nvfs_poll_mode. by rewrite Hget'.
  - unfold simulates. cbn [prop_step]. unfold ask_driver, answer, get_st, mbind, st_bind, get_nvfs_statusflags.
    rewrite Hget. split; [|done]. cbn [mret st_ret]. do 2 f_equal. unfold flag.
    rewrite !filter_cons, filter_nil.
    by destruct (get_driver_flag (dcontrolflags d) CU_FILE_USE_POLL_MODE),
      (get_driver_flag (dcontrolflags d) CU_FILE_ALLOW_COMPAT_MODE).
  - apply (setter_simulates _ (DriverSetMaxCacheSize size) d s (with_cache_size size)); try done.
    cbn [prop_step]. unfold answer, set_max_device_cache_size, compiled, mbind, st_bind.
    by rewrite (lazy_init_tracks d s Ht).
  - apply (setter_simulates _ (DriverSetMaxPinnedMemSize size) d s (with_pinned_size size)); try done.
    cbn [prop_step]. unfold answer, set_max_pinned_memory_size, compiled, mbind, st_bind.
    by rewrite (lazy_init_tracks d s Ht).
Qed.

(** The properties that [DriverProperties] keeps are the driver's: when the
    driver can be asked for them, every sequence of getters and setters, failing
    setters included, answers what asking the driver each time would, and has
    the same effect on the driver. *)
Theorem cached_properties_are_the_drivers ops d :
  0 <= dcontrolflags d < 2 ^ 32 ->
  let '(rs, s) := run_props prop_step ops (mkDrv d zero_props false) in
  run_props ask_driver ops d = (rs, driver s).
Proof.
  intros Hf. assert (Ht : tracks d (mkDrv d zero_props false)) by done. revert Ht.
  generalize (mkDrv d zero_props false). clear Hf. revert d.
  induction ops as [|o ops IH]; intros d s Ht; simpl; [by destruct Ht as (-> & _)|].
  pose proof (prop_step_simulates o d s Ht) as Ho. unfold simulates in Ho.
  destruct (prop_step o s) as [r s1], (ask_driver o d) as [r' d1]. destruct Ho as [<- Ht1].
  specialize (IH d1 s1 Ht1). destruct (run_props prop_step ops s1) as [rs s2]. by rewrite IH.
Qed.
End tracking.

(** A driver that refuses one threshold. *)
Definition picky_driver : DriverCalls := {|
  GetPropertiesError _ := mkCUfileError 0 0;
  CallError c _ := match c with
                   | DriverSetPollMode _ 13 => mkCUfileError 5029 0
                   | _ => mkCUfileError 0 0
                   end;
  DriverAfter := driver_effect;
  OpenError := mkCUfileError 0 0;
  CloseError := mkCUfileError 5001 0 |}.

Definition gds_props : CUfileDrvProps := mkDrvProps 2 17 2 4 131072 1024 33554432 128.

Definition plain_texts : ErrorTexts := {|
  GetErrorName _ := None; GetErrorString _ := None;
  cufileop_status_error _ := "GPUDirect Storage error"; strerror_text _ := "" |}.

Definition prop_ops : list prop_op :=
  [GdsAvailable; SetPollMode true; SetPollThresh 13; SetPollThresh 8; PollThresh; StatusFlags].

Lemma cached_properties_are_the_drivers_witness :
  0 <= dcontrolflags gds_props < 2 ^ 32 /\
  (@run_props CUfileDrvProps (@ask_driver plain_texts picky_driver) prop_ops gds_props).1 =
  [inr (VB true); inr VU; inl (CUfileException "GPUDirect Storage error"); inr VU; inr (VZ 8);
   inr (VL [0; 1])] /\
  let '(rs, s) := @run_props drv_state (@prop_step plain_texts picky_driver) prop_ops
                    (mkDrv gds_props zero_props false) in
  @run_props CUfileDrvProps (@ask_driver plain_texts picky_driver) prop_ops gds_props = (rs, driver s).
Proof.
  split; [simpl; lia|]. split; [vm_compute; reflexivity|].
  apply (@cached_properties_are_the_drivers plain_texts picky_driver); [by split|done|simpl; lia].
Defined.

(** A driver that cannot be asked: the first getter throws, the ones after it
    return properties that are all zero. *)
Definition mute_driver : DriverCalls := {|
  GetPropertiesError _ := mkCUfileError 5001 0;
  CallError _ _ := mkCUfileError 0 0;
  DriverAfter := driver_effect;
  OpenError := mkCUfileError 0 0;
  CloseError := mkCUfileError 0 0 |}.

Example failed_init_is_forgotten :
  (@run_props drv_state (@prop_step plain_texts mute_driver) [GetMajor; GetMajor; MaxBatchSize]
     (mkDrv gds_props zero_props false)).1 =
  [inl (CUfileException "GPUDirect Storage error"); inr (VZ 0); inr (VZ 0)].
Proof. vm_compute. reflexivity. Qed.
