(* ===== verification/CudaShim.v ===== *)
(** * The CUDA shim

    [src/shim/cuda.cpp] and [include/kvikio/shim/cuda.hpp]: loading the driver
    library symbol by symbol, the wrapper of the one symbol that may be
    missing, and the copies that prefer a batched call.  The dynamic linker, the
    headers' renaming of functions and the answers of the driver are
    parameters.  A copy the driver accepted takes effect when its stream gets
    there, the entries of a batch in any order. *)

From stdpp Require Import base list strings.
From Stdlib Require Import ZArith Lia.
From S2P Require Import Prelude PosixIo Cuda Driver.

#[local] Open Scope Z_scope.

(** ** The wrapper of an optional function

    [AnyCallable]: a callable or none.  The arguments have the types the
    callable was assigned with. *)

Definition AnyCallable (A R : Type) : Type := option (A -> R).

Definition callable_set {A R} (c : A -> R) (_ : AnyCallable A R) : AnyCallable A R := Some c.
Definition callable_reset {A R} (_ : AnyCallable A R) : AnyCallable A R := None.
Definition callable_bool {A R} (c : AnyCallable A R) : bool := match c with Some _ => true | None => false end.
Definition callable_call {A S B} (c : AnyCallable A (st S B)) (args : A) : st S B :=
  match c with
  | Some f => f args
  | None => throw (RuntimeError "No callable has been assigned to the wrapper yet.")
  end.

(** ** Copies *)

Record copy_entry := mkCopy { cp_dst : Z; cp_src : Z; cp_size : Z }.

(** What the driver accepted, in the order of the calls. *)
Inductive copy_submission :=
  | CopyOne (c : copy_entry) (stream : Z)
  | CopyBatch (cs : list copy_entry) (stream : Z).

Definition batch_args : Type := list Z * list Z * list Z * Z.

Record cudaAPI := mkCudaApi {
  driver_version : Z;
  MemcpyBatchAsync : AnyCallable batch_args (st (list copy_submission) Z) }.

(** The instance, once it was constructed. *)
Record shim_state := mkShim { shim_api : option cudaAPI; submitted : list copy_submission }.

Definition set_api (api : cudaAPI) (s : shim_state) : shim_state := mkShim (Some api) (submitted s).

Definition in_driver {A} (m : st (list copy_submission) A) : st shim_state A := fun s =>
  let '(r, l) := m (submitted s) in (r, mkShim (shim_api s) l).

(** The driver's answers to a copy and to a batch, after the calls it
    accepted. *)
Class CopyCalls := {
  copy_code : list copy_submission -> copy_entry -> Z -> Z;
  batch_code : list copy_submission -> list copy_entry -> Z -> Z }.

Section driver.
Context `{CopyCalls}.

Definition accepts (code : Z) (sub : copy_submission) : st (list copy_submission) Z :=
  _ ← (if code =? CUDA_SUCCESS then modify (fun l => l ++ [sub]) else mret tt);
  mret code.

Definition MemcpyAsync (c : copy_entry) (stream : Z) : st (list copy_submission) Z :=
  l ← get_st;
  accepts (copy_code l c stream) (CopyOne c stream).

Fixpoint entries (dsts srcs sizes : list Z) : list copy_entry :=
  match dsts, srcs, sizes with
  | d :: dsts, s :: srcs, n :: sizes => mkCopy d s n :: entries dsts srcs sizes
  | _, _, _ => []
  end.

Definition batch_entry (args : batch_args) : st (list copy_submission) Z :=
  let '(dsts, srcs, sizes, stream) := args in
  let cs := entries dsts srcs sizes in
  l ← get_st;
  accepts (batch_code l cs stream) (CopyBatch cs stream).
End driver.

(** ** Loading *)

Definition cuda_functions : list string :=
  ["cuMemHostAlloc"; "cuMemFreeHost"; "cuMemHostRegister"; "cuMemHostUnregister"; "cuMemcpyHtoDAsync";
   "cuMemcpyDtoHAsync"; "cuMemcpyAsync"; "cuPointerGetAttribute"; "cuPointerGetAttributes"; "cuCtxCreate";
   "cuCtxDestroy"; "cuCtxPushCurrent"; "cuCtxPopCurrent"; "cuCtxGetCurrent"; "cuCtxGetDevice";
   "cuMemGetAddressRange"; "cuGetErrorName"; "cuGetErrorString"; "cuDeviceGet"; "cuDeviceGetCount";
   "cuDeviceGetAttribute"; "cuDevicePrimaryCtxRetain"; "cuDevicePrimaryCtxRelease"; "cuStreamSynchronize";
   "cuStreamCreate"; "cuStreamDestroy"; "cuDriverGetVersion"; "cuEventSynchronize"; "cuEventCreate";
   "cuEventDestroy"; "cuEventRecord"; "cuEventQuery"; "cuLaunchHostFunc"].

(** [header_name]: the name a header gives a function, such as
    cuMemcpyHtoDAsync_v2; [cuda_version]: that of the headers. *)
Class CudaLibrary := {
  cuda_version : Z;
  header_name : string -> string;
  cuda_dlopen : string -> option string;
  cuda_dlsym : string -> string -> option string;
  DriverGetVersion : Z * Z }.

Section shim.
Context `{ErrorTexts} `{CudaLibrary} `{CopyCalls}.

Definition new_cuda_api : result cudaAPI :=
  lib ← load_library cuda_dlopen "libcuda.so.1";
  _ ← get_symbols cuda_dlsym lib (header_name <$> cuda_functions);
  let '(e, version) := DriverGetVersion in
  _ ← expect (e =? CUDA_SUCCESS) (cuda_error e);
  batch ← (if 12080 <=? cuda_version then
             match get_symbol cuda_dlsym lib (header_name "cuMemcpyBatchAsync") with
             | Ok _ => mret (callable_set batch_entry None)
             | Err (RuntimeError t) =>
                 if 12080 <=? version then Err (RuntimeError t) else mret (callable_reset None)
             | Err e => Err e
             | NoFuel => NoFuel
             end
           else mret None);
  mret (mkCudaApi version batch).

(** The first call that succeeds constructs the instance. *)
Definition cuda_instance : st shim_state cudaAPI :=
  s ← get_st;
  match shim_api s with
  | Some api => mret api
  | None => match new_cuda_api with
            | Ok api => _ ← modify (set_api api); mret api
            | Err e => throw e
            | NoFuel => throw (RuntimeError "no fuel")
            end
  end.

(** The exceptions derived from [std::runtime_error]; the others are logic
    errors. *)
Definition is_runtime_error (e : exn) : bool :=
  match e with
  | RuntimeError _ | CUfileException _ | OverflowError _ | GenericSystemError _ => true
  | InvalidArgument _ | OutOfRange _ | LengthError _ | LogicError _ => false
  end.

Definition is_cuda_available : st shim_state bool :=
  r ← attempt cuda_instance;
  match r with
  | inr _ => mret true
  | inl e => if is_runtime_error e then mret false else throw e
  end.

(** ** The preferred copies *)

(** The fallback stops at the first failure. *)
Fixpoint copy_each (cs : list copy_entry) (stream : Z) : st shim_state Z :=
  match cs with
  | [] => mret CUDA_SUCCESS
  | c :: cs =>
      _ ← cuda_instance;
      result ← in_driver (MemcpyAsync c stream);
      if negb (result =? CUDA_SUCCESS) then mret result else copy_each cs stream
  end.

Definition prefers_batch (stream : Z) : st shim_state bool :=
  if 12080 <=? cuda_version then
    api ← cuda_instance;
    mret (callable_bool (MemcpyBatchAsync api) && negb (stream =? 0))
  else mret false.

Definition cuda_memcpy_batch_async (dsts srcs sizes : list Z) (stream : Z) : st shim_state Z :=
  _ ← require ((length dsts =? length srcs)%nat && (length dsts =? length sizes)%nat)
        (InvalidArgument "dsts, srcs and sizes must have the same length");
  match dsts with
  | [] => mret CUDA_SUCCESS
  | _ =>
      batch ← prefers_batch stream;
      if batch : bool then
        api ← cuda_instance;
        in_driver (callable_call (MemcpyBatchAsync api) (dsts, srcs, sizes, stream))
      else copy_each (entries dsts srcs sizes) stream
  end.

Definition cuda_memcpy_async (dst src size stream : Z) : st shim_state Z :=
  cuda_memcpy_batch_async [dst] [src] [size] stream.
End shim.

(** ** What a copy does *)

Definition perform (m : bytes) (c : copy_entry) : bytes := blit m (cp_dst c) m (cp_src c) (cp_size c).

(** A stream runs its submissions in order, and a batch in some order. *)
Inductive executes : list copy_submission -> bytes -> bytes -> Prop :=
  | executes_none m : executes [] m m
  | executes_one c stream subs m m' :
      executes subs (perform m c) m' -> executes (CopyOne c stream :: subs) m m'
  | executes_batch cs order stream subs m m' :
      order ≡ₚ cs -> executes subs (fold_left perform order m) m' ->
      executes (CopyBatch cs stream :: subs) m m'.

(** The specification: every entry copied from the memory before. *)
Definition covers (a : Z) (c : copy_entry) : bool := in_range a (cp_dst c) (cp_size c).
Definition copied (cs : list copy_entry) (m : bytes) : bytes := fun a =>
  match List.find (covers a) cs with Some c => m (cp_src c + (a - cp_dst c)) | None => m a end.

(** Destinations disjoint from each other and from all sources. *)
Definition disjoint_ranges (a n b k : Z) : bool := (n <=? 0) || (k <=? 0) || (a + n <=? b) || (b + k <=? a).
Definition keeps_source (c c' : copy_entry) : bool :=
  disjoint_ranges (cp_dst c) (cp_size c) (cp_src c') (cp_size c').
Definition apart (c c' : copy_entry) : bool :=
  disjoint_ranges (cp_dst c) (cp_size c) (cp_dst c') (cp_size c') && keeps_source c c' && keeps_source c' c.
Fixpoint separate (cs : list copy_entry) : Prop :=
  match cs with
  | [] => True
  | c :: cs => keeps_source c c = true /\ Forall (fun c' => apart c c' = true) cs /\ separate cs
  end.

Lemma disjoint_ranges_spec a n b k x :
  disjoint_ranges a n b k = true -> in_range x a n = true -> in_range x b k = true -> False.
Proof. unfold disjoint_ranges, in_range. rewrite !orb_true_iff. intros ? ? ?. bool_to_prop. lia. Qed.

Lemma apart_sym c c' : apart c c' = apart c' c.
Proof.
  unfold apart. rewrite <-!andb_assoc, (andb_comm (keeps_source c c')). f_equal.
  unfold disjoint_ranges. destruct (_ <=? _), (_ <=? _); simpl; try done. apply orb_comm.
Qed.

Lemma apart_spec c c' a : apart c c' = true -> covers a c = true -> covers a c' = true -> False.
Proof. unfold apart. intros Ha. bool_to_prop. by apply disjoint_ranges_spec. Qed.

Lemma separate_perm cs cs' : cs ≡ₚ cs' -> separate cs -> separate cs'.
Proof.
  induction 1 as [|c cs cs' Hp IH|c c' cs|cs1 cs2 cs3 _ IH1 _ IH2]; [done| | |tauto]; simpl.
  - intros (? & Hc & ?). split_and!; [done|by rewrite <-Hp|by apply IH].
  - rewrite !Forall_cons, (apart_sym c'). tauto.
Qed.

Lemma source_range c a : covers a c = true -> in_range (cp_src c + (a - cp_dst c)) (cp_src c) (cp_size c) = true.
Proof. unfold covers, in_range. rewrite !andb_true_iff, !Z.leb_le, !Z.ltb_lt. lia. Qed.

(** The entry that covers an address is the only one. *)
Lemma copied_at cs m a c :
  separate cs -> c ∈ cs -> covers a c = true -> copied cs m a = m (cp_src c + (a - cp_dst c)).
Proof.
  unfold copied. induction cs as [|c0 cs IH]; [by intros _ ?%not_elem_of_nil|]. simpl. intros (_ & Ha & Hs) Hin Hc.
  apply elem_of_cons in Hin as [<-|Hin]; [by rewrite Hc|].
  destruct (covers a c0) eqn:H0; [|by apply IH]. exfalso.
  rewrite Forall_forall in Ha. by apply (apart_spec c0 c a); [apply Ha| |].
Qed.

Lemma copied_outside cs m a : Forall (fun c => covers a c = false) cs -> copied cs m a = m a.
Proof. unfold copied. induction 1 as [|c cs Hc _ IH]; simpl; [done|]. by rewrite Hc. Qed.

Lemma covered_dec cs a : {c | c ∈ cs /\ covers a c = true} + {Forall (fun c => covers a c = false) cs}.
Proof.
  induction cs as [|c cs [(c' & ? & ?)|IH]]; [right; constructor|left; exists c'; split; [by right|done]|].
  destruct (covers a c) eqn:Hc; [left; exists c; split; [left|done]|right; by constructor].
Qed.

Lemma copied_perm cs cs' m a : cs ≡ₚ cs' -> separate cs -> copied cs m a = copied cs' m a.
Proof.
  intros Hp Hs. destruct (covered_dec cs a) as [(c & Hin & Hc)|Ho].
  - rewrite (copied_at cs m a c), (copied_at cs' m a c); try done; [by apply (separate_perm cs)|by rewrite <-Hp].
  - rewrite !copied_outside; [done|by rewrite <-Hp|done].
Qed.

Lemma perform_elsewhere c m a : covers a c = false -> perform m c a = m a.
Proof. unfold perform, blit, covers. by intros ->. Qed.

Lemma perform_all cs m a : separate cs -> fold_left perform cs m a = copied cs m a.
Proof.
  revert m. induction cs as [|c cs IH]; [done|]. intros m (Hown & Ha & Hs). simpl. rewrite (IH _ Hs).
  unfold copied at 2. simpl. rewrite Forall_forall in Ha. destruct (covers a c) eqn:Hc.
  - rewrite copied_outside; [unfold perform, blit, covers in *; by rewrite Hc|].
    apply Forall_forall. intros c' Hin. apply not_true_iff_false. intros Hc'.
    by apply (apart_spec c c' a); [apply Ha| |].
  - fold (copied cs m a). destruct (covered_dec cs a) as [(c' & Hin & Hc')|Ho].
    + rewrite !(copied_at cs _ a c'); try done. apply perform_elsewhere. specialize (Ha c' Hin). unfold apart in Ha.
      bool_to_prop. apply not_true_iff_false. intros Hx.
      eapply disjoint_ranges_spec; [|exact Hx|by apply source_range]; done.
    + rewrite !copied_outside by done. by apply perform_elsewhere.
Qed.

(** One call for each entry has the same effect as one batch. *)
Definition ones (stream : Z) (cs : list copy_entry) : list copy_submission := (fun c => CopyOne c stream) <$> cs.

Lemma executes_ones stream cs m m' : executes (ones stream cs) m m' -> m' = fold_left perform cs m.
Proof.
  revert m. induction cs as [|c cs IH]; intros m Hx; inversion Hx; subst; [done|]. simpl. by apply IH.
Qed.

Lemma executes_batch_only cs stream m m' a :
  separate cs -> executes [CopyBatch cs stream] m m' -> m' a = copied cs m a.
Proof.
  intros Hs Hx. inversion Hx as [| |? order ? ? ? ? Hp Hx']; subst. inversion Hx'; subst.
  rewrite perform_all by by apply (separate_perm cs). symmetry. by apply copied_perm.
Qed.

(** ** The theorem *)

Section copies.
Context `{ErrorTexts} `{CudaLibrary} `{CopyCalls}.

(** The instance is the one the library loads. *)
Definition loaded (s : shim_state) : Prop := forall api, shim_api s = Some api -> new_cuda_api = Ok api.

Lemma new_cuda_api_returns :
  returns new_cuda_api
    (fun api => MemcpyBatchAsync api = if callable_bool (MemcpyBatchAsync api) then Some batch_entry else None)
    (fun _ => True).
Proof.
  unfold new_cuda_api, load_library. destruct (cuda_dlopen _); [done|]. cbn [mbind result_bind mret result_ret].
  pose proof (get_symbols_returns cuda_dlsym "libcuda.so.1" (header_name <$> cuda_functions)) as Hg.
  destruct (get_symbols _ _ _); simpl in Hg; try done. cbn [mbind result_bind].
  destruct DriverGetVersion as [e v]. unfold expect. destruct (e =? _); [|done]. cbn [mbind result_bind].
  destruct (12080 <=? cuda_version); [|done].
  unfold get_symbol. destruct (cuda_dlsym _ _); [|done]. by destruct (12080 <=? v).
Qed.

Lemma get_symbol_throws lib name : returns (get_symbol cuda_dlsym lib name) (fun _ => True) (fun e => is_runtime_error e = true).
Proof. unfold get_symbol. by destruct (cuda_dlsym _ _). Qed.

Lemma new_cuda_api_throws : returns new_cuda_api (fun _ => True) (fun e => is_runtime_error e = true).
Proof.
  unfold new_cuda_api, load_library. destruct (cuda_dlopen _); [done|]. cbn [mbind result_bind mret result_ret].
  pose proof (get_symbols_returns cuda_dlsym "libcuda.so.1" (header_name <$> cuda_functions)) as Hg.
  destruct (get_symbols _ _ _); simpl in Hg; [|by destruct Hg as [[? ->] _]|done]. cbn [mbind result_bind].
  destruct DriverGetVersion as [e v]. unfold expect.
  destruct (e =? CUDA_SUCCESS); [|unfold cuda_error; simpl; by destruct (e =? CUDA_ERROR_STUB_LIBRARY)].
  cbn [mbind result_bind]. destruct (12080 <=? cuda_version); [|done].
  pose proof (get_symbol_throws "libcuda.so.1" (header_name "cuMemcpyBatchAsync")) as Hs.
  destruct (get_symbol _ _ _) as [|[]|]; simpl in *; try done. by destruct (12080 <=? v).
Qed.

Lemma cuda_instance_ends s :
  loaded s ->
  ends cuda_instance s
    (fun api s' => new_cuda_api = Ok api /\ loaded s' /\ shim_api s' = Some api /\ submitted s' = submitted s)
    (fun e s' => new_cuda_api = Err e /\ s' = s).
Proof.
  intros Hl. unfold cuda_instance, ends, mbind, st_bind, get_st, modify, mret, st_ret, throw.
  destruct (shim_api s) as [api|] eqn:Ha; [auto|].
  pose proof new_cuda_api_returns. destruct new_cuda_api eqn:Hn; simpl in *; [|done|done].
  split_and!; try done. intros ? [= <-]. done.
Qed.

Lemma accepts_spec code sub l : accepts code sub l = (inr code, if code =? CUDA_SUCCESS then l ++ [sub] else l).
Proof. unfold accepts. by destruct (code =? _). Qed.

Lemma memcpy_async_run c stream s :
  in_driver (MemcpyAsync c stream) s =
  (inr (copy_code (submitted s) c stream),
   mkShim (shim_api s) (if copy_code (submitted s) c stream =? CUDA_SUCCESS
                        then submitted s ++ [CopyOne c stream] else submitted s)).
Proof. unfold in_driver, MemcpyAsync, mbind, st_bind, get_st. by rewrite accepts_spec. Qed.

Lemma batch_run dsts srcs sizes stream s :
  let cs := entries dsts srcs sizes in
  in_driver (batch_entry (dsts, srcs, sizes, stream)) s =
  (inr (batch_code (submitted s) cs stream),
   mkShim (shim_api s) (if batch_code (submitted s) cs stream =? CUDA_SUCCESS
                        then submitted s ++ [CopyBatch cs stream] else submitted s)).
Proof. cbv zeta. unfold in_driver, batch_entry, mbind, st_bind, get_st. by rewrite accepts_spec. Qed.

(** After [k] successful calls of the fallback. *)
Definition fell_back (stream : Z) (cs : list copy_entry) (l : list copy_submission) (code : Z) (l' : list copy_submission) : Prop :=
  exists k, (k <= length cs)%nat /\ l' = l ++ ones stream (take k cs) /\ (code = CUDA_SUCCESS <-> k = length cs).

Lemma copy_each_ends cs stream s :
  loaded s ->
  ends (copy_each cs stream) s
    (fun code s' => loaded s' /\ fell_back stream cs (submitted s) code (submitted s'))
    (fun e s' => new_cuda_api = Err e /\ s' = s).
Proof.
  revert s. induction cs as [|c cs IH]; intros s Hl; simpl.
  - split; [done|]. exists 0%nat. rewrite app_nil_r. naive_solver.
  - apply ends_bind. eapply ends_mono; [apply (cuda_instance_ends s Hl)| |done].
    intros api s1 (Hn & Hl1 & Ha & Hs1). apply ends_bind. unfold ends at 1. rewrite memcpy_async_run.
    set (code := copy_code _ _ _).
    destruct (code =? CUDA_SUCCESS) eqn:Hc; cbn [negb].
    + eapply ends_mono; [apply IH; intros ?; simpl; rewrite Ha; by intros [= <-]| |].
      * simpl. intros code' s' (Hl' & k & Hk & Hs' & Hiff). split; [done|]. exists (S k). simpl.
        split_and!; [lia|by rewrite Hs', Hs1, <-app_assoc|rewrite Hiff; lia].
      * intros e s' (He & _). congruence.
    + bool_to_prop. unfold ends. simpl. split; [intros ?; simpl; rewrite Ha; by intros [= <-]|].
      exists 0%nat. simpl. split_and!; [lia|by rewrite Hs1, app_nil_r|split; [done|lia]].
Qed.

Lemma prefers_batch_ends stream s :
  loaded s ->
  ends (prefers_batch stream) s
    (fun b s' => loaded s' /\ submitted s' = submitted s /\
       (b = true -> exists api, shim_api s' = Some api /\ MemcpyBatchAsync api = Some batch_entry))
    (fun e s' => new_cuda_api = Err e /\ s' = s).
Proof.
  intros Hl. unfold prefers_batch. destruct (12080 <=? cuda_version); [|done].
  apply ends_bind. eapply ends_mono; [apply (cuda_instance_ends s Hl)| |done].
  intros api s' (Hn & Hl' & Ha & Hs). unfold ends. simpl. split_and!; [done..|]. intros [Hb _]%andb_true_iff.
  exists api. split; [done|]. pose proof new_cuda_api_returns as Hr. rewrite Hn in Hr. simpl in Hr.
  by rewrite Hb in Hr.
Qed.

Lemma length_entries dsts srcs sizes :
  length dsts = length srcs -> length dsts = length sizes -> length (entries dsts srcs sizes) = length dsts.
Proof.
  revert srcs sizes. induction dsts as [|d dsts IH]; intros [|s srcs] [|n sizes]; try done.
  simpl. intros [= ?] [= ?]. f_equal. by apply IH.
Qed.

(** What was submitted for the entries. *)
Definition handed (stream : Z) (cs : list copy_entry) (l : list copy_submission) (code : Z) (l' : list copy_submission) : Prop :=
  fell_back stream cs l code l' \/
  (0 < length cs)%nat /\ l' = l ++ (if code =? CUDA_SUCCESS then [CopyBatch cs stream] else []).

Lemma handed_code dsts srcs sizes stream l code l' :
  let cs := entries dsts srcs sizes in
  separate cs -> length dsts = length srcs -> length dsts = length sizes ->
  handed stream cs l code l' ->
  exists subs, l' = l ++ subs /\
    if code =? CUDA_SUCCESS then forall m m', executes subs m m' -> forall a, m' a = copied cs m a
    else exists k, (k < length dsts)%nat /\ subs = ones stream (take k cs).
Proof.
  intros cs Hs Hsrc Hsz. unfold handed, fell_back. assert (Hn : length cs = length dsts) by by apply length_entries.
  rewrite Hn. intros [(k & Hk & -> & Hiff)|[Hpos ->]]; eexists; (split; [done|]); destruct (code =? _) eqn:Hc; bool_to_prop.
  - rewrite (proj1 Hiff Hc), <-Hn, firstn_all. intros m m' Hx a. apply executes_ones in Hx as ->. by apply perform_all.
  - exists k. split; [|done]. destruct (decide (k = length dsts)); [tauto|lia].
  - intros m m' Hx a. by apply (executes_batch_only _ _ _ _ _ Hs Hx).
  - by exists 0%nat.
Qed.

Lemma batch_async_ends dsts srcs sizes stream s :
  loaded s -> length dsts = length srcs -> length dsts = length sizes ->
  ends (cuda_memcpy_batch_async dsts srcs sizes stream) s
    (fun code s' => loaded s' /\ handed stream (entries dsts srcs sizes) (submitted s) code (submitted s'))
    (fun e s' => new_cuda_api = Err e /\ submitted s' = submitted s).
Proof.
  intros Hl Hsrc Hsz. unfold cuda_memcpy_batch_async. rewrite <-Hsrc, <-Hsz, Nat.eqb_refl. apply ends_bind.
  eapply (ends_mono _ _ (fun _ s' => s' = s) _ (fun _ _ => False) _); [done| |done]. intros _ ? ->.
  destruct dsts as [|d dsts].
  { split; [done|]. left. exists 0%nat. simpl. by rewrite app_nil_r. }
  set (cs := entries _ _ _). apply ends_bind. eapply ends_mono; [apply (prefers_batch_ends stream s Hl)| |by intros e s' [? ->]].
  intros [|] s1 (Hl1 & Hs1 & Hb).
  - destruct (Hb eq_refl) as (api & Ha & Hf). apply ends_bind.
    eapply ends_mono; [apply (cuda_instance_ends s1 Hl1)| |intros e s' [He _]; specialize (Hl1 _ Ha); congruence].
    intros api' s2 (Hn & Hl2 & Ha2 & Hs2).
    assert (api' = api) as -> by (specialize (Hl1 _ Ha); congruence).
    rewrite Hf. unfold callable_call, ends. rewrite batch_run. fold cs. split.
    + intros x. simpl. rewrite Ha2. by intros [= <-].
    + right. split; [unfold cs; rewrite length_entries by done; simpl; lia|]. simpl. rewrite Hs2, Hs1. destruct (_ =? _); [done|by rewrite app_nil_r].
  - rewrite <-Hs1. eapply ends_mono; [apply (copy_each_ends cs stream s1 Hl1)| |].
    + intros code s' [? ?]. split; [done|by left].
    + by intros e s' [? ->].
Qed.

(** A successful [cuda_memcpy_batch_async] has submitted copies that, once
    the stream ran them, left every entry copied and everything else as it was,
    whether they were batched (and then in whatever order the driver takes the
    entries) or issued one by one; a failing one has submitted the entries
    before the failure at most, and one that throws has submitted nothing: the
    lengths differ, or the library cannot be loaded. *)
Theorem batched_copy_copies dsts srcs sizes stream s :
  loaded s -> separate (entries dsts srcs sizes) ->
  ends (cuda_memcpy_batch_async dsts srcs sizes stream) s
    (fun code s' => loaded s' /\
       exists subs, submitted s' = submitted s ++ subs /\
         if code =? CUDA_SUCCESS then
           forall m m', executes subs m m' -> forall a, m' a = copied (entries dsts srcs sizes) m a
         else exists k, (k < length dsts)%nat /\ subs = ones stream (take k (entries dsts srcs sizes)))
    (fun e s' => submitted s' = submitted s /\
       if decide (length dsts = length srcs /\ length dsts = length sizes) then new_cuda_api = Err e
       else s' = s /\ e = InvalidArgument "dsts, srcs and sizes must have the same length").
Proof.
  intros Hl Hs. destruct (decide _) as [[Hsrc Hsz]|Hne].
  - eapply ends_mono; [by apply batch_async_ends| |naive_solver].
    intros code s' [Hl' Hh]. split; [done|]. by apply handed_code.
  - unfold cuda_memcpy_batch_async.
    replace (_ && _) with false; [done|]. symmetry. apply not_true_iff_false. intros [Ha Hb]%andb_true_iff.
    apply Nat.eqb_eq in Ha, Hb. tauto.
Qed.

(** A library that cannot be loaded is reported as such, never by an exception,
    and the next call tries again. *)
Lemma is_cuda_available_ends s :
  loaded s ->
  ends is_cuda_available s
    (fun b s' => loaded s' /\ submitted s' = submitted s /\ b = is_ok new_cuda_api /\ (b = false -> s' = s))
    (fun _ _ => False).
Proof.
  intros Hl. unfold is_cuda_available. apply ends_bind, ends_attempt.
  eapply ends_mono; [apply (cuda_instance_ends s Hl)| |].
  - intros api s' (Hn & Hl' & _ & Hs). unfold ends. simpl. by rewrite Hn.
  - intros e s' [He ->]. pose proof new_cuda_api_throws as Ht. rewrite He in Ht. simpl in Ht. rewrite Ht.
    unfold ends. simpl. by rewrite He.
Qed.
End copies.

(** ** A driver *)

Definition a_library (headers version : Z) (batch_there : bool) : CudaLibrary := {|
  cuda_version := headers;
  header_name name := name +:+ "_v2";
  cuda_dlopen _ := None;
  cuda_dlsym _ name := if String.eqb name "cuMemcpyBatchAsync_v2" && negb batch_there then Some "undefined symbol" else None;
  DriverGetVersion := (CUDA_SUCCESS, version) |}.

(** The copy to address 64 fails. *)
Definition a_driver : CopyCalls := {|
  copy_code _ c _ := if cp_dst c =? 64 then CUDA_ERROR_INVALID_VALUE else CUDA_SUCCESS;
  batch_code _ _ _ := CUDA_SUCCESS |}.

Definition no_shim : shim_state := mkShim None [].

Section examples.
Let copy (l : CudaLibrary) dsts srcs sizes stream :=
  let '(r, s) := cuda_memcpy_batch_async (H := plain_texts) (H0 := l) (H1 := a_driver) dsts srcs sizes stream no_shim in
  (r, submitted s).

Example batches : copy (a_library 13000 12090 true) [0; 8] [16; 24] [8; 4] 1 =
  (inr CUDA_SUCCESS, [CopyBatch [mkCopy 0 16 8; mkCopy 8 24 4] 1]).
Proof. reflexivity. Qed.

(** The default stream, an old driver and old headers get one copy each. *)
Example default_stream : copy (a_library 13000 12090 true) [0; 8] [16; 24] [8; 4] 0 =
  (inr CUDA_SUCCESS, [CopyOne (mkCopy 0 16 8) 0; CopyOne (mkCopy 8 24 4) 0]).
Proof. reflexivity. Qed.

Example old_driver : copy (a_library 13000 12040 false) [0; 64; 8] [16; 24; 32] [8; 4; 4] 1 =
  (inr CUDA_ERROR_INVALID_VALUE, [CopyOne (mkCopy 0 16 8) 1]).
Proof. reflexivity. Qed.

Example broken_driver : copy (a_library 13000 12090 false) [0] [16] [8] 1 = (inl (RuntimeError "undefined symbol"), []).
Proof. reflexivity. Qed.

Example different_lengths : copy (a_library 13000 12090 true) [0; 8] [16] [8] 1 =
  (inl (InvalidArgument "dsts, srcs and sizes must have the same length"), []).
Proof. reflexivity. Qed.
End examples.

Lemma batched_copy_copies_witness :
  let cs := [mkCopy 0 16 8; mkCopy 8 24 4] in
  let s' := (cuda_memcpy_batch_async (H := plain_texts) (H0 := a_library 13000 12090 true) (H1 := a_driver)
               [0; 8] [16; 24] [8; 4] 1 no_shim).2 in
  separate cs /\ submitted s' = [CopyBatch cs 1] /\
  forall m m', executes (submitted s') m m' -> m' 3 = m 19 /\ m' 10 = m 26 /\ m' 16 = m 16.
Proof.
  set (cs := [mkCopy 0 16 8; mkCopy 8 24 4]).
  assert (separate cs) by (simpl; split_and!; first [done | repeat constructor]).
  split; [assumption|]. split; [reflexivity|]. intros m m' Hx.
  destruct (batched_copy_copies (H := plain_texts) (H0 := a_library 13000 12090 true) (H1 := a_driver)
              [0; 8] [16; 24] [8; 4] 1 no_shim ltac:(discriminate) ltac:(assumption)) as (_ & subs & Hs & Hc).
  simpl in Hs. subst subs. split_and!; apply (Hc m m' Hx).
Defined.
