(* ===== verification/Batch.v ===== *)
(** * Batches and registered buffers

    [BatchHandle] of [src/batch.cpp] and the registration of device buffers of
    [src/buffer.cpp].  cuFile is a parameter; its state is the batches that
    have been set up and not destroyed, the operations submitted to them and the
    registered buffers. *)

From stdpp Require Import base list gmap sets strings.
From Stdlib Require Import ZArith Lia.
From S2P Require Import Prelude Utils Cuda FileHandle.

#[local] Open Scope Z_scope.

(** ** Batches *)

Record BatchOp := mkBatchOp {
  file_handle : FileHandle;
  devPtr_base : Z;
  file_offset : Z;
  devPtr_offset : Z;
  size : Z;
  opcode : Z }.

(** [CUfileIOParams_t]; mode and cookie are constants. *)
Record CUfileIOParams := mkParams {
  u_devPtr_base : Z;
  u_file_offset : Z;
  u_devPtr_offset : Z;
  u_size : Z;
  p_fh : Z;
  p_opcode : Z }.

(** [CUfileIOEvents_t]: status and result. *)
Abbreviation event := (Z * Z)%type (only parsing).

(** [misused]: a batch was used or destroyed that cuFile did not have;
    [stray]: events were written past the end of a vector. *)
Record batch_state := mkBatches {
  live_batches : gset Z;
  submitted : gmap Z (list CUfileIOParams);   (* the last submission *)
  batch_calls : nat;
  batch_misused : bool;
  stray : bool }.

Definition no_batches : batch_state := mkBatches ∅ ∅ 0 false false.

(** Codes, a new batch, and the events that are written and counted. *)
Class BatchDriver := {
  BatchIOSetUp : batch_state -> Z -> CUfileError_t * Z;
  BatchIOSubmit : batch_state -> Z -> list CUfileIOParams -> CUfileError_t;
  BatchIOGetStatus : batch_state -> Z -> Z -> Z -> CUfileError_t * list event;
  BatchIOCancel : batch_state -> Z -> CUfileError_t }.

(** A new batch is new; no more events are written than were asked for. *)
Class BatchDriverLaws `{BatchDriver} := {
  setup_fresh s n e h : BatchIOSetUp s n = (e, h) -> err e = CU_FILE_SUCCESS -> h ∉ live_batches s;
  status_within s h min_nr max_nr e events :
    BatchIOGetStatus s h min_nr max_nr = (e, events) -> Z.of_nat (length events) <= Z.max 0 max_nr }.

Record BatchHandle := mkBatchHandle {
  b_initialized : bool;
  max_num_events : Z;
  b_handle : Z }.

(** The default constructor; 0 is [CUfileBatchHandle_t{}]. *)
Definition no_batch : BatchHandle := mkBatchHandle false 0 0.

(** A call of cuFile on [h]. *)
Definition use_batch (h : Z) (s : batch_state) : batch_state :=
  mkBatches (live_batches s) (submitted s) (S (batch_calls s))
    (batch_misused s || bool_decide (h ∉ live_batches s)) (stray s).

(** [std::vector::resize] *)
Definition resize {A} (n : nat) (x : A) (l : list A) : list A :=
  take n l ++ replicate (n - length l) x.

Section batch.
Context `{ErrorTexts} `{BatchDriver}.

Definition new_batch (max_num_events : Z) : st batch_state BatchHandle :=
  s ← get_st;
  let '(e, h) := BatchIOSetUp s max_num_events in
  _ ← cufile_try e;
  _ ← put_st (mkBatches ({[h]} ∪ live_batches s) (submitted s) (S (batch_calls s))
                (batch_misused s) (stray s));
  mret (mkBatchHandle true max_num_events h).

(** The new object and the one moved from. *)
Definition move_batch (other : BatchHandle) : BatchHandle * BatchHandle := (other, no_batch).

Definition closed (b : BatchHandle) : bool := negb (b_initialized b).

Definition close_batch (b : BatchHandle) (s : batch_state) : BatchHandle * batch_state :=
  if closed b then (b, s)
  else (mkBatchHandle false (max_num_events b) (b_handle b),
        let s := use_batch (b_handle b) s in
        mkBatches (live_batches s ∖ {[b_handle b]}) (delete (b_handle b) (submitted s)) (batch_calls s)
          (batch_misused s) (stray s)).

(** [~BatchHandle] *)
Definition destroy_batch (b : BatchHandle) (s : batch_state) : batch_state := (close_batch b s).2.

Definition in_compat_mode (op : BatchOp) : bool :=
  preferred (compat_mode_manager (file_handle op)).

(** The entry of an operation; [FileHandle::handle] throws when the file is
    closed. *)
Definition param_of (op : BatchOp) : result CUfileIOParams :=
  fh ← handle (file_handle op);
  mret (mkParams (devPtr_base op) (file_offset op) (devPtr_offset op) (size op) fh (opcode op)).

Definition compat_error : exn := CUfileException "Cannot submit a FileHandle opened in compatibility mode".

(** The loop over the operations. *)
Fixpoint batch_params (operations : list BatchOp) : result (list CUfileIOParams) :=
  match operations with
  | [] => mret []
  | op :: operations =>
      _ ← expect (negb (in_compat_mode op)) compat_error;
      param ← param_of op;
      params ← batch_params operations;
      mret (param :: params)
  end.

Definition too_many : exn := CUfileException "Cannot submit more than the max_num_events)".

(** [operations.size()] is at least 0 and at most [max_num_events]. *)
Definition submit_batch (b : BatchHandle) (operations : list BatchOp) : st batch_state unit :=
  n ← of_result (convert_size2ssize (Z.of_nat (length operations)));
  _ ← require (n <=? max_num_events b) too_many;
  params ← of_result (batch_params operations);
  s ← get_st;
  _ ← put_st (use_batch (b_handle b) s);
  _ ← cufile_try (BatchIOSubmit s (b_handle b) params);
  modify (fun s => mkBatches (live_batches s) (<[b_handle b := params]> (submitted s)) (batch_calls s)
                     (batch_misused s) (stray s)).

(** The driver writes to [&ret[0]] and sets [max_nr] to the number of events it
    wrote. *)
Definition batch_status (b : BatchHandle) (min_nr max_nr : Z) : st batch_state (list event) :=
  _ ← require (0 <=? max_num_events b) (LengthError "vector::_M_default_append");
  s ← get_st;
  let ret := replicate (Z.to_nat (max_num_events b)) (0, 0) in
  let '(e, events) := BatchIOGetStatus s (b_handle b) min_nr max_nr in
  _ ← put_st (use_batch (b_handle b) s);
  _ ← cufile_try e;
  let room := length ret in
  _ ← modify (fun s => mkBatches (live_batches s) (submitted s) (batch_calls s) (batch_misused s)
                         (stray s || bool_decide (room < length events)%nat));
  let ret := take room events ++ drop (length events) ret in
  mret (resize (length events) (0, 0) ret).

Definition cancel_batch (b : BatchHandle) : st batch_state unit :=
  s ← get_st;
  _ ← put_st (use_batch (b_handle b) s);
  cufile_try (BatchIOCancel s (b_handle b)).
End batch.

(** ** Lives of batch handles *)

(** A program's batch handles, by name. *)
Inductive batch_op :=
  | New (i : nat) (max_num_events : Z)
  | Move (i j : nat)                  (* [i] into the new object [j] *)
  | Submit (i : nat) (operations : list BatchOp)
  | Status (i : nat) (min_nr max_nr : Z)
  | Cancel (i : nat)
  | Close (i : nat)
  | Destroy (i : nat).

Section lives.
Context `{ErrorTexts} `{BatchDriver}.

(** The names of [New] and [Move] are free, the others are taken. *)
Definition batch_step (o : batch_op) (bs : gmap nat BatchHandle * batch_state)
    : gmap nat BatchHandle * batch_state :=
  let '(m, s) := bs in
  match o with
  | New i n =>
      match m !! i, new_batch n s with
      | None, (inr b, s) => (<[i := b]> m, s)
      | None, (inl _, s) => (m, s)
      | _, _ => (m, s)
      end
  | Move i j =>
      match m !! i, m !! j with
      | Some b, None => (<[j := (move_batch b).1]> (<[i := (move_batch b).2]> m), s)
      | _, _ => (m, s)
      end
  | Submit i ops => match m !! i with Some b => (m, (submit_batch b ops s).2) | None => (m, s) end
  | Status i lo hi => match m !! i with Some b => (m, (batch_status b lo hi s).2) | None => (m, s) end
  | Cancel i => match m !! i with Some b => (m, (cancel_batch b s).2) | None => (m, s) end
  | Close i =>
      match m !! i with
      | Some b => let '(b, s) := close_batch b s in (<[i := b]> m, s)
      | None => (m, s)
      end
  | Destroy i => match m !! i with Some b => (delete i m, destroy_batch b s) | None => (m, s) end
  end.

Definition run_batches (ops : list batch_op) (bs : gmap nat BatchHandle * batch_state) :=
  foldl (fun bs o => batch_step o bs) bs ops.

(** The caller keeps to the documentation: it uses handles that are open and
    asks for no more events than the batch can hold. *)
Definition proper (o : batch_op) (m : gmap nat BatchHandle) : Prop :=
  match o with
  | Submit i _ | Cancel i => forall b, m !! i = Some b -> b_initialized b = true
  | Status i _ max_nr =>
      forall b, m !! i = Some b -> b_initialized b = true /\ max_nr <= max_num_events b
  | _ => True
  end.

Fixpoint proper_run (ops : list batch_op) (bs : gmap nat BatchHandle * batch_state) : Prop :=
  match ops with
  | [] => True
  | o :: ops => proper o bs.1 /\ proper_run ops (batch_step o bs)
  end.

(** An entry that cuFile may be given: it is of a file that is open and not in
    compatibility mode, and has the handle cuFile knows the file by. *)
Definition usable (op : BatchOp) : Prop :=
  FileHandle.closed (file_handle op) = false /\ in_compat_mode op = false.

Definition entry_of (op : BatchOp) : CUfileIOParams :=
  mkParams (devPtr_base op) (file_offset op) (devPtr_offset op) (size op)
    (cu_handle (cufile_handle (file_handle op))) (opcode op).

Definition entries_of_open_files (params : list CUfileIOParams) : Prop :=
  exists operations, Forall usable operations /\ params = entry_of <$> operations.

(** The open handles own the live batches, one each. *)
Record batches_ok (m : gmap nat BatchHandle) (s : batch_state) : Prop := mkBatchesOk {
  bt_live h : h ∈ live_batches s <-> exists i b, m !! i = Some b /\ b_initialized b = true /\ b_handle b = h;
  bt_once i j b c : m !! i = Some b -> m !! j = Some c -> b_initialized b = true -> b_initialized c = true ->
    b_handle b = b_handle c -> i = j;
  bt_submitted h params : submitted s !! h = Some params ->
    h ∈ live_batches s /\ entries_of_open_files params;
  bt_clean : batch_misused s = false /\ stray s = false }.

Lemma use_live b m s i : batches_ok m s -> m !! i = Some b -> b_initialized b = true -> b_handle b ∈ live_batches s.
Proof. intros Hok Hi Hb. apply (bt_live _ _ Hok). by exists i, b. Qed.

(** What a call on an open handle leaves. *)
Definition same_batches (s s' : batch_state) : Prop :=
  live_batches s' = live_batches s /\ batch_misused s' = batch_misused s /\ stray s' = stray s /\
  forall h params, submitted s' !! h = Some params ->
    submitted s !! h = Some params \/ h ∈ live_batches s /\ entries_of_open_files params.

Lemma same_batches_refl s : same_batches s s.
Proof. split_and!; try done. by left. Qed.

Lemma same_batches_ok m s s' : same_batches s s' -> batches_ok m s -> batches_ok m s'.
Proof.
  intros (Hl & Hm & Hs & Hsub) [A1 A2 A3 A4]. split; rewrite ?Hl, ?Hm, ?Hs; try done.
  intros h params Hp. destruct (Hsub h params Hp) as [?|?]; [by apply A3|done].
Qed.

(** A list of operations is turned into entries when every one is usable, and
    else refused with the error of the first that is not. *)
Definition op_error (op : BatchOp) : option exn :=
  if in_compat_mode op then Some compat_error
  else if FileHandle.closed (file_handle op) then Some (CUfileException "File handle is closed")
  else None.

Lemma op_error_usable op : op_error op = None <-> usable op.
Proof. unfold op_error, usable. destruct (in_compat_mode op), (FileHandle.closed _); split; naive_solver. Qed.

Lemma batch_params_spec operations :
  batch_params operations =
  match head (omap op_error operations) with
  | Some e => Err e
  | None => Ok (entry_of <$> operations)
  end.
Proof.
  induction operations as [|op operations IH]; [done|]. csimpl. unfold op_error at 1, param_of, handle.
  unfold in_compat_mode. destruct (preferred _) eqn:Hc; [done|]. simpl.
  destruct (FileHandle.closed _); [done|]. simpl. rewrite IH. by destruct (head _).
Qed.

Lemma no_errors_usable operations :
  head (omap op_error operations) = None <-> Forall usable operations.
Proof.
  induction operations as [|op operations IH]; [split; [constructor|done]|]. csimpl.
  rewrite Forall_cons, <- op_error_usable, <- IH. destruct (op_error op); naive_solver.
Qed.

Lemma use_batch_same h s : h ∈ live_batches s -> same_batches s (use_batch h s).
Proof.
  intros Hh. split_and!; simpl; [done| |done|by left].
  rewrite bool_decide_eq_false_2; [by rewrite orb_false_r|]. auto.
Qed.

(** A computation whatever it ends with. *)
Definition leaves {A} (s : batch_state) (m : st batch_state A) : Prop :=
  ends m s (fun _ => same_batches s) (fun _ => same_batches s).

Lemma leaves_snd {A} (m : st batch_state A) s : leaves s m -> same_batches s (m s).2.
Proof. unfold leaves, ends. by destruct (m s) as [[e|a] s']. Qed.

Lemma submit_batch_leaves b ops s : b_handle b ∈ live_batches s -> leaves s (submit_batch b ops).
Proof.
  intros Hh. pose proof (use_batch_same _ _ Hh) as Hu. unfold leaves, submit_batch, of_result.
  apply ends_bind. destruct (convert_size2ssize _) as [n|x|]; unfold ends at 1; simpl; try apply same_batches_refl.
  apply ends_bind. unfold require. destruct (_ <=? _); [|apply same_batches_refl].
  unfold ends at 1. simpl. apply ends_bind. rewrite batch_params_spec.
  destruct (head _) as [e|] eqn:He; unfold ends at 1; simpl; [apply same_batches_refl|].
  apply ends_bind. unfold ends at 1, get_st. apply ends_bind. unfold ends at 1, put_st.
  apply ends_bind, cufile_try_ends; [done|]. destruct Hu as (U1 & U2 & U3 & U4).
  unfold ends at 1, modify. split_and!; try done. simpl. intros h params Hp.
  apply lookup_insert_Some in Hp as [[<- <-]|[_ Hp]]; [right|by left].
  split; [done|]. exists ops. split; [by apply no_errors_usable|done].
Qed.

Lemma cancel_batch_leaves b s : b_handle b ∈ live_batches s -> leaves s (cancel_batch b).
Proof.
  intros Hh. pose proof (use_batch_same _ _ Hh) as Hu. unfold leaves, cancel_batch.
  apply ends_bind. unfold ends at 1, get_st. apply ends_bind. unfold ends at 1, put_st.
  by apply cufile_try_ends.
Qed.

Context `{!BatchDriverLaws}.

(** Asked for no more events than the batch can hold, the driver writes inside
    the vector, and the result is what it wrote. *)
Lemma batch_status_leaves b lo hi s :
  b_handle b ∈ live_batches s -> hi <= max_num_events b ->
  ends (batch_status b lo hi) s
    (fun ret s' => same_batches s s' /\ ret = (BatchIOGetStatus s (b_handle b) lo hi).2)
    (fun _ s' => same_batches s s').
Proof.
  intros Hh Hhi. pose proof (use_batch_same _ _ Hh) as Hu. unfold batch_status.
  apply ends_bind. unfold require. destruct (0 <=? max_num_events b) eqn:Hm; [|apply same_batches_refl]. bool_to_prop.
  unfold ends at 1. simpl. apply ends_bind. unfold ends at 1, get_st.
  destruct (BatchIOGetStatus s (b_handle b) lo hi) as [e events] eqn:He.
  apply status_within in He. apply ends_bind. unfold ends at 1, put_st.
  apply ends_bind, cufile_try_ends; [done|]. apply ends_bind. unfold ends at 1, modify, ends. simpl.
  rewrite length_replicate. split.
  - destruct Hu as (A1 & A2 & A3 & A4). split_and!; [done|done| |by left]. simpl.
    rewrite bool_decide_eq_false_2 by lia. simpl in A3. by rewrite orb_false_r.
  - rewrite take_ge by lia. unfold resize. rewrite take_app_length. rewrite length_app.
    replace (length events - _)%nat with 0%nat by lia. apply app_nil_r.
Qed.

Lemma new_batch_ok m s i n :
  batches_ok m s -> m !! i = None ->
  ends (new_batch n) s (fun b s' => batches_ok (<[i := b]> m) s') (fun _ s' => s' = s).
Proof.
  intros Hok Hi. unfold new_batch. apply ends_bind. unfold ends at 1, get_st.
  destruct (BatchIOSetUp s n) as [e h] eqn:Hs.
  assert (Hnew : err e = CU_FILE_SUCCESS -> h ∉ live_batches s) by by eapply setup_fresh.
  unfold cufile_try. destruct (negb (err e =? CU_FILE_SUCCESS)) eqn:He; bool_to_prop.
  - apply ends_bind, ends_bind. unfold cuda_driver_try, require.
    destruct (err e =? _); [destruct (cu_err e =? _)|]; done.
  - specialize (Hnew He). apply ends_bind. unfold ends at 1. simpl. apply ends_bind. unfold ends, put_st. simpl.
    destruct Hok as [A1 A2 A3 A4]. split; simpl; [| | |done].
    + intros x. rewrite elem_of_union, elem_of_singleton, A1. split.
      * intros [->|(j & b & Hj & Hb & Hx)]; [exists i, (mkBatchHandle true n h); by rewrite lookup_insert_eq|].
        exists j, b. rewrite lookup_insert_ne; [done|congruence].
      * intros (j & b & [[<- <-]|[Hne Hj]]%lookup_insert_Some & Hb & Hx); [by left|right; by exists j, b].
    + intros j k b c [[<- <-]|[Hne Hj]]%lookup_insert_Some [[<- <-]|[Hne' Hk]]%lookup_insert_Some Hb Hc Heq;
        [done| | |by eapply A2]; exfalso; apply Hnew, A1; simpl in Heq; [by exists k, c|by exists j, b].
    + intros x params Hx. destruct (A3 x params Hx). set_solver.
Qed.

(** Closing the handle under a name; what stays there is closed or gone. *)
Lemma close_batch_ok m s i b m' :
  batches_ok m s -> m !! i = Some b ->
  (forall j, j <> i -> m' !! j = m !! j) -> (forall c, m' !! i = Some c -> b_initialized c = false) ->
  batches_ok m' (close_batch b s).2.
Proof.
  intros Hok Hi Hm' Hc'. pose proof Hok as [A1 A2 A3 A4]. unfold close_batch, closed.
  assert (Hopen : forall j c, m' !! j = Some c -> b_initialized c = true -> j <> i /\ m !! j = Some c).
  { intros j c Hj Hc. assert (j <> i) as Hne by (intros ->; specialize (Hc' c Hj); congruence).
    split; [done|]. by rewrite <- Hm'. }
  destruct (b_initialized b) eqn:Hb; simpl.
  - pose proof (use_batch_same _ _ (use_live b m s i Hok Hi Hb)) as (Hl & Hmis & Hs & _).
    split; simpl in *; [| | |].
    + intros h. rewrite elem_of_difference, not_elem_of_singleton, A1. split.
      * intros [(j & c & Hj & Hc & Hh) Hne]. exists j, c. split; [|done]. rewrite Hm'; [done|].
        intros ->. assert (c = b) as -> by congruence. congruence.
      * intros (j & c & Hj & Hc & Hh). destruct (Hopen j c Hj Hc) as [Hne Hj']. split; [by exists j, c|].
        intros ->. apply Hne. by apply (A2 j i c b).
    + intros j k c d Hj Hk Hc Hd. destruct (Hopen j c Hj Hc), (Hopen k d Hk Hd). by apply A2.
    + intros h params [Hne Hp]%lookup_delete_Some. destruct (A3 h params Hp). set_solver.
    + rewrite Hmis. done.
  - split; [|intros j k c d Hj Hk Hc Hd; destruct (Hopen j c Hj Hc), (Hopen k d Hk Hd); by apply A2|done|done].
    intros h. rewrite A1. split; intros (j & c & Hj & Hc & Hh); exists j, c.
    + split; [|done]. rewrite Hm'; [done|]. congruence.
    + by destruct (Hopen j c Hj Hc).
Qed.

Lemma move_batch_ok m s i j b :
  batches_ok m s -> m !! i = Some b -> m !! j = None ->
  batches_ok (<[j := b]> (<[i := no_batch]> m)) s.
Proof.
  intros [A1 A2 A3 A4] Hi Hj. assert (Hne : i <> j) by congruence.
  assert (Hopen : forall k c, <[j := b]> (<[i := no_batch]> m) !! k = Some c -> b_initialized c = true ->
    exists k', m !! k' = Some c /\ (k = k' /\ k <> i /\ k <> j \/ k = j /\ k' = i)).
  { intros k c [[<- <-]|[Hkj [[<- <-]|[Hki Hk]]%lookup_insert_Some]]%lookup_insert_Some Hc.
    - exists i. split; [done|by right].
    - done.
    - exists k. split; [done|left; split_and!; congruence]. }
  split; [| |done|done].
  - intros h. rewrite A1. split.
    + intros (k & c & Hk & Hc & Hh). destruct (decide (k = i)) as [->|Hki].
      * exists j, c. rewrite lookup_insert_eq. split; [congruence|done].
      * exists k, c. rewrite !lookup_insert_ne by congruence. done.
    + intros (k & c & Hk & Hc & Hh). destruct (Hopen k c Hk Hc) as (k' & Hk' & _). by exists k', c.
  - intros k l c d Hk Hl Hc Hd Heq.
    destruct (Hopen k c Hk Hc) as (k' & Hk' & Hkk), (Hopen l d Hl Hd) as (l' & Hl' & Hll).
    assert (k' = l') by by eapply A2. subst l'. naive_solver.
Qed.

Lemma batch_step_ok o m s :
  batches_ok m s -> proper o m -> batches_ok (batch_step o (m, s)).1 (batch_step o (m, s)).2.
Proof.
  intros Hok Hp.
  destruct o as [i n|i j|i ops|i lo hi|i|i|i]; cbn [batch_step proper] in *.
  - destruct (m !! i) eqn:Hi; [done|]. pose proof (new_batch_ok m s i n Hok Hi) as Hn. unfold ends in Hn.
    destruct (new_batch n s) as [[e|b] s']; [by subst|done].
  - destruct (m !! i) eqn:Hi; [|done]. destruct (m !! j) eqn:Hj; [done|]. by apply move_batch_ok.
  - destruct (m !! i) as [b|] eqn:Hi; [|done]. eapply same_batches_ok; [|exact Hok].
    apply leaves_snd, submit_batch_leaves. by eapply use_live; eauto.
  - destruct (m !! i) as [b|] eqn:Hi; [|done]. destruct (Hp b eq_refl) as [Hb Hhi].
    eapply same_batches_ok; [|exact Hok]. apply leaves_snd. unfold leaves.
    eapply ends_mono; [apply batch_status_leaves; [by eapply use_live|done]|by intros ? ? []|done].
  - destruct (m !! i) as [b|] eqn:Hi; [|done]. eapply same_batches_ok; [|exact Hok].
    apply leaves_snd, cancel_batch_leaves. by eapply use_live; eauto.
  - destruct (m !! i) as [b|] eqn:Hi; [|done].
    destruct (close_batch b s) as [b' s'] eqn:Hc. simpl. change s' with (b', s').2. rewrite <- Hc.
    apply (close_batch_ok m s i b); [done|done|intros j Hj; by rewrite lookup_insert_ne|].
    intros c Hci. rewrite lookup_insert_eq in Hci. injection Hci as <-. revert Hc. unfold close_batch, closed.
    destruct (b_initialized b) eqn:Hb; simpl; by intros [= <- <-].
  - destruct (m !! i) as [b|] eqn:Hi; [|done]. simpl. unfold destroy_batch.
    apply (close_batch_ok m s i b); [done|done|intros j Hj; by rewrite lookup_delete_ne|].
    intros c Hc. by rewrite lookup_delete_eq in Hc.
Qed.

Lemma no_batches_ok : batches_ok ∅ no_batches.
Proof.
  split; simpl; [|intros ?? b c Hb; by rewrite lookup_empty in Hb|intros h params Hp; by rewrite lookup_empty in Hp|done].
  intros h. split; [set_solver|]. intros (i & b & Hb & _). by rewrite lookup_empty in Hb.
Qed.

Lemma run_batches_ok ops m s :
  batches_ok m s -> proper_run ops (m, s) ->
  batches_ok (run_batches ops (m, s)).1 (run_batches ops (m, s)).2.
Proof.
  revert m s. unfold run_batches. induction ops as [|o ops IH]; intros m s Hok Hp; [done|].
  cbn [foldl proper_run fst] in *. destruct Hp as [Ho Hp]. pose proof (batch_step_ok o m s Hok Ho) as Hs.
  destruct (batch_step o (m, s)) as [m1 s1]. by apply IH.
Qed.

(** C15. As long as the program keeps to the documentation (it submits to, asks
    and cancels open handles, for at most [max_num_events] events), no batch is
    used or destroyed that cuFile does not have, no event is written past the
    end of a vector, and the batches that are alive are exactly those of the
    open handles, one each: when all handles are gone, so are the batches.  What
    was submitted to a live batch are operations on files that were open and not
    in compatibility mode, each with the handle of its own file. *)
Theorem batches_are_owned ops :
  proper_run ops (∅, no_batches) ->
  let '(m, s) := run_batches ops (∅, no_batches) in
  batch_misused s = false /\ stray s = false /\
  (forall h, h ∈ live_batches s <-> exists i b, m !! i = Some b /\ b_initialized b = true /\ b_handle b = h) /\
  (forall h params, submitted s !! h = Some params ->
     h ∈ live_batches s /\ entries_of_open_files params) /\
  (m = ∅ -> live_batches s = ∅).
Proof.
  intros Hp. pose proof (run_batches_ok ops ∅ no_batches no_batches_ok Hp) as Hok.
  destruct (run_batches ops (∅, no_batches)) as [m s]. simpl in Hok.
  destruct Hok as [A1 A2 A3 [A4 A5]]. do 4 (split; [done|]). intros ->.
  apply set_eq. intros h. rewrite A1. split; [|set_solver]. intros (i & b & Hb & _).
  by rewrite lookup_empty in Hb.
Qed.
End lives.


(** ** Submitting *)

(** cuFile is given every operation, in order and with the handle of its own
    file, or it is not called at all: when there are too many, or a file is
    closed or in compatibility mode. *)
Lemma submit_batch_spec `{ErrorTexts} `{BatchDriver} b operations s :
  let n := Z.of_nat (length operations) in
  match submit_batch b operations s with
  | (inr _, s') =>
      n <= max_num_events b /\ Forall usable operations /\
      submitted s' = <[b_handle b := entry_of <$> operations]> (submitted s)
  | (inl _, s') =>
      submitted s' = submitted s /\
      (batch_calls s' = batch_calls s <->
       SSIZE_MAX <= n \/ max_num_events b < n \/ ~ Forall usable operations)
  end.
Proof.
  intros n. subst n. unfold submit_batch, of_result. rewrite batch_params_spec.
  unfold convert_size2ssize, expect. destruct (Z.of_nat (length operations) <? SSIZE_MAX) eqn:Hn; bool_to_prop.
  2:{ simpl. split; [done|]. split; [by left|done]. }
  cbn [mbind result_bind]. unfold mbind, st_bind, mret, result_ret, st_ret. unfold require.
  destruct (_ <=? max_num_events b) eqn:Hm; bool_to_prop; [|simpl; split; [done|]; split; [lia|done]].
  pose proof (no_errors_usable operations) as Hall. destruct (head _) as [e|]; simpl.
  - split; [done|]. split; [intros _|done]. right. right. intros Hu. by apply Hall in Hu.
  - assert (Hu : Forall usable operations) by by apply Hall.
    unfold get_st, put_st.
    pose proof (cufile_try_ends (BatchIOSubmit s (b_handle b) (entry_of <$> operations)) (use_batch (b_handle b) s)
      (fun _ s' => s' = use_batch (b_handle b) s) (fun _ s' => s' = use_batch (b_handle b) s)) as He.
    specialize (He ltac:(done) ltac:(done)). unfold ends in He.
    destruct (cufile_try _ _) as [[e|[]] s']; subst s'; simpl; [|done].
    split; [done|]. split; [intros Heq; exfalso; lia|]. intros [Hx|[Hx|Hx]]; [lia|lia|done].
Qed.

(** ** A batch driver *)

(** Batches are numbered, no call fails, and as many operations have finished as
    were asked about. *)
Definition eager_driver : BatchDriver := {|
  BatchIOSetUp s n := (mkCUfileError 0 0, next_id (elements (live_batches s)));
  BatchIOSubmit _ _ _ := mkCUfileError 0 0;
  BatchIOGetStatus _ _ _ max_nr := (mkCUfileError 0 0, replicate (Z.to_nat max_nr) (1, 4096));
  BatchIOCancel _ _ := mkCUfileError 0 0 |}.

Lemma eager_driver_laws : @BatchDriverLaws eager_driver.
Proof.
  split; simpl.
  - intros s n e h [= <- <-] _ Hin. apply elem_of_elements in Hin. by apply next_id_fresh in Hin.
  - intros s h lo hi e events [= <- <-]. rewrite length_replicate. lia.
Qed.

(** A file that cuFile knows as 7, open or closed since. *)
Definition demo_op (open_ : bool) : BatchOp :=
  mkBatchOp (mkFileHandle 4 3 open_ 0 (mkCUFile 7 open_) (mkManager Defaults.OFF false false) "f" None)
    65536 4096 0 512 0.

Definition batch_life : list batch_op :=
  [New 0 4; New 1 2; Submit 0 [demo_op true; demo_op true]; Submit 1 [demo_op true; demo_op false]; Status 0 0 4; Move 0 2; Close 1; Cancel 2; Destroy 0; Destroy 1; Destroy 2].

Lemma batches_are_owned_witness :
  @proper_run no_texts eager_driver batch_life (∅, no_batches) /\
  batch_misused (@run_batches no_texts eager_driver batch_life (∅, no_batches)).2 = false /\
  live_batches (@run_batches no_texts eager_driver batch_life (∅, no_batches)).2 = ∅.
Proof.
  assert (Hp : @proper_run no_texts eager_driver batch_life (∅, no_batches)).
  { vm_compute. repeat match goal with |- _ /\ _ => split end; try exact I;
      intros b [= <-]; try reflexivity; split; [reflexivity|discriminate]. }
  split; [exact Hp|].
  pose proof (@batches_are_owned no_texts eager_driver eager_driver_laws batch_life Hp) as Ht.
  destruct (@run_batches no_texts eager_driver batch_life (∅, no_batches)) as [m s] eqn:Hr.
  assert (Hm : m = ∅).
  { change m with (m, s).1. rewrite <- Hr. vm_compute. reflexivity. }
  destruct Ht as (Hmis & _ & _ & _ & Hlive). split; [exact Hmis|]. exact (Hlive Hm).
Defined.

(** [status] does not compare [max_nr] with the size of its vector: asked for
    five events of a batch of two, the driver writes past the end. *)
Example status_overruns_its_vector :
  stray (@run_batches no_texts eager_driver [New 0 2; Status 0 0 5] (∅, no_batches)).2 = true.
Proof. vm_compute. reflexivity. Qed.

(** One closed file and nothing is submitted: the setup is the only call. *)
Example submit_closed_file :
  let s := (@run_batches no_texts eager_driver [New 0 4; Submit 0 [demo_op true; demo_op false]] (∅, no_batches)).2 in
  submitted s = ∅ /\ batch_calls s = 1%nat.
Proof. split; vm_compute; reflexivity. Qed.

Example submit_open_files :
  submitted (@run_batches no_texts eager_driver [New 0 4; Submit 0 [demo_op true]] (∅, no_batches)).2 !! 1
  = Some [mkParams 65536 4096 0 512 7 0].
Proof. vm_compute. reflexivity. Qed.

(** [submit] does not check that the batch handle is open. *)
Example submit_after_close :
  batch_misused (@run_batches no_texts eager_driver [New 0 2; Close 0; Submit 0 []] (∅, no_batches)).2 = true.
Proof. vm_compute. reflexivity. Qed.

(** ** Registered buffers *)

(** The CUDA side and cuFile's table of registered buffers: their sizes by base
    address. *)
Record buffer_state := mkBuffers { cuda : CudaProcess; table : gmap Z Z }.

Class BufferCalls := {
  BufRegister : gmap Z Z -> Z -> Z -> Z -> CUfileError_t;
  BufDeregister : gmap Z Z -> Z -> CUfileError_t }.

Section buffers.
(** Whether compatibility mode is preferred by default. *)
Context `{ErrorTexts} `{CudaDriver} `{BufferCalls} (compat_preferred : bool).

Definition buffer_register (devPtr_base size flags : Z) (errors_to_ignore : list Z) : st buffer_state unit :=
  if compat_preferred then mret tt
  else
    s ← get_st;
    let status := BufRegister (table s) devPtr_base size flags in
    if negb (err status =? CU_FILE_SUCCESS)
    then if bool_decide (err status ∈ errors_to_ignore) then mret tt else cufile_try status
    else put_st (mkBuffers (cuda s) (<[devPtr_base := size]> (table s))).

Definition buffer_deregister (devPtr_base : Z) : st buffer_state unit :=
  if compat_preferred then mret tt
  else
    s ← get_st;
    _ ← cufile_try (BufDeregister (table s) devPtr_base);
    put_st (mkBuffers (cuda s) (delete devPtr_base (table s))).

Definition on_cuda {A} (m : st CudaProcess A) : st buffer_state A := fun s =>
  let '(r, p) := m (cuda s) in (r, mkBuffers p (table s)).

Definition memory_register (devPtr flags : Z) (errors_to_ignore : list Z) : st buffer_state unit :=
  info ← on_cuda (get_alloc_info devPtr None);
  let '(base, nbytes, _) := info in
  buffer_register base nbytes flags errors_to_ignore.

Definition memory_deregister (devPtr : Z) : st buffer_state unit :=
  info ← on_cuda (get_alloc_info devPtr None);
  let '(base, _, _) := info in
  buffer_deregister base.

(** Registering the memory of one pointer and deregistering that of another
    into the same allocation leaves the table as it was, whatever error was
    ignored. *)
Lemma memory_register_deregister p q base flags ignore s s1 s2 :
  (forall c, ends (get_alloc_info p None) c (fun r _ => r.1.1 = base) (fun _ _ => True)) ->
  (forall c, ends (get_alloc_info q None) c (fun r _ => r.1.1 = base) (fun _ _ => True)) ->
  table s !! base = None ->
  memory_register p flags ignore s = (inr tt, s1) -> memory_deregister q s1 = (inr tt, s2) ->
  table s2 = table s.
Proof.
  intros Hp Hq Hnone. unfold memory_register, memory_deregister, on_cuda, mbind, st_bind.
  specialize (Hp (cuda s)). unfold ends in Hp.
  destruct (get_alloc_info p None (cuda s)) as [[e|[[b1 n1] o1]] c1]; [done|]. simpl in Hp. subst b1.
  intros Hreg. specialize (Hq (cuda s1)). unfold ends in Hq.
  destruct (get_alloc_info q None (cuda s1)) as [[e|[[b2 n2] o2]] c2]; [done|]. simpl in Hq. subst b2.
  assert (Htab : compat_preferred = true /\ table s1 = table s \/ compat_preferred = false /\
    (table s1 = table s \/ table s1 = <[base := n1]> (table s))).
  { revert Hreg. unfold buffer_register, get_st, put_st, mbind, st_bind. destruct compat_preferred.
    - intros [= <-]. by left.
    - destruct (negb _) eqn:He; [|intros [= <-]; right; split; [done|by right]].
      case_bool_decide; [intros [= <-]; right; split; [done|by left]|]. simpl.
      pose proof (cufile_try_ends (BufRegister (table s) base n1 flags) (mkBuffers c1 (table s))
        (fun _ s' => table s' = table s) (fun _ _ => True)) as Ht.
      specialize (Ht ltac:(done) ltac:(done)). unfold ends in Ht. intros Hx. rewrite Hx in Ht.
      right. split; [done|by left]. }
  unfold buffer_deregister, get_st, put_st, mbind, st_bind.
  destruct Htab as [[-> Htab]|[-> Htab]]; [intros [= <-]; done|]. simpl.
  pose proof (cufile_try_ends (BufDeregister (table s1) base) (mkBuffers c2 (table s1))
    (fun _ s' => s' = mkBuffers c2 (table s1)) (fun _ _ => True)) as Ht.
  specialize (Ht ltac:(done) ltac:(done)). unfold ends in Ht.
  destruct (cufile_try _ _) as [[x|[]] s3]; [done|]. subst s3. intros [= <-]. simpl.
  destruct Htab as [->| ->]; [by apply delete_id|by apply delete_insert_id].
Qed.
End buffers.
