(* ===== verification/Stream.v ===== *)
(** * Stream-ordered I/O

    [FileHandle::read_async] and [write_async] of [src/file_handle.cpp] and
    [StreamFuture] of [src/stream.cpp]: the arguments of an asynchronous
    transfer live on the heap, the device reads them and writes the byte count
    back when the stream gets there, and the future frees them.

    The heap and the streams are modelled: a transfer that the device runs
    after its arguments were freed marks the state as corrupted.  The user's
    futures are variables; the device makes progress between the user's
    operations. *)

From stdpp Require Import base list strings gmap sets.
From Stdlib Require Import ZArith Lia.
From S2P Require Import Prelude Utils Defaults FileHandle Observation ParallelIo BounceBuffer PosixIo Cuda FileIo.

#[local] Open Scope Z_scope.

Record ArgByVal := mkArgs {
  arg_size : Z;
  arg_file_offset : Z;
  arg_devPtr_offset : Z;
  bytes_done : Z }.

Record StreamFuture := mkFuture {
  sf_devPtr_base : Z;
  sf_stream : Z;
  sf_val : option Z;            (* [_val]; [None] for nullptr *)
  stream_synchronized : bool }.

Definition no_future : StreamFuture := mkFuture 0 0 None false.

(** A transfer in a stream: [cuFileReadAsync] or [cuFileWriteAsync] with
    pointers into the arguments at [q_args]. *)
Record queued := mkQueued {
  q_stream : Z;
  q_op : IOOperationType;
  q_devPtr_base : Z;
  q_args : Z }.

Record async_state := mkAsync {
  heap : gmap Z ArgByVal;
  next_addr : Z;
  pending : list queued;        (* oldest first *)
  corrupted : bool;             (* the device wrote into freed memory *)
  a_handle : FileHandle;
  a_io : io_state;
  a_world : world }.

Definition set_heap (m : gmap Z ArgByVal) (s : async_state) : async_state :=
  mkAsync m (next_addr s) (pending s) (corrupted s) (a_handle s) (a_io s) (a_world s).
Definition set_pending (l : list queued) (s : async_state) : async_state :=
  mkAsync (heap s) (next_addr s) l (corrupted s) (a_handle s) (a_io s) (a_world s).

(** The environment: whether an allocation succeeds, the codes of
    [cuStreamSynchronize] and of queueing an asynchronous transfer. *)
Class AsyncPlatform := {
  malloc_ok : async_state -> bool;
  StreamSynchronize : Z -> async_state -> Z;
  QueueAsync : queued -> async_state -> CUfileError_t }.

Section stream.
Context `{Kernel} `{CudaCopy} `{CuFile} `{ErrorTexts} `{AsyncPlatform}.
Context (host_pool : BouncePool) (cuda_pool : bounce_pool_type -> BouncePool).
Context (page : Z) (d : io_defaults) (g : gds_setup).
Variables (script : Z -> list call) (thread now : Z).

(** ** The device *)

(** The device reaches a queued transfer. *)
Definition execute (q : queued) (s : async_state) : async_state :=
  match heap s !! q_args q with
  | None => mkAsync (heap s) (next_addr s) (pending s) true (a_handle s) (a_io s) (a_world s)
  | Some a =>
      let transfer := match q_op q with PosixIo.READ => cufile_read | PosixIo.WRITE => cufile_write end in
      let '(ret, io) := transfer (cu_handle (cufile_handle (a_handle s))) (q_devPtr_base q)
                          (arg_size a) (arg_file_offset a) (arg_devPtr_offset a) (a_io s) in
      mkAsync (<[q_args q := mkArgs (arg_size a) (arg_file_offset a) (arg_devPtr_offset a) ret]> (heap s))
        (next_addr s) (pending s) (corrupted s) (a_handle s) io (a_world s)
  end.

Definition in_stream (stream : Z) (q : queued) : bool := q_stream q =? stream.

(** A stream runs its oldest transfer. *)
Definition advance (stream : Z) (s : async_state) : async_state :=
  match list_find (fun q => in_stream stream q) (pending s) with
  | Some (i, q) => execute q (set_pending (delete i (pending s)) s)
  | None => s
  end.

(** [cuStreamSynchronize]: when it succeeds, the stream has run everything. *)
Definition synchronize (stream : Z) : st async_state unit := fun s =>
  let code := StreamSynchronize stream s in
  if code =? CUDA_SUCCESS then
    let mine := filter (fun q => in_stream stream q) (pending s) in
    (inr tt, foldl (fun s q => execute q s)
               (set_pending (filter (fun q => ~ in_stream stream q) (pending s)) s) mine)
  else (inl (cuda_error code), s).

(** ** StreamFuture *)

Definition new_future (devPtr_base size file_offset devPtr_offset stream : Z)
    : st async_state StreamFuture :=
  s ← get_st;
  _ ← require (malloc_ok s) (RuntimeError "Bad memory allocation");
  let a := next_addr s in
  _ ← put_st (mkAsync (<[a := mkArgs size file_offset devPtr_offset 0]> (heap s)) (a + 1)
                (pending s) (corrupted s) (a_handle s) (a_io s) (a_world s));
  mret (mkFuture devPtr_base stream (Some a) false).

(** The move constructor and the move assignment: the new object or the
    target, and what is left of the source. *)
Definition move_future (other : StreamFuture) : StreamFuture * StreamFuture :=
  (other, mkFuture 0 0 None (stream_synchronized other)).

Definition move_assign_future (target other : StreamFuture) : StreamFuture * StreamFuture :=
  (other, mkFuture 0 0 None (stream_synchronized other)).

(** The base, the address of the arguments and the stream. *)
Definition get_args (f : StreamFuture) : st async_state (Z * Z * Z) :=
  match sf_val f with
  | None => throw (CUfileException "cannot get arguments from an uninitialized StreamFuture")
  | Some a => mret (sf_devPtr_base f, a, sf_stream f)
  end.

Definition read_cell (a : Z) : st async_state ArgByVal :=
  s ← get_st; mret (default (mkArgs 0 0 0 0) (heap s !! a)).

(** Returns the bytes or the exception, and the future, which remembers the
    synchronisation either way. *)
Definition check_bytes_done (f : StreamFuture) : st async_state ((exn + Z) * StreamFuture) :=
  match sf_val f with
  | None =>
      mret (inl (CUfileException "cannot check bytes done on an uninitialized StreamFuture"), f)
  | Some a =>
      let f' := mkFuture (sf_devPtr_base f) (sf_stream f) (sf_val f) true in
      r ← attempt (_ ← (if negb (stream_synchronized f) then synchronize (sf_stream f) else mret tt);
                   args ← read_cell a;
                   _ ← cufile_check_bytes_done (bytes_done args);
                   mret (bytes_done args));
      mret (r, f')
  end.

(** [~StreamFuture] *)
Definition destroy_future (f : StreamFuture) : st async_state unit :=
  match sf_val f with
  | None => mret tt
  | Some a =>
      _ ← check_bytes_done f;
      modify (fun s => set_heap (delete a (heap s)) s)
  end.

(** ** read_async and write_async *)

(** [*bytes_done_p = read(devPtr_base, *size_p, *file_offset_p, *devPtr_offset_p)]
    or [write]. *)
Definition blocking_async (op : IOOperationType) (devPtr_base args : Z) : st async_state unit :=
  a ← read_cell args;
  s ← get_st;
  '(n, h, io, w) ← of_result (blocking_io host_pool cuda_pool page d script thread now op (a_handle s)
                    devPtr_base (arg_size a) (arg_file_offset a) (arg_devPtr_offset a) true
                    (a_io s) (a_world s));
  put_st (mkAsync (<[args := mkArgs (arg_size a) (arg_file_offset a) (arg_devPtr_offset a) n]> (heap s))
            (next_addr s) (pending s) (corrupted s) h io w).

(** With pointers to the arguments, which here are fields of one cell. *)
Definition transfer_async (op : IOOperationType) (devPtr_base args stream : Z)
    : st async_state unit :=
  s ← get_st;
  let m := compat_mode_manager (a_handle s) in
  _ ← of_result (validate_compat_mode_for_async g m);
  if preferred_for_async m then
    _ ← synchronize stream;
    blocking_async op devPtr_base args
  else
    let q := mkQueued stream op devPtr_base args in
    _ ← cufile_try (QueueAsync q s);
    modify (fun s => set_pending (pending s ++ [q]) s).

(** By value: the arguments live in the future that is returned, which an
    exception destroys. *)
Definition future_async (op : IOOperationType)
    (devPtr_base size file_offset devPtr_offset stream : Z) : st async_state StreamFuture :=
  f ← new_future devPtr_base size file_offset devPtr_offset stream;
  r ← attempt ('(base, args, stream) ← get_args f; transfer_async op base args stream);
  match r with
  | inr _ => mret f
  | inl e => _ ← destroy_future f; throw e
  end.

(** ** A program *)

(** What a user does with futures held in variables, and the progress of the
    device. *)
Inductive stream_op :=
  | OAsync (x : nat) (op : IOOperationType) (devPtr_base size file_offset devPtr_offset stream : Z)
  | OCheck (x : nat)
  | OMove (x y : nat)           (* [StreamFuture y(std::move(x))] *)
  | OAssign (x y : nat)         (* [y = std::move(x)] *)
  | ODestroy (x : nat)
  | ODevice (stream : Z).

Abbreviation vars := (gmap nat StreamFuture) (only parsing).

(** A variable is declared once and not used after its end of life; a
    statement that breaks this is not a program and does nothing. *)
Definition stream_step (o : stream_op) (vs : vars * async_state) : vars * async_state :=
  let '(v, s) := vs in
  match o with
  | OAsync x op base size off dev stream =>
      match v !! x with
      | Some _ => (v, s)
      | None =>
          match future_async op base size off dev stream s with
          | (inr f, s) => (<[x := f]> v, s)
          | (inl _, s) => (v, s)
          end
      end
  | OCheck x =>
      match v !! x with
      | None => (v, s)
      | Some f =>
          match check_bytes_done f s with
          | (inr (_, f), s) => (<[x := f]> v, s)
          | (inl _, s) => (v, s)
          end
      end
  | OMove x y =>
      match v !! x, v !! y with
      | Some f, None => let '(f', rest) := move_future f in (<[y := f']> (<[x := rest]> v), s)
      | _, _ => (v, s)
      end
  | OAssign x y =>
      match v !! x, v !! y with
      | Some f, Some t => let '(f', rest) := move_assign_future t f in (<[y := f']> (<[x := rest]> v), s)
      | _, _ => (v, s)
      end
  | ODestroy x =>
      match v !! x with
      | None => (v, s)
      | Some f => (delete x v, (destroy_future f s).2)
      end
  | ODevice stream => (v, advance stream s)
  end.

Definition run_stream (ops : list stream_op) (vs : vars * async_state) : vars * async_state :=
  foldl (fun vs o => stream_step o vs) vs ops.
End stream.

(** ** Ownership of the arguments *)

(** The live blocks: each with its future's stream and whether the future has
    seen the stream synchronised. *)
Abbreviation blocks := (gmap Z (Z * bool)) (only parsing).

Record owned (L : blocks) (s : async_state) : Prop := mkOwned {
  ow_clean : corrupted s = false;
  ow_dom : dom (heap s) = dom L;
  ow_fresh a : a ∈ dom L -> a < next_addr s;
  ow_pending : Forall (fun q => L !! q_args q = Some (q_stream q, false)) (pending s) }.

(** The futures of a program are the owners of [L], one each. *)
Record owners (v : gmap nat StreamFuture) (L : blocks) : Prop := mkOwners {
  os_owns x f a : v !! x = Some f -> sf_val f = Some a ->
    L !! a = Some (sf_stream f, stream_synchronized f);
  os_once x y f f' a : v !! x = Some f -> v !! y = Some f' ->
    sf_val f = Some a -> sf_val f' = Some a -> x = y;
  os_all a : a ∈ dom L -> exists x f, v !! x = Some f /\ sf_val f = Some a }.

Section ownership.
Context `{Kernel} `{CudaCopy} `{CuFile} `{ErrorTexts} `{AsyncPlatform}.
Context (host_pool : BouncePool) (cuda_pool : bounce_pool_type -> BouncePool).
Context (page : Z) (d : io_defaults) (g : gds_setup).
Context (script : Z -> list call) (thread now : Z).
Hypothesis sync_ok : forall stream s, StreamSynchronize stream s = CUDA_SUCCESS.

Lemma live_block L s a : owned L s -> a ∈ dom L -> is_Some (heap s !! a).
Proof. intros Ho Ha. rewrite <- (ow_dom _ _ Ho) in Ha. by apply elem_of_dom in Ha. Qed.

Lemma execute_owned L s q : owned L s -> q_args q ∈ dom L -> owned L (execute q s).
Proof.
  intros Ho Hq. unfold execute. destruct (live_block L s _ Ho Hq) as [a Ha]. rewrite Ha.
  destruct Ho as [Hc Hd Hf Hp]. case_match.
  split; simpl; try done. rewrite dom_insert_L, <- Hd.
  apply elem_of_dom_2 in Ha. set_solver.
Qed.

Lemma execute_pending q s : pending (execute q s) = pending s.
Proof. unfold execute. by repeat case_match. Qed.

Lemma executes_owned L qs s :
  owned L s -> Forall (fun q => q_args q ∈ dom L) qs ->
  owned L (foldl (fun s q => execute q s) s qs) /\
  pending (foldl (fun s q => execute q s) s qs) = pending s.
Proof.
  intros Ho Hqs. revert s Ho. induction Hqs as [|q qs Hq _ IH]; intros s Ho; [done|]. simpl.
  rewrite <- (execute_pending q s). by apply IH, execute_owned.
Qed.

Lemma set_pending_owned L l s :
  owned L s -> Forall (fun q => L !! q_args q = Some (q_stream q, false)) l -> owned L (set_pending l s).
Proof. intros [Hc Hd Hf Hp] Hl. by split. Qed.

Lemma pending_live L (qs : list queued) :
  Forall (fun q => L !! q_args q = Some (q_stream q, false)) qs ->
  Forall (fun q => q_args q ∈ dom (L : blocks)) qs.
Proof. intros Hq. eapply Forall_impl; [exact Hq|]. intros q Hl. cbv beta in Hl. by apply elem_of_dom_2 in Hl. Qed.

(** Afterwards nothing is queued in the stream. *)
Lemma synchronize_owned L s stream :
  owned L s ->
  ends (synchronize stream) s
    (fun _ s' => owned L s' /\ Forall (fun q => q_stream q <> stream) (pending s'))
    (fun _ _ => False).
Proof.
  intros Ho. unfold ends, synchronize. rewrite sync_ok. simpl.
  pose proof (ow_pending _ _ Ho) as Hp.
  assert (Hrest : Forall (fun q => L !! q_args q = Some (q_stream q, false))
                    (filter (fun q => ~ in_stream stream q) (pending s))).
  { apply Forall_forall. intros q [_ Hq]%list_elem_of_filter. by eapply Forall_forall in Hp. }
  destruct (executes_owned L (filter (fun q => in_stream stream q) (pending s)) _
    (set_pending_owned L _ s Ho Hrest)) as [Ho' Hpend].
  - apply pending_live, Forall_forall. intros q [_ Hq]%list_elem_of_filter. by eapply Forall_forall in Hp.
  - split; [exact Ho'|]. rewrite Hpend. apply Forall_forall. intros q [Hq _]%list_elem_of_filter.
    intros He. apply Hq. unfold in_stream. rewrite He, Z.eqb_refl. done.
Qed.

(** What the future remembers is true. *)
Lemma mark_synchronized L s a stream :
  owned L s -> L !! a = Some (stream, false) -> Forall (fun q => q_stream q <> stream) (pending s) ->
  owned (<[a := (stream, true)]> L) s.
Proof.
  intros [Hc Hd Hf Hp] Ha Hs. split; [done|..].
  - rewrite Hd, dom_insert_L. apply elem_of_dom_2 in Ha. set_solver.
  - intros b. rewrite dom_insert_L. intros Hb. apply Hf. apply elem_of_dom_2 in Ha. set_solver.
  - apply Forall_forall. intros q Hq. eapply Forall_forall in Hs; [|done].
    eapply Forall_forall in Hp; [|done]. rewrite lookup_insert_ne; [done|]. intros ->. congruence.
Qed.

Lemma check_owned L s f a :
  owned L s -> sf_val f = Some a -> L !! a = Some (sf_stream f, stream_synchronized f) ->
  ends (check_bytes_done f) s
    (fun r s' => r.2 = mkFuture (sf_devPtr_base f) (sf_stream f) (Some a) true /\
       owned (<[a := (sf_stream f, true)]> L) s')
    (fun _ _ => False).
Proof.
  intros Ho Ha HL. unfold check_bytes_done. rewrite Ha. apply ends_bind, ends_attempt, ends_bind.
  assert (Hrest : forall s', owned (<[a := (sf_stream f, true)]> L) s' ->
    ends (args ← read_cell a; _ ← cufile_check_bytes_done (bytes_done args); mret (bytes_done args)) s'
      (fun r s'' => ends (mret (inr r, mkFuture (sf_devPtr_base f) (sf_stream f) (Some a) true)) s''
         (fun (r : (exn + Z) * StreamFuture) s' =>
            r.2 = mkFuture (sf_devPtr_base f) (sf_stream f) (Some a) true /\
            owned (<[a := (sf_stream f, true)]> L) s') (fun _ _ => False))
      (fun e s'' => ends (mret (inl e, mkFuture (sf_devPtr_base f) (sf_stream f) (Some a) true)) s''
         (fun (r : (exn + Z) * StreamFuture) s' =>
            r.2 = mkFuture (sf_devPtr_base f) (sf_stream f) (Some a) true /\
            owned (<[a := (sf_stream f, true)]> L) s') (fun _ _ => False))).
  { intros s' Hs'. unfold ends, cufile_check_bytes_done, require, mbind, st_bind. simpl.
    by destruct (negb _). }
  destruct (stream_synchronized f) eqn:Hsync; simpl.
  - apply Hrest. by rewrite insert_id.
  - eapply ends_mono; [by apply synchronize_owned| |done]. intros u s' [Hs' Hp].
    apply Hrest. by apply mark_synchronized.
Qed.

Lemma destroy_owned L s f a :
  owned L s -> sf_val f = Some a -> L !! a = Some (sf_stream f, stream_synchronized f) ->
  ends (destroy_future f) s (fun _ s' => owned (delete a L) s') (fun _ _ => False).
Proof.
  intros Ho Ha HL. unfold destroy_future. rewrite Ha. apply ends_bind.
  eapply ends_mono; [by eapply check_owned| |done]. intros r s' [_ [Hc Hd Hf Hp]].
  unfold ends, modify. split; simpl; [done|..].
  - rewrite !dom_delete_L, Hd, dom_insert_L. set_solver.
  - intros b. rewrite dom_delete_L. intros Hb. apply Hf. rewrite dom_insert_L. set_solver.
  - eapply Forall_impl; [exact Hp|]. intros q Hq. cbv beta in *.
    destruct (decide (q_args q = a)) as [<-|Hne].
    + rewrite lookup_insert_eq in Hq. congruence.
    + by rewrite lookup_insert_ne in Hq by done; rewrite lookup_delete_ne by done.
Qed.

Lemma transfer_async_owned L s op base a stream :
  owned L s -> L !! a = Some (stream, false) ->
  ends (transfer_async host_pool cuda_pool page d g script thread now op base a stream) s
    (fun _ => owned L) (fun _ => owned L).
Proof.
  intros Ho Ha. unfold transfer_async. apply ends_bind. unfold ends at 1, get_st.
  apply ends_bind. set (m := compat_mode_manager _).
  assert (Hres : forall (r : result unit) s', owned L s' ->
    ends (of_result r) s' (fun _ => owned L) (fun _ => owned L)) by (by intros [| |] s').
  eapply ends_mono; [by apply Hres| |done]. intros [] s1 Ho1. destruct (preferred_for_async m).
  - apply ends_bind. eapply ends_mono; [by apply synchronize_owned| |done].
    intros [] s2 [Ho2 _]. unfold blocking_async, ends, mbind, st_bind, read_cell, get_st. simpl.
    destruct (blocking_io _ _ _ _ _ _ _ _ _ _ _ _ _ _ _ _) as [[[[n h] io] w]|e|]; [|done..].
    destruct Ho2 as [Hc Hd Hf Hp]. split; simpl; try done.
    rewrite dom_insert_L, Hd. apply elem_of_dom_2 in Ha. set_solver.
  - apply ends_bind. set (q := mkQueued _ _ _ _). unfold cufile_try, cuda_driver_try, require, throw, ends.
    destruct (negb _); simpl; [destruct (_ =? CU_FILE_CUDA_DRIVER_ERROR)|]; simpl; try done.
    + unfold mbind, st_bind. by destruct (_ =? CUDA_SUCCESS).
    + apply set_pending_owned; [done|]. apply Forall_app. split; [apply Ho1|]. by constructor.
Qed.

Lemma future_async_owned L s op base size off dev stream :
  owned L s ->
  ends (future_async host_pool cuda_pool page d g script thread now op base size off dev stream) s
    (fun f s' => exists a, L !! a = None /\ f = mkFuture base stream (Some a) false /\
       owned (<[a := (stream, false)]> L) s')
    (fun _ => owned L).
Proof.
  intros Ho. unfold future_async, new_future, require.
  apply ends_bind. unfold ends at 1, get_st, mbind at 1, st_bind at 1. simpl.
  destruct (malloc_ok s); simpl; [|done]. set (a := next_addr s). set (s1 := mkAsync _ _ _ _ _ _ _).
  assert (Hnone : L !! a = None).
  { apply not_elem_of_dom. intros Ha. apply (ow_fresh _ _ Ho) in Ha. unfold a in Ha. lia. }
  assert (Ho1 : owned (<[a := (stream, false)]> L) s1).
  { destruct Ho as [Hc Hd Hf Hp]. split; simpl; [done|..].
    - by rewrite !dom_insert_L, Hd.
    - intros b. rewrite dom_insert_L. intros [->%elem_of_singleton|Hb]%elem_of_union; [lia|].
      specialize (Hf b Hb). unfold a. lia.
    - eapply Forall_impl; [exact Hp|]. intros q Hq. cbv beta in *.
      rewrite lookup_insert_ne; [done|]. intros Heq. congruence. }
  apply ends_bind, ends_attempt.
  eapply ends_mono; [apply (transfer_async_owned _ s1 op base a stream Ho1), lookup_insert_eq|..].
  - intros [] s2 Ho2. by exists a.
  - intros e s2 Ho2. apply ends_bind.
    eapply ends_mono; [apply (destroy_owned _ s2 (mkFuture base stream (Some a) false) a Ho2);
      [done|apply lookup_insert_eq]| |done].
    intros [] s3 Ho3. unfold ends, throw. by rewrite delete_insert_id in Ho3.
Qed.

(** *** The futures in variables *)

Lemma owners_insert v L x f a :
  owners v L -> v !! x = None -> L !! a = None -> sf_val f = Some a ->
  owners (<[x := f]> v) (<[a := (sf_stream f, stream_synchronized f)]> L).
Proof.
  intros [H1' H2' H3'] Hx Ha Hf.
  assert (Hne : forall y f' b, v !! y = Some f' -> sf_val f' = Some b -> b <> a /\ y <> x).
  { intros y f' b Hy Hb. pose proof (H1' y f' b Hy Hb). split; congruence. }
  split.
  - intros y f' b [[-> ->]|[Hn Hy]]%lookup_insert_Some Hb.
    + assert (a = b) as -> by congruence. apply lookup_insert_eq.
    + rewrite lookup_insert_ne; [by apply (H1' y)|]. by apply not_eq_sym, (Hne y f').
  - intros y z f1 f2 b [[<- <-]|[Hn Hy]]%lookup_insert_Some [[<- <-]|[Hm Hz]]%lookup_insert_Some H1b H2b;
      [done| | |by eapply H2'].
    + destruct (Hne z f2 b Hz H2b). congruence.
    + destruct (Hne y f1 b Hy H1b). congruence.
  - intros b. rewrite dom_insert_L. intros [->%elem_of_singleton|Hb]%elem_of_union.
    + exists x, f. by rewrite lookup_insert_eq.
    + destruct (H3' b Hb) as (y & f' & Hy & Hf'). exists y, f'. split; [|done].
      rewrite lookup_insert_ne; [done|]. congruence.
Qed.

Lemma owners_delete v L x f a :
  owners v L -> v !! x = Some f -> sf_val f = Some a -> owners (delete x v) (delete a L).
Proof.
  intros [H1' H2' H3'] Hx Ha. split.
  - intros y f' b [Hn Hy]%lookup_delete_Some Hb. rewrite lookup_delete_ne; [by apply (H1' y)|].
    intros ->. apply Hn. by eapply H2'.
  - intros y z f1 f2 b [Hn Hy]%lookup_delete_Some [Hm Hz]%lookup_delete_Some. by apply H2'.
  - intros b. rewrite dom_delete_L. intros [Hb Hn]%elem_of_difference.
    destruct (H3' b Hb) as (y & f' & Hy & Hf'). exists y, f'. split; [|done].
    rewrite lookup_delete_ne; [done|]. intros ->. set_solver.
Qed.

(** A future without arguments does not count. *)
Lemma owners_null v L x f :
  sf_val f = None -> v !! x = None -> owners (<[x := f]> v) L <-> owners v L.
Proof.
  intros Hf Hx.
  assert (Hl : forall y f' b, sf_val f' = Some b -> <[x := f]> v !! y = Some f' <-> v !! y = Some f').
  { intros y f' b Hb. rewrite lookup_insert_Some. split; [intros [[<- <-]|[? ?]]; congruence|].
    intros Hy. right. split; [|done]. congruence. }
  split; intros [H1' H2' H3']; split.
  1, 4: intros y f' b Hy Hb; apply (H1' y f' b); [by apply (Hl y f' b)|done].
  1, 3: intros y z f1 f2 b Hy Hz H1b H2b; apply (H2' y z f1 f2 b); [by apply (Hl y f1 b)|by apply (Hl z f2 b)|done|done].
  all: intros b Hb; destruct (H3' b Hb) as (y & f' & Hy & Hf'); exists y, f'; (split; [by apply (Hl y f' b)|done]).
Qed.

Lemma owners_delete_null v L x f :
  owners v L -> v !! x = Some f -> sf_val f = None -> owners (delete x v) L.
Proof.
  intros Ho Hx Hf. apply (owners_null (delete x v) L x f Hf); [apply lookup_delete_eq|].
  by rewrite insert_delete_id.
Qed.

Definition assign_free (o : stream_op) : Prop := match o with OAssign _ _ => False | _ => True end.

Lemma stream_step_owned o v s L :
  owners v L -> owned L s -> assign_free o ->
  exists L', let vs := stream_step host_pool cuda_pool page d g script thread now o (v, s) in
    owners vs.1 L' /\ owned L' vs.2.
Proof.
  intros Hos Ho Ho'. destruct o as [x op base size off dev stream|x|x y|x y|x|stream]; simpl in *.
  - destruct (v !! x) as [f|] eqn:Hx; [by exists L|].
    pose proof (future_async_owned L s op base size off dev stream Ho) as Hf. unfold ends in Hf.
    destruct (future_async _ _ _ _ _ _ _ _ _ _ _ _ _ _ s) as [[e|f] s']; [by exists L|].
    destruct Hf as (a & Ha & Hf & Hs'). exists (<[a := (stream, false)]> L). split; [|done].
    subst f. by apply (owners_insert v L x (mkFuture base stream (Some a) false) a).
  - destruct (v !! x) as [f|] eqn:Hx; [|by exists L]. destruct (sf_val f) as [a|] eqn:Ha.
    + pose proof (check_owned L s f a Ho Ha (os_owns _ _ Hos x f a Hx Ha)) as Hc. unfold ends in Hc.
      destruct (check_bytes_done f s) as [[e|[r f']] s']; [done|]. simpl in Hc. destruct Hc as [-> Hs'].
      exists (<[a := (sf_stream f, true)]> L). split; [|done]. simpl.
      rewrite <- insert_delete_eq, <- (insert_delete_eq L).
      apply (owners_insert (delete x v) (delete a L) x (mkFuture (sf_devPtr_base f) (sf_stream f) (Some a) true) a);
        [by eapply owners_delete|apply lookup_delete_eq|apply lookup_delete_eq|done].
    + unfold check_bytes_done. rewrite Ha. simpl. exists L. by rewrite insert_id.
  - destruct (v !! x) as [f|] eqn:Hx; [|by exists L]. destruct (v !! y) as [t|] eqn:Hy; [by exists L|].
    simpl. exists L. split; [|done]. assert (x <> y) by congruence.
    rewrite insert_insert_ne by done. rewrite <- insert_delete_eq.
    apply owners_null; [done|apply lookup_delete_eq|]. rewrite delete_insert_ne by done.
    destruct (sf_val f) as [a|] eqn:Ha.
    + rewrite <- (insert_delete_id L a (sf_stream f, stream_synchronized f)) by (by eapply os_owns).
      apply owners_insert; [by eapply owners_delete|by rewrite lookup_delete_ne|apply lookup_delete_eq|done].
    + apply owners_null; [done|by rewrite lookup_delete_ne|]. by eapply owners_delete_null.
  - done.
  - destruct (v !! x) as [f|] eqn:Hx; [|by exists L]. destruct (sf_val f) as [a|] eqn:Ha.
    + pose proof (destroy_owned L s f a Ho Ha (os_owns _ _ Hos x f a Hx Ha)) as Hd. unfold ends in Hd.
      destruct (destroy_future f s) as [[e|u] s']; [done|]. exists (delete a L).
      split; [by eapply owners_delete|done].
    + unfold destroy_future. rewrite Ha. exists L. split; [by eapply owners_delete_null|done].
  - exists L. split; [done|]. unfold advance.
    destruct (list_find _ _) as [[i q]|] eqn:Hq; [|done]. apply list_find_Some in Hq as (Hi & _ & _).
    pose proof (ow_pending _ _ Ho) as Hp. apply execute_owned.
    + apply set_pending_owned; [done|]. by apply Forall_delete.
    + eapply Forall_lookup_1 in Hp; [|done]. simpl in Hp. by apply elem_of_dom_2 in Hp.
Qed.

Lemma run_stream_owned ops v s L :
  owners v L -> owned L s -> Forall assign_free ops ->
  exists L', let vs := run_stream host_pool cuda_pool page d g script thread now ops (v, s) in
    owners vs.1 L' /\ owned L' vs.2.
Proof.
  intros Hos Ho Hops. revert v s L Hos Ho. induction Hops as [|o ops Hof _ IH]; intros v s L Hos Ho.
  - by exists L.
  - unfold run_stream. cbn [foldl].
    destruct (stream_step_owned o v s L Hos Ho Hof) as (L1 & Hos1 & Ho1).
    destruct (stream_step _ _ _ _ _ _ _ _ o (v, s)) as [v1 s1]. by apply (IH v1 s1 L1).
Qed.
End ownership.

(** C10. Asynchronous transfers never touch freed arguments and no arguments
    leak: as long as synchronising a stream succeeds, whatever program makes,
    checks, moves and destroys futures, with the device progressing at any
    moment and transfers failing wherever they may, the device never writes
    into freed memory, the blocks on the heap are exactly those of the live
    futures, one each, and every transfer still queued has its block.  The
    program does not assign to futures by move: see below. *)
Theorem async_arguments_live `{Kernel} `{CudaCopy} `{CuFile} `{ErrorTexts} `{AsyncPlatform}
    host_pool cuda_pool page (d : io_defaults) (g : gds_setup) (script : Z -> list call)
    (thread now : Z) (ops : list stream_op) (h : FileHandle) (io : io_state) (w : world) :
  (forall stream s, StreamSynchronize stream s = CUDA_SUCCESS) -> Forall assign_free ops ->
  let '(v, s) := run_stream host_pool cuda_pool page d g script thread now ops
                   (∅, mkAsync ∅ 0 [] false h io w) in
  corrupted s = false /\
  (forall a, is_Some (heap s !! a) <-> exists x f, v !! x = Some f /\ sf_val f = Some a) /\
  (forall x y f f' a, v !! x = Some f -> v !! y = Some f' ->
     sf_val f = Some a -> sf_val f' = Some a -> x = y) /\
  Forall (fun q => is_Some (heap s !! q_args q)) (pending s).
Proof.
  intros Hsync Hops.
  destruct (run_stream_owned host_pool cuda_pool page d g script thread now Hsync ops ∅
    (mkAsync ∅ 0 [] false h io w) ∅) as (L & Hos & Ho); [by split|by split|done|].
  destruct (run_stream _ _ _ _ _ _ _ _ ops _) as [v s]. simpl in *.
  pose proof Ho as [Hc Hd Hf Hp]. split; [done|]. split; [|split].
  - intros a. rewrite <- elem_of_dom, Hd. split; [apply (os_all _ _ Hos)|].
    intros (x & f & Hx & Ha). eapply elem_of_dom_2. by eapply os_owns.
  - apply (os_once _ _ Hos).
  - eapply Forall_impl; [exact Hp|]. intros q Hq. cbv beta in *. apply elem_of_dom. rewrite Hd.
    by apply elem_of_dom_2 in Hq.
Qed.

Section demo.
#[local] Existing Instance full_cufile.
#[local] Existing Instance no_texts.
Definition plain_async (sync : Z) : AsyncPlatform :=
  {| malloc_ok _ := true; StreamSynchronize _ _ := sync; QueueAsync _ _ := mkCUfileError 0 0 |}.

Definition run_demo (sync : Z) (ops : list stream_op) : gmap nat StreamFuture * async_state :=
  run_stream (H3 := plain_async sync) (fixed_pool 8192) (fixed_cuda_pool 8192) 4096 overread
    (mkSetup true false true true) (fun _ => []) 1 0 ops
    (∅, mkAsync ∅ 0 [] false (demo_handle false) test_state initial_world).

Example async_arguments_live_witness :
  let ops := [OAsync 0 PosixIo.READ 131082 100 5 0 7; OMove 0 1; OAsync 2 PosixIo.WRITE 131082 50 0 0 7;
              ODevice 7; ODestroy 1; OCheck 2] in
  Forall assign_free ops /\
  let '(v, s) := run_demo 0 ops in
  corrupted s = false /\
  (forall a, is_Some (heap s !! a) <-> exists x f, v !! x = Some f /\ sf_val f = Some a) /\
  (forall x y f f' a, v !! x = Some f -> v !! y = Some f' ->
     sf_val f = Some a -> sf_val f' = Some a -> x = y) /\
  Forall (fun q => is_Some (heap s !! q_args q)) (pending s).
Proof.
  cbv zeta. split; [repeat constructor|].
  apply (async_arguments_live (H3 := plain_async 0) (fixed_pool 8192) (fixed_cuda_pool 8192) 4096 overread
    (mkSetup true false true true) (fun _ => []) 1 0); [done|repeat constructor].
Defined.

Definition observe (vs : gmap nat StreamFuture * async_state) : list Z * list (nat * option Z) * bool :=
  (fst <$> map_to_list (heap vs.2), (fun xf => (xf.1, sf_val xf.2)) <$> map_to_list vs.1, corrupted vs.2).

(** Assigning to a future that has not been checked drops its arguments: the
    block 0 has no owner any more, and its stream is not synchronised. *)
Example move_assignment_leaks :
  observe (run_demo 0 [OAsync 0 PosixIo.READ 131082 100 0 0 7; OAsync 1 PosixIo.READ 131082 100 0 0 8;
                       OAssign 1 0])
  = ([1; 0], [(1%nat, None); (0%nat, Some 1)], false).
Proof. vm_compute. reflexivity. Qed.

(** A synchronisation that fails counts as done: the future frees arguments
    that the stream is still to use, *)
Example failed_synchronize_frees_early :
  corrupted (run_demo 700 [OAsync 0 PosixIo.READ 131082 100 0 0 7; ODestroy 0; ODevice 7]).2 = true.
Proof. vm_compute. reflexivity. Qed.

(** and a second check reports that nothing was transferred. *)
Example failed_synchronize_is_forgotten :
  let f := mkFuture 131082 7 (Some 0) false in
  let s := (run_demo 700 [OAsync 0 PosixIo.READ 131082 100 0 0 7]).2 in
  match check_bytes_done (H3 := plain_async 700) f s with
  | (inr (inl _, f'), s') => (check_bytes_done (H3 := plain_async 700) f' s').1 = inr (inr 0, f')
  | _ => False
  end.
Proof. vm_compute. reflexivity. Qed.
End demo.
