(* ===== verification/Events.v ===== *)
(** * Events, streams and the barrier of a device read

    [CudaEventPool] of [src/detail/event.cpp], [StreamCachePerThreadAndContext]
    of [src/detail/stream.cpp] and [IoEventBarrier] of
    [src/detail/io_event_barrier.cpp].

    A stream is the amount of work submitted to it and the amount it has done;
    an event remembers a stream and the work that had been submitted when it was
    recorded.  Each operation takes its critical sections at once: between the
    two sections of [get], and of [record_event], nobody else can touch what
    the second one uses (a fresh event, the calling thread's own slot). *)

From stdpp Require Import base list gmap sets strings.
From Stdlib Require Import ZArith Lia.
From S2P Require Import Prelude Cuda.

#[local] Open Scope Z_scope.

Record ev_state := mkEv {
  pools : gmap Z (list Z);           (* [_pools]: free events by context *)
  created : gmap Z Z;                (* every event and its context *)
  point : gmap Z (Z * Z);            (* last record: stream and work *)
  streams : gmap (Z * Z) Z;          (* [_streams]: by context and thread *)
  work_submitted : gmap Z Z;         (* by stream *)
  work_done : gmap Z Z }.

Definition set_pools (m : gmap Z (list Z)) (s : ev_state) : ev_state :=
  mkEv m (created s) (point s) (streams s) (work_submitted s) (work_done s).
Definition set_point (m : gmap Z (Z * Z)) (s : ev_state) : ev_state :=
  mkEv (pools s) (created s) m (streams s) (work_submitted s) (work_done s).
Definition set_work (sub fin : gmap Z Z) (s : ev_state) : ev_state :=
  mkEv (pools s) (created s) (point s) (streams s) sub fin.

Definition amount (m : gmap Z Z) (stream : Z) : Z := default 0 (m !! stream).

(** The driver: an error code or a new event, a new stream; error codes of the
    other calls. *)
Class EventDriver := {
  CtxGetCurrentError : ev_state -> Z;
  CopyError : Z -> ev_state -> Z;        (* [MemcpyHtoDAsync] on a stream *)
  EventCreate : ev_state -> Z + Z;
  StreamCreate : ev_state -> Z + Z;
  EventRecord : Z -> Z -> ev_state -> Z;
  EventSynchronize : Z -> ev_state -> Z;
  EventQuery : Z -> ev_state -> Z }.

Class EventDriverLaws `{EventDriver} := {
  event_fresh s e : EventCreate s = inr e -> e <> 0 /\ created s !! e = None;
  event_error s c : EventCreate s = inl c -> c <> 0;
  stream_fresh s x : StreamCreate s = inr x -> forall k, streams s !! k <> Some x }.

(** A [CudaEvent]: the event, 0 when moved from, and its context. *)
Record CudaEvent := mkCudaEvent { ev_event : Z; ev_context : Z }.

Definition CUDA_ERROR_NOT_READY : Z := 600.

Section events.
Context `{ErrorTexts} `{EventDriver}.

(** ** The event pool *)

(** The last free event of [ctx], taken from the pool. *)
Definition pop_free (ctx : Z) (s : ev_state) : option (Z * ev_state) :=
  match pools s !! ctx with
  | Some l => match last l with
              | Some e => Some (e, set_pools (<[ctx := removelast l]> (pools s)) s)
              | None => None
              end
  | None => None
  end.

Definition create_event (ctx : Z) : st ev_state Z := fun s =>
  match EventCreate s with
  | inr e => (inr e, mkEv (pools s) (<[e := ctx]> (created s)) (point s) (streams s)
                       (work_submitted s) (work_done s))
  | inl c => (inl (Cuda.cuda_error c), s)
  end.

(** [CudaEventPool::get]; [ctx] is the current context, 0 for none. *)
Definition pool_get (ctx : Z) : st ev_state CudaEvent :=
  s ← get_st;
  _ ← cuda_driver_try (CtxGetCurrentError s);
  _ ← require (negb (ctx =? 0)) (CUfileException "No CUDA context is current");
  match pop_free ctx s with
  | Some (e, s') => _ ← put_st s'; mret (mkCudaEvent e ctx)
  | None => e ← create_event ctx; mret (mkCudaEvent e ctx)
  end.

(** [CudaEventPool::put], memory permitting. *)
Definition pool_put (event cuda_context : Z) (s : ev_state) : ev_state :=
  if event =? 0 then s
  else set_pools (<[cuda_context := default [] (pools s !! cuda_context) ++ [event]]> (pools s)) s.

(** [~CudaEvent], the move constructor and move assignment from another. *)
Definition destroy_event (e : CudaEvent) (s : ev_state) : ev_state :=
  if negb (ev_event e =? 0) then pool_put (ev_event e) (ev_context e) s else s.

Definition move_event (other : CudaEvent) : CudaEvent * CudaEvent := (other, mkCudaEvent 0 0).

Definition move_assign_event (e other : CudaEvent) (s : ev_state) : (CudaEvent * CudaEvent) * ev_state :=
  (move_event other, destroy_event e s).

Definition record (e : CudaEvent) (stream : Z) : st ev_state unit :=
  s ← get_st;
  _ ← cuda_driver_try (EventRecord (ev_event e) stream s);
  put_st (set_point (<[ev_event e := (stream, amount (work_submitted s) stream)]> (point s)) s).

(** The device has done [n] units of the work of [stream]. *)
Definition progress_to (stream n : Z) (s : ev_state) : ev_state :=
  set_work (work_submitted s) (<[stream := Z.max n (amount (work_done s) stream)]> (work_done s)) s.

(** An event that was never recorded is complete. *)
Definition event_synchronize (e : CudaEvent) : st ev_state unit :=
  s ← get_st;
  _ ← cuda_driver_try (EventSynchronize (ev_event e) s);
  put_st match point s !! ev_event e with
         | Some (stream, n) => progress_to stream n s
         | None => s
         end.

Definition is_done (e : CudaEvent) : st ev_state bool :=
  s ← get_st;
  let status := EventQuery (ev_event e) s in
  if status =? CUDA_SUCCESS then mret true
  else if status =? CUDA_ERROR_NOT_READY then mret false
  else _ ← cuda_driver_try status; mret false.

Definition num_free_events (ctx : Z) (s : ev_state) : nat :=
  match pools s !! ctx with Some l => length l | None => 0%nat end.

Definition total_free_events (s : ev_state) : nat :=
  map_fold (fun _ (events : list Z) total => (total + length events)%nat) 0%nat (pools s).

(** ** The stream cache *)

(** [StreamCachePerThreadAndContext::get]: 0 is the default stream. *)
Definition stream_get (ctx tid : Z) : st ev_state Z :=
  s ← get_st;
  _ ← cuda_driver_try (CtxGetCurrentError s);
  if ctx =? 0 then mret 0
  else
    match streams s !! (ctx, tid) with
    | Some stream => mret stream
    | None =>
        match StreamCreate s with
        | inl c => throw (Cuda.cuda_error c)
        | inr stream =>
            _ ← put_st (mkEv (pools s) (created s) (point s) (<[(ctx, tid) := stream]> (streams s))
                          (work_submitted s) (work_done s));
            mret stream
        end
    end.

(** ** The barrier *)

(** [_thread_events]: by thread. *)
Abbreviation barrier := (gmap Z CudaEvent) (only parsing).

(** [record_event] on thread [tid] in context [ctx]: the slot is there from
    the first call on, also when recording fails. *)
Definition record_event (ctx tid stream : Z) (b : barrier) : st ev_state ((exn + unit) * barrier) :=
  found ← match b !! tid with
          | Some e => mret (inr (e, b))
          | None => r ← attempt (pool_get ctx);
                    mret match r with
                         | inr e => inr (e, <[tid := e]> b)
                         | inl err => inl err
                         end
          end;
  match found with
  | inl err => mret (inl err, b)
  | inr (e, b) => r ← attempt (record e stream); mret (r, b)
  end.

(** The events of all threads, in the order of the table. *)
Fixpoint sync_events (events : list CudaEvent) : st ev_state unit :=
  match events with
  | [] => mret tt
  | e :: events => _ ← event_synchronize e; sync_events events
  end.

Definition sync_all_events (b : barrier) : st ev_state unit :=
  sync_events ((map_to_list b).*2).

(** [~IoEventBarrier] *)
Definition destroy_barrier (b : barrier) (s : ev_state) : ev_state :=
  foldl (fun s e => destroy_event e s) s ((map_to_list b).*2).

(** ** A device read *)

(** A reactor thread puts [n] units of copies on its stream and records them;
    another user of the pool borrows an event; other work is submitted; the
    device progresses. *)
Inductive event_op :=
  | EStage (tid n : Z)
  | EBorrow (ctx stream : Z)
  | ESubmit (stream n : Z)
  | EProgress (stream n : Z).

Definition submit (stream n : Z) (s : ev_state) : ev_state :=
  set_work (<[stream := amount (work_submitted s) stream + n]> (work_submitted s)) (work_done s) s.

(** One transfer of a thread whose context is [ctx]: its copies and the
    event. *)
Definition stage (ctx tid n : Z) (b : barrier) : st ev_state ((exn + unit) * barrier) :=
  r ← attempt (stream ← stream_get ctx tid;
               s ← get_st;
               _ ← cuda_driver_try (CopyError stream s);
               _ ← modify (submit stream n);
               mret stream);
  match r with
  | inl e => mret (inl e, b)
  | inr stream => record_event ctx tid stream b
  end.

Definition borrow (ctx stream : Z) : st ev_state unit :=
  e ← pool_get ctx;
  r ← attempt (record e stream);
  _ ← modify (destroy_event e);
  mret tt.

(** Also says whether every transfer was recorded. *)
Definition event_step (ctx : Z) (o : event_op) (bs : barrier * bool * ev_state)
    : barrier * bool * ev_state :=
  let '(b, ok, s) := bs in
  match o with
  | EStage tid n =>
      match stage ctx tid n b s with
      | (inr (inr _, b), s) => (b, ok, s)
      | (inr (inl _, b), s) => (b, false, s)
      | (inl _, s) => (b, false, s)
      end
  | EBorrow c stream => (b, ok, (borrow c stream s).2)
  | ESubmit stream n => (b, ok, submit stream n s)
  | EProgress stream n => (b, ok, progress_to stream (Z.min n (amount (work_submitted s) stream)) s)
  end.

Definition run_events (ctx : Z) (ops : list event_op) (bs : barrier * bool * ev_state) :=
  foldl (fun bs o => event_step ctx o bs) bs ops.
End events.

(** ** Ownership of events *)

(** [U]: the events that are in use.  A free event is in the pool of its own
    context, once, and not in use; every event is free or in use. *)
Record pool_ok (U : gset Z) (s : ev_state) : Prop := mkPoolOk {
  po_free c l e : pools s !! c = Some l -> e ∈ l -> created s !! e = Some c /\ e ∉ U;
  po_nodup c l : pools s !! c = Some l -> NoDup l;
  po_held e : e ∈ U -> is_Some (created s !! e);
  po_zero : created s !! 0 = None;
  po_all e c : created s !! e = Some c -> e ∈ U \/ exists l, pools s !! c = Some l /\ e ∈ l }.

(** The parts of the state that the pool does not touch. *)
Definition same_work (s s' : ev_state) : Prop :=
  point s' = point s /\ streams s' = streams s /\ work_submitted s' = work_submitted s /\
  work_done s' = work_done s.

Lemma last_removelast (l : list Z) e : last l = Some e -> l = removelast l ++ [e].
Proof. intros (l' & ->)%last_Some. by rewrite removelast_last. Qed.

Section ownership.
Context `{ErrorTexts} `{!EventDriver} `{!EventDriverLaws}.

Lemma pop_free_ok U c s e s' :
  pool_ok U s -> pop_free c s = Some (e, s') ->
  e ∉ U /\ created s' !! e = Some c /\ pool_ok ({[e]} ∪ U) s' /\ same_work s s' /\ created s' = created s.
Proof.
  intros [Hf Hn Hh Hz Ha]. unfold pop_free. destruct (pools s !! c) as [l|] eqn:Hl; [|done].
  destruct (last l) as [e'|] eqn:He; [|done]. intros [= <- <-]. apply last_removelast in He.
  remember (removelast l) as l' eqn:Hl'eq. clear Hl'eq. subst l. simpl.
  destruct (Hf c _ e' Hl) as [Hc HnH]; [apply elem_of_app; right; by left|].
  pose proof (Hn c _ Hl) as Hnd. apply NoDup_app in Hnd as (Hnd1 & Hnd2 & _).
  split; [done|]. split; [done|]. split; [|done]. split; simpl.
  - intros c' l e [[<- <-]|[Hne Hl']]%lookup_insert_Some He.
    + destruct (Hf c _ e Hl) as [? ?]; [apply elem_of_app; by left|]. split; [done|].
      intros [->%elem_of_singleton|]%elem_of_union; [|done]. apply (Hnd2 _ He). by left.
    + destruct (Hf c' l e Hl' He) as [Hc' ?]. split; [done|].
      intros [->%elem_of_singleton|]%elem_of_union; [congruence|done].
  - intros c' l [[<- <-]|[Hne Hl']]%lookup_insert_Some; [done|by eapply Hn].
  - intros e [->%elem_of_singleton|]%elem_of_union; [by eexists|by apply Hh].
  - done.
  - intros e c' Hcr. destruct (Ha e c' Hcr) as [|(l & Hl' & Hin)]; [set_solver|].
    destruct (decide (c' = c)) as [->|Hne].
    + rewrite Hl in Hl'. injection Hl' as <-. apply elem_of_app in Hin as [Hin| ->%list_elem_of_singleton].
      * right. exists l'. by rewrite lookup_insert_eq.
      * left. set_solver.
    + right. exists l. by rewrite lookup_insert_ne.
Qed.

Lemma create_event_ok U c s :
  pool_ok U s ->
  ends (create_event c) s
    (fun e s' => e ∉ U /\ created s' !! e = Some c /\ pool_ok ({[e]} ∪ U) s' /\ same_work s s' /\
       created s ⊆ created s')
    (fun _ s' => s' = s).
Proof.
  intros [Hf Hn Hh Hz Ha]. unfold ends, create_event. destruct (EventCreate s) as [code|e] eqn:Hc; [done|].
  destruct (event_fresh s e Hc) as [Hne Hnew]. simpl.
  assert (HnH : e ∉ U) by (intros Hin; apply Hh in Hin as [? Hin]; congruence).
  split; [done|]. split; [apply lookup_insert_eq|]. split; [|split; [done|by apply insert_subseteq]].
  split; simpl.
  - intros c' l e' Hl He. destruct (Hf c' l e' Hl He) as [Hcr Hn'].
    assert (e <> e') by congruence. rewrite lookup_insert_ne by done. split; [done|]. set_solver.
  - done.
  - intros e' [->%elem_of_singleton|Hin]%elem_of_union; [rewrite lookup_insert_eq; by eexists|].
    apply lookup_insert_is_Some'. right. by apply Hh.
  - by rewrite lookup_insert_ne.
  - intros e' c' [[<- <-]|[Hn' Hcr]]%lookup_insert_Some; [left; set_solver|].
    destruct (Ha e' c' Hcr) as [|Hx]; [left; set_solver|by right].
Qed.

Lemma pool_get_ok U c s :
  pool_ok U s ->
  ends (pool_get c) s
    (fun e s' => ev_context e = c /\ ev_event e ∉ U /\ created s' !! ev_event e = Some c /\
       pool_ok ({[ev_event e]} ∪ U) s' /\ same_work s s' /\ created s ⊆ created s')
    (fun _ s' => s' = s).
Proof.
  intros Hok. unfold pool_get. apply ends_bind. unfold ends at 1, get_st.
  apply ends_bind, driver_try_ends; [done|]. apply ends_bind. unfold require at 1. destruct (negb _); [|done].
  unfold ends at 1. cbn [mret st_ret].
  destruct (pop_free c s) as [[e s']|] eqn:Hp.
  - destruct (pop_free_ok U c s e s' Hok Hp) as (A1 & A2 & A3 & A4 & A5). unfold ends. simpl.
    repeat (split; [done|]). by rewrite A5.
  - apply ends_bind. eapply ends_mono; [by apply create_event_ok| |done]. done.
Qed.

Lemma destroy_event_ok U e s :
  ev_event e ∉ U -> created s !! ev_event e = Some (ev_context e) ->
  pool_ok ({[ev_event e]} ∪ U) s ->
  pool_ok U (destroy_event e s) /\ same_work s (destroy_event e s) /\ created (destroy_event e s) = created s.
Proof.
  intros HnH Hcr [Hf Hn Hh Hz Ha]. unfold destroy_event, pool_put.
  assert (Hne : ev_event e <> 0) by congruence. apply Z.eqb_neq in Hne. rewrite Hne. simpl.
  set (c := ev_context e) in *. set (l0 := default [] (pools s !! c)).
  assert (Hl0 : forall x, x ∈ l0 -> created s !! x = Some c /\ x ∉ {[ev_event e]} ∪ U).
  { intros x Hx. unfold l0 in Hx. destruct (pools s !! c) as [l|] eqn:Hl; simpl in Hx; [by eapply Hf|].
    by apply not_elem_of_nil in Hx. }
  assert (Hnd0 : NoDup l0).
  { unfold l0. destruct (pools s !! c) as [l|] eqn:Hl; simpl; [by eapply Hn|constructor]. }
  split; [|done]. split; simpl.
  - intros c' l x [[<- <-]|[Hne' Hl]]%lookup_insert_Some Hx.
    + apply elem_of_app in Hx as [Hx| ->%list_elem_of_singleton]; [|done].
      destruct (Hl0 x Hx). split; [done|set_solver].
    + destruct (Hf c' l x Hl Hx). split; [done|set_solver].
  - intros c' l [[<- <-]|[Hne' Hl]]%lookup_insert_Some; [|by eapply Hn].
    apply NoDup_app. split; [done|]. split; [|apply NoDup_singleton].
    intros x Hx ->%list_elem_of_singleton. destruct (Hl0 _ Hx). set_solver.
  - intros x Hx. apply Hh. set_solver.
  - done.
  - intros x c' Hx. destruct (Ha x c' Hx) as [[->%elem_of_singleton|HinH]%elem_of_union|(l & Hl & Hin)].
    + right. assert (c' = c) as -> by congruence. eexists. rewrite lookup_insert_eq. split; [done|].
      apply elem_of_app. right. by left.
    + by left.
    + right. destruct (decide (c' = c)) as [->|Hne'].
      * eexists. rewrite lookup_insert_eq. split; [done|]. apply elem_of_app. left. unfold l0. by rewrite Hl.
      * exists l. by rewrite lookup_insert_ne.
Qed.
End ownership.

(** ** What the barrier waits for *)

(** The events in the slots are in use, one per thread, and belong to [ctx]. *)
Record barrier_ok (ctx : Z) (b : gmap Z CudaEvent) (s : ev_state) : Prop := mkBarrierOk {
  bo_pool : exists U, pool_ok U s /\
    (forall x, x ∈ U <-> exists tid e, b !! tid = Some e /\ ev_event e = x);
  bo_once tid tid' e e' : b !! tid = Some e -> b !! tid' = Some e' -> ev_event e = ev_event e' -> tid = tid';
  bo_context tid e : b !! tid = Some e -> ev_context e = ctx /\ created s !! ev_event e = Some ctx }.

(** Thread [tid], whose stream is [stream], has recorded its first [m] units
    of work or more. *)
Definition recorded (ctx : Z) (b : gmap Z CudaEvent) (s : ev_state) (tid stream m : Z) : Prop :=
  exists e n, b !! tid = Some e /\ streams s !! (ctx, tid) = Some stream /\
    point s !! ev_event e = Some (stream, n) /\ m <= n <= amount (work_submitted s) stream.

(** [s'] comes after [s] and the slots' events were not recorded again. *)
Record keeps (b : gmap Z CudaEvent) (s s' : ev_state) : Prop := mkKeeps {
  kp_streams : streams s ⊆ streams s';
  kp_work stream : amount (work_submitted s) stream <= amount (work_submitted s') stream;
  kp_point tid e : b !! tid = Some e -> point s' !! ev_event e = point s !! ev_event e }.

Lemma recorded_keeps ctx b s s' tid stream m :
  keeps b s s' -> recorded ctx b s tid stream m -> recorded ctx b s' tid stream m.
Proof.
  intros [Hs Hw Hp] (e & n & He & Hst & Hpt & Hm). exists e, n. split; [done|].
  split; [by eapply lookup_weaken|]. split; [by rewrite (Hp tid e He)|]. specialize (Hw stream). lia.
Qed.

Lemma keeps_refl b s : keeps b s s.
Proof. by split. Qed.

Lemma same_work_keeps b s s' : same_work s s' -> keeps b s s'.
Proof. intros (H1 & H2 & H3 & H4). split; [by rewrite H2|by rewrite H3|by rewrite H1]. Qed.

Lemma keeps_trans b s1 s2 s3 : keeps b s1 s2 -> keeps b s2 s3 -> keeps b s1 s3.
Proof.
  intros [A1 A2 A3] [B1 B2 B3]. split; [by etrans|intros x; etrans; [apply A2|apply B2]|].
  intros tid e He. by rewrite (B3 tid e He), (A3 tid e He).
Qed.

Lemma amount_insert m stream x y :
  amount (<[stream := x]> m) y = if decide (y = stream) then x else amount m y.
Proof.
  unfold amount. case_decide; subst; [by rewrite lookup_insert_eq|by rewrite lookup_insert_ne].
Qed.

Lemma submit_keeps b stream n s : 0 <= n -> keeps b s (submit stream n s).
Proof.
  intros Hn. split; simpl; [done| |done]. intros x. rewrite amount_insert. case_decide; [subst; lia|lia].
Qed.

Lemma barrier_ok_frame ctx b s s' :
  pools s' = pools s -> created s' = created s -> barrier_ok ctx b s -> barrier_ok ctx b s'.
Proof.
  intros Hp Hc [(U & [Hf Hn Hh Hz Ha] & HU) Hon Hctx]. split.
  - exists U. split; [|done]. split; rewrite ?Hp, ?Hc; done.
  - done.
  - by rewrite Hc.
Qed.

Section barrier_correct.
Context `{ErrorTexts} `{!EventDriver} `{!EventDriverLaws}.
Context (ctx : Z) (ctx_there : ctx <> 0).

Lemma stream_get_ok b s tid :
  barrier_ok ctx b s ->
  ends (stream_get ctx tid) s
    (fun stream s' => streams s' !! (ctx, tid) = Some stream /\ barrier_ok ctx b s' /\ keeps b s s')
    (fun _ s' => s' = s).
Proof.
  intros Hb. unfold stream_get. replace (ctx =? 0) with false by lia.
  apply ends_bind. unfold ends at 1, get_st. apply ends_bind, driver_try_ends; [done|].
  destruct (streams s !! (ctx, tid)) as [stream|] eqn:Hs.
  - unfold ends. simpl. split; [done|]. split; [done|apply keeps_refl].
  - destruct (StreamCreate s) as [c|stream]; [done|]. unfold ends. simpl.
    split; [apply lookup_insert_eq|]. split; [by apply (barrier_ok_frame ctx b s)|].
    split; simpl; [by apply insert_subseteq|done|done].
Qed.

Lemma record_ok b s e stream :
  barrier_ok ctx b s ->
  ends (record e stream) s
    (fun _ s' => barrier_ok ctx b s' /\
       s' = set_point (<[ev_event e := (stream, amount (work_submitted s) stream)]> (point s)) s)
    (fun _ s' => s' = s).
Proof.
  intros Hb. unfold record. apply ends_bind. unfold ends at 1, get_st.
  apply ends_bind, driver_try_ends; [done|]. unfold ends. simpl.
  split; [by apply (barrier_ok_frame ctx b s)|done].
Qed.

(** The slot of [tid] holds [e]; recording it moves its mark forward and no
    other's. *)
Lemma record_slot b s tid e stream s' :
  barrier_ok ctx b s -> b !! tid = Some e -> streams s !! (ctx, tid) = Some stream ->
  s' = set_point (<[ev_event e := (stream, amount (work_submitted s) stream)]> (point s)) s ->
  recorded ctx b s' tid stream (amount (work_submitted s) stream) /\
  (forall t st m, recorded ctx b s t st m -> recorded ctx b s' t st m).
Proof.
  intros Hb He Hs ->. split.
  - exists e, (amount (work_submitted s) stream). simpl. rewrite lookup_insert_eq. split; [done|].
    split; [done|]. split; [done|lia].
  - intros t st m (e' & n & He' & Hst & Hpt & Hm). destruct (decide (t = tid)) as [->|Hne].
    + assert (e' = e) as -> by congruence. assert (st = stream) as -> by congruence.
      exists e, (amount (work_submitted s) stream). simpl. rewrite lookup_insert_eq. split; [done|].
      split; [done|]. split; [done|lia].
    + exists e', n. simpl. rewrite lookup_insert_ne; [done|]. intros Heq.
      apply Hne. symmetry in Heq. by eapply (bo_once _ _ _ Hb).
Qed.

Definition stage_spec (b : gmap Z CudaEvent) (s : ev_state) (tid : Z)
    (r : (exn + unit) * gmap Z CudaEvent) (s' : ev_state) : Prop :=
  barrier_ok ctx r.2 s' /\
  (forall t st m, recorded ctx b s t st m -> recorded ctx r.2 s' t st m) /\
  (r.1 = inr tt -> exists stream, streams s' !! (ctx, tid) = Some stream /\
     recorded ctx r.2 s' tid stream (amount (work_submitted s') stream)).

Lemma record_event_ok b s tid stream :
  barrier_ok ctx b s -> streams s !! (ctx, tid) = Some stream ->
  ends (record_event ctx tid stream b) s (stage_spec b s tid) (fun _ _ => False).
Proof.
  intros Hb Hs. unfold record_event. apply ends_bind.
  assert (Hrec : forall b1 s1 e, barrier_ok ctx b1 s1 -> b1 !! tid = Some e -> keeps b s s1 ->
    streams s1 !! (ctx, tid) = Some stream ->
    (forall t st m, recorded ctx b s t st m -> recorded ctx b1 s1 t st m) ->
    ends (r ← attempt (record e stream); mret (r, b1)) s1 (stage_spec b s tid) (fun _ _ => False)).
  { intros b1 s1 e Hb1 He Hk Hs1 Hr. apply ends_bind, ends_attempt.
    eapply ends_mono; [by apply (record_ok b1)|..].
    - intros [] s2 [Hb2 Heq]. destruct (record_slot b1 s1 tid e stream s2 Hb1 He Hs1 Heq) as [Hn Ho].
      split; [done|]. split; [intros t st m Hm; by apply Ho, Hr|]. intros _. exists stream.
      subst s2. split; [done|exact Hn].
    - intros err s2 ->. split; [done|]. split; [done|]. by intros [=]. }
  destruct (b !! tid) as [e|] eqn:He.
  - unfold ends at 1. simpl. apply Hrec; [done|done|apply keeps_refl|done|done].
  - apply ends_bind, ends_attempt. destruct Hb as [(U & Hpool & HU) Hon Hctx].
    eapply ends_mono; [by apply pool_get_ok|..].
    + intros e s1 (Hc & HnU & Hcr & Hp1 & Hw & Hsub). unfold ends at 1. simpl.
      assert (Hnew : forall t e', b !! t = Some e' -> ev_event e' <> ev_event e).
      { intros t e' Ht Heq. apply HnU, HU. by exists t, e'. }
      apply Hrec.
      * split.
        -- exists ({[ev_event e]} ∪ U). split; [done|]. intros x.
           rewrite elem_of_union, elem_of_singleton, HU. split.
           ++ intros [->|(t & e' & Ht & Hx)]; [exists tid, e; by rewrite lookup_insert_eq|].
              exists t, e'. rewrite lookup_insert_ne; [done|]. congruence.
           ++ intros (t & e' & [[<- <-]|[Hne Ht]]%lookup_insert_Some & Hx); [by left|right; by exists t, e'].
        -- intros t t' e1 e2 [[<- <-]|[Hne Ht]]%lookup_insert_Some [[<- <-]|[Hne' Ht']]%lookup_insert_Some Heq;
             [done| | |by eapply Hon].
           ++ by destruct (Hnew t' e2 Ht').
           ++ by destruct (Hnew t e1 Ht).
        -- intros t e' [[<- <-]|[Hne Ht]]%lookup_insert_Some; [done|].
           destruct (Hctx t e' Ht). split; [done|]. by eapply lookup_weaken.
      * apply lookup_insert_eq.
      * by apply same_work_keeps.
      * destruct Hw as (_ & -> & _). done.
      * intros t st m Hr. apply (recorded_keeps ctx b s s1) in Hr; [|by apply same_work_keeps].
        destruct Hr as (e' & n & Ht & Hrest). exists e', n. split; [|done].
        rewrite lookup_insert_ne; [done|]. congruence.
    + intros err s1 ->. unfold ends. simpl. split; [split; [by exists U|done|done]|]. split; [done|]. by intros [=].
Qed.

Lemma stage_ok b s tid n :
  barrier_ok ctx b s -> 0 <= n ->
  ends (stage ctx tid n b) s (stage_spec b s tid) (fun _ _ => False).
Proof.
  intros Hb Hn. unfold stage. apply ends_bind, ends_attempt, ends_bind.
  assert (Hstuck : forall err s1, barrier_ok ctx b s1 -> keeps b s s1 ->
    ends (mret (inl err, b)) s1 (stage_spec b s tid) (fun _ _ => False)).
  { intros err s1 Hb1 Hk1. split; [done|]. split; [|by intros [=]]. intros. by eapply recorded_keeps. }
  eapply ends_mono; [by apply (stream_get_ok b)|..].
  - intros stream s1 (Hs1 & Hb1 & Hk1). apply ends_bind. unfold ends at 1, get_st.
    apply ends_bind, driver_try_ends; [intros err; by apply Hstuck|].
    apply ends_bind. unfold ends at 1, modify, ends at 1. simpl.
    assert (Hb2 : barrier_ok ctx b (submit stream n s1)) by (by apply (barrier_ok_frame ctx b s1)).
    eapply ends_mono; [exact (record_event_ok b (submit stream n s1) tid stream Hb2 Hs1)| |done].
    intros r s2 (H1' & H2' & H3'). split; [done|]. split; [|done]. intros t st m Hr. apply H2'.
    eapply recorded_keeps; [|exact Hr]. eapply keeps_trans; [exact Hk1|by apply submit_keeps].
  - intros err s1 ->. apply Hstuck; [done|apply keeps_refl].
Qed.

Lemma borrow_ok b s c stream :
  barrier_ok ctx b s ->
  barrier_ok ctx b (borrow c stream s).2 /\ keeps b s (borrow c stream s).2.
Proof.
  intros Hb. destruct Hb as [(U & Hpool & HU) Hon Hctx].
  enough (ends (borrow c stream) s (fun _ s' => barrier_ok ctx b s' /\ keeps b s s')
    (fun _ s' => barrier_ok ctx b s' /\ keeps b s s')) as He.
  { revert He. unfold ends. by destruct (borrow c stream s) as [[?|?] ?]. }
  unfold borrow. apply ends_bind. eapply ends_mono; [by apply pool_get_ok|..].
  - intros e s1 (Hc & HnU & Hcr & Hp1 & Hw & Hsub).
    assert (Hdone : forall s2, pools s2 = pools s1 -> created s2 = created s1 -> keeps b s s2 ->
      barrier_ok ctx b (destroy_event e s2) /\ keeps b s (destroy_event e s2)).
    { intros s2 Hps Hcs Hk. destruct (destroy_event_ok U e s2) as (Hd1 & Hd2 & Hd3); [done|by rewrite Hcs, Hc|..].
      - destruct Hp1 as [Hf Hn Hh Hz Ha]. split; rewrite ?Hps, ?Hcs; done.
      - split; [|eapply keeps_trans; [exact Hk|by apply same_work_keeps]].
        split; [by exists U|done|]. intros t e' Ht. destruct (Hctx t e' Ht). split; [done|].
        rewrite Hd3, Hcs. by eapply lookup_weaken. }
    apply ends_bind, ends_attempt. unfold record. apply ends_bind. unfold ends at 1, get_st.
    apply ends_bind, driver_try_ends.
    + intros err. apply Hdone; [done|done|by apply same_work_keeps].
    + unfold ends at 1. simpl. apply Hdone; [done|done|]. apply (keeps_trans b s s1); [by apply same_work_keeps|].
      split; simpl; [done|done|]. intros t e' Ht. apply lookup_insert_ne. intros Heq.
      apply HnU, HU. by exists t, e'.
  - intros err s1 ->. split; [split; [by exists U|done|done]|apply keeps_refl].
Qed.

(** Amounts of work are not negative. *)
Definition event_op_ok (o : event_op) : Prop :=
  match o with
  | EStage _ n | ESubmit _ n => 0 <= n
  | _ => True
  end.

Lemma event_step_ok o b k s b' k' s' :
  event_op_ok o -> barrier_ok ctx b s -> event_step ctx o (b, k, s) = (b', k', s') ->
  barrier_ok ctx b' s' /\
  (forall t st m, recorded ctx b s t st m -> recorded ctx b' s' t st m) /\
  (k' = true -> k = true).
Proof.
  intros Ho Hb. destruct o as [tid n|c stream|stream n|stream n]; cbn [event_step].
  - pose proof (stage_ok b s tid n Hb Ho) as Hs. unfold ends in Hs.
    destruct (stage ctx tid n b s) as [[e|[r b1]] s1]; [done|]. destruct Hs as (H1' & H2' & _).
    destruct r; intros [= <- <- <-]; split; [done| |done|]; split; [done|done|done|done].
  - intros [= <- <- <-]. destruct (borrow_ok b s c stream Hb) as [Hb' Hk]. split; [done|].
    split; [|done]. intros. by eapply recorded_keeps.
  - intros [= <- <- <-]. split; [by apply (barrier_ok_frame ctx b s)|].
    split; [|done]. intros. eapply recorded_keeps; [|done]. by apply submit_keeps.
  - intros [= <- <- <-]. split; [by apply (barrier_ok_frame ctx b s)|].
    split; [|done]. intros. eapply recorded_keeps; [|done]. by split.
Qed.

Lemma run_events_ok ops b k s b' k' s' :
  Forall event_op_ok ops -> barrier_ok ctx b s -> run_events ctx ops (b, k, s) = (b', k', s') ->
  barrier_ok ctx b' s' /\
  (forall t st m, recorded ctx b s t st m -> recorded ctx b' s' t st m) /\
  (k' = true -> k = true).
Proof.
  intros Hops. revert b k s. induction Hops as [|o ops Ho _ IH]; intros b k s Hb Hr.
  { injection Hr as <- <- <-. done. }
  destruct (event_step ctx o (b, k, s)) as [[b1 k1] s1] eqn:Hs.
  destruct (event_step_ok o b k s b1 k1 s1 Ho Hb Hs) as (A1 & A2 & A3).
  destruct (IH b1 k1 s1 A1) as (B1 & B2 & B3); [|auto].
  revert Hr. unfold run_events. cbn [foldl]. by rewrite Hs.
Qed.

Lemma event_synchronize_done e s s' :
  event_synchronize e s = (inr tt, s') ->
  point s' = point s /\ (forall x, amount (work_done s) x <= amount (work_done s') x) /\
  (forall x n, point s !! ev_event e = Some (x, n) -> n <= amount (work_done s') x).
Proof.
  unfold event_synchronize, cuda_driver_try, require, get_st, put_st, mbind, st_bind.
  destruct (_ =? _); [|done]. simpl. intros [= <-].
  destruct (point s !! ev_event e) as [[x n]|] eqn:Hp; [|by split; [|split; [|intros ? ? [=]]]].
  simpl. split; [done|]. split.
  - intros y. rewrite amount_insert. case_decide; subst; lia.
  - intros y m [= <- <-]. rewrite amount_insert. rewrite decide_True by done. lia.
Qed.

Lemma sync_events_done l s s' :
  sync_events l s = (inr tt, s') ->
  (forall x, amount (work_done s) x <= amount (work_done s') x) /\
  (forall e x n, e ∈ l -> point s !! ev_event e = Some (x, n) -> n <= amount (work_done s') x).
Proof.
  revert s. induction l as [|e l IH]; intros s Hl.
  { injection Hl as <-. split; [done|]. by intros e x n ?%not_elem_of_nil. }
  cbn [sync_events] in Hl. unfold mbind, st_bind in Hl.
  destruct (event_synchronize e s) as [[?|[]] s1] eqn:He; [done|].
  destruct (event_synchronize_done e s s1 He) as (A1 & A2 & A3).
  destruct (IH s1 Hl) as [B1 B2]. split; [intros x; etrans; [apply A2|apply B1]|].
  intros e' x n [->|Hin]%elem_of_cons Hp; [etrans; [by apply A3|apply B1]|].
  apply (B2 e'); [done|by rewrite A1].
Qed.
End barrier_correct.

(** A pool with no barrier yet satisfies the invariant. *)
Lemma barrier_ok_start ctx s : pool_ok ∅ s -> barrier_ok ctx ∅ s.
Proof.
  intros Hp. split.
  - exists ∅. split; [done|]. intros x. split; [set_solver|]. intros (tid & e & He & _).
    by rewrite lookup_empty in He.
  - intros tid tid' e e' He. by rewrite lookup_empty in He.
  - intros tid e He. by rewrite lookup_empty in He.
Qed.

(** C11. A device read hands each reactor thread's copies to the thread's
    stream and records the thread's event in the barrier.  Whatever the order of
    those transfers, with other users of the event pool borrowing events, other
    work on the streams and the device progressing in between: when every
    transfer was recorded and [sync_all_events] returns, the device has done the
    work that had been submitted to the thread's stream at each of the
    transfers. *)
Theorem barrier_waits `{ErrorTexts} `{!EventDriver} `{!EventDriverLaws} ctx ops1 tid n ops2 s0 b1 k1 s1 b s s' :
  ctx <> 0 -> pool_ok ∅ s0 -> Forall event_op_ok (ops1 ++ EStage tid n :: ops2) ->
  run_events ctx (ops1 ++ [EStage tid n]) (∅, true, s0) = (b1, k1, s1) ->
  run_events ctx (ops1 ++ EStage tid n :: ops2) (∅, true, s0) = (b, true, s) ->
  sync_all_events b s = (inr tt, s') ->
  exists stream, streams s1 !! (ctx, tid) = Some stream /\
    amount (work_submitted s1) stream <= amount (work_done s') stream.
Proof.
  intros Hctx Hp Hops H1' Hall Hsync.
  apply Forall_app in Hops as [Hops1 [Hn Hops2]%Forall_cons].
  destruct (run_events ctx ops1 (∅, true, s0)) as [[b0 k0] sa] eqn:Ha.
  destruct (run_events_ok ctx Hctx ops1 ∅ true s0 b0 k0 sa Hops1) as (Hb0 & _ & _);
    [by apply barrier_ok_start|done|].
  revert H1' Hall. unfold run_events in Ha |- *. rewrite !foldl_app, Ha. cbn [foldl]. intros H1'.
  rewrite H1'. intros Hall.
  destruct (event_step_ok ctx Hctx (EStage tid n) b0 k0 sa b1 k1 s1 Hn Hb0 H1') as (Hb1 & _ & _).
  destruct (run_events_ok ctx Hctx ops2 b1 k1 s1 b true s Hops2 Hb1 Hall) as (_ & Hkeep & Hk).
  specialize (Hk eq_refl). subst k1. cbn [event_step] in H1'.
  pose proof (stage_ok ctx Hctx b0 sa tid n Hb0 Hn) as Hst. unfold ends in Hst.
  destruct (stage ctx tid n b0 sa) as [[err|[r b2]] s2]; [done|].
  destruct r as [err|[]]; [done|]. injection H1' as -> _ ->. destruct Hst as (_ & _ & Hst).
  destruct (Hst eq_refl) as (stream & Hs1 & Hr). exists stream. split; [done|].
  apply Hkeep in Hr as (e & m & He & _ & Hpt & Hm & _).
  destruct (sync_events_done _ s s' Hsync) as [_ Hd]. etrans; [exact Hm|]. apply (Hd e); [|done].
  apply list_elem_of_fmap. exists (tid, e). split; [done|]. by apply elem_of_map_to_list.
Qed.

(** ** A driver *)

(** No call fails; handles are numbered. *)
Definition numbering_driver : EventDriver := {|
  CtxGetCurrentError _ := 0;
  CopyError _ _ := 0;
  EventCreate s := inr (next_id (map_to_list (created s)).*1);
  StreamCreate s := inr (next_id (map_to_list (streams s)).*2);
  EventRecord _ _ _ := 0;
  EventSynchronize _ _ := 0;
  EventQuery _ _ := 0 |}.

Lemma numbering_laws : @EventDriverLaws numbering_driver.
Proof.
  split; simpl.
  - intros s e [= <-]. split; [pose proof (next_id_pos (map_to_list (created s)).*1); lia|].
    destruct (created s !! _) as [c|] eqn:Hc; [|done]. exfalso.
    apply elem_of_map_to_list, (list_elem_of_fmap_2 fst), next_id_above in Hc. simpl in Hc. lia.
  - done.
  - intros s x [= <-] k Hk. apply elem_of_map_to_list, (list_elem_of_fmap_2 snd), next_id_above in Hk.
    simpl in Hk. lia.
Qed.

Definition idle : ev_state := mkEv ∅ ∅ ∅ ∅ ∅ ∅.

Lemma idle_ok : pool_ok ∅ idle.
Proof. by split; simpl; intros *; rewrite ?lookup_empty. Qed.

Definition two_threads : list event_op :=
  [EStage 1 10; EStage 2 20; EBorrow 7 5; EProgress 1 4; ESubmit 2 100; EStage 1 30].

(** Two reactor threads: after the synchronisation both streams are as far as
    they were when their threads recorded last; the 100 units behind the second
    one's event are not waited for. *)
Example two_threads_wait :
  let '(b, ok, s) := @run_events no_texts numbering_driver 7 two_threads (∅, true, idle) in
  let s' := (@sync_all_events no_texts numbering_driver b s).2 in
  (ok, work_submitted s, work_done s') =
  (true, <[1 := 40]> (<[2 := 120]> ∅), <[1 := 40]> (<[2 := 20]> ∅)).
Proof. vm_compute. reflexivity. Qed.

Lemma barrier_waits_witness :
  exists stream,
    let s1 := (@run_events no_texts numbering_driver 7 [EStage 1 10; EStage 2 20] (∅, true, idle)).2 in
    let r := @run_events no_texts numbering_driver 7 two_threads (∅, true, idle) in
    streams s1 !! (7, 2) = Some stream /\
    amount (work_submitted s1) stream <=
    amount (work_done (@sync_all_events no_texts numbering_driver r.1.1 r.2).2) stream.
Proof.
  pose (r1 := @run_events no_texts numbering_driver 7 [EStage 1 10; EStage 2 20] (∅, true, idle)).
  pose (r := @run_events no_texts numbering_driver 7 two_threads (∅, true, idle)).
  apply (@barrier_waits no_texts numbering_driver numbering_laws 7 [EStage 1 10] 2 20
    [EBorrow 7 5; EProgress 1 4; ESubmit 2 100; EStage 1 30] idle r1.1.1 r1.1.2 r1.2 r.1.1 r.2
    (@sync_all_events no_texts numbering_driver r.1.1 r.2).2).
  - lia.
  - apply idle_ok.
  - repeat constructor; simpl; lia.
  - vm_compute. reflexivity.
  - vm_compute. reflexivity.
  - vm_compute. reflexivity.
Defined.
