(* ===== verification/CurlShare.v ===== *)
(** * Sharing of DNS caches

    [src/detail/curl_share.cpp]: threads are assigned to share handles, each of
    which holds one DNS cache of libcurl.  The registry is a list of caches with
    their numbers of threads; each thread keeps the handle it was given until it
    exits. *)

From stdpp Require Import base list gmap sets strings pretty.
From Stdlib Require Import ZArith Lia.
From S2P Require Import Prelude Defaults.

#[local] Open Scope Z_scope.

(** [CurlShareRegistry::Cache] *)
Record Cache := mkCache { handle : Z; num_threads : Z }.

Inductive share_option :=
  | CURLSHOPT_LOCKFUNC
  | CURLSHOPT_UNLOCKFUNC
  | CURLSHOPT_USERDATA (this : Z)
  | CURLSHOPT_SHARE_DNS.

(** libcurl: [curl_share_init] given the share handles there are, 0 for a
    failure; the code and the text of [curl_share_setopt]. *)
Class ShareApi := {
  curl_global_init : Z;
  version_threadsafe : bool;
  curl_share_init : list Z -> Z;
  curl_share_setopt : Z -> share_option -> Z;
  curl_share_strerror : Z -> string }.

Class ShareApiLaws `{ShareApi} := {
  share_fresh made : curl_share_init made = 0 \/ curl_share_init made ∉ made }.

Record shares := mkShares {
  limit : option Z;                      (* [max_threads_per_cache], once read *)
  caches : list Cache;                   (* [_caches] *)
  made : list Z;                         (* share handles of libcurl *)
  options : gmap Z (list share_option);  (* what they were given *)
  assigned : gmap Z Z;                   (* [assignment], by thread *)
  locked : gset (Z * Z) }.               (* [_mutexes] that are held *)

Definition set_caches (l : list Cache) (s : shares) : shares :=
  mkShares (limit s) l (made s) (options s) (assigned s) (locked s).
Definition set_assigned (a : gmap Z Z) (s : shares) : shares :=
  mkShares (limit s) (caches s) (made s) (options s) a (locked s).

(** ** The registry *)

(** [CurlShareRegistry] *)
Definition new_registry {S} (max_threads_per_cache : Z) : st S Z :=
  _ ← require (max_threads_per_cache >? 0)
        (InvalidArgument "`max_threads_per_cache` must be positive");
  mret max_threads_per_cache.

(** The first cache with room takes the thread. *)
Fixpoint take_slot (max_threads_per_cache : Z) (l : list Cache) : option (Z * list Cache) :=
  match l with
  | [] => None
  | c :: l =>
      if num_threads c <? max_threads_per_cache
      then Some (handle c, mkCache (handle c) (num_threads c + 1) :: l)
      else match take_slot max_threads_per_cache l with
           | Some (h, l) => Some (h, c :: l)
           | None => None
           end
  end.

Fixpoint release_slot (h : Z) (l : list Cache) : list Cache :=
  match l with
  | [] => []
  | c :: l => if handle c =? h then mkCache (handle c) (num_threads c - 1) :: l
              else c :: release_slot h l
  end.

Definition release (h : Z) (s : shares) : shares := set_caches (release_slot h (caches s)) s.

Definition num_caches (s : shares) : Z := Z.of_nat (length (caches s)).

(** [lock_callback] and [unlock_callback]: the mutex of one kind of data;
    [None] while the lock has to be waited for. *)
Definition lock_callback (data userptr : Z) (s : shares) : option shares :=
  if decide ((userptr, data) ∈ locked s) then None
  else Some (mkShares (limit s) (caches s) (made s) (options s) (assigned s)
               ({[(userptr, data)]} ∪ locked s)).

Definition unlock_callback (data userptr : Z) (s : shares) : shares :=
  mkShares (limit s) (caches s) (made s) (options s) (assigned s) (locked s ∖ {[(userptr, data)]}).

Section registry.
Context `{ShareApi} (getenv : string -> option string).

(** [LibCurl::instance] *)
Definition libcurl_instance {S} : st S unit :=
  _ ← require (curl_global_init =? 0)
        (RuntimeError ("cannot initialize libcurl - errorcode: " +:+ pretty curl_global_init));
  require version_threadsafe
    (RuntimeError "cannot initialize libcurl - built with thread safety disabled").

(** The lambda [set_option] *)
Definition set_option (h : Z) (o : share_option) : st shares unit :=
  let sc := curl_share_setopt h o in
  _ ← require (sc =? 0) (RuntimeError ("curl_share_setopt: " +:+ curl_share_strerror sc));
  modify (fun s => mkShares (limit s) (caches s) (made s)
                     (<[h := default [] (options s !! h) ++ [o]]> (options s)) (assigned s) (locked s)).

(** [CurlShareHandle]; the object and its [CURLSH] go by one name. *)
Definition new_share_handle : st shares Z :=
  _ ← libcurl_instance;
  s ← get_st;
  let h := curl_share_init (made s) in
  _ ← require (negb (h =? 0)) (RuntimeError "curl_share_init() failed");
  _ ← modify (fun s => mkShares (limit s) (caches s) (h :: made s) (options s) (assigned s) (locked s));
  _ ← set_option h CURLSHOPT_LOCKFUNC;
  _ ← set_option h CURLSHOPT_UNLOCKFUNC;
  _ ← set_option h (CURLSHOPT_USERDATA h);
  _ ← set_option h CURLSHOPT_SHARE_DNS;
  mret h.

(** [CurlShareRegistry::acquire], under its mutex. *)
Definition acquire (max_threads_per_cache : Z) : st shares Z :=
  s ← get_st;
  match take_slot max_threads_per_cache (caches s) with
  | Some (h, l) => _ ← put_st (set_caches l s); mret h
  | None =>
      h ← new_share_handle;
      _ ← modify (fun s => set_caches (caches s ++ [mkCache h 1]) s);
      mret h
  end.

(** [share_handle_for_current_thread]: the limit is read once, and a thread's
    assignment is made once. *)
Definition max_threads_per_cache : result Z :=
  env ← getenv_or_long getenv "KVIKIO_REMOTE_MAX_THREADS_PER_DNS_CACHE" 16;
  _ ← expect (env >=? 0)
        (InvalidArgument "KVIKIO_REMOTE_MAX_THREADS_PER_DNS_CACHE has to be a non-negative integer");
  mret (Z.max env 1).

Definition read_limit : st shares Z :=
  s ← get_st;
  match limit s with
  | Some n => mret n
  | None =>
      n ← of_result max_threads_per_cache;
      _ ← put_st (mkShares (Some n) (caches s) (made s) (options s) (assigned s) (locked s));
      mret n
  end.

Definition share_handle_for_current_thread (tid : Z) : st shares Z :=
  n ← read_limit;
  n ← new_registry n;
  s ← get_st;
  match assigned s !! tid with
  | Some h => mret h
  | None =>
      h ← acquire n;
      _ ← modify (fun s => set_assigned (<[tid := h]> (assigned s)) s);
      mret h
  end.

(** The exit of a thread runs [~Assignment]. *)
Definition thread_exit (tid : Z) (s : shares) : shares :=
  match assigned s !! tid with
  | Some h => release h (set_assigned (delete tid (assigned s)) s)
  | None => s
  end.
End registry.

Definition no_shares : shares := mkShares None [] [] ∅ ∅ ∅.

(** Threads ask for their handle and exit, in any order. *)
Inductive share_op := EUse (tid : Z) | EExit (tid : Z).

Definition share_step `{ShareApi} (getenv : string -> option string) (o : share_op) (s : shares) : shares :=
  match o with
  | EUse tid => (share_handle_for_current_thread getenv tid s).2
  | EExit tid => thread_exit tid s
  end.

(** Also the most threads that had an assignment at once. *)
Definition run_shares `{ShareApi} (getenv : string -> option string) (ops : list share_op)
    (s : shares) : shares * Z :=
  foldl (fun (sp : shares * Z) o =>
           let s' := share_step getenv o sp.1 in (s', Z.max sp.2 (Z.of_nat (size (assigned s')))))
        (s, Z.of_nat (size (assigned s))) ops.

(** ** Packing *)

(** How many threads are assigned to [h]. *)
Definition threads_of (h : Z) (a : gmap Z Z) : Z := map_count (fun x => x = h) a.

Lemma threads_of_insert a tid h h' :
  a !! tid = None ->
  threads_of h' (<[tid := h]> a) = threads_of h' a + (if decide (h = h') then 1 else 0).
Proof. intros Ht. unfold threads_of. by rewrite map_count_insert. Qed.

Lemma threads_of_delete a tid h h' :
  a !! tid = Some h ->
  threads_of h' (delete tid a) = threads_of h' a - (if decide (h = h') then 1 else 0).
Proof. intros Ht. unfold threads_of. by rewrite (map_count_delete _ _ _ h). Qed.

Lemma threads_of_absent a h : (forall tid, a !! tid <> Some h) -> threads_of h a = 0.
Proof. intros Hn. apply (map_count_none (fun x => x = h)). intros tid h' Ht ->. by apply (Hn tid). Qed.

(** With [n] threads to a cache, [peak] the most threads that were assigned at
    once. *)
Record shares_ok (n peak : Z) (s : shares) : Prop := mkSharesOk {
  so_limit m : limit s = Some m -> m = n;
  so_nodup : NoDup (handle <$> caches s);
  so_made h : h ∈ handle <$> caches s -> h ∈ made s;
  so_count c : c ∈ caches s -> num_threads c = threads_of (handle c) (assigned s);
  so_bound c : c ∈ caches s -> 0 <= num_threads c <= n;
  so_home tid h : assigned s !! tid = Some h -> h ∈ handle <$> caches s;
  so_total : sumZ (num_threads <$> caches s) = Z.of_nat (size (assigned s));
  so_peak : Z.of_nat (size (assigned s)) <= peak;
  so_few : num_caches s * n < peak + n;
  so_many : peak <= num_caches s * n }.

(** What [take_slot] and [release_slot] do to the numbers. *)
Definition bump (h d : Z) (c : Cache) : Cache :=
  mkCache (handle c) (num_threads c + if decide (handle c = h) then d else 0).

Lemma handle_bump h d (l : list Cache) : handle <$> (bump h d <$> l) = handle <$> l.
Proof. rewrite <- list_fmap_compose. by apply list_fmap_ext. Qed.

Lemma bump_absent h d (l : list Cache) : h ∉ handle <$> l -> bump h d <$> l = l.
Proof.
  intros Hn. rewrite <- (list_fmap_id l) at 2. apply list_fmap_ext. intros i [x k] Hx. simpl. unfold bump.
  simpl. rewrite decide_False; [by rewrite Z.add_0_r|]. intros ->. apply Hn.
  apply list_elem_of_fmap. exists (mkCache h k). split; [done|]. by eapply list_elem_of_lookup_2.
Qed.

Lemma sum_bump h d (l : list Cache) :
  NoDup (handle <$> l) -> h ∈ handle <$> l ->
  sumZ (num_threads <$> (bump h d <$> l)) = sumZ (num_threads <$> l) + d.
Proof.
  induction l as [|c l IH]; csimpl; [by intros _ ?%not_elem_of_nil|].
  intros [Hn Hnd]%NoDup_cons [->|Hin]%elem_of_cons.
  - rewrite bump_absent by done. rewrite decide_True by done. lia.
  - rewrite IH by done. rewrite decide_False; [lia|]. by intros <-.
Qed.

Lemma take_slot_some n l h l' :
  NoDup (handle <$> l) -> take_slot n l = Some (h, l') ->
  l' = bump h 1 <$> l /\ exists c, c ∈ l /\ handle c = h /\ num_threads c < n.
Proof.
  revert l'. induction l as [|c l IH]; csimpl; [done|]. intros l' [Hn Hnd]%NoDup_cons.
  destruct (num_threads c <? n) eqn:Hc; bool_to_prop.
  - intros [= <- <-]. rewrite bump_absent by done. unfold bump. rewrite decide_True by done. split; [done|].
    exists c. split; [by left|done].
  - destruct (take_slot n l) as [[h1 l1]|]; [|done]. intros [= <- <-].
    destruct (IH l1 Hnd eq_refl) as (-> & c' & Hin & Hh & Hlt). split.
    + f_equal. destruct c as [x k]. unfold bump. simpl. rewrite decide_False; [by rewrite Z.add_0_r|].
      intros ->. apply Hn. simpl. rewrite <- Hh. by apply list_elem_of_fmap_2.
    + exists c'. split; [by right|done].
Qed.

Lemma take_slot_none n l : take_slot n l = None -> forall c, c ∈ l -> n <= num_threads c.
Proof.
  induction l as [|c l IH]; csimpl; [by intros _ c ?%not_elem_of_nil|].
  destruct (num_threads c <? n) eqn:Hc; [done|]. bool_to_prop.
  destruct (take_slot n l) as [[h1 l1]|]; [done|]. intros _ c' [->|Hin]%elem_of_cons; [done|by apply IH].
Qed.

Lemma release_slot_bump h l : NoDup (handle <$> l) -> release_slot h l = bump h (-1) <$> l.
Proof.
  induction l as [|c l IH]; csimpl; [done|]. intros [Hn Hnd]%NoDup_cons.
  destruct (handle c =? h) eqn:Hc; bool_to_prop.
  - subst h. rewrite bump_absent by done. unfold bump. by rewrite decide_True.
  - rewrite IH by done. f_equal. destruct c as [x k]. unfold bump. simpl in *. rewrite decide_False by done.
    by rewrite Z.add_0_r.
Qed.

(** The sum of a list of equal numbers. *)
Lemma sumZ_const n l : Forall (fun x => x = n) l -> sumZ l = Z.of_nat (length l) * n.
Proof. induction 1 as [|x l -> _ IH]; simpl; lia. Qed.

Lemma sumZ_at_most n l : Forall (fun x => x <= n) l -> sumZ l <= Z.of_nat (length l) * n.
Proof. induction 1 as [|x l Hx _ IH]; simpl; lia. Qed.

(** Moving one thread in or out of a cache it fits. *)
Lemma bump_ok n peak s h d a' peak' :
  shares_ok n peak s -> h ∈ handle <$> caches s ->
  (forall h', threads_of h' a' = threads_of h' (assigned s) + if decide (h = h') then d else 0) ->
  Z.of_nat (size a') = Z.of_nat (size (assigned s)) + d ->
  (forall tid h', a' !! tid = Some h' -> h' = h \/ assigned s !! tid = Some h') ->
  (forall c, c ∈ caches s -> handle c = h -> 0 <= num_threads c + d <= n) ->
  0 < n -> peak' = Z.max peak (Z.of_nat (size a')) ->
  shares_ok n peak' (set_assigned a' (set_caches (bump h d <$> caches s) s)).
Proof.
  intros [Hl Hnd Hm Hc Hb Hh Ht Hp Hf Hmany] Hin Hthreads Hsize Ha' Hfit Hn ->.
  assert (Hlen : num_caches (set_assigned a' (set_caches (bump h d <$> caches s) s)) = num_caches s).
  { unfold num_caches. simpl. by rewrite length_fmap. }
  assert (Hbc : forall c, c ∈ bump h d <$> caches s -> num_threads c = threads_of (handle c) a' /\ 0 <= num_threads c <= n).
  { intros c (c0 & -> & Hc0)%list_elem_of_fmap. simpl. rewrite Hthreads, (Hc c0 Hc0).
    pose proof (Hb c0 Hc0) as Hb0. rewrite (Hc c0 Hc0) in Hb0.
    destruct (decide (handle c0 = h)) as [He|He].
    - rewrite decide_True by done. pose proof (Hfit c0 Hc0 He) as Hf0. rewrite (Hc c0 Hc0) in Hf0. lia.
    - rewrite decide_False by congruence. lia. }
  assert (Htot : sumZ (num_threads <$> (bump h d <$> caches s)) = Z.of_nat (size a')).
  { rewrite sum_bump by done. lia. }
  split; rewrite ?Hlen; simpl; rewrite ?handle_bump; try done.
  - intros c Hc'. by apply Hbc.
  - intros c Hc'. by apply Hbc.
  - intros tid h' [->|Hold]%Ha'; [done|by eapply Hh].
  - lia.
  - lia.
  - assert (Z.of_nat (size a') <= num_caches s * n); [|lia].
    rewrite <- Htot. unfold num_caches. rewrite <- (length_fmap (bump h d)), <- (length_fmap num_threads).
    assert (Hall : Forall (fun x => x <= n) (num_threads <$> (bump h d <$> caches s))).
    { apply Forall_forall. intros x (c & -> & Hc')%list_elem_of_fmap. by apply Hbc. }
    by apply sumZ_at_most.
Qed.

Section packing.
Context `{ShareApi} `{!ShareApiLaws} (getenv : string -> option string).

(** A new share handle, or a failure after which at most an unused handle of
    libcurl is left behind. *)
Definition only_made (s s' : shares) : Prop :=
  limit s' = limit s /\ caches s' = caches s /\ assigned s' = assigned s /\
  (forall h, h ∈ made s -> h ∈ made s').

Lemma only_made_ok n peak s s' : only_made s s' -> shares_ok n peak s -> shares_ok n peak s'.
Proof.
  intros (Hl & Hc & Ha & Hm) [A1 A2 A3 A4 A5 A6 A7 A8 A9 A10]. unfold num_caches in *.
  split; unfold num_caches; rewrite ?Hl, ?Hc, ?Ha; auto.
Qed.

Lemma set_option_ok h o s :
  ends (set_option h o) s (fun _ s' => only_made s s' /\ made s' = made s) (fun _ => only_made s).
Proof. unfold set_option, require. apply ends_bind. destruct (_ =? 0); unfold ends; simpl; by split. Qed.

Lemma only_made_trans s1 s2 s3 : only_made s1 s2 -> only_made s2 s3 -> only_made s1 s3.
Proof. intros (A1 & A2 & A3 & A4) (B1 & B2 & B3 & B4). split_and!; [congruence..|auto]. Qed.

Lemma new_share_handle_ok s :
  ends new_share_handle s (fun h s' => only_made s s' /\ h ∉ made s /\ h ∈ made s') (fun _ => only_made s).
Proof.
  unfold new_share_handle, libcurl_instance, require.
  apply ends_bind. unfold ends at 1. cbn [mbind st_bind]. destruct (_ =? 0); cbn [mret st_ret]; [|by split].
  destruct version_threadsafe; cbn [mret st_ret]; [|by split].
  apply ends_bind. unfold ends at 1, get_st. apply ends_bind. unfold ends at 1.
  destruct (share_fresh (made s)) as [->|Hf]; [by split|]. destruct (negb _); cbn [mret st_ret]; [|by split].
  apply ends_bind. unfold ends at 1, modify. set (h := curl_share_init (made s)) in *.
  set (s1 := mkShares _ _ _ _ _ _).
  assert (H1 : only_made s s1) by (split_and!; try done; intros x Hx; by right).
  assert (Hin : h ∈ made s1) by by left. revert H1 Hin. generalize s1. clear s1.
  assert (Hstep : forall o (m : st shares Z) Q,
    (forall s1, only_made s s1 -> h ∈ made s1 -> ends m s1 Q (fun _ => only_made s)) ->
    forall s1, only_made s s1 -> h ∈ made s1 -> ends (_ ← set_option h o; m) s1 Q (fun _ => only_made s)).
  { intros o m Q Hm s1 H1 Hin. apply ends_bind. eapply ends_mono; [apply set_option_ok|..].
    - intros [] s2 [H2 Hm2]. apply Hm; [by eapply only_made_trans|by rewrite Hm2].
    - intros e s2 H2. by eapply only_made_trans. }
  do 4 apply Hstep. intros s1 H1 Hin. unfold ends. simpl. split; [done|]. by split.
Qed.

Lemma max_threads_per_cache_returns :
  returns (max_threads_per_cache getenv) (fun n => 1 <= n) (fun _ => True).
Proof.
  unfold max_threads_per_cache, getenv_or_long, getenv_or_integer. apply returns_bind.
  assert (Hr : forall v : Z, returns
    (_ ← expect (v >=? 0) (InvalidArgument
       "KVIKIO_REMOTE_MAX_THREADS_PER_DNS_CACHE has to be a non-negative integer"); mret (Z.max v 1))
    (fun n => 1 <= n) (fun _ => True)).
  { intros v. apply returns_bind, returns_expect; [|done]. intros _. simpl. lia. }
  destruct (getenv _) as [v|]; [|apply Hr]. case_match; [|done]. case_match; [apply Hr|done].
Qed.

Lemma read_limit_ok n peak s :
  max_threads_per_cache getenv = Ok n -> shares_ok n peak s ->
  ends (read_limit getenv) s (fun m s' => m = n /\ shares_ok n peak s' /\ assigned s' = assigned s) (fun _ _ => False).
Proof.
  intros Hn Hs. unfold read_limit. apply ends_bind. unfold ends at 1, get_st.
  destruct (limit s) as [m|] eqn:Hl; [split; [by eapply so_limit|done]|].
  rewrite Hn. destruct Hs as [A1 A2 A3 A4 A5 A6 A7 A8 A9 A10]. split; [done|]. split; [|done].
  unfold num_caches in *. by split; unfold num_caches; simpl; try done; intros ? [= ->].
Qed.

(** A thread that had no assignment has one. *)
Definition assigned_one (n peak : Z) (s : shares) (tid h : Z) (s' : shares) : Prop :=
  assigned s' = <[tid := h]> (assigned s) /\
  shares_ok n (Z.max peak (Z.of_nat (size (assigned s')))) s'.

Lemma acquire_ok n peak s tid :
  0 < n -> shares_ok n peak s -> assigned s !! tid = None ->
  ends (acquire n) s
    (fun h s' => assigned_one n peak s tid h (set_assigned (<[tid := h]> (assigned s')) s'))
    (fun _ s' => shares_ok n peak s' /\ assigned s' = assigned s).
Proof.
  intros Hn Hs Ht. unfold acquire. apply ends_bind. unfold ends at 1, get_st.
  destruct (take_slot n (caches s)) as [[h l]|] eqn:Hslot.
  - destruct (take_slot_some n _ h l (so_nodup _ _ _ Hs) Hslot) as (-> & c & Hc & Hh & Hlt).
    split; [done|]. simpl. rewrite (map_size_insert_None _ _ _ Ht).
    apply (bump_ok n peak s h 1 (<[tid := h]> (assigned s))); try done.
    + subst h. by apply list_elem_of_fmap_2.
    + intros h'. by apply threads_of_insert.
    + rewrite map_size_insert_None by done. lia.
    + intros tid' h' [[<- <-]|[? ?]]%lookup_insert_Some; [by left|by right].
    + intros c' Hc' Hh'. pose proof (so_bound _ _ _ Hs c' Hc'). pose proof (so_count _ _ _ Hs c' Hc').
      pose proof (so_count _ _ _ Hs c Hc). rewrite Hh in *. rewrite Hh' in *. lia.
    + by rewrite map_size_insert_None.
  - pose proof (take_slot_none n _ Hslot) as Hfull. apply ends_bind.
    eapply ends_mono; [apply new_share_handle_ok|..]; [|intros e s' Ho; split; [exact (only_made_ok n peak s s' Ho Hs)|apply Ho]].
    intros h s1 (Ho & Hnew & Hin). pose proof (only_made_ok n peak s s1 Ho Hs) as Hs1.
    destruct Ho as (Hl1 & Hc1 & Ha1 & Hm1). rewrite <- Hc1 in Hfull. rewrite <- Ha1 in Ht.
    split; [by rewrite <- Ha1|]. rewrite <- (Z.add_0_l 1) at 1. clear Hslot.
    destruct Hs1 as [B1 B2 B3 B4 B5 B6 B7 B8 B9 B10]. simpl. unfold num_caches in *. simpl.
    assert (Habs : forall h', h' ∈ handle <$> caches s1 -> h' <> h).
    { intros h' Hh' ->. apply Hnew. rewrite Hc1 in Hh'. by apply (so_made _ _ _ Hs). }
    assert (Hfulls : sumZ (num_threads <$> caches s1) = Z.of_nat (length (caches s1)) * n).
    { rewrite <- (length_fmap num_threads). apply sumZ_const, Forall_forall.
      intros x (c & -> & Hc)%list_elem_of_fmap. specialize (Hfull c Hc). specialize (B5 c Hc). lia. }
    rewrite map_size_insert_None in * by done.
    split; unfold num_caches; simpl; rewrite ?fmap_app, ?length_app, ?map_size_insert_None by done; simpl; try done.
    + apply NoDup_app. split; [done|]. split; [|apply NoDup_singleton].
      intros h' Hh' ->%list_elem_of_singleton. by apply (Habs h).
    + intros h' [Hh'| ->%list_elem_of_singleton]%elem_of_app; [by apply B3|done].
    + intros c [Hc| ->%list_elem_of_singleton]%elem_of_app; simpl; rewrite threads_of_insert by done.
      * rewrite (B4 c Hc), decide_False; [lia|]. intros Heq. symmetry in Heq. revert Heq.
        apply Habs. by apply list_elem_of_fmap_2.
      * rewrite decide_True by done. rewrite threads_of_absent; [done|]. intros tid' Ht'.
        by apply (Habs h); [by eapply B6|].
    + intros c [Hc| ->%list_elem_of_singleton]%elem_of_app; simpl; [by apply B5|lia].
    + intros tid' h' [[<- <-]|[? Ht']]%lookup_insert_Some; apply elem_of_app;
        [right; by left|left; by eapply B6].
    + rewrite sumZ_app. simpl. lia.
    + lia.
    + lia.
    + lia.
Qed.

Lemma share_handle_ok n peak s tid :
  max_threads_per_cache getenv = Ok n -> 0 < n -> shares_ok n peak s ->
  let '(r, s') := share_handle_for_current_thread getenv tid s in
  shares_ok n (Z.max peak (Z.of_nat (size (assigned s')))) s' /\
  (forall h, r = inr h -> assigned s' !! tid = Some h) /\
  (forall t h, assigned s !! t = Some h -> assigned s' !! t = Some h).
Proof.
  intros Hlim Hn Hs.
  assert (Hsame : forall s', shares_ok n peak s' -> shares_ok n (Z.max peak (Z.of_nat (size (assigned s')))) s').
  { intros s' Hs'. rewrite Z.max_l; [done|]. apply (so_peak _ _ _ Hs'). }
  enough (He : ends (share_handle_for_current_thread getenv tid) s
    (fun h s' => shares_ok n (Z.max peak (Z.of_nat (size (assigned s')))) s' /\ assigned s' !! tid = Some h /\
       (forall t h, assigned s !! t = Some h -> assigned s' !! t = Some h))
    (fun _ s' => shares_ok n peak s' /\ assigned s' = assigned s)).
  { revert He. unfold ends. destruct (share_handle_for_current_thread getenv tid s) as [[e|h] s'].
    - intros [Hs' Ha]. split; [by apply Hsame|]. split; [by intros h [=]|by rewrite Ha].
    - intros (Hs' & Ha & Hk). split; [done|]. split; [by intros h' [= <-]|done]. }
  unfold share_handle_for_current_thread. apply ends_bind.
  eapply ends_mono; [by apply read_limit_ok| |done]. intros m s1 (-> & Hs1 & Ha1).
  unfold new_registry, require. apply ends_bind, ends_bind. replace (n >? 0) with true by lia.
  unfold ends at 1. simpl. unfold ends at 1. simpl. apply ends_bind. unfold ends at 1, get_st.
  destruct (assigned s1 !! tid) as [h|] eqn:Ht.
  - split; [by apply Hsame|]. split; [done|]. by rewrite Ha1.
  - apply ends_bind. eapply ends_mono; [by eapply acquire_ok|..].
    + intros h s2 [Ha2 Hs2]. split; [exact Hs2|]. simpl in *. split; [apply lookup_insert_eq|].
      intros t h' Hth. rewrite Ha2, <- Ha1 in *. rewrite lookup_insert_ne; [done|]. congruence.
    + intros e s2 [Hs2 Ha2]. split; [done|congruence].
Qed.

Lemma thread_exit_ok n peak s tid :
  0 < n -> shares_ok n peak s -> shares_ok n peak (thread_exit tid s).
Proof.
  intros Hn Hs. unfold thread_exit. destruct (assigned s !! tid) as [h|] eqn:Ht; [|done].
  unfold release. simpl. rewrite release_slot_bump by apply (so_nodup _ _ _ Hs).
  assert (Hsz : Z.of_nat (size (delete tid (assigned s))) = Z.of_nat (size (assigned s)) - 1).
  { assert (Hd : delete tid (assigned s) !! tid = None) by apply lookup_delete_eq.
    pose proof (map_size_insert_None tid h _ Hd) as Hi. rewrite insert_delete_id in Hi by done. lia. }
  pose proof (so_peak _ _ _ Hs).
  apply (bump_ok n peak s h (-1) (delete tid (assigned s))); try done; try lia.
  - by eapply so_home.
  - intros h'. rewrite (threads_of_delete _ tid h) by done. case_decide; lia.
  - intros tid' h' [_ Hd]%lookup_delete_Some. by right.
  - intros c Hc Hh. pose proof (so_bound _ _ _ Hs c Hc). pose proof (so_count _ _ _ Hs c Hc) as Hcnt.
    assert (0 < threads_of (handle c) (assigned s)); [|lia].
    rewrite Hh. pose proof (threads_of_delete (assigned s) tid h h Ht) as Hd. rewrite decide_True in Hd by done.
    unfold threads_of, map_count in *. lia.
Qed.

Lemma no_shares_ok n : 0 < n -> shares_ok n 0 no_shares.
Proof.
  intros Hn. unfold no_shares. split; unfold num_caches; simpl; try done; try lia.
  - constructor.
  - by intros c ?%not_elem_of_nil.
  - by intros c ?%not_elem_of_nil.
Qed.

Lemma run_shares_ok n ops s :
  max_threads_per_cache getenv = Ok n -> 0 < n -> shares_ok n (Z.of_nat (size (assigned s))) s ->
  shares_ok n (run_shares getenv ops s).2 (run_shares getenv ops s).1.
Proof.
  intros Hlim Hn. unfold run_shares. generalize (Z.of_nat (size (assigned s))). revert s.
  induction ops as [|o ops IH]; intros s peak Hs; [done|]. cbn [foldl]. apply IH. simpl.
  destruct o as [tid|tid]; simpl.
  - pose proof (share_handle_ok n peak s tid Hlim Hn Hs) as Hu.
    destruct (share_handle_for_current_thread getenv tid s) as [r s']. apply Hu.
  - pose proof (thread_exit_ok n peak s tid Hn Hs) as Hx. rewrite Z.max_l; [done|apply (so_peak _ _ _ Hx)].
Qed.
End packing.

(** C12. Whatever order threads ask for their share handle and exit in, and
    whichever calls of libcurl fail: no cache has more threads than the limit;
    each cache's count is the number of threads assigned to it; and there are
    just enough caches for the most threads that were assigned at once, a slot
    freed by a thread being used before a cache is added. *)
Theorem caches_stay_packed `{ShareApi} `{!ShareApiLaws} getenv n ops :
  max_threads_per_cache getenv = Ok n ->
  let '(s, peak) := run_shares getenv ops no_shares in
  (forall c, c ∈ caches s -> num_threads c = threads_of (handle c) (assigned s) /\ num_threads c <= n) /\
  num_caches s = (peak + n - 1) / n.
Proof.
  intros Hlim. assert (Hn : 0 < n).
  { pose proof (max_threads_per_cache_returns getenv) as Hr. rewrite Hlim in Hr. simpl in Hr. lia. }
  pose proof (run_shares_ok getenv n ops no_shares Hlim Hn (no_shares_ok n Hn)) as Hok.
  destruct (run_shares getenv ops no_shares) as [s peak]. simpl in Hok. split.
  - intros c Hc. split; [by apply (so_count _ _ _ Hok)|by apply (so_bound _ _ _ Hok)].
  - pose proof (so_few _ _ _ Hok). pose proof (so_many _ _ _ Hok).
    apply (Zdiv_unique _ n _ (peak + n - 1 - num_caches s * n)); lia.
Qed.

(** Share handles 1, 2, 3, ...; no call fails. *)
Definition numbering_shares : ShareApi := {|
  curl_global_init := 0;
  version_threadsafe := true;
  curl_share_init := next_id;
  curl_share_setopt _ _ := 0;
  curl_share_strerror _ := "" |}.

Lemma numbering_shares_laws : @ShareApiLaws numbering_shares.
Proof.
  split. intros l. right. apply next_id_fresh.
Qed.

Definition two_per_cache (name : string) : option string :=
  if decide (name = "KVIKIO_REMOTE_MAX_THREADS_PER_DNS_CACHE") then Some "2" else None.

Definition five_threads : list share_op :=
  [EUse 1; EUse 2; EUse 3; EExit 1; EUse 4; EUse 3; EExit 2; EUse 5; EUse 6].

(** Six threads, at most four at once: two caches of two. *)
Lemma caches_stay_packed_witness :
  let '(s, peak) := @run_shares numbering_shares two_per_cache five_threads no_shares in
  caches s = [mkCache 1 2; mkCache 2 2] /\ peak = 4 /\ num_caches s = (peak + 2 - 1) / 2.
Proof.
  pose proof (@caches_stay_packed numbering_shares numbering_shares_laws two_per_cache 2 five_threads
    ltac:(vm_compute; reflexivity)) as Ht.
  destruct (@run_shares numbering_shares two_per_cache five_threads no_shares) as [s peak] eqn:Hr.
  assert (Hs : (caches s, peak) = ([mkCache 1 2; mkCache 2 2], 4)).
  { change (caches s, peak) with (caches (s, peak).1, (s, peak).2). rewrite <- Hr. vm_compute. reflexivity. }
  split; [congruence|]. split; [congruence|]. apply Ht.
Defined.
