(* ===== verification/Tls.v ===== *)
(** * Certificates of a TLS connection

    [src/detail/tls.cpp]: where the certificate authorities' bundle or directory
    is looked for, and how a curl handle is told about it. *)

From stdpp Require Import base list gmap strings.
From Stdlib Require Import ZArith Lia.
From S2P Require Import Prelude.

#[local] Open Scope Z_scope.

(** A bundle file and a directory. *)
Abbreviation ca_paths := (option string * option string)%type (only parsing).

(** The settings of a handle: [CURLOPT_CAINFO] and [CURLOPT_CAPATH]. *)
Inductive ca_option := CURLOPT_CAINFO (value : option string) | CURLOPT_CAPATH (value : option string).

Record tls_state := mkTls {
  static_paths : option ca_paths;   (* the static of [set_up_ca_paths] *)
  cainfo : option string;           (* of the handle *)
  capath : option string }.

Section tls.
(** The environment; [access(path, R_OK)]; [cainfo] and [capath] of
    [curl_version_info], when there is one; [curl_easy_setopt] and its texts. *)
Context (getenv : string -> option string) (access : string -> Z)
  (version_info : option ca_paths) (curl_easy_setopt : ca_option -> Z)
  (curl_easy_strerror : Z -> string).

Fixpoint find_ca_path_from_env_var (env_vars : list string) : option string :=
  match env_vars with
  | [] => None
  | env_var :: env_vars =>
      match getenv env_var with
      | Some path => Some path
      | None => find_ca_path_from_env_var env_vars
      end
  end.

Fixpoint find_ca_path_in_system_locations (system_paths : list string) : option string :=
  match system_paths with
  | [] => None
  | path :: system_paths =>
      if negb (access path =? -1) then Some path
      else find_ca_path_in_system_locations system_paths
  end.

Definition get_ca_path_from_curl_defaults (default_path : option string) : option string :=
  match default_path with
  | Some path => if negb (access path =? -1) then Some path else None
  | None => None
  end.

Definition bundle_env_vars : list string := ["CURL_CA_BUNDLE"; "SSL_CERT_FILE"].
Definition directory_env_vars : list string := ["SSL_CERT_DIR"].
Definition bundle_locations : list string :=
  ["/etc/ssl/certs/ca-certificates.crt";
   "/etc/pki/tls/certs/ca-bundle.crt";
   "/etc/ssl/ca-bundle.pem";
   "/etc/pki/tls/cert.pem";
   "/etc/pki/ca-trust/extracted/pem/tls-ca-bundle.pem";
   "/usr/share/ssl/certs/ca-bundle.crt";
   "/usr/local/share/certs/ca-root-nss.crt";
   "/etc/ssl/cert.pem"].
Definition directory_locations : list string := ["/etc/ssl/certs"; "/etc/pki/tls/certs"].

Definition get_ca_paths : result ca_paths :=
  match version_info with
  | None => Err (RuntimeError "Failed to get curl version info")
  | Some (curl_cainfo, curl_capath) =>
      match find_ca_path_from_env_var bundle_env_vars with
      | Some file => mret (Some file, None)
      | None =>
      match find_ca_path_from_env_var directory_env_vars with
      | Some dir => mret (None, Some dir)
      | None =>
      match find_ca_path_in_system_locations bundle_locations with
      | Some file => mret (Some file, None)
      | None =>
      match find_ca_path_in_system_locations directory_locations with
      | Some dir => mret (None, Some dir)
      | None =>
      match get_ca_path_from_curl_defaults curl_cainfo with
      | Some file => mret (Some file, None)
      | None =>
      match get_ca_path_from_curl_defaults curl_capath with
      | Some dir => mret (None, Some dir)
      | None => Err (RuntimeError "Failed to find accessible CA certificates.")
      end end end end end end
  end.

Definition setopt (o : ca_option) : st tls_state unit :=
  let err := curl_easy_setopt o in
  _ ← require (err =? 0)
        (RuntimeError ("curl_easy_setopt() error (" +:+ curl_easy_strerror err +:+ ")"));
  modify (fun s => match o with
                   | CURLOPT_CAINFO v => mkTls (static_paths s) v (capath s)
                   | CURLOPT_CAPATH v => mkTls (static_paths s) (cainfo s) v
                   end).

(** A failed search is not remembered. *)
Definition read_static : st tls_state ca_paths :=
  s ← get_st;
  match static_paths s with
  | Some p => mret p
  | None =>
      p ← of_result get_ca_paths;
      _ ← put_st (mkTls (Some p) (cainfo s) (capath s));
      mret p
  end.

Definition set_up_ca_paths : st tls_state unit :=
  paths ← read_static;
  match paths with
  | (Some ca_bundle_file, _) =>
      _ ← setopt (CURLOPT_CAINFO (Some ca_bundle_file));
      setopt (CURLOPT_CAPATH None)
  | (None, Some ca_directory) =>
      _ ← setopt (CURLOPT_CAINFO None);
      setopt (CURLOPT_CAPATH (Some ca_directory))
  | (None, None) => mret tt
  end.

(** ** The search as one list *)

(** Every place that is looked at, in order of priority: whether it names a
    bundle, and the path when the place has one that counts. *)
Definition readable (path : string) : option string :=
  if decide (access path = -1) then None else Some path.

Definition places (curl : ca_paths) : list (bool * option string) :=
  ((fun v => (true, getenv v)) <$> bundle_env_vars) ++
  ((fun v => (false, getenv v)) <$> directory_env_vars) ++
  ((fun p => (true, readable p)) <$> bundle_locations) ++
  ((fun p => (false, readable p)) <$> directory_locations) ++
  [(true, curl.1 ≫= readable); (false, curl.2 ≫= readable)].

Fixpoint first_place (l : list (bool * option string)) : option (bool * string) :=
  match l with
  | [] => None
  | (bundle, Some path) :: _ => Some (bundle, path)
  | (_, None) :: l => first_place l
  end.

Definition as_paths (f : bool * string) : ca_paths :=
  if f.1 then (Some f.2, None) else (None, Some f.2).

Lemma first_place_app l k :
  first_place (l ++ k) = match first_place l with Some f => Some f | None => first_place k end.
Proof. induction l as [|[b [p|]] l IH]; csimpl; done. Qed.

Lemma first_env b vars :
  first_place ((fun v => (b, getenv v)) <$> vars) = pair b <$> find_ca_path_from_env_var vars.
Proof. induction vars as [|v vars IH]; csimpl; [done|]. by destruct (getenv v). Qed.

Lemma first_location b paths :
  first_place ((fun p => (b, readable p)) <$> paths) = pair b <$> find_ca_path_in_system_locations paths.
Proof.
  induction paths as [|p paths IH]; csimpl; [done|]. unfold readable at 1. rewrite IH.
  case_decide as Hp; [by rewrite Hp|]. by replace (access p =? -1) with false by lia.
Qed.

Lemma readable_default o : o ≫= readable = get_ca_path_from_curl_defaults o.
Proof.
  destruct o as [p|]; [|done]. simpl. unfold readable. case_decide as Hp; [by rewrite Hp|].
  by replace (access p =? -1) with false by lia.
Qed.

Lemma get_ca_paths_first curl :
  version_info = Some curl ->
  get_ca_paths = match first_place (places curl) with
                 | Some f => Ok (as_paths f)
                 | None => Err (RuntimeError "Failed to find accessible CA certificates.")
                 end.
Proof.
  intros Hv. unfold get_ca_paths, places. rewrite Hv. destruct curl as [c1 c2].
  rewrite !first_place_app, !first_env, !first_location. simpl. rewrite !readable_default.
  by repeat (case_match; simplify_eq/=).
Qed.

(** The certificates come from the first place, in the order of priority
    of the code, that names a path (an environment variable that is set, a file
    or directory that is readable); a handle that [set_up_ca_paths] returns
    from has exactly that one of its two settings, and when there is no such
    place every call fails and the handle is left alone. *)
Theorem certificates_from_first_place curl s :
  version_info = Some curl ->
  (forall p, static_paths s = Some p -> get_ca_paths = Ok p) ->
  match first_place (places curl) with
  | Some f =>
      ends set_up_ca_paths s
        (fun _ s' => (cainfo s', capath s') = as_paths f /\ static_paths s' = Some (as_paths f))
        (fun _ s' => static_paths s' = Some (as_paths f))
  | None => ends set_up_ca_paths s (fun _ _ => False) (fun _ s' => s' = s)
  end.
Proof.
  intros Hv Hs. rewrite (get_ca_paths_first curl Hv) in Hs.
  assert (Hr : match first_place (places curl) with
    | Some f => read_static s = (inr (as_paths f), mkTls (Some (as_paths f)) (cainfo s) (capath s))
    | None => exists e, read_static s = (inl e, s)
    end).
  { unfold read_static, of_result, get_st, mbind, st_bind. rewrite (get_ca_paths_first curl Hv).
    destruct (static_paths s) as [p|] eqn:Hp.
    - specialize (Hs p eq_refl). destruct (first_place (places curl)) as [f|]; [|done].
      injection Hs as ->. destruct s as [sp ci cp]. simpl in *. by subst.
    - destruct (first_place (places curl)) as [f|]; [done|by eexists]. }
  unfold ends, set_up_ca_paths, mbind, st_bind. destruct (first_place (places curl)) as [[b p]|].
  - rewrite Hr. destruct b; simpl; unfold setopt, require, mbind, st_bind, modify;
      repeat (destruct (_ =? 0); simpl; try done).
  - destruct Hr as [e ->]. done.
Qed.
End tls.

Definition only_cert_dir (v : string) : option string :=
  if decide (v = "SSL_CERT_DIR") then Some "/my/certs" else None.

(** The environment names a directory; every path is readable. *)
Lemma certificates_from_first_place_witness :
  ends (set_up_ca_paths only_cert_dir (fun _ => 0) (Some (None, Some "/usr/share/certs"))
          (fun _ => 0) (fun _ => ""))
    (mkTls None (Some "/old") None)
    (fun _ s' => (cainfo s', capath s') = (None, Some "/my/certs") /\
       static_paths s' = Some (None, Some "/my/certs"))
    (fun _ s' => static_paths s' = Some (None, Some "/my/certs")).
Proof.
  pose proof (certificates_from_first_place only_cert_dir (fun _ => 0) (Some (None, Some "/usr/share/certs"))
    (fun _ => 0) (fun _ => "") (None, Some "/usr/share/certs") (mkTls None (Some "/old") None)
    eq_refl ltac:(done)) as Ht.
  assert (Hf : first_place (places only_cert_dir (fun _ => 0) (None, Some "/usr/share/certs"))
               = Some (false, "/my/certs")) by (vm_compute; reflexivity).
  rewrite Hf in Ht. exact Ht.
Defined.
