(* ===== verification/Mmap.v ===== *)
(** * Memory-mapped files

    [src/mmap.cpp]: [MmapHandle], the checks of its constructor and of its
    reads, the copy out of the mapping and the prefault before it.

    The kernel's mapping is a parameter.  Loading a mapped address gives the
    file's byte at the place it maps; a handle carries what is needed to say
    which addresses those are. *)

From stdpp Require Import base list strings gmap sets.
From Stdlib Require Import ZArith Lia Ascii Permutation.
From S2P Require Import Prelude Utils Defaults FileHandle Observation ParallelIo BounceBuffer PosixIo Cuda FileIo.

#[local] Open Scope Z_scope.

(** ** Prefault *)

(** The addresses touched, oldest first, and [touched_bytes]. *)
Record prefault_state := mkPrefault {
  aligned_addr : Z;
  left_ : Z;                    (* [size] *)
  touched_bytes : Z;
  touched : list Z;
  stopped : bool }.             (* the loop has broken *)

Definition prefault_cond (p : prefault_state) : bool := negb (stopped p) && (left_ p >? 0).

Definition prefault_body (page_size : Z) (p : prefault_state) : result prefault_state :=
  let seen := touched p ++ [aligned_addr p] in
  mret (if left_ p >=? page_size
        then mkPrefault (aligned_addr p + page_size) (left_ p -% page_size)
               (touched_bytes p +% page_size) seen false
        else mkPrefault (aligned_addr p) (left_ p) (touched_bytes p +% left_ p) seen true).

Definition prefault_fuel (page_size size : Z) : nat := S (Z.to_nat (size / page_size)).

(** [num_bytes] is not negative, so its comparisons with [size] are those of
    integers. *)
Definition perform_prefault (page_size buf size : Z) : result (Z * list Z) :=
  aligned_addr ← align_up_addr buf page_size;
  let num_bytes := aligned_addr - buf in
  let '(size, touched_bytes, touched) :=
    if num_bytes >? 0 then
      (if size >=? num_bytes then size -% num_bytes else size, num_bytes, [buf])
    else (size, 0, []) in
  if num_bytes >=? size then mret (touched_bytes, touched)
  else
    p ← while_loop (prefault_fuel page_size size) prefault_cond (prefault_body page_size)
          (mkPrefault aligned_addr size touched_bytes touched false);
    mret (Mmap.touched_bytes p, Mmap.touched p).

(** ** The handle *)

Record MmapHandle := mkMmap {
  mm_buf : Z;
  initial_map_size : Z;
  initial_map_offset : Z;
  mm_file_size : Z;
  map_offset : Z;
  map_size : Z;
  map_addr : Z;                 (* 0 for nullptr *)
  mm_initialized : bool;
  map_protection : Z;
  map_flags : Z;
  file_wrapper : Z;             (* the descriptor, or -1 *)
  mm_file_path : string }.

Definition no_mmap : MmapHandle := mkMmap 0 0 0 0 0 0 0 false 0 0 (-1) "".

(** The process: descriptors, and mappings by address with their sizes.
    [unmap_misused]: something was unmapped that was not mapped. *)
Record mm_os := mkMmOs {
  mm_fds : os;
  mappings : gmap Z Z;
  unmap_misused : bool }.

(** [mmap], [None] for [MAP_FAILED], of a size, protection, flags, descriptor
    and offset; whether [munmap] succeeds; [get_file_size]. *)
Class MmapPlatform := {
  sys_mmap : mm_os -> Z -> Z -> Z -> Z -> Z -> option Z;
  sys_munmap : mm_os -> Z -> bool;
  fstat_size : mm_os -> Z -> Z }.

Class MmapPlatformLaws `{MmapPlatform} := {
  mmap_fresh o n prot flags fd off addr : sys_mmap o n prot flags fd off = Some addr ->
    0 < addr /\ addr + n < SIZE_MOD /\ mappings o !! addr = None;
  fstat_range o fd : -1 <= fstat_size o fd < SSIZE_MAX }.

Definition PROT_READ : Z := 1.
Definition MAP_PRIVATE : Z := 2.

Section handle.
Context `{Platform} `{MmapPlatform}.
Variable page_size : Z.

Definition on_fds {A} (m : st os A) : st mm_os A := fun o =>
  let '(r, f) := m (mm_fds o) in (r, mkMmOs f (mappings o) (unmap_misused o)).

(** [get_file_size] of a descriptor; -1 is [fstat]'s failure. *)
Definition get_file_size (fd : Z) : st mm_os Z :=
  o ← get_st;
  let n := fstat_size o fd in
  _ ← require (negb (n =? -1)) (GenericSystemError "Unable to query file size.");
  mret n.

Definition map_file (n prot flags fd off : Z) : st mm_os Z := fun o =>
  match sys_mmap o n prot flags fd off with
  | Some addr => (inr addr, mkMmOs (mm_fds o) (<[addr := n]> (mappings o)) (unmap_misused o))
  | None => (inl (GenericSystemError "Cannot create memory mapping"), o)
  end.

Definition unmap (addr : Z) (o : mm_os) : mm_os :=
  if sys_munmap o addr
  then mkMmOs (mm_fds o) (delete addr (mappings o))
         (unmap_misused o || bool_decide (mappings o !! addr = None))
  else o.

(** [FileWrapper::close]. *)
Definition close_wrapper (fd : Z) (o : mm_os) : mm_os :=
  mkMmOs (wrapper_close fd (mm_fds o)).2 (mappings o) (unmap_misused o).

(** The protection for the open flags. *)
Definition protection_of (flags : string) : result Z :=
  match flags with
  | String c _ =>
      if Ascii.eqb c "r"%char then mret PROT_READ
      else if Ascii.eqb c "w"%char then
        Err (InvalidArgument "File-backed mmap write is not supported yet")
      else Err (InvalidArgument "Unknown file open flag")
  | EmptyString => Err (InvalidArgument "Unknown file open flag")
  end.

(** The constructor from the moment the file is open. *)
Definition map_opened (file_path : string) (initial_size : option Z) (initial_offset : Z)
    (flags_arg : option Z) (prot fd : Z) : st mm_os MmapHandle :=
  file_size ← get_file_size fd;
  if file_size =? 0 then
    mret (mkMmap 0 0 initial_offset 0 0 0 0 true prot 0 fd file_path)
  else
    _ ← require (initial_offset <? file_size) (OutOfRange "Offset must be less than the file size.");
    let initial_size := default (file_size -% initial_offset) initial_size in
    _ ← require (initial_size >? 0) (InvalidArgument "Mapped region should not be zero byte");
    _ ← require (initial_offset +% initial_size <=? file_size)
          (OutOfRange "Mapped region is past the end of file.");
    map_offset ← of_result (align_down initial_offset page_size);
    let offset_delta := initial_offset -% map_offset in
    let map_size := initial_size +% offset_delta in
    let map_flags := default MAP_PRIVATE flags_arg in
    addr ← map_file map_size prot map_flags fd map_offset;
    mret (mkMmap (addr + offset_delta) initial_size initial_offset file_size map_offset map_size addr
            true prot map_flags fd file_path).

(** [MmapHandle(file_path, flags, initial_map_size, initial_map_offset, mode,
    map_flags)].  When it throws, the members' destructors close the file. *)
Definition new_mmap (file_path flags : string) (initial_size : option Z)
    (initial_offset mode : Z) (flags_arg : option Z) : st mm_os MmapHandle :=
  prot ← of_result (protection_of flags);
  fd ← on_fds (wrapper_open file_path flags false mode (-1));
  r ← attempt (map_opened file_path initial_size initial_offset flags_arg prot fd);
  match r with
  | inr h => mret h
  | inl e => _ ← modify (close_wrapper fd); throw e
  end.

Definition mm_closed (h : MmapHandle) : bool := negb (mm_initialized h).

Definition mm_close (h : MmapHandle) (o : mm_os) : MmapHandle * mm_os :=
  if mm_closed h || (map_addr h =? 0) then (h, o)
  else
    let o := unmap (map_addr h) o in
    let o := close_wrapper (file_wrapper h) o in
    (mkMmap 0 0 0 0 0 0 0 false 0 0 (-1) (mm_file_path h), o).

(** The move constructor: the new handle and what is left of the other. *)
Definition move_mmap (other : MmapHandle) : MmapHandle * MmapHandle := (other, no_mmap).

(** Move assignment from another handle; the descriptor's own move assignment
    closes what [close] left open. *)
Definition move_assign_mmap (h other : MmapHandle) (o : mm_os) : (MmapHandle * MmapHandle) * mm_os :=
  let '(h, o) := mm_close h o in
  (move_mmap other, close_wrapper (file_wrapper h) o).

(** [~MmapHandle], with the destructor of the descriptor. *)
Definition destroy_mmap (h : MmapHandle) (o : mm_os) : mm_os :=
  let '(h, o) := mm_close h o in close_wrapper (file_wrapper h) o.

(** [file_size], which is [nbytes]. *)
Definition mm_nbytes (h : MmapHandle) : st mm_os Z :=
  if mm_closed h then mret 0 else get_file_size (file_wrapper h).

(** ** Reads *)

Definition validate_and_adjust_read_args (h : MmapHandle) (size : option Z) (offset : Z) : result Z :=
  _ ← expect (negb (mm_closed h)) (RuntimeError "Cannot read from a closed MmapHandle");
  _ ← expect (offset <=? mm_file_size h) (OutOfRange "Offset is past the end of file.");
  let actual_size := default (mm_file_size h -% offset) size in
  _ ← expect ((offset >=? initial_map_offset h)
              && (offset +% actual_size <=? initial_map_offset h +% initial_map_size h))
        (OutOfRange "Read is out of bound.");
  mret actual_size.
End handle.

(** The byte at an address of the process, mapped by [h] or not. *)
Definition load (h : MmapHandle) (s : io_state) (a : Z) : Z :=
  if in_range a (map_addr h) (map_size h) then file s (map_offset h + (a - map_addr h)) else host s a.

(** [std::memcpy] from memory that may be mapped. *)
Definition memcpy_mapped (h : MmapHandle) (dst src n : Z) (s : io_state) : io_state :=
  set_host (blit (host s) dst (load h s) src n) s.

Section reads.
Context `{Kernel} `{CudaCopy} `{ErrorTexts} `{CudaDriver} `{AtsDriver}.
Context (cuda_pool : bounce_pool_type -> BouncePool).
Context (page : Z) (bounce_size : Z).

(** [detail::read_impl]; [ctx] is used for device memory. *)
Definition mmap_read_impl (h : MmapHandle) (dst_buf src_mapped_buf size buf_offset : Z)
    (is_dst_buf_host_mem : bool) (ctx : Z) (s : io_state) (p : CudaProcess)
    : result (io_state * CudaProcess) :=
  let src := src_mapped_buf + buf_offset in
  let dst := dst_buf + buf_offset in
  if is_dst_buf_host_mem then mret (memcpy_mapped h dst src size s, p)
  else
    in_context ctx
      (_ ← expect cuda_stream_ok cuda_stream_error;
       ats ← is_ats_available ctx;
       if ats : bool then
         _ ← perform_prefault page src size;
         _ ← expect (cuda_copy_ok s) cuda_stream_error;
         mret (set_device (blit (device s) dst (load h s) src size) s)
       else
         bounce_buffer ← bounce_get (BouncePool := cuda_pool CudaPinned) s;
         let s := memcpy_mapped h (b_buffer bounce_buffer) src size s in
         copy_to_device dst (b_buffer bounce_buffer) size s) p.

Section observed_reads.
Variables (script : Z -> list call) (thread now : Z).

Definition mmap_context (h : MmapHandle) (kind : MemoryKind) (parent : option Z)
    : PhysicalObservationContext :=
  mkContext MMAP Observation.READ kind parent (mm_file_path h) None.

(** [MmapHandle::read] *)
Definition mmap_read (h : MmapHandle) (buf : Z) (size : option Z) (offset : Z)
    (s : io_state) (w : world) (p : CudaProcess) : result (Z * io_state * world * CudaProcess) :=
  _ ← expect_not_in_monitor thread w;
  actual_size ← validate_and_adjust_read_args h size offset;
  if actual_size =? 0 then mret (actual_size, s, w, p)
  else
    '(is_host, p) ← run_st (is_host_memory buf) p;
    let kind := if is_host : bool then HOST else DEVICE in
    '(recorder, w) ← logical_new script thread now MMAP Observation.READ kind offset actual_size
                       (mm_file_path h) None w;
    '(physical_recorder, w) ← physical_new script thread now
                                (mmap_context h kind (logical_id recorder)) offset actual_size w;
    '(ctx, p) ← (if is_host then mret (0, p) else run_st (get_context_from_pointer buf) p);
    let src_mapped_buf := mm_buf h + (offset -% initial_map_offset h) in
    '(s, p) ← mmap_read_impl h buf src_mapped_buf actual_size 0 is_host ctx s p;
    '(_, w) ← physical_finish script thread now actual_size physical_recorder w;
    '(_, w) ← logical_finish script thread now actual_size recorder w;
    mret (actual_size, s, w, p).

(** What a task of [pread] does; its physical observation is around it. *)
Definition mmap_task (h : MmapHandle) (buf src_mapped_buf : Z) (is_host : bool) (ctx : Z)
    (physical : PhysicalObservationContext) (t : IoTask) (s : io_state) (w : world) (p : CudaProcess)
    : result (Z * (io_state * CudaProcess) * world) :=
  observed script thread now physical (tk_file_offset t) (tk_size t)
    (fun sp : io_state * CudaProcess =>
       sp ← mmap_read_impl h buf src_mapped_buf (tk_size t) (tk_devPtr_offset t) is_host ctx sp.1 sp.2;
       mret (tk_size t, sp)) (s, p) w.

Inductive mmap_plan :=
  | MmapFinished (n : Z)
  | MmapSubmitted (src_mapped_buf : Z) (is_host : bool) (ctx : Z)
      (physical : PhysicalObservationContext) (s : submission).

(** [MmapHandle::pread] *)
Definition mmap_pread (h : MmapHandle) (buf : Z) (size : option Z)
    (offset task_size pool call_counter : Z) (w : world) (p : CudaProcess)
    : result (mmap_plan * world * CudaProcess) :=
  _ ← expect (task_size <=? bounce_size)
        (CUfileException "bounce buffer size cannot be less than task size.");
  _ ← expect (negb (pool =? 0)) (CUfileException "The thread pool must not be nullptr");
  _ ← expect (task_size >? 0) (InvalidArgument "`task_size` must be positive");
  _ ← expect_not_in_monitor thread w;
  actual_size ← validate_and_adjust_read_args h size offset;
  if actual_size =? 0 then mret (MmapFinished actual_size, w, p)
  else
    let '((color, idx), _) := get_next_color_and_call_idx call_counter in
    '(is_host, p) ← run_st (is_host_memory buf) p;
    '(ctx, p) ← (if is_host : bool then mret (0, p) else run_st (get_context_from_pointer buf) p);
    let kind := if is_host : bool then HOST else DEVICE in
    '(recorder, w) ← logical_new script thread now MMAP Observation.READ kind offset actual_size
                       (mm_file_path h) None w;
    let physical := mmap_context h kind (logical_id recorder) in
    let src_mapped_buf := mm_buf h + (offset -% initial_map_offset h) in
    sub ← parallel_io w thread page actual_size offset task_size 0
            (mkParallelIoOptions pool idx color None (log_active recorder));
    mret (MmapSubmitted src_mapped_buf is_host ctx physical sub, w, p).
End observed_reads.
End reads.
