(* ===== verification/MmapSpec.v ===== *)
(** * Memory-mapped files: correctness

    A handle that was constructed maps what it says; reads stay inside the
    mapping and deliver the file's bytes; prefaulting touches only the range
    it is given; descriptors and mappings are released exactly once. *)

From stdpp Require Import base list strings gmap sets.
From Stdlib Require Import ZArith Lia Permutation.
From S2P Require Import Prelude Utils Defaults FileHandle Observation ParallelIo BounceBuffer PosixIo Cuda FileIo FileIoSpec Mmap.

#[local] Open Scope Z_scope.

(** ** Prefault *)

Section prefault.
Variables (k page buf size : Z).
Hypothesis page_pow2 : 0 <= k < 63.
Hypothesis page_is : page = 2 ^ k.

Definition prefault_inv (aligned rest skipped : Z) (p : prefault_state) : Prop :=
  0 <= left_ p <= rest /\
  aligned_addr p = aligned + (rest - left_ p) /\
  Forall (fun a => buf <= a < aligned + rest) (touched p) /\
  (stopped p = false -> touched_bytes p = skipped + (rest - left_ p) /\
     (forall i, 0 <= i -> page * i < rest - left_ p -> aligned + page * i ∈ touched p)) /\
  (stopped p = true -> touched_bytes p = skipped + rest /\
     (forall i, 0 <= i -> page * i < rest -> aligned + page * i ∈ touched p)) /\
  (stopped p = false -> (page | rest - left_ p)).

Lemma prefault_body_inv aligned rest skipped p :
  0 <= skipped -> buf <= aligned -> skipped + rest < SIZE_MOD ->
  prefault_inv aligned rest skipped p -> prefault_cond p = true ->
  returns (prefault_body page p)
    (fun p' => prefault_inv aligned rest skipped p' /\
       (stopped p' = false -> left_ p' = left_ p - page) /\ left_ p' <= left_ p) (fun _ => False).
Proof.
  intros Hsk Ha Hov (Hl & Haddr & Hin & Hrun & _ & Hdiv) Hc.
  assert (0 < page) by (rewrite page_is; apply pow2_pos; lia).
  unfold prefault_cond in Hc. bool_to_prop. destruct (Hrun ltac:(done)) as [Htb Hcov].
  specialize (Hdiv ltac:(done)). destruct Hdiv as [m Hm]. unfold prefault_body.
  assert (Hin' : Forall (fun a => buf <= a < aligned + rest) (touched p ++ [aligned_addr p])).
  { apply Forall_app. split; [done|]. constructor; [lia|done]. }
  destruct (left_ p >=? page) eqn:Hge; bool_to_prop; simpl.
  - rewrite !wrap64_small by lia. split; [|lia]. split; simpl; [lia|]. split; [lia|]. split; [done|].
    split; [|split; [done|]].
    + intros _. split; [lia|]. intros i Hi Hlt. apply elem_of_app.
      destruct (decide (page * i < rest - left_ p)); [left; by apply Hcov|right].
      apply list_elem_of_singleton. assert (i = m) by nia. subst i. nia.
    + intros _. exists (m + 1). lia.
  - rewrite wrap64_small by lia. split; [|done]. split; simpl; [lia|]. split; [lia|]. split; [done|].
    split; [done|]. split; [|done]. intros _. split; [lia|]. intros i Hi Hlt. apply elem_of_app.
    destruct (decide (page * i < rest - left_ p)); [left; by apply Hcov|right].
    apply list_elem_of_singleton. assert (i = m) by nia. subst i. nia.
Qed.
Lemma prefault_loop aligned rest skipped seen :
  0 < rest -> 0 <= skipped -> buf <= aligned -> skipped + rest < SIZE_MOD -> Forall (fun a => buf <= a < aligned + rest) seen ->
  returns (while_loop (prefault_fuel page rest) prefault_cond (prefault_body page)
             (mkPrefault aligned rest skipped seen false))
    (fun p => touched_bytes p = skipped + rest /\
       Forall (fun a => buf <= a < aligned + rest) (touched p) /\ 
       (forall a, a ∈ seen -> a ∈ touched p) /\
       (forall i, 0 <= i -> page * i < rest -> aligned + page * i ∈ touched p)) (fun _ => False).
Proof.
  intros Hr Hsk Hal Hov Hseen. assert (0 < page) by (rewrite page_is; apply pow2_pos; lia).
  eapply returns_mono.
  - apply (while_rule (fun p => prefault_inv aligned rest skipped p /\ (forall a, a ∈ seen -> a ∈ touched p))
             (fun p => if stopped p then 0 else 1 + left_ p / page) (fun _ => False)).
    + intros p [Hp Hs] Hc. pose proof (prefault_body_inv aligned rest skipped p Hsk Hal Hov Hp Hc) as Hb.
      unfold prefault_cond in Hc. bool_to_prop. destruct (stopped p); [done|].
      destruct Hp as [Hl _]. pose proof (Z.div_pos (left_ p) page ltac:(lia) ltac:(lia)).
      split; [lia|]. assert (Hsub : forall p', prefault_body page p = Ok p' ->
        forall a, a ∈ touched p -> a ∈ touched p').
      { intros p' Hp' a Ha. unfold prefault_body in Hp'. simpl in Hp'. injection Hp' as <-.
        destruct (_ >=? _); simpl; apply elem_of_app; by left. }
      destruct (prefault_body page p) as [p'|e|]; [|done..]. simpl in *.
      destruct Hb as (Hi & Hstep & Hle). split; [split; [done|]; intros a Ha; by apply (Hsub p'), Hs|].
      destruct (stopped p'); [lia|]. rewrite (Hstep eq_refl).
      replace (left_ p - page) with (left_ p + (-1) * page) by lia. rewrite Z.div_add by lia.
      destruct Hi as [[Hl' _] _]. rewrite (Hstep eq_refl) in Hl'.
      assert (1 <= left_ p / page) by (apply Z.div_le_lower_bound; lia). lia.
    + split; [|done]. unfold prefault_inv. simpl. rewrite Z.sub_diag. split; [lia|]. split; [lia|].
      split; [done|]. split; [|split; [done|by exists 0]]. intros _. split; [lia|]. intros; nia.
    + simpl. unfold prefault_fuel. pose proof (Z.div_pos rest page ltac:(lia) ltac:(lia)). lia.
  - intros p [[(Hl & Haddr & Hin & Hrun & Hstop & Hdiv) Hs] Hc]. unfold prefault_cond in Hc.
    destruct (stopped p); [destruct (Hstop eq_refl); repeat (split; [done|]); done|].
    simpl in Hc. bool_to_prop. destruct (Hrun eq_refl) as [Ht Hcov].
    assert (left_ p = 0) as H0 by lia. rewrite H0, Z.sub_0_r in *. split; [lia|].
    repeat (split; [done|]). done.
  - done.
Qed.

Lemma prefault_spec :
  0 < size -> 0 <= buf -> buf + page < SIZE_MOD -> size < SIZE_MOD ->
  exists n ts, perform_prefault page buf size = Ok (n, ts) /\
    Forall (fun a => buf <= a < buf + size) ts /\ buf ∈ ts /\
    (2 * ((- buf) mod page) < size ->
       n = size /\ (forall a, (page | a) -> buf <= a < buf + size -> a ∈ ts)).
Proof.
  intros Hs Hb Hov Hsz. assert (0 < page) by (rewrite page_is; apply pow2_pos; lia).
  set (al := page * ((buf + page - 1) / page)).
  assert (Hal : align_up_addr buf page = Ok al).
  { change (align_up buf page = Ok al). unfold al. rewrite page_is in *.
    apply align_up_ok; [lia|unfold is_size; lia|lia]. }
  assert (Hd : al - buf = (- buf) mod page).
  { unfold al. apply (Z.mod_unique_pos _ _ (- ((buf + page - 1) / page))).
    - pose proof (Z.mod_pos_bound (buf + page - 1) page). pose proof (Z.div_mod (buf + page - 1) page). lia.
    - lia. }
  pose proof (Z.mod_pos_bound (- buf) page ltac:(lia)) as Hmod.
  assert (Hpages : forall rest sk (ts : list Z), al - buf <= sk -> sk + rest = size ->
    (forall i, 0 <= i -> page * i < rest -> al + page * i ∈ ts) -> sk = al - buf -> buf ∈ ts ->
    forall a, (page | a) -> buf <= a < buf + size -> a ∈ ts).
  { intros rest sk ts Hsk Hsum Hcov -> Hbuf a [m ->] Ha.
    destruct (decide (m * page < al)) as [Hlt|Hge].
    - assert (m * page = buf) as ->; [|done].
      unfold al in Hlt. pose proof (Z.div_mod (buf + page - 1) page ltac:(lia)).
      pose proof (Z.mod_pos_bound (buf + page - 1) page ltac:(lia)).
      assert (m < (buf + page - 1) / page) by nia. nia.
    - replace (m * page) with (al + page * (m - (buf + page - 1) / page)) by (unfold al; nia).
      apply Hcov; unfold al in *; nia. }
  unfold perform_prefault. rewrite Hal. cbn [mbind result_bind].
  destruct (al - buf >? 0) eqn:Hn; bool_to_prop.
  - destruct (size >=? al - buf) eqn:Hge; bool_to_prop.
    + rewrite (wrap64_small (size - (al - buf))) by lia.
      destruct (al - buf >=? size - (al - buf)) eqn:Hskip; bool_to_prop.
      * exists (al - buf), [buf]. split; [done|]. split; [repeat constructor; lia|]. split; [by left|]. lia.
      * destruct (returns_ok _ _ (prefault_loop al (size - (al - buf)) (al - buf) [buf] ltac:(lia) ltac:(lia)
          ltac:(lia) ltac:(lia) ltac:(repeat constructor; lia))) as (p & -> & Ht & Hin & Hseen & Hcov).
        cbn [mbind result_bind]. exists (touched_bytes p), (touched p). split; [done|].
        replace (buf + size) with (al + (size - (al - buf))) by lia.
        split; [done|]. assert (buf ∈ touched p) by (apply Hseen; by left). split; [done|]. intros _.
        split; [lia|]. replace (al + (size - (al - buf))) with (buf + size) by lia.
        by apply (Hpages (size - (al - buf)) (al - buf)); try lia.
    + replace (al - buf >=? size) with true by lia.
      exists (al - buf), [buf]. split; [done|]. split; [repeat constructor; lia|]. split; [by left|]. lia.
  - assert (al = buf) as Heq by lia. replace (al - buf >=? size) with false by lia.
    destruct (returns_ok _ _ (prefault_loop al size 0 [] ltac:(lia) ltac:(lia)
      ltac:(lia) ltac:(lia) ltac:(constructor))) as (p & -> & Ht & Hin & Hseen & Hcov).
    cbn [mbind result_bind]. exists (touched_bytes p), (touched p). split; [done|]. rewrite Heq in *.
    split; [done|]. assert (buf ∈ touched p) as Hbuf.
    { specialize (Hcov 0 ltac:(lia) ltac:(lia)). by rewrite Z.mul_0_r, Z.add_0_r in Hcov. }
    split; [done|]. intros _. split; [lia|]. by apply (Hpages size 0); try lia.
Qed.

(** C33. Prefaulting reads only addresses of the range it was given, the first
    one among them; and when the range is longer than twice its part before
    the first page boundary, it touches every page of the range and counts
    every byte. *)
Theorem prefault_stays_in_range :
  0 < size -> 0 <= buf -> buf + page < SIZE_MOD -> size < SIZE_MOD ->
  exists n ts, perform_prefault page buf size = Ok (n, ts) /\
    Forall (fun a => buf <= a < buf + size) ts /\ buf ∈ ts /\
    (2 * ((- buf) mod page) < size ->
       n = size /\ (forall a, (page | a) -> buf <= a < buf + size -> a ∈ ts)).
Proof. exact prefault_spec. Qed.
End prefault.

Example prefault_stays_in_range_witness :
  exists n ts, perform_prefault 4096 5000 20000 = Ok (n, ts) /\
    Forall (fun a => 5000 <= a < 5000 + 20000) ts /\ 5000 ∈ ts /\
    (2 * ((- (5000)) mod 4096) < 20000 ->
       n = 20000 /\ (forall a, (4096 | a) -> 5000 <= a < 5000 + 20000 -> a ∈ ts)).
Proof. apply (prefault_stays_in_range 12 4096 5000 20000); lia. Defined.

(** Else it can stop early: here the second page is not touched. *)
Example prefault_skips_a_page : perform_prefault 4096 4196 5000 = Ok (3996, [4196]).
Proof. reflexivity. Qed.

(** ** What a handle maps and owns *)

(** A handle with a mapping maps the pages around the region it was asked for,
    a part of the file. *)
Record mm_ok (page : Z) (h : MmapHandle) : Prop := mkMmOk {
  mo_region : 0 <= initial_map_offset h /\ 0 < initial_map_size h /\
    initial_map_offset h + initial_map_size h <= mm_file_size h < SSIZE_MAX;
  mo_offset : (page | map_offset h) /\ 0 <= map_offset h <= initial_map_offset h /\
    initial_map_offset h < map_offset h + page;
  mo_size : map_offset h + map_size h = initial_map_offset h + initial_map_size h;
  mo_buf : mm_buf h = map_addr h + (initial_map_offset h - map_offset h);
  mo_addr : 0 < map_addr h /\ map_addr h + map_size h < SIZE_MOD }.

(** The region a handle says it maps does not wrap around: the bounds checks
    only mean something for these. *)
Definition region_fits (h : MmapHandle) : Prop := initial_map_offset h + initial_map_size h < SIZE_MOD.

Definition mapped (h : MmapHandle) : bool := mm_initialized h && negb (map_addr h =? 0).

Definition own_map (h : MmapHandle) : gmap Z Z :=
  if mapped h then {[map_addr h := map_size h]} else ∅.

(** [h] and the rest of the process, which owns the descriptors [F], the
    registrations [R] and the mappings [M], share the system between them. *)
Record mm_holds (page : Z) (h : MmapHandle) (F : gset Z) (R M : gmap Z Z) (o : mm_os) : Prop := mkMmHolds {
  mh_ok : mapped h = true -> region_fits h -> mm_ok page h;
  mh_closed : mm_initialized h = false -> file_wrapper h = -1;
  mh_empty : mapped h = false -> initial_map_size h = 0 /\ mm_file_size h = 0;
  mh_fds : open_fds (mm_fds o) = fd_set (file_wrapper h) ∪ F;
  mh_fds_apart : fd_set (file_wrapper h) ## F;
  mh_regs : registered_fds (mm_fds o) = R;
  mh_maps : mappings o = own_map h ∪ M;
  mh_maps_apart : own_map h ##ₘ M;
  mh_frame : forall c x, R !! c = Some x -> x ∈ F;
  mh_misused : misused (mm_fds o) = false /\ unmap_misused o = false }.

(** Nothing but the frame. *)
Definition mm_frame (F : gset Z) (R M : gmap Z Z) (o : mm_os) : Prop :=
  open_fds (mm_fds o) = F /\ registered_fds (mm_fds o) = R /\ mappings o = M /\
  (forall c x, R !! c = Some x -> x ∈ F) /\ misused (mm_fds o) = false /\ unmap_misused o = false.

Section ownership.
Context `{PlatformLaws} `{MmapPlatform} `{!MmapPlatformLaws}.
Context (k page : Z) (page_pow2 : 0 <= k < 63) (page_is : page = 2 ^ k).

Lemma close_wrapper_frame fd F R M o :
  open_fds (mm_fds o) = fd_set fd ∪ F -> fd_set fd ## F -> registered_fds (mm_fds o) = R ->
  mappings o = M -> (forall c x, R !! c = Some x -> x ∈ F) ->
  misused (mm_fds o) = false -> unmap_misused o = false ->
  mm_frame F R M (close_wrapper fd o).
Proof.
  intros Hf Ha Hr Hm Hfr Hmis Hun. unfold close_wrapper, wrapper_close.
  destruct (opened fd) eqn:Hop; unfold mm_frame; simpl.
  - assert (fd_set fd = {[fd]}) as Hfd by (unfold fd_set; by rewrite Hop). rewrite Hfd in *.
    rewrite Hf, Hr, Hmis. split; [set_solver|]. repeat (split; [done|]). split; [|done].
    rewrite bool_decide_eq_true_2 by set_solver. simpl. apply bool_decide_eq_false.
    intros (c & x & Hx & ->). apply Hfr in Hx. set_solver.
  - assert (fd_set fd = ∅) as Hfd by (unfold fd_set; by rewrite Hop). rewrite Hfd in Hf.
    split; [set_solver|]. done.
Qed.

Lemma frame_holds F R M o path : mm_frame F R M o ->
  mm_holds page (mkMmap 0 0 0 0 0 0 0 false 0 0 (-1) path) F R M o.
Proof.
  intros (E1 & E2 & E3 & E4 & E5 & E6). assert (Hno : fd_set (-1) = ∅) by done.
  split; cbn [file_wrapper]; rewrite ?Hno; unfold own_map; simpl; try done.
  - by rewrite E1, (left_id_L ∅ (∪)).
  - by rewrite E3, (left_id_L ∅ (∪)).
  - apply map_disjoint_empty_l.
Qed.

(** The arguments of the constructor are words. *)
Definition words (size : option Z) (offset : Z) : Prop :=
  is_size offset /\ match size with Some n => is_size n | None => True end.

Definition constructed (size : option Z) (offset : Z) (h : MmapHandle) : Prop :=
  mm_initialized h = true /\
  (mapped h = true -> initial_map_offset h = offset /\
     initial_map_size h = default (mm_file_size h - offset) size /\
     offset +% initial_map_size h <= mm_file_size h < SSIZE_MAX).

(** The descriptor is open and nobody else's. *)
Definition opened_frame (fd : Z) (F : gset Z) (R M : gmap Z Z) (o : mm_os) : Prop :=
  fd <> -1 /\ open_fds (mm_fds o) = fd_set fd ∪ F /\ fd_set fd ## F /\
  registered_fds (mm_fds o) = R /\ mappings o = M /\ (forall c x, R !! c = Some x -> x ∈ F) /\
  misused (mm_fds o) = false /\ unmap_misused o = false.

Lemma map_region_ok fd prot flags path n off file_size F R M o :
  opened_frame fd F R M o -> 0 <= off < file_size -> is_size n -> 0 < n -> file_size < SSIZE_MAX ->
  off +% n <= file_size ->
  ends (map_offset ← of_result (align_down off page);
        let offset_delta := off -% map_offset in
        let map_size := n +% offset_delta in
        addr ← map_file map_size prot flags fd map_offset;
        mret (mkMmap (addr + offset_delta) n off file_size map_offset map_size addr
                true prot flags fd path)) o
    (fun h o' => mm_holds page h F R M o' /\ constructed (Some n) off h /\ mm_file_size h = file_size)
    (fun _ o' => o' = o).
Proof.
  intros (Hfd & Hf & Hfa & Hr & Hm & Hfr & Hmis & Hun) Ho Hn Hn0 Hfs Hsz.
  assert (0 < page) by (rewrite page_is; apply pow2_pos; lia).
  rewrite page_is, align_down_ok by (unfold is_size; lia). rewrite <- page_is.
  unfold ends, mbind, st_bind, of_result, map_file. cbv beta iota zeta.
  pose proof (Z.mod_pos_bound off page ltac:(lia)) as Hmod.
  pose proof (Z.div_mod off page ltac:(lia)) as Hdm. set (mo := page * (off / page)) in *.
  assert (0 <= mo) by (assert (0 <= off / page) by (apply Z.div_pos; lia); nia).
  rewrite (wrap64_small (off - mo)) by lia.
  destruct (sys_mmap o _ _ _ _ _) as [addr|] eqn:Hmap; [|done].
  destruct (mmap_fresh _ _ _ _ _ _ _ Hmap) as (Ha0 & Ha1 & Hnone). rewrite Hm in Hnone.
  set (h := mkMmap _ _ _ _ _ _ _ _ _ _ _ _).
  assert (Hmd : mapped h = true) by (unfold mapped, h; simpl; destruct (addr =? 0) eqn:E; [lia|done]).
  split; [|by split].
  assert (own_map h = {[addr := n +% (off - mo)]}) as Hown by (unfold own_map; by rewrite Hmd).
  split; simpl; try done.
  - intros _ Hfit. unfold region_fits in Hfit. simpl in Hfit.
    unfold is_size in Hn. rewrite wrap64_small in Hsz by lia.
    assert (n +% (off - mo) = n + (off - mo)) as Hs by (apply wrap64_small; lia). rewrite Hs in Ha1.
    split; simpl; rewrite ?Hs; try lia. split; [by apply Z.divide_factor_l|lia].
  - congruence.
  - by rewrite Hown, Hm, insert_union_singleton_l.
  - rewrite Hown. by apply map_disjoint_singleton_l.
Qed.

Lemma map_opened_holds path size off flags prot fd F R M o :
  opened_frame fd F R M o -> words size off ->
  ends (map_opened page path size off flags prot fd) o
    (fun h o' => mm_holds page h F R M o' /\ constructed size off h)
    (fun _ o' => o' = o).
Proof.
  intros Ho [Hoff Hsz]. unfold map_opened, get_file_size. apply ends_bind, ends_bind.
  unfold ends at 1, get_st. pose proof (fstat_range o fd) as Hrange.
  apply ends_bind. unfold require at 1. destruct (negb (fstat_size o fd =? -1)) eqn:Hst; [|done].
  bool_to_prop. unfold ends at 1. cbn [mret st_ret]. unfold ends at 1. cbn [mret st_ret].
  set (fs := fstat_size o fd) in *. destruct (fs =? 0) eqn:Hz.
  - unfold ends. cbn [mret st_ret]. destruct Ho as (Hfd & Hf & Hfa & Hr & Hm & Hfr & Hmis & Hun).
    split; [|by split]. split; simpl; try done; unfold own_map; simpl;
      [by rewrite (left_id_L ∅ (∪))|apply map_disjoint_empty_l].
  - bool_to_prop. apply ends_bind. unfold require at 1. destruct (off <? fs) eqn:Hlt; [|done].
    unfold ends at 1. cbn [mret st_ret]. bool_to_prop. unfold is_size in Hoff.
    rewrite (wrap64_small (fs - off)) by lia. set (n := default (fs - off) size).
    apply ends_bind. unfold require at 1. destruct (n >? 0) eqn:Hn; [|done].
    unfold ends at 1. cbn [mret st_ret]. bool_to_prop.
    assert (Hw : is_size n) by (unfold n in *; destruct size; [done|unfold is_size; simpl; lia]).
    apply ends_bind. unfold require at 1. destruct (off +% n <=? fs) eqn:Hle; [|done].
    unfold ends at 1. cbn [mret st_ret]. bool_to_prop.
    eapply ends_mono;
      [apply (map_region_ok fd prot (default MAP_PRIVATE flags) path n off fs F R M o Ho); done || lia| |done].
    intros h o' (Hh & [Hi Hc] & Hfs). split; [done|]. split; [done|]. intros Hmd.
    destruct (Hc Hmd) as (Hc1 & Hc2 & Hc3). split; [done|]. split; [|done].
    rewrite Hc2, Hfs. unfold n. by destruct size.
Qed.

Lemma new_mmap_holds path flags size off mode flags_arg F R M o :
  mm_frame F R M o -> words size off ->
  ends (new_mmap page path flags size off mode flags_arg) o
    (fun h o' => mm_holds page h F R M o' /\ constructed size off h)
    (fun _ o' => mm_frame F R M o').
Proof.
  intros Ho Hreg. unfold new_mmap. apply ends_bind.
  assert (Hpure : forall A (r : result A) Q, (forall a, Q a o) ->
    ends (of_result r) o Q (fun _ => mm_frame F R M)) by (by intros A [| |] Q HQ; unfold ends; simpl).
  apply Hpure. intros prot. apply ends_bind. unfold ends at 1, on_fds, wrapper_open, open_fd.
  destruct (opened (-1)) eqn:Hop; [done|]. cbn [negb]. unfold mbind at 1, st_bind at 1, of_result at 1.
  destruct Ho as (Hf & Hr & Hm & Hfr & Hmis & Hun).
  destruct (open_fd_parse_flags flags false) as [file_flags|e|]; [|by repeat split..].
  unfold os_open. destruct (sys_open (mm_fds o) path file_flags mode) as [e|fd] eqn:Hopen; [by repeat split|].
  destruct (sys_open_fresh _ _ _ _ _ Hopen) as [Hfd Hfresh]. rewrite Hf in Hfresh.
  set (o1 := mkMmOs _ _ _). assert (Hset : fd_set fd = {[fd]}) by (apply fd_set_opened; lia).
  assert (Ho1 : opened_frame fd F R M o1).
  { unfold opened_frame, o1. simpl. rewrite Hset, Hf. split; [lia|]. split; [done|]. split; [set_solver|done]. }
  apply ends_bind, ends_attempt. eapply ends_mono; [by apply map_opened_holds|done|].
  intros e o2 ->. apply ends_bind. unfold ends, modify, throw.
  destruct Ho1 as (_ & Hf1 & Ha1 & Hr1 & Hm1 & Hfr1 & Hmis1 & Hun1).
  by apply close_wrapper_frame.
Qed.
(** [munmap] of a mapping succeeds. *)
Hypothesis munmap_ok : forall o addr, is_Some (mappings o !! addr) -> sys_munmap o addr = true.

(** Closing gives everything back, except that a handle of an empty file keeps
    its descriptor and stays open. *)
Lemma mm_close_holds h F R M o :
  mm_holds page h F R M o ->
  let '(h', o') := mm_close h o in
  mm_holds page h' F R M o' /\ mapped h' = false /\ (mapped h = true -> mm_initialized h' = false).
Proof.
  intros Hh. unfold mm_close, mm_closed. destruct (mapped h) eqn:Hm; pose proof Hm as Hm';
    unfold mapped in Hm'.
  - apply andb_true_iff in Hm' as [Hi Ha]. apply negb_true_iff in Ha. rewrite Hi, Ha. simpl.
    destruct Hh as [Hok Hcl Hem Hf Hfa Hr Hmp Hma Hfr [Hmis Hun]].
    assert (Hown : own_map h = {[map_addr h := map_size h]}) by (unfold own_map; by rewrite Hm).
    rewrite Hown in *.
    assert (Hlook : mappings o !! map_addr h = Some (map_size h))
      by (rewrite Hmp; apply lookup_union_Some_l, lookup_singleton_eq).
    unfold unmap. rewrite munmap_ok by (by eexists). set (o1 := mkMmOs _ _ _).
    assert (Hfrm : mm_frame F R M (close_wrapper (file_wrapper h) o1)).
    { apply close_wrapper_frame; simpl; try done.
      - rewrite Hmp, <- insert_union_singleton_l. apply delete_insert_id.
        apply map_disjoint_singleton_l in Hma. done.
      - rewrite Hun. simpl. apply bool_decide_eq_false. congruence. }
    destruct Hfrm as (E1 & E2 & E3 & E4 & E5 & E6). split; [|done].
    by apply frame_holds.
  - destruct (negb (mm_initialized h) || (map_addr h =? 0)) eqn:Hc; [done|].
    exfalso. apply orb_false_iff in Hc as [Hc1 Hc2]. apply andb_false_iff in Hm' as [Hx|Hx];
      [by rewrite Hx in Hc1|]. by rewrite Hc2 in Hx.
Qed.

Lemma destroy_mmap_frame h F R M o : mm_holds page h F R M o -> mm_frame F R M (destroy_mmap h o).
Proof.
  intros Hh. unfold destroy_mmap. pose proof (mm_close_holds h F R M o Hh) as Hc.
  destruct (mm_close h o) as [h' o']. destruct Hc as ([] & Hm & _).
  apply close_wrapper_frame; try done; try tauto.
  rewrite mh_maps0. unfold own_map. rewrite Hm. apply (left_id_L ∅ (∪)).
Qed.

End ownership.

(** *** Lives *)

(** What happens to the one variable that holds a handle. *)
Inductive mmap_op :=
  | MClose
  | MAssign (path flags : string) (size : option Z) (offset mode : Z) (flags_arg : option Z).

Section lives.
Context `{Platform} `{MmapPlatform}.
Variable page : Z.

(** [h.close()], or [h = MmapHandle(...)], whose temporary is destroyed. *)
Definition mmap_step (c : mmap_op) (h : MmapHandle) (o : mm_os) : MmapHandle * mm_os :=
  match c with
  | MClose => mm_close h o
  | MAssign path flags size off mode flags_arg =>
      match new_mmap page path flags size off mode flags_arg o with
      | (inl _, o) => (h, o)
      | (inr t, o) => let '((h, t), o) := move_assign_mmap h t o in (h, destroy_mmap t o)
      end
  end.

Definition mmap_life (ops : list mmap_op) (o : mm_os) : mm_os :=
  let '(h, o) := foldl (fun ho c => mmap_step c ho.1 ho.2) (no_mmap, o) ops in destroy_mmap h o.
End lives.

Section lives_correct.
Context `{PlatformLaws} `{MmapPlatform} `{!MmapPlatformLaws}.
Context (k page : Z) (page_pow2 : 0 <= k < 63) (page_is : page = 2 ^ k).
Hypothesis munmap_ok : forall o addr, is_Some (mappings o !! addr) -> sys_munmap o addr = true.

Lemma holds_frame h F R M o :
  mm_holds page h F R M o -> mm_frame (fd_set (file_wrapper h) ∪ F) R (own_map h ∪ M) o.
Proof. intros []. unfold mm_frame. repeat (split; [done|]). split; [set_solver|done]. Qed.

(** Two handles side by side: each is part of the other's frame. *)
Lemma holds_swap h t F R M o o1 :
  mm_holds page h F R M o ->
  mm_holds page t (fd_set (file_wrapper h) ∪ F) R (own_map h ∪ M) o1 ->
  mm_holds page h (fd_set (file_wrapper t) ∪ F) R (own_map t ∪ M) o1.
Proof.
  intros [Hok Hcl Hem Hf Hfa Hr Hm Hma Hfr Hmis] [Tok Tcl Tem Tf Tfa Tr Tm Tma Tfr Tmis].
  apply map_disjoint_union_r in Tma as [Tmh TmM].
  split; try done.
  - rewrite Tf. set_solver.
  - set_solver.
  - rewrite Tm, !(assoc_L (∪)). f_equal. by apply map_union_comm.
  - apply map_disjoint_union_r. by split.
  - set_solver.
Qed.

Lemma frame_of_holds t F R M o o1 :
  mm_holds page t F R M o -> mm_frame (fd_set (file_wrapper t) ∪ F) R (own_map t ∪ M) o1 ->
  mm_holds page t F R M o1.
Proof. intros [] (E1 & E2 & E3 & E4 & E5 & E6). by split. Qed.

Lemma destroyed_no_mmap o : destroy_mmap no_mmap o = o.
Proof. unfold destroy_mmap, close_wrapper. by destruct o. Qed.

Lemma mmap_step_holds c h F R M o :
  match c with MAssign _ _ size off _ _ => words size off | MClose => True end ->
  mm_holds page h F R M o ->
  let '(h', o') := mmap_step page c h o in mm_holds page h' F R M o'.
Proof.
  intros Hc Hh. destruct c as [|path flags size off mode flags_arg]; cbn [mmap_step].
  - pose proof (mm_close_holds k page page_pow2 munmap_ok h F R M o Hh) as Hcl.
    destruct (mm_close h o) as [h' o']. by destruct Hcl.
  - pose proof (new_mmap_holds k page page_pow2 page_is path flags size off mode flags_arg _ _ _ o
      (holds_frame h F R M o Hh) Hc) as Hn. unfold ends in Hn.
    destruct (new_mmap _ _ _ _ _ _ _ o) as [[e|t] o1]; [by eapply frame_of_holds|].
    destruct Hn as [Ht _]. pose proof (holds_swap h t F R M o o1 Hh Ht) as Hh1.
    unfold move_assign_mmap.
    pose proof (destroy_mmap_frame k page page_pow2 munmap_ok h _ _ _ o1 Hh1) as Hd. unfold destroy_mmap in Hd.
    destruct (mm_close h o1) as [h1 o2]. cbn [move_mmap]. rewrite destroyed_no_mmap.
    destruct Hd as (E1 & E2 & E3 & E4 & E5 & E6).
    destruct Ht as [Tok Tcl Tem Tf Tfa Tr Tm Tma Tfr Tmis]. destruct Hh as [_ _ _ _ _ _ _ _ Hfr _].
    apply map_disjoint_union_r in Tma as [_ TmM].
    split; try done. set_solver.
Qed.
End lives_correct.

(** Descriptors and mappings are released exactly once: whatever sequence
    of constructions that are assigned over each other, failing or not, and
    closes a handle goes through, once it is destroyed the process has exactly
    the descriptors and mappings it had before, and nothing was closed or
    unmapped that was not there. *)
Theorem mmap_releases_everything `{PlatformLaws} `{MmapPlatform} `{!MmapPlatformLaws}
    (k page : Z) (ops : list mmap_op) (o : mm_os) :
  0 <= k < 63 -> page = 2 ^ k ->
  (forall o addr, is_Some (mappings o !! addr) -> sys_munmap o addr = true) ->
  Forall (fun c => match c with MAssign _ _ size off _ _ => words size off | MClose => True end) ops ->
  (forall c x, registered_fds (mm_fds o) !! c = Some x -> x ∈ open_fds (mm_fds o)) ->
  misused (mm_fds o) = false -> unmap_misused o = false ->
  let o' := mmap_life page ops o in
  open_fds (mm_fds o') = open_fds (mm_fds o) /\ mappings o' = mappings o /\
  registered_fds (mm_fds o') = registered_fds (mm_fds o) /\
  misused (mm_fds o') = false /\ unmap_misused o' = false.
Proof.
  intros Hk Hp Hun Hops Hreg Hm1 Hm2. cbv zeta. unfold mmap_life.
  assert (Hinv : forall h o1, mm_holds page h (open_fds (mm_fds o)) (registered_fds (mm_fds o)) (mappings o) o1 ->
    let '(h', o') := foldl (fun ho c => mmap_step page c ho.1 ho.2) (h, o1) ops in
    mm_holds page h' (open_fds (mm_fds o)) (registered_fds (mm_fds o)) (mappings o) o').
  { induction Hops as [|c ops Hc _ IH]; intros h o1 Hh; [done|]. cbn [foldl fst snd].
    pose proof (mmap_step_holds k page Hk Hp Hun c h _ _ _ o1 Hc Hh) as Hs.
    destruct (mmap_step page c h o1) as [h2 o2]. by apply IH. }
  specialize (Hinv no_mmap o (frame_holds page _ _ _ o "" ltac:(done))).
  destruct (foldl _ _ ops) as [h' o'].
  by destruct (destroy_mmap_frame k page Hk Hun h' _ _ _ o' Hinv) as (E1 & E2 & E3 & _ & E5 & E6).
Qed.

(** ** Reads *)

Section reads.
Context `{CudaCopy} `{ErrorTexts} `{CudaDriver} `{!CudaDriverLaws} `{AtsDriver}.
Context (host_pool : BouncePool) (cuda_pool : bounce_pool_type -> BouncePool).
Context (page : Z) (bounce_size : Z) (host_area cuda_area : Z -> Prop).
Context `{!StagingLaws host_pool cuda_pool page host_area cuda_area bounce_size}.

Abbreviation area := (any_area host_area cuda_area).








End reads.



(** ** Examples *)

(** A file of 20000 bytes, mapped at 2^30. *)
Definition test_mmap : MmapPlatform :=
  {| sys_mmap o n _ _ _ _ := if bool_decide (mappings o !! 1073741824 = None)
                                && (n <? 1073741824) then Some 1073741824 else None;
     sys_munmap o addr := bool_decide (is_Some (mappings o !! addr));
     fstat_size _ _ := 20000 |}.

Lemma test_mmap_laws : MmapPlatformLaws (H := test_mmap).
Proof.
  split; [|done]. intros o n prot flags fd off addr. simpl. destruct (_ && _) eqn:Hg; [|done].
  apply andb_true_iff in Hg as [Hn Hb]. intros [= <-]. bool_to_prop.
  split; [lia|]. split; [lia|done].
Qed.

Definition empty_process : mm_os := mkMmOs (mkOs ∅ ∅ 0 false) ∅ false.

Section demo.
#[local] Existing Instance test_mmap.
#[local] Existing Instance test_mmap_laws.
#[local] Existing Instance no_texts.
#[local] Existing Instance one_device.
#[local] Existing Instance one_device_laws.
#[local] Existing Instance no_ats.

Lemma test_munmap o addr : is_Some (mappings o !! addr) -> sys_munmap o addr = true.
Proof. intros Ha. simpl. by apply bool_decide_eq_true. Qed.

Definition demo_mmap : MmapHandle :=
  mkMmap 1073742728 9000 5000 20000 4096 9904 1073741824 true PROT_READ MAP_PRIVATE 3 "f".

Example mmap_constructor_run :
  match new_mmap 4096 "f" "r" (Some 9000) 5000 420 None empty_process with
  | (inr h, o) => h = demo_mmap /\ map_to_list (mappings o) = [(1073741824, 9904)]
  | _ => False
  end.
Proof. vm_compute. split; reflexivity. Qed.


Definition demo_mmap_ops : list mmap_op :=
  [MAssign "f" "r" (Some 9000) 5000 420 None; MAssign "f" "r" None 20000 420 None;
   MAssign "f" "w" None 0 420 None; MClose; MAssign "f" "r" None 0 420 None].

Example mmap_releases_everything_witness :
  let o' := mmap_life 4096 demo_mmap_ops empty_process in
  open_fds (mm_fds o') = ∅ /\ mappings o' = ∅ /\ registered_fds (mm_fds o') = ∅ /\
  misused (mm_fds o') = false /\ unmap_misused o' = false.
Proof.
  apply (mmap_releases_everything 12 4096 demo_mmap_ops empty_process);
    [lia|done|exact test_munmap|repeat constructor; lia|by intros c x Hx|done|done].
Defined.


Example mmap_pread_run :
  (fun '(plan, _, _) => plan) <$>
    mmap_pread 4096 8192 (fun _ => []) 1 0 demo_mmap 131082 (Some 7000) 6000 4096 1 0 initial_world
      fresh_process
  = Ok (MmapSubmitted 1073743728 false 77 (mmap_context demo_mmap DEVICE None)
          (SplitTasks [mkTask 4096 6000 0] (mkTask 2904 10096 4096))).
Proof. vm_compute. reflexivity. Qed.


(** [read] does not bound its size by the bounce buffer: 9000 bytes through
    one of 8192 write past its end. *)
Example read_overruns_bounce_buffer :
  match mmap_read (fixed_cuda_pool 8192) 4096 (fun _ => []) 1 0 demo_mmap 131082 (Some 9000)
          5000 (mkIo (fun _ => -1) (fun _ => -1) (fun a => a) []) initial_world fresh_process with
  | Ok (n, s, _, _) => n = 9000 /\ host s (2097152 + 8192) = 5000 + 8192
  | _ => False
  end.
Proof. vm_compute. split; reflexivity. Qed.

(** A size that makes the sum wrap is accepted. *)
Example validate_accepts_wrapped_size :
  validate_and_adjust_read_args demo_mmap (Some (SIZE_MOD - 1)) 5000 = Ok (SIZE_MOD - 1).
Proof. reflexivity. Qed.

(** The constructor accepts such a size as well, and maps less than a page of
    it. *)
Example constructor_accepts_wrapped_size :
  match new_mmap 4096 "f" "r" (Some (SIZE_MOD - 1)) 5000 420 None empty_process with
  | (inr h, o) => initial_map_size h = SIZE_MOD - 1 /\ map_size h = 903
  | _ => False
  end.
Proof. vm_compute. split; reflexivity. Qed.

(** Closing the handle of an empty file does nothing. *)
Example empty_file_stays_open :
  let h := mkMmap 0 0 0 0 0 0 0 true PROT_READ 0 3 "f" in mm_close h empty_process = (h, empty_process).
Proof. reflexivity. Qed.
End demo.
