(* ===== verification/Url.v ===== *)
(** * URLs

    [src/detail/url.cpp]: the components of a URL, putting one together, and
    percent-encoding its path.  Taking a URL apart is libcurl's; [curl_url] is
    the interface the code uses it through. *)

From stdpp Require Import base list strings sets.
From Stdlib Require Import ZArith Lia Ascii.
From S2P Require Import Prelude Utils Regex.

#[local] Open Scope Z_scope.

Abbreviation chars_of := String.list_ascii_of_string (only parsing).
Abbreviation string_of := String.string_of_list_ascii (only parsing).

Record UrlComponents := mkUrl {
  scheme : option string;
  host : option string;
  port : option string;
  path : option string;
  query : option string;
  fragment : option string }.

Inductive CURLUPart :=
  | CURLUPART_SCHEME | CURLUPART_HOST | CURLUPART_PORT | CURLUPART_PATH | CURLUPART_QUERY
  | CURLUPART_FRAGMENT.

(** What a handle answers for a part: its text, or libcurl's error code. *)
Class CurlUrl := {
  curl_handle : Type;
  curl_url_set : string -> Z -> Z + curl_handle;          (* a code, or the parsed URL *)
  curl_url_get : curl_handle -> CURLUPart -> Z -> Z + string;
  curl_url_strerror : Z -> string;
  no_part : CURLUPart -> Z }.                              (* CURLUE_NO_SCHEME and the like *)

Section parser.
Context `{CurlUrl}.

Definition curl_url_error (err_code : Z) : exn :=
  RuntimeError ("KvikIO detects an URL error at: " +:+ curl_url_strerror err_code).

(** [UrlParser::extract_component] of a handle; no component is an error unless
    its code is the allowed one. *)
Definition extract_component (h : curl_handle) (part : CURLUPart) (flags : Z)
    (allowed_err_code : option Z) : result (option string) :=
  match curl_url_get h part flags with
  | inr value => mret (Some value)
  | inl err_code =>
      if decide (allowed_err_code = Some err_code) then mret None
      else if err_code =? 0 then mret None
      else Err (curl_url_error err_code)
  end.

Definition set_url (url : string) (flags : Z) : result curl_handle :=
  match curl_url_set url flags with
  | inr h => mret h
  | inl err_code => Err (curl_url_error err_code)
  end.

(** [UrlParser::extract_component] of a URL. *)
Definition extract_url_component (url : string) (part : CURLUPart) (url_flags flags : Z)
    (allowed_err_code : option Z) : result (option string) :=
  h ← set_url url url_flags;
  extract_component h part flags allowed_err_code.

(** [UrlParser::parse]; every part but the path may be missing. *)
Definition parse (url : string) (url_flags flags : Z) : result UrlComponents :=
  h ← set_url url url_flags;
  scheme ← extract_component h CURLUPART_SCHEME flags (Some (no_part CURLUPART_SCHEME));
  host ← extract_component h CURLUPART_HOST flags (Some (no_part CURLUPART_HOST));
  port ← extract_component h CURLUPART_PORT flags (Some (no_part CURLUPART_PORT));
  path ← extract_component h CURLUPART_PATH flags None;
  query ← extract_component h CURLUPART_QUERY flags (Some (no_part CURLUPART_QUERY));
  fragment ← extract_component h CURLUPART_FRAGMENT flags (Some (no_part CURLUPART_FRAGMENT));
  mret (mkUrl scheme host port path query fragment).

(** No part of it loops. *)
Lemma parse_terminates url url_flags flags : parse url url_flags flags <> NoFuel.
Proof.
  assert (He : forall h part allowed, extract_component h part flags allowed <> NoFuel).
  { intros h part allowed. unfold extract_component. by repeat case_match. }
  unfold parse, set_url. destruct (curl_url_set url url_flags) as [|h]; [done|]. cbn [mbind result_bind mret result_ret].
  repeat match goal with
  | |- context [extract_component h ?part flags ?allowed ≫= _] =>
      pose proof (He h part allowed); destruct (extract_component h part flags allowed); cbn [mbind result_bind]; try done
  end.
Qed.

End parser.

(** [UrlBuilder::build_manually] *)
Definition build_manually (components : UrlComponents) : string :=
  let url := match scheme components with Some s => s +:+ "://" | None => "" end in
  let url := match host components with Some s => url +:+ s | None => url end in
  let url := match port components with Some s => url +:+ (":" +:+ s) | None => url end in
  let url := match path components with Some s => url +:+ s | None => url end in
  let url := match query components with Some s => url +:+ ("?" +:+ s) | None => url end in
  match fragment components with Some s => url +:+ ("#" +:+ s) | None => url end.

(** ** Percent-encoding *)

(** [EncodingTable]: an upper-case escape for ASCII, nothing above. *)
Definition num_to_chars : list ascii := chars_of "0123456789ABCDEF".

Definition hex_digit (n : nat) : ascii := nth n num_to_chars "0"%char.

Definition encoding_table (idx : nat) : list ascii :=
  if (idx <? 128)%nat then ["%"%char; hex_digit (idx / 16); hex_digit (idx mod 16)] else [].

Definition should_encode (chars_to_encode : list ascii) (idx : nat) : bool :=
  existsb (fun c => (nat_of_ascii c =? idx)%nat) chars_to_encode.

Fixpoint encode_chars (chars_to_encode path : list ascii) : list ascii :=
  match path with
  | [] => []
  | c :: path =>
      let idx := nat_of_ascii c in
      (if should_encode chars_to_encode idx then encoding_table idx else [c])
      ++ encode_chars chars_to_encode path
  end.

Definition encode_path (path : string) (chars_to_encode : list ascii) : string :=
  string_of (encode_chars chars_to_encode (chars_of path)).

Definition aws_special_chars : list ascii :=
  chars_of "!*'()&$@=;:+ ,?" ++ (ascii_of_nat <$> seq 0 32) ++ [ascii_of_nat 127].

Definition encode_special_chars_in_path `{CurlUrl} (url : string) : result string :=
  components ← parse url 0 0;
  match path components with
  | Some p =>
      mret (build_manually (mkUrl (scheme components) (host components) (port components)
              (Some (encode_path p aws_special_chars)) (query components) (fragment components)))
  | None => Err (OutOfRange "bad_optional_access")
  end.

(** ** Encoding loses nothing *)

Definition hex_value (c : ascii) : option nat :=
  list_find (fun d => d = c) num_to_chars ≫= fun x => Some x.1.

(** The decoder of RFC 3986, the reference. *)
Fixpoint decode_chars (l : list ascii) : list ascii :=
  match l with
  | [] => []
  | c :: l' =>
      match l' with
      | h :: k :: rest =>
          match ascii_eqb c "%"%char, hex_value h, hex_value k with
          | true, Some a, Some b => ascii_of_nat (16 * a + b) :: decode_chars rest
          | _, _, _ => c :: decode_chars l'
          end
      | _ => c :: decode_chars l'
      end
  end.

Lemma hex_value_digit n : (n < 16)%nat -> hex_value (hex_digit n) = Some n.
Proof. intros Hn. do 16 (destruct n as [|n]; [reflexivity|]). lia. Qed.

Lemma decode_escape idx rest : (idx < 128)%nat ->
  decode_chars (encoding_table idx ++ rest) = ascii_of_nat idx :: decode_chars rest.
Proof.
  intros Hi. unfold encoding_table. rewrite (proj2 (Nat.ltb_lt _ _)) by done.
  pose proof (Nat.div_mod idx 16 ltac:(lia)) as Hdm.
  pose proof (Nat.mod_upper_bound idx 16 ltac:(lia)) as Hlt.
  assert (Hq : (idx / 16 < 16)%nat) by (apply Nat.Div0.div_lt_upper_bound; lia).
  revert Hdm Hlt Hq. generalize (idx / 16)%nat (idx mod 16)%nat. intros q r Hdm Hlt Hq.
  cbn [app decode_chars]. rewrite !hex_value_digit by done. simpl ascii_eqb. cbv iota.
  rewrite Hdm. done.
Qed.

Lemma decode_plain c rest : c <> "%"%char -> decode_chars (c :: rest) = c :: decode_chars rest.
Proof.
  intros Hc. simpl. destruct rest as [|h [|k rest]]; try done.
  unfold ascii_eqb. by rewrite (proj2 (Ascii.eqb_neq _ _) Hc).
Qed.

Lemma should_encode_spec cs idx :
  should_encode cs idx = true <-> exists c, c ∈ cs /\ nat_of_ascii c = idx.
Proof.
  unfold should_encode. rewrite existsb_exists. split; intros (c & Hc & He).
  - exists c. split; [by apply list_elem_of_In|]. by apply Nat.eqb_eq.
  - exists c. split; [by apply list_elem_of_In|]. by apply Nat.eqb_eq.
Qed.

Lemma decode_encode cs l :
  Forall (fun c => (nat_of_ascii c < 128)%nat) cs ->
  ("%"%char ∈ cs \/ "%"%char ∉ l) -> decode_chars (encode_chars cs l) = l.
Proof.
  intros Hcs. induction l as [|c l IH]; intros Hp; [done|]. simpl.
  destruct (should_encode cs (nat_of_ascii c)) eqn:E.
  - assert (Hlt : (nat_of_ascii c < 128)%nat).
    { apply should_encode_spec in E as (d & Hd & He). rewrite <- He.
      by apply (proj1 (Forall_forall _ _) Hcs). }
    rewrite decode_escape by done. rewrite ascii_nat_embedding. f_equal. apply IH.
    destruct Hp as [Hp|Hp]; [by left|right; set_solver].
  - simpl "++". rewrite decode_plain.
    + f_equal. apply IH. destruct Hp as [Hp|Hp]; [by left|right; set_solver].
    + intros ->. destruct Hp as [Hp|Hp]; [|set_solver].
      assert (should_encode cs (nat_of_ascii "%") = true) as Ht
        by (apply should_encode_spec; eauto). by rewrite Ht in E.
Qed.

Definition escape_char (c : ascii) : Prop := c = "%"%char \/ c ∈ num_to_chars.

Lemma escape_char_table idx c : (idx < 128)%nat -> c ∈ encoding_table idx -> escape_char c.
Proof.
  intros Hi. unfold encoding_table. rewrite (proj2 (Nat.ltb_lt _ _)) by done.
  assert (Hd : forall n, (n < 16)%nat -> hex_digit n ∈ num_to_chars).
  { intros n Hn. apply (list_elem_of_lookup_2 _ n). do 16 (destruct n as [|n]; [reflexivity|]). lia. }
  intros [->|[->|[->|[]%not_elem_of_nil]%elem_of_cons]%elem_of_cons]%elem_of_cons.
  - by left.
  - right. apply Hd. apply Nat.Div0.div_lt_upper_bound. lia.
  - right. apply Hd. apply Nat.mod_upper_bound. lia.
Qed.

Lemma encoded_clean cs l c :
  c ∈ encode_chars cs l -> c ∈ cs -> Forall (fun c => (nat_of_ascii c < 128)%nat) cs ->
  escape_char c.
Proof.
  intros Hin Hc Hcs. induction l as [|d l IH]; [by apply not_elem_of_nil in Hin|].
  simpl in Hin. apply elem_of_app in Hin as [Hin|Hin]; [|by apply IH].
  destruct (should_encode cs (nat_of_ascii d)) eqn:E.
  - apply should_encode_spec in E as (x & Hx & He).
    assert (nat_of_ascii d < 128)%nat as Hlt
      by (rewrite <- He; by apply (proj1 (Forall_forall _ _) Hcs)).
    by eapply escape_char_table.
  - apply list_elem_of_singleton in Hin as ->.
    assert (should_encode cs (nat_of_ascii d) = true) as Ht by (apply should_encode_spec; eauto).
    by rewrite Ht in E.
Qed.

Lemma chars_of_string_of l : chars_of (string_of l) = l.
Proof. apply String.list_ascii_of_string_of_list_ascii. Qed.

(** Encoding a path loses nothing: decoding it gives the path back
    whenever the escape character itself is encoded or absent; and of the
    characters to encode none is left but those an escape is written with.
    The default set has neither letters, digits, [/] nor [%], so a path keeps
    its structure. *)
Theorem encode_path_roundtrip (p : string) (cs : list ascii) :
  Forall (fun c => (nat_of_ascii c < 128)%nat) cs ->
  ("%"%char ∈ cs \/ "%"%char ∉ chars_of p ->
   decode_chars (chars_of (encode_path p cs)) = chars_of p) /\
  (forall c, c ∈ cs -> c ∈ chars_of (encode_path p cs) -> escape_char c) /\
  (forall c, escape_char c \/ c = "/"%char -> c ∉ aws_special_chars).
Proof.
  intros Hcs. unfold encode_path. rewrite chars_of_string_of. split_and!.
  - by apply decode_encode.
  - intros c Hc Hin. by eapply encoded_clean.
  - assert (Hall : Forall (fun c => c ∉ aws_special_chars) ("%"%char :: "/"%char :: num_to_chars)).
    { apply (bool_decide_unpack _). vm_compute. done. }
    intros c Hc. apply (proj1 (Forall_forall _ _) Hall).
    destruct Hc as [[->|Hc]| ->]; set_solver.
Qed.

Example encode_path_roundtrip_witness :
  encode_path "/a b/c=1" aws_special_chars = "/a%20b/c%3D1" /\
  ("%"%char ∈ aws_special_chars \/ "%"%char ∉ chars_of "/a b/c=1" ->
   decode_chars (chars_of (encode_path "/a b/c=1" aws_special_chars)) = chars_of "/a b/c=1") /\
  (forall c, c ∈ aws_special_chars ->
     c ∈ chars_of (encode_path "/a b/c=1" aws_special_chars) -> escape_char c) /\
  (forall c, escape_char c \/ c = "/"%char -> c ∉ aws_special_chars).
Proof.
  split; [vm_compute; reflexivity|].
  apply (encode_path_roundtrip "/a b/c=1" aws_special_chars).
  apply (bool_decide_unpack _). vm_compute. done.
Defined.
