(* ===== verification/UrlBuilder.v ===== *)
(** * URL handles and the URL builder

    [CurlUrlHandle] and [UrlBuilder] of [src/detail/url.cpp].  libcurl is a
    parameter: what a handle holds, what setting a part makes of it, and the URL
    that is read back.  The state is the handles libcurl has allocated; it
    remembers whether one was used or cleaned up that it does not have. *)

From stdpp Require Import base list gmap strings.
From Stdlib Require Import ZArith Lia.
From S2P Require Import Prelude Utils Url.

#[local] Open Scope Z_scope.

Inductive url_part := WholeUrl | Part (p : CURLUPart).

Class UrlApi := {
  curlu : Type;
  empty_url : curlu;
  url_set : curlu -> url_part -> option string -> Z -> Z * curlu;   (* a code, 0 for success *)
  url_get : curlu -> Z -> Z * option string;                        (* the whole URL *)
  url_strerror : Z -> option string;
  url_alloc : nat -> bool }.                                         (* has [curl_url] memory? *)

Section builder.
Context `{UrlApi}.

Record url_heap := mkUrls {
  allocated : gmap Z curlu;
  next_url : Z;
  allocations : nat;
  url_misused : bool }.

(** [check_curl_url_err] *)
Definition check_curl_url_err (err_code : Z) : st url_heap unit :=
  require (err_code =? 0)
    (RuntimeError ("KvikIO detects an URL error at: " +:+ default "(no message)" (url_strerror err_code))).

(** A handle; 0 stands for [nullptr]. *)
Definition new_url_handle : st url_heap Z :=
  s ← get_st;
  let ok := url_alloc (allocations s) in
  let h := next_url s in
  _ ← put_st (if ok then mkUrls (<[h := empty_url]> (allocated s)) (h + 1) (S (allocations s)) (url_misused s)
              else mkUrls (allocated s) h (S (allocations s)) (url_misused s));
  _ ← require ok (CUfileException "Libcurl is unable to allocate a URL handle (likely out of memory).");
  mret h.

(** [curl_url_cleanup] *)
Definition cleanup (h : Z) (s : url_heap) : url_heap :=
  mkUrls (delete h (allocated s)) (next_url s) (allocations s)
    (url_misused s || bool_decide (allocated s !! h = None)).

Definition destroy_url_handle (h : Z) (s : url_heap) : url_heap := if h =? 0 then s else cleanup h s.

(** The new handle and what the other one keeps. *)
Definition move_url_handle (other : Z) : Z * Z := (other, 0).

Definition assign_url_handle (mine other : Z) (s : url_heap) : (Z * Z) * url_heap :=
  ((other, 0), if mine =? 0 then s else cleanup mine s).

(** ** The builder *)

Definition set_component (h : Z) (part : url_part) (value : option string) (flags : Z) : st url_heap unit :=
  s ← get_st;
  match allocated s !! h with
  | None => modify (fun s => mkUrls (allocated s) (next_url s) (allocations s) true)
  | Some u =>
      let '(e, u) := url_set u part value flags in
      _ ← put_st (mkUrls (<[h := u]> (allocated s)) (next_url s) (allocations s) (url_misused s));
      check_curl_url_err e
  end.

Definition set_scheme (h : Z) (v : option string) := set_component h (Part CURLUPART_SCHEME) v 0.
Definition set_host (h : Z) (v : option string) := set_component h (Part CURLUPART_HOST) v 0.
Definition set_port (h : Z) (v : option string) := set_component h (Part CURLUPART_PORT) v 0.
Definition set_path (h : Z) (v : option string) := set_component h (Part CURLUPART_PATH) v 0.
Definition set_query (h : Z) (v : option string) := set_component h (Part CURLUPART_QUERY) v 0.
Definition set_fragment (h : Z) (v : option string) := set_component h (Part CURLUPART_FRAGMENT) v 0.

(** A constructor that throws destroys the handle it has made. *)
Definition constructing (h : Z) (m : st url_heap unit) : st url_heap Z := fun s =>
  match m s with
  | (inl e, s) => (inl e, destroy_url_handle h s)
  | (inr _, s) => (inr h, s)
  end.

Definition new_builder : st url_heap Z := new_url_handle.

Definition new_builder_from_url (url : string) (bitmask_url_flags : option Z) : st url_heap Z :=
  h ← new_url_handle;
  constructing h (set_component h WholeUrl (Some url) (default 0 bitmask_url_flags)).

Definition set_if_present (set : Z -> option string -> st url_heap unit) (h : Z) (v : option string)
    : st url_heap unit :=
  match v with Some _ => set h v | None => mret tt end.

(** The flags are not used. *)
Definition new_builder_from_components (c : UrlComponents) (bitmask_url_flags : option Z) : st url_heap Z :=
  h ← new_url_handle;
  constructing h (
    _ ← set_if_present set_scheme h (scheme c);
    _ ← set_if_present set_host h (host c);
    _ ← set_if_present set_port h (port c);
    _ ← set_if_present set_path h (path c);
    _ ← set_if_present set_query h (query c);
    set_if_present set_fragment h (fragment c)).

Definition build (h : Z) (bitmask_component_flags : option Z) : st url_heap string :=
  s ← get_st;
  match allocated s !! h with
  | None => _ ← modify (fun s => mkUrls (allocated s) (next_url s) (allocations s) true); mret ""
  | Some u =>
      let '(e, url) := url_get u (default 0 bitmask_component_flags) in
      _ ← check_curl_url_err e;
      match url with
      | Some url => mret url
      | None => throw (RuntimeError "Failed to build URL: curl_url_get returned nullptr")
      end
  end.

(** ** Lives of builders *)

Inductive builder_op :=
  | Empty (i : nat)
  | FromUrl (i : nat) (url : string) (flags : option Z)
  | FromComponents (i : nat) (c : UrlComponents) (flags : option Z)
  | SetPart (i : nat) (p : CURLUPart) (v : option string)
  | Build (i : nat) (flags : option Z)
  | MoveTo (i j : nat)            (* a new builder [j] from [i] *)
  | AssignTo (i j : nat)          (* the builder [j] is assigned [i] *)
  | Gone (i : nat).

Definition builders : Type := gmap nat Z * url_heap.

(** A constructor of the builder [i]. *)
Definition constructed (i : nat) (r : (exn + Z) * url_heap) (m : gmap nat Z) : builders :=
  match r with
  | (inr h, s) => (<[i := h]> m, s)
  | (inl _, s) => (m, s)
  end.

Definition constructor_of (o : builder_op) : option (nat * st url_heap Z) :=
  match o with
  | Empty i => Some (i, new_builder)
  | FromUrl i url flags => Some (i, new_builder_from_url url flags)
  | FromComponents i c flags => Some (i, new_builder_from_components c flags)
  | _ => None
  end.

Definition builder_step (o : builder_op) (x : builders) : builders :=
  let '(m, s) := x in
  match constructor_of o with
  | Some (i, new) => match m !! i with None => constructed i (new s) m | Some _ => x end
  | None =>
      match o with
      | SetPart i p v => match m !! i with Some h => (m, (set_component h (Part p) v 0 s).2) | None => x end
      | Build i flags => match m !! i with Some h => (m, (build h flags s).2) | None => x end
      | MoveTo i j =>
          match m !! i, m !! j with
          | Some h, None => (<[j := (move_url_handle h).1]> (<[i := (move_url_handle h).2]> m), s)
          | _, _ => x
          end
      | AssignTo i j =>
          match m !! i, m !! j with
          | Some h, Some k =>
              if decide (i = j) then x
              else let '((a, b), s) := assign_url_handle k h s in (<[j := a]> (<[i := b]> m), s)
          | _, _ => x
          end
      | Gone i => match m !! i with Some h => (delete i m, destroy_url_handle h s) | None => x end
      | _ => x
      end
  end.

Definition run_builders (ops : list builder_op) (x : builders) : builders := foldl (fun x o => builder_step o x) x ops.

Definition no_urls : url_heap := mkUrls ∅ 1 0 false.

(** A builder that was moved from has no handle; the program does not use it. *)
Definition with_handle (o : builder_op) (m : gmap nat Z) : bool :=
  match o with
  | SetPart i _ _ | Build i _ => match m !! i with Some h => negb (h =? 0) | None => true end
  | _ => true
  end.

Fixpoint careful (ops : list builder_op) (x : builders) : bool :=
  match ops with
  | [] => true
  | o :: ops => with_handle o x.1 && careful ops (builder_step o x)
  end.
(** ** Ownership *)

(** The same handles, whatever they hold. *)
Record same_handles (s s' : url_heap) : Prop := mkSame {
  sh_dom h : allocated s' !! h = None <-> allocated s !! h = None;
  sh_next : next_url s' = next_url s;
  sh_misused : url_misused s' = url_misused s }.

Lemma same_refl s : same_handles s s.
Proof. by split. Qed.

Lemma same_trans s1 s2 s3 : same_handles s1 s2 -> same_handles s2 s3 -> same_handles s1 s3.
Proof. intros [D1 N1 M1] [D2 N2 M2]. split; [|congruence..]. intros h. by rewrite D2, D1. Qed.

Ltac run_steps := unfold mbind, st_bind, get_st, put_st, modify, mret, st_ret, throw, check_curl_url_err, require; cbn.

Lemma set_component_same h part v flags s :
  allocated s !! h <> None -> same_handles s (set_component h part v flags s).2.
Proof.
  intros Hh. unfold set_component. run_steps. destruct (allocated s !! h) as [u|] eqn:Hu; [|done].
  destruct (url_set u part v flags) as [e u'].
  assert (forall s', s' = mkUrls (<[h := u']> (allocated s)) (next_url s) (allocations s) (url_misused s) ->
    same_handles s s') as Hs.
  { intros s' ->. split; simpl; [|done..]. intros k. destruct (decide (h = k)) as [<-|].
    - rewrite lookup_insert_eq. by rewrite Hu.
    - by rewrite lookup_insert_ne. }
  destruct (e =? 0); by apply Hs.
Qed.

Lemma build_same h flags s : allocated s !! h <> None -> same_handles s (build h flags s).2.
Proof.
  intros Hh. unfold build. run_steps. destruct (allocated s !! h) as [u|] eqn:Hu; [|done].
  destruct (url_get u (default 0 flags)) as [e url].
  destruct (e =? 0); [destruct url|]; apply same_refl.
Qed.

(** A constructor's body. *)
Definition keeps (h : Z) (m : st url_heap unit) : Prop :=
  forall s, allocated s !! h <> None -> same_handles s (m s).2.

Lemma keeps_bind h m k : keeps h m -> keeps h k -> keeps h (_ ← m; k).
Proof.
  intros Hm Hk s Hs. specialize (Hm s Hs). run_steps. destruct (m s) as [[e|[]] s1]; [done|]. simpl in Hm.
  apply (same_trans _ _ _ Hm), Hk. by rewrite (sh_dom _ _ Hm).
Qed.

Lemma keeps_if set h v : (forall v, keeps h (set h v)) -> keeps h (set_if_present set h v).
Proof. intros Hset. destruct v; [apply Hset|]. intros s _. apply same_refl. Qed.
(** ** The invariant *)

Definition owned_by (m : gmap nat Z) (h : Z) : Z := map_count (fun x => x = h) m.

Record urls_ok (m : gmap nat Z) (s : url_heap) : Prop := mkUrlsOk {
  uo_once h : h <> 0 -> owned_by m h = if decide (allocated s !! h = None) then 0 else 1;
  uo_null : allocated s !! 0 = None;
  uo_next h : next_url s <= h -> allocated s !! h = None;
  uo_pos : 1 <= next_url s;
  uo_fine : url_misused s = false }.

Lemma same_ok m s s' : same_handles s s' -> urls_ok m s -> urls_ok m s'.
Proof.
  intros [D N M] [H1 H2 H3 H4 H5]. split; [|by rewrite D|rewrite N|by rewrite N|by rewrite M].
  - intros h Hh. rewrite H1 by done. destruct (decide (allocated s !! h = None)) as [Hs|Hs];
      destruct (decide (allocated s' !! h = None)) as [Hs'|Hs']; try done; exfalso; rewrite D in Hs'; done.
  - intros h Hh. by apply D, H3.
Qed.

Lemma owner_live m s i h : urls_ok m s -> m !! i = Some h -> h <> 0 -> allocated s !! h <> None.
Proof.
  intros Hok Hi Hh Hn. pose proof (uo_once _ _ Hok h Hh) as Hc. rewrite decide_True in Hc by done.
  pose proof (map_count_pos (fun x => x = h) m i h Hi eq_refl). unfold owned_by in Hc. lia.
Qed.

(** A new handle for a name that is free. *)
Lemma new_handle_ok m s i : m !! i = None -> urls_ok m s ->
  match new_url_handle s with
  | (inr h, s') => urls_ok (<[i := h]> m) s' /\ allocated s' !! h <> None
  | (inl _, s') => urls_ok m s'
  end.
Proof.
  intros Hi [H1 H2 H3 H4 H5]. unfold new_url_handle. run_steps.
  destruct (url_alloc (allocations s)); [|by split]. pose proof (H3 (next_url s) ltac:(lia)) as Hn. split.
  - split; simpl; [|rewrite lookup_insert_ne by lia; done| |lia|done].
    + intros h Hh. unfold owned_by. rewrite map_count_insert by done. fold (owned_by m h). rewrite H1 by done.
      destruct (decide (next_url s = h)) as [<-|Hne].
      * by rewrite lookup_insert_eq, decide_True.
      * rewrite lookup_insert_ne by done. lia.
    + intros h Hh. rewrite lookup_insert_ne by lia. apply H3. lia.
  - simpl. by rewrite lookup_insert_eq.
Qed.

(** Giving a handle up. *)
Lemma cleanup_ok m s i h : m !! i = Some h -> urls_ok m s -> urls_ok (delete i m) (destroy_url_handle h s).
Proof.
  intros Hi Hok. pose proof (owner_live m s i h Hok Hi) as Hlive. destruct Hok as [H1 H2 H3 H4 H5].
  unfold destroy_url_handle. destruct (Z.eqb_spec h 0) as [->|Hh].
  - split; try done. intros k Hk. unfold owned_by. rewrite (map_count_delete _ _ _ 0) by done.
    fold (owned_by m k). rewrite H1, (decide_False (P := 0 = k)) by done. lia.
  - specialize (Hlive Hh). split; simpl; [| | |done|].
    + intros k Hk. unfold owned_by. rewrite (map_count_delete _ _ _ h) by done. fold (owned_by m k). rewrite H1 by done.
      destruct (decide (h = k)) as [<-|Hne].
      * by rewrite lookup_delete_eq, decide_False, decide_True.
      * rewrite lookup_delete_ne by done. lia.
    + by rewrite lookup_delete_ne.
    + intros k Hk. destruct (decide (h = k)) as [<-|Hne]; [apply lookup_delete_eq|].
      rewrite lookup_delete_ne by done. by apply H3.
    + rewrite H5. by apply bool_decide_eq_false.
Qed.

(** A constructor whose body keeps the handles. *)
Lemma constructing_ok m s i (body : Z -> st url_heap unit) :
  m !! i = None -> urls_ok m s -> (forall h, keeps h (body h)) ->
  let '(m', s') := constructed i ((h ← new_url_handle; constructing h (body h)) s) m in urls_ok m' s'.
Proof.
  intros Hi Hok Hbody. pose proof (new_handle_ok m s i Hi Hok) as Hnew.
  unfold mbind, st_bind. destruct (new_url_handle s) as [[e|h] s1]; [done|]. destruct Hnew as [Hok1 Hl].
  unfold constructing. pose proof (Hbody h s1 Hl) as Hsame. destruct (body h s1) as [[e|[]] s2]; simpl in *.
  - apply (same_ok _ _ _ Hsame) in Hok1. rewrite <- (delete_insert_id m i h) by done.
    apply cleanup_ok; [apply lookup_insert_eq|done].
  - by apply (same_ok _ _ _ Hsame).
Qed.

Lemma set_keeps h part v flags : keeps h (set_component h part v flags).
Proof. intros s Hs. by apply set_component_same. Qed.

Lemma components_keep h c : keeps h (
    _ ← set_if_present set_scheme h (scheme c);
    _ ← set_if_present set_host h (host c);
    _ ← set_if_present set_port h (port c);
    _ ← set_if_present set_path h (path c);
    _ ← set_if_present set_query h (query c);
    set_if_present set_fragment h (fragment c)).
Proof. repeat apply keeps_bind; apply keeps_if; intros v; apply set_keeps. Qed.

Lemma constructor_ok m s o i new : constructor_of o = Some (i, new) -> m !! i = None -> urls_ok m s ->
  let '(m', s') := constructed i (new s) m in urls_ok m' s'.
Proof.
  intros Ho Hi Hok. destruct o; try done; injection Ho as <- <-.
  - pose proof (new_handle_ok m s i0 Hi Hok) as Hn. unfold new_builder.
    destruct (new_url_handle s) as [[e|h] s1]; [done|]. by destruct Hn.
  - apply constructing_ok; [done|done|]. intros h. apply set_keeps.
  - apply constructing_ok; [done|done|]. intros h. apply components_keep.
Qed.

(** A handle changes hands. *)
Lemma move_ok m s i j h : m !! i = Some h -> m !! j = None -> urls_ok m s -> urls_ok (<[j := h]> (<[i := 0]> m)) s.
Proof.
  intros Hi Hj [H1 H2 H3 H4 H5]. split; try done. intros k Hk. rewrite <- H1 by done.
  assert (i <> j) by congruence. unfold owned_by.
  rewrite map_count_insert by (rewrite lookup_insert_ne; done).
  rewrite (map_count_replace _ _ _ h) by done. rewrite (decide_False (P := 0 = k)) by done. lia.
Qed.

Lemma assign_ok m s i j h k : m !! i = Some h -> m !! j = Some k -> i <> j -> urls_ok m s ->
  urls_ok (<[j := h]> (<[i := 0]> m)) (destroy_url_handle k s).
Proof.
  intros Hi Hj Hij Hok. apply (cleanup_ok m s j k Hj) in Hok.
  assert (delete j m !! i = Some h) as Hi' by by rewrite lookup_delete_ne.
  pose proof (move_ok _ _ i j h Hi' (lookup_delete_eq _ _) Hok) as Hm.
  rewrite <- delete_insert_ne, insert_delete_eq in Hm by done. done.
Qed.

Lemma builder_step_ok o x : with_handle o x.1 = true -> urls_ok x.1 x.2 ->
  urls_ok (builder_step o x).1 (builder_step o x).2.
Proof.
  destruct x as [m s]. cbn [fst snd]. intros Hw Hok. unfold builder_step.
  destruct (constructor_of o) as [[i new]|] eqn:Ho.
  { destruct (m !! i) eqn:Hi; [done|]. pose proof (constructor_ok m s o i new Ho Hi Hok) as Hc.
    by destruct (constructed i (new s) m). }
  destruct o as [ | | |i p v|i flags|i j|i j|i]; try done; cbn [with_handle] in Hw.
  - destruct (m !! i) as [h|] eqn:Hi; [|done]. cbn [fst snd].
    apply negb_true_iff, Z.eqb_neq in Hw. apply (same_ok _ s); [|done].
    by apply set_component_same, (owner_live m s i h).
  - destruct (m !! i) as [h|] eqn:Hi; [|done]. cbn [fst snd].
    apply negb_true_iff, Z.eqb_neq in Hw. apply (same_ok _ s); [|done].
    by apply build_same, (owner_live m s i h).
  - destruct (m !! i) as [h|] eqn:Hi; [|done]. destruct (m !! j) eqn:Hj; [done|]. by apply move_ok.
  - destruct (m !! i) as [h|] eqn:Hi; [|done]. destruct (m !! j) as [k|] eqn:Hj; [|done].
    case_decide as Hij; [done|]. cbn [fst snd assign_url_handle].
    by apply (assign_ok m s i j h k).
  - destruct (m !! i) as [h|] eqn:Hi; [|done]. by apply cleanup_ok.
Qed.

(** Builders own their URL handles: however they are made (from a URL, from
    components, with libcurl refusing any part or out of memory), moved,
    assigned, used and destroyed, a handle is cleaned up exactly once, none is
    used after that, and none is left when the builders are gone.  The
    program does not use a builder it moved from. *)
Theorem builders_own_handles (ops : list builder_op) (m : gmap nat Z) (s : url_heap) :
  careful ops (∅, no_urls) = true -> run_builders ops (∅, no_urls) = (m, s) ->
  url_misused s = false /\
  (forall h, allocated s !! h <> None <-> exists i, m !! i = Some h /\ h <> 0) /\
  (m = ∅ -> allocated s = ∅).
Proof.
  assert (urls_ok ∅ no_urls) as H0.
  { split; by simpl. }
  assert (forall ops x, careful ops x = true -> urls_ok x.1 x.2 -> urls_ok (run_builders ops x).1 (run_builders ops x).2) as Hrun.
  { clear. induction ops as [|o ops IH]; intros x Hc Hok; [done|]. cbn in Hc. apply andb_true_iff in Hc as [Hw Hc].
    apply IH; [done|]. by apply builder_step_ok. }
  intros Hc Heq. specialize (Hrun ops (∅, no_urls) Hc H0). rewrite Heq in Hrun. cbn in Hrun.
  assert (forall h, allocated s !! h <> None <-> exists i, m !! i = Some h /\ h <> 0) as Hown.
  { intros h. split.
    - intros Hh. destruct (decide (h = 0)) as [->|Hz]; [by rewrite (uo_null _ _ Hrun) in Hh|].
      pose proof (uo_once _ _ Hrun h Hz) as Hone. rewrite decide_False in Hone by done.
      destruct (decide (filter (fun kv : nat * Z => kv.2 = h) m = ∅)) as [He|He].
      + unfold owned_by, map_count in Hone. by rewrite He in Hone.
      + apply map_choose in He as (i & k & [Hi Hk]%map_lookup_filter_Some). simpl in Hk. subst k. by exists i.
    - intros (i & Hi & Hz). by apply (owner_live m s i h). }
  split_and!; [apply (uo_fine _ _ Hrun)|done|]. intros ->. apply map_empty. intros h.
  destruct (allocated s !! h) eqn:Hh; [|done]. assert (allocated s !! h <> None) as (i & Hi & _)%Hown by by rewrite Hh. done.
Qed.
End builder.

(** ** Examples *)

Definition set_component_of (p : CURLUPart) (v : option string) (c : UrlComponents) : UrlComponents :=
  let '(mkUrl a b d e f g) := c in
  match p with
  | CURLUPART_SCHEME => mkUrl v b d e f g
  | CURLUPART_HOST => mkUrl a v d e f g
  | CURLUPART_PORT => mkUrl a b v e f g
  | CURLUPART_PATH => mkUrl a b d v f g
  | CURLUPART_QUERY => mkUrl a b d e v g
  | CURLUPART_FRAGMENT => mkUrl a b d e f v
  end.

(** A libcurl that stores parts, refuses a port that is not a number (code 4)
    and puts the parts together. *)
#[local] Instance demo_url_api : UrlApi := {
  curlu := UrlComponents;
  empty_url := mkUrl None None None None None None;
  url_set u p v _ :=
    match p, v with
    | WholeUrl, _ => (0, u)
    | Part CURLUPART_PORT, Some "x" => (4, u)
    | Part p, v => (0, set_component_of p v u)
    end;
  url_get u _ := (0, Some (build_manually u));
  url_strerror _ := Some "Bad port number";
  url_alloc n := (n <? 3)%nat }.

Definition demo_components (port : string) : UrlComponents :=
  mkUrl (Some "https") (Some "host") (Some port) (Some "/p") (Some "q=1") None.

Example built_from_components :
  (h ← new_builder_from_components (demo_components "8080") None; build h None) no_urls
  = (inr "https://host:8080/p?q=1", mkUrls {[1 := demo_components "8080"]} 2 1 false).
Proof. by vm_compute. Qed.

(** A part that is refused destroys the handle with the constructor. *)
Example refused_component :
  new_builder_from_components (demo_components "x") (Some 8) no_urls
  = (inl (RuntimeError "KvikIO detects an URL error at: Bad port number"), mkUrls ∅ 2 1 false).
Proof. by vm_compute. Qed.

Definition demo_builders : list builder_op :=
  [Empty 0; SetPart 0 CURLUPART_HOST (Some "h"); FromComponents 1 (demo_components "x") None;
   FromUrl 2 "https://a" (Some 8); MoveTo 0 3; AssignTo 3 2; Empty 4; Build 2 None; Gone 0; Gone 2; Gone 3].

Example builders_own_handles_witness :
  careful demo_builders (∅, no_urls) = true /\
  url_misused (run_builders demo_builders (∅, no_urls)).2 = false /\
  allocated (run_builders demo_builders (∅, no_urls)).2 = ∅.
Proof.
  pose proof (builders_own_handles demo_builders) as Ht.
  destruct (run_builders demo_builders (∅, no_urls)) as [m s] eqn:Hr.
  destruct (Ht m s) as (Hm & _ & He); [by vm_compute|done|].
  split_and!; [by vm_compute|done|]. apply He.
  apply (f_equal fst) in Hr. simpl in Hr. rewrite <- Hr. by vm_compute.
Defined.
