(* ===== verification/Endpoint.v ===== *)
(** * Remote endpoints

    The first half of [src/remote_handle.cpp], [src/hdfs.cpp] and
    [src/detail/env.cpp]: the kinds of endpoint, how a URL selects one, what
    each sets on a libcurl handle, and how it learns the size of its file.

    A handle is the list of the options set on it.  Parameters: the
    environment, libcurl's URL parser, and the server, which answers a request
    given by its options. *)

From stdpp Require Import base list strings sets pretty.
From Stdlib Require Import ZArith Lia Ascii.
From S2P Require Import Prelude Utils Regex Url.

#[local] Open Scope Z_scope.

Inductive RemoteEndpointType := AUTO | S3 | S3_PUBLIC | S3_PRESIGNED_URL | WEBHDFS | HTTP.

#[global] Instance RemoteEndpointType_eq_dec : EqDecision RemoteEndpointType.
Proof. solve_decision. Defined.

Inductive setting :=
  | OPT_URL (s : string)
  | OPT_RANGE (s : string)
  | OPT_NOBODY
  | OPT_FOLLOWLOCATION
  | OPT_AWS_SIGV4 (s : string)
  | OPT_USERPWD (s : string)
  | OPT_HTTPHEADER (s : string).

#[global] Instance setting_eq_dec : EqDecision setting.
Proof. solve_decision. Defined.

Inductive RemoteEndpoint :=
  | HttpEndpoint (url : string)
  | S3Endpoint (url aws_sigv4 aws_userpwd : string) (curl_header_list : option string)
  | S3PublicEndpoint (url : string)
  | S3EndpointWithPresignedUrl (url : string)
  | WebHdfsEndpoint (url : string) (username : option string).

Definition remote_endpoint_type (e : RemoteEndpoint) : RemoteEndpointType :=
  match e with
  | HttpEndpoint _ => HTTP
  | S3Endpoint _ _ _ _ => S3
  | S3PublicEndpoint _ => S3_PUBLIC
  | S3EndpointWithPresignedUrl _ => S3_PRESIGNED_URL
  | WebHdfsEndpoint _ _ => WEBHDFS
  end.

Definition endpoint_str (e : RemoteEndpoint) : string :=
  match e with
  | HttpEndpoint url | S3Endpoint url _ _ _ | S3PublicEndpoint url
  | S3EndpointWithPresignedUrl url | WebHdfsEndpoint url _ => url
  end.

Definition get_remote_endpoint_type_name (t : RemoteEndpointType) : string :=
  match t with
  | S3 => "S3"
  | S3_PUBLIC => "S3 public"
  | S3_PRESIGNED_URL => "S3 with presigned URL"
  | WEBHDFS => "WebHDFS"
  | HTTP => "HTTP"
  | AUTO => "AUTO"
  end.

Definition get_default_allow_list : list RemoteEndpointType :=
  [S3; S3_PUBLIC; S3_PRESIGNED_URL; WEBHDFS; HTTP].

(** ** The URL patterns *)

Definition http_scheme : regex := Seq [LitI "http"; Opt (ChrI "s"%char); LitI "://"].
Definition not_slash : regex := Set_ (not_char "/"%char).
Definition not_dot : regex := Set_ (not_char "."%char).

Definition s3_patterns : list regex :=
  [ Seq [http_scheme; Plus not_slash; LitI ".s3."; Plus not_dot; LitI ".amazonaws.com/"; Plus Dot];
    Seq [http_scheme; LitI "s3."; Plus not_dot; LitI ".amazonaws.com/"; Plus not_slash; LitI "/";
         Plus Dot];
    Seq [http_scheme; Plus not_slash; LitI ".s3.amazonaws.com/"; Plus Dot];
    Seq [http_scheme; LitI "s3.amazonaws.com/"; Plus not_slash; LitI "/"; Plus Dot];
    Seq [http_scheme; Plus not_slash; LitI ".s3-"; Plus not_dot; LitI ".amazonaws.com/"; Plus Dot];
    Seq [http_scheme; LitI "s3-"; Plus not_dot; LitI ".amazonaws.com/"; Plus not_slash; LitI "/";
         Plus Dot] ].

Definition url_has_aws_s3_http_format (url : string) : bool :=
  existsb (regex_match (chars_of url)) s3_patterns.

Definition s3_path_pattern : regex := Seq [LitI "/"; Plus Dot].

Definition webhdfs_pattern : regex :=
  Seq [http_scheme; Plus not_slash; LitI ":"; Plus Digit; LitI "/webhdfs/v1/"; Plus Dot].

(** [s3://([^/]+)/(.+)] with its two captures. *)
Definition parse_s3_url (s3_url : string) : result (string * string) :=
  let mismatch := Err (InvalidArgument "Input string does not match the expected S3 URL format.") in
  match strip_prefix eq_icase (chars_of "s3://") (chars_of s3_url) with
  | Some rest =>
      match span (not_char "/"%char) rest with
      | ((_ :: _) as bucket, _ :: ((_ :: _) as object)) =>
          if forallb (fun c => negb (line_terminator c)) object
          then mret (string_of bucket, string_of object) else mismatch
      | _ => mismatch
      end
  | None => mismatch
  end.

(** [std::stol]; [None] when it throws. *)
Definition stol (s : list ascii) : option Z :=
  match scan_integer s with
  | Some n => if (-9223372036854775808 <=? n) && (n <=? 9223372036854775807) then Some n else None
  | None => None
  end.

(** ** The environment *)

Section endpoint.
Context `{CurlUrl}.
Variable getenv : string -> option string.
Variable curl_slist_append : string -> bool.           (* whether the list could be made *)
Variable CURLU_NON_SUPPORT_SCHEME : Z.

Definition unwrap_or_env (value : option string) (env_var : string) (err_msg : option string)
    : result (option string) :=
  match value with
  | Some v => mret (Some v)
  | None =>
      match getenv env_var with
      | Some v => mret (Some v)
      | None => match err_msg with None => mret None | Some m => Err (InvalidArgument m) end
      end
  end.

(** [.value()] of what [unwrap_or_env] gave with a message. *)
Definition env_or_fail (value : option string) (env_var err_msg : string) : result string :=
  v ← unwrap_or_env value env_var (Some err_msg);
  match v with Some s => mret s | None => Err (OutOfRange "bad_optional_access") end.

Definition url_from_bucket_and_object (bucket_name object_name : string)
    (aws_region aws_endpoint_url : option string) : result string :=
  endpoint_url ← unwrap_or_env aws_endpoint_url "AWS_ENDPOINT_URL" None;
  match endpoint_url with
  | None =>
      region ← env_or_fail aws_region "AWS_DEFAULT_REGION"
                 "S3: must provide `aws_region` if AWS_DEFAULT_REGION isn't set.";
      mret ("https://" +:+ bucket_name +:+ ".s3." +:+ region +:+ ".amazonaws.com/" +:+ object_name)
  | Some u => mret (u +:+ "/" +:+ bucket_name +:+ "/" +:+ object_name)
  end.

Definition http_prefix : regex := Cat http_scheme (Star Any).

Definition make_s3_endpoint (url : string)
    (aws_region aws_access_key aws_secret_access_key aws_session_token : option string)
    : result RemoteEndpoint :=
  _ ← expect (regex_match (chars_of url) http_prefix)
        (InvalidArgument "url must start with http:// or https://");
  region ← env_or_fail aws_region "AWS_DEFAULT_REGION"
             "S3: must provide `aws_region` if AWS_DEFAULT_REGION isn't set.";
  access_key ← env_or_fail aws_access_key "AWS_ACCESS_KEY_ID"
                 "S3: must provide `aws_access_key` if AWS_ACCESS_KEY_ID isn't set.";
  secret ← env_or_fail aws_secret_access_key "AWS_SECRET_ACCESS_KEY"
             "S3: must provide `aws_secret_access_key` if AWS_SECRET_ACCESS_KEY isn't set.";
  let sigv4 := "aws:amz:" +:+ region +:+ ":s3" in
  let userpwd := access_key +:+ ":" +:+ secret in
  if String.prefix "ASIA" access_key then
    token ← env_or_fail aws_session_token "AWS_SESSION_TOKEN"
              "When using temporary credentials, AWS_SESSION_TOKEN must be set.";
    let header := "x-amz-security-token: " +:+ token in
    _ ← expect (curl_slist_append header)
          (RuntimeError "Failed to create curl header for AWS token");
    mret (S3Endpoint url sigv4 userpwd (Some header))
  else mret (S3Endpoint url sigv4 userpwd None).

Definition make_s3_endpoint_of_bucket (bucket object : string)
    (aws_region aws_access_key aws_secret_access_key aws_endpoint_url aws_session_token : option string)
    : result RemoteEndpoint :=
  url ← url_from_bucket_and_object bucket object aws_region aws_endpoint_url;
  make_s3_endpoint url aws_region aws_access_key aws_secret_access_key aws_session_token.

(** What is before the first question mark, and from there to a [#], if the
    pattern that separates a URL from its query finds both. *)
Definition split_query (url : list ascii) : option (list ascii * list ascii) :=
  match span (not_char "?"%char) url with
  | ((_ :: _) as base, _ :: rest) => Some (base, (span (not_char "#"%char) rest).1)
  | _ => None
  end.

(** The group of [user.name=([^&]+)] at one place. *)
Definition username_at (s : list ascii) : option (list ascii) :=
  match strip_prefix ascii_eqb (chars_of "user") s with
  | Some (c :: s) =>
      if line_terminator c then None
      else
        match strip_prefix ascii_eqb (chars_of "name=") s with
        | Some s => match (span (not_char "&"%char) s).1 with [] => None | u => Some u end
        | None => None
        end
  | _ => None
  end.

Definition make_webhdfs_endpoint (url : string) (username : option string) : RemoteEndpoint :=
  let '(base, name) :=
    match split_query (chars_of url) with
    | None => (url, username)
    | Some (base, query) =>
        (string_of base,
         match leftmost username_at query with Some u => Some (string_of u) | None => username end)
    end in
  WebHdfsEndpoint base
    (match name with Some n => Some n | None => getenv "KVIKIO_WEBHDFS_USERNAME" end).

Definition make_webhdfs_endpoint_of_host (host port file_path : string) (username : option string)
    : result RemoteEndpoint :=
  name ← unwrap_or_env username "KVIKIO_WEBHDFS_USERNAME" None;
  mret (WebHdfsEndpoint ("http://" +:+ host +:+ ":" +:+ port +:+ "/webhdfs/v1" +:+ file_path) name).

(** ** What an endpoint sets on a handle *)

Definition url_setopt (url : string) : result (list setting) := mret [OPT_URL url].

Definition s3_setopt (url sigv4 userpwd : string) (header : option string) : result (list setting) :=
  new_url ← encode_special_chars_in_path url;
  mret ([OPT_URL new_url; OPT_AWS_SIGV4 sigv4; OPT_USERPWD userpwd]
          ++ match header with Some h => [OPT_HTTPHEADER h] | None => [] end).

Definition s3_public_setopt (url : string) : result (list setting) :=
  new_url ← encode_special_chars_in_path url; mret [OPT_URL new_url].

Definition webhdfs_setopt (url : string) : result (list setting) := mret [OPT_URL url; OPT_FOLLOWLOCATION].

Definition setopt (e : RemoteEndpoint) : result (list setting) :=
  match e with
  | HttpEndpoint url | S3EndpointWithPresignedUrl url => url_setopt url
  | S3PublicEndpoint url => s3_public_setopt url
  | S3Endpoint url sigv4 userpwd header => s3_setopt url sigv4 userpwd header
  | WebHdfsEndpoint url _ => webhdfs_setopt url
  end.

Definition byte_range (file_offset size : Z) : string :=
  pretty file_offset +:+ "-" +:+ pretty (file_offset +% size -% 1).

Definition webhdfs_query (url : string) (username : option string) (op : string) : string :=
  url +:+ "?" +:+ match username with Some u => "user.name=" +:+ u +:+ "&" | None => "" end +:+ op.

Definition setup_range_request_impl (file_offset size : Z) : result (list setting) :=
  _ ← expect (size >? 0) (InvalidArgument "cannot create a zero-size range request");
  mret [OPT_RANGE (byte_range file_offset size)].

Definition webhdfs_setup_range_request (url : string) (username : option string) (file_offset size : Z)
    : result (list setting) :=
  mret [OPT_URL (webhdfs_query url username
    ("op=OPEN&offset=" +:+ pretty file_offset +:+ "&length=" +:+ pretty size))].

Definition setup_range_request (e : RemoteEndpoint) (file_offset size : Z) : result (list setting) :=
  match e with
  | WebHdfsEndpoint url username => webhdfs_setup_range_request url username file_offset size
  | _ => setup_range_request_impl file_offset size
  end.

(** ** Which URLs an endpoint takes; [noexcept], so a throw means no *)

Definition or_false (r : result bool) : bool := match r with Ok b => b | _ => false end.

Definition http_url_valid (url : string) : bool :=
  or_false (parsed ← parse url 0 0;
    if bool_decide (scheme parsed <> Some "http") && bool_decide (scheme parsed <> Some "https")
    then mret false
    else mret match path parsed with Some p => (1 <? String.length p)%nat | None => false end).

Definition contains (needle s : list ascii) : bool :=
  match leftmost (strip_prefix ascii_eqb needle) s with Some _ => true | None => false end.

Definition presigned_url_valid (url : string) : bool :=
  or_false (
    if negb (url_has_aws_s3_http_format url) then mret false
    else
      parsed ← parse url 0 0;
      mret match query parsed with
           | None => false
           | Some q => contains (chars_of "X-Amz-Algorithm") (chars_of q) &&
                       contains (chars_of "X-Amz-Signature") (chars_of q)
           end).

Definition s3_url_valid (url : string) : bool :=
  or_false (parsed ← parse url CURLU_NON_SUPPORT_SCHEME 0;
    if decide (scheme parsed = Some "s3") then
      mret match host parsed, path parsed with
           | Some _, Some p => regex_match (chars_of p) s3_path_pattern
           | _, _ => false
           end
    else if bool_decide (scheme parsed = Some "http") || bool_decide (scheme parsed = Some "https")
    then mret (url_has_aws_s3_http_format url && negb (presigned_url_valid url))
    else mret false).

Definition webhdfs_url_valid (url : string) : bool := regex_match (chars_of url) webhdfs_pattern.

(** ** File sizes *)

(** The server's answer: the content length libcurl reports ([-1] for none),
    the header lines, the body, the response code. *)
Record response := mkResponse {
  content_length : Z;
  header_lines : list (list ascii);
  body : list ascii;
  http_status : Z }.

Variable server : list setting -> result response.

(** The [Content-Range] pattern, [icase], at one place: what follows the first
    slash, to the end of the line. *)
Definition content_range_at (s : list ascii) : option (list ascii) :=
  match strip_prefix eq_icase (chars_of "Content-Range:") s with
  | Some s =>
      match span (not_char "/"%char) s with
      | (_ :: _, _ :: rest) => Some (span (fun c => negb (line_terminator c)) rest).1
      | _ => None
      end
  | None => None
  end.

Definition callback_header (file_size : Z) (header_line : list ascii) : result Z :=
  match leftmost content_range_at header_line with
  | None => mret file_size
  | Some text =>
      match stol text with
      | Some n => mret n
      | None => Err (InvalidArgument "File size information missing on the server side.")
      end
  end.

(** The file length of the JSON response, at one place: the quoted key, a
    colon, digits and something after them. *)
Definition length_at (s : list ascii) : option (list ascii) :=
  match strip_prefix ascii_eqb (ascii_of_nat 34 :: chars_of "length" ++ [ascii_of_nat 34]) s with
  | Some s =>
      match drop_spaces s with
      | c :: s =>
          if ascii_eqb c ":"%char then
            match span is_digit (drop_spaces s) with
            | ((_ :: _) as ds, _ :: _) => Some ds
            | _ => None
            end
          else None
      | [] => None
      end
  | None => None
  end.

Definition stoull (ds : list ascii) : result Z :=
  let n := digits_value ds in
  _ ← expect (n <? SIZE_MOD) (OutOfRange "stoull"); mret n.

(** What the response says, after [perform]. *)
Definition head_content_length (e : RemoteEndpoint) (r : response) : result Z :=
  _ ← expect (content_length r >=? 0) (RuntimeError
        ("cannot get size of " +:+ endpoint_str e +:+ ", content-length not provided by the server"));
  mret (content_length r).

Definition get_file_size_using_head_impl (e : RemoteEndpoint) : result Z :=
  opts ← setopt e;
  r ← server (opts ++ [OPT_NOBODY; OPT_FOLLOWLOCATION]);
  head_content_length e r.

Definition presigned_get_file_size (url : string) : result Z :=
  r ← server [OPT_URL url; OPT_RANGE "0-0"];
  n ← foldM callback_header 0 (header_lines r);
  mret (wrap64 n).

(** What the response says, after [perform]. *)
Definition webhdfs_file_length (http_status : Z) (response : list ascii) : result Z :=
  _ ← expect (http_status =? 200) (CUfileException "HTTP response is not successful.");
  match leftmost length_at response with
  | Some ds => stoull ds
  | None => Err (CUfileException
      "Regular expression search failed. Cannot extract file length from the JSON response.")
  end.

Definition webhdfs_get_file_size (url : string) (username : option string) : result Z :=
  r ← server [OPT_URL (webhdfs_query url username "op=GETFILESTATUS"); OPT_FOLLOWLOCATION];
  webhdfs_file_length (http_status r) (body r).

Definition get_file_size (e : RemoteEndpoint) : result Z :=
  match e with
  | S3EndpointWithPresignedUrl url => presigned_get_file_size url
  | WebHdfsEndpoint url username => webhdfs_get_file_size url username
  | HttpEndpoint _ | S3Endpoint _ _ _ _ | S3PublicEndpoint _ => get_file_size_using_head_impl e
  end.

(** ** From a URL to an endpoint *)

Definition create_endpoint_from_type (url scheme : string) (type : RemoteEndpointType)
    : result (option RemoteEndpoint) :=
  match type with
  | S3 =>
      if negb (s3_url_valid url) then mret None
      else if decide (scheme = "s3") then
        '(bucket, object) ← parse_s3_url url;
        Some <$> make_s3_endpoint_of_bucket bucket object None None None None None
      else Some <$> make_s3_endpoint url None None None None
  | S3_PUBLIC => mret (if s3_url_valid url then Some (S3PublicEndpoint url) else None)
  | S3_PRESIGNED_URL =>
      mret (if presigned_url_valid url then Some (S3EndpointWithPresignedUrl url) else None)
  | WEBHDFS => mret (if webhdfs_url_valid url then Some (make_webhdfs_endpoint url None) else None)
  | HTTP => mret (if http_url_valid url then Some (HttpEndpoint url) else None)
  | AUTO => mret None
  end.

Definition url_scheme (url : string) : result string :=
  scheme ← extract_url_component url CURLUPART_SCHEME CURLU_NON_SUPPORT_SCHEME 0 None;
  match scheme with
  | Some s => mret s
  | None => Err (CUfileException "Missing scheme in URL.")
  end.

(** The body of the [try] block: [None] to go on with the next type. *)
Definition try_type (url scheme : string) (probe : bool) (type : RemoteEndpointType)
    : result (option (RemoteEndpoint * option Z)) :=
  e ← create_endpoint_from_type url scheme type;
  match e with
  | None => mret None
  | Some e =>
      if probe && bool_decide (type = S3) then
        n ← get_file_size e; mret (Some (e, Some n))
      else mret (Some (e, None))
  end.

Fixpoint infer_from (url scheme : string) (probe : bool) (allow_list types : list RemoteEndpointType)
    : result (RemoteEndpoint * option Z) :=
  match types with
  | [] => Err (RuntimeError "Unsupported endpoint URL.")
  | type :: types =>
      match try_type url scheme probe type with
      | Ok (Some r) => mret r
      | Ok None => infer_from url scheme probe allow_list types
      | Err e =>
          if bool_decide (type = S3) && bool_decide (S3_PUBLIC ∈ allow_list)
          then mret (S3PublicEndpoint url, None) else Err e
      | NoFuel => NoFuel
      end
  end.

Definition infer_endpoint_impl (url : string) (allow_list : list RemoteEndpointType) (probe : bool)
    : result (RemoteEndpoint * option Z) :=
  scheme ← url_scheme url;
  infer_from url scheme probe allow_list allow_list.

Definition infer_remote_endpoint_type (url : string) : result RemoteEndpointType :=
  '(e, _) ← infer_endpoint_impl url get_default_allow_list false;
  mret (remote_endpoint_type e).

(** [RemoteHandle]: its endpoint, its size, its source. *)
Record RemoteHandle := mkRemoteHandle {
  rh_endpoint : RemoteEndpoint;
  rh_nbytes : Z;
  rh_source : string }.

Definition handle_of (e : RemoteEndpoint) (nbytes : Z) : RemoteHandle :=
  mkRemoteHandle e nbytes (endpoint_str e).

Definition new_remote_handle (e : RemoteEndpoint) : result RemoteHandle :=
  n ← get_file_size e; mret (handle_of e n).

Definition open (url : string) (type : RemoteEndpointType)
    (allow_list : option (list RemoteEndpointType)) (nbytes : option Z) : result RemoteHandle :=
  let allow_list := default get_default_allow_list allow_list in
  '(e, probed) ←
    (if decide (type = AUTO) then infer_endpoint_impl url allow_list true
     else
       _ ← expect (bool_decide (type ∈ allow_list)) (RuntimeError
             (get_remote_endpoint_type_name type +:+ " is not in the allowlist."));
       scheme ← url_scheme url;
       e ← create_endpoint_from_type url scheme type;
       match e with
       | Some e => mret (e, None)
       | None => Err (RuntimeError
           ("Invalid URL for " +:+ get_remote_endpoint_type_name type +:+ " endpoint"))
       end);
  match nbytes, probed with
  | Some n, _ => mret (handle_of e n)
  | None, Some n => mret (handle_of e n)
  | None, None => new_remote_handle e
  end.

End endpoint.

(** ** Selection *)

Section selection.
Context `{CurlUrl}.
Variable getenv : string -> option string.
Variable curl_slist_append : string -> bool.
Variable CURLU_NON_SUPPORT_SCHEME : Z.
Variable server : list setting -> result response.

Abbreviation create := (create_endpoint_from_type getenv curl_slist_append CURLU_NON_SUPPORT_SCHEME)
  (only parsing).

(** The check a URL must pass for a type. *)
Definition accepts (url : string) (type : RemoteEndpointType) : bool :=
  match type with
  | AUTO => false
  | S3 | S3_PUBLIC => s3_url_valid CURLU_NON_SUPPORT_SCHEME url
  | S3_PRESIGNED_URL => presigned_url_valid url
  | WEBHDFS => webhdfs_url_valid url
  | HTTP => http_url_valid url
  end.

Lemma make_s3_type url r k s t e :
  make_s3_endpoint getenv curl_slist_append url r k s t = Ok e -> remote_endpoint_type e = S3.
Proof.
  unfold make_s3_endpoint. intros Hm.
  repeat (match type of Hm with
  | context [?m ≫= _] => destruct m; simpl in Hm; [|done|done]
  | context [if ?b then _ else _] => destruct b
  end). all: by injection Hm as <-.
Qed.

Lemma make_webhdfs_type (env : string -> option string) url name :
  remote_endpoint_type (make_webhdfs_endpoint env url name) = WEBHDFS.
Proof. unfold make_webhdfs_endpoint. by destruct (split_query _) as [[]|]. Qed.

Lemma create_spec url scheme type r :
  create url scheme type = Ok r ->
  match r with
  | None => accepts url type = false
  | Some e => accepts url type = true /\ remote_endpoint_type e = type
  end.
Proof.
  assert (Hsimple : forall (b : bool) e, remote_endpoint_type e = type ->
    Ok (if b then Some e else None) = Ok r ->
    match r with None => b = false | Some e => b = true /\ remote_endpoint_type e = type end).
  { intros [] e He [= <-]; done. }
  destruct type; [by intros [= <-]| |exact (Hsimple _ (S3PublicEndpoint url) eq_refl)
    |exact (Hsimple _ (S3EndpointWithPresignedUrl url) eq_refl)
    |exact (Hsimple _ (make_webhdfs_endpoint getenv url None) (make_webhdfs_type getenv url None))
    |exact (Hsimple _ (HttpEndpoint url) eq_refl)]. simpl.
  destruct (s3_url_valid _ url) eqn:E; simpl; [|by intros [= <-]].
  assert (Hs3 : forall m, (forall e, m = Ok e -> remote_endpoint_type e = S3) ->
    Some <$> m = Ok r -> match r with None => true = false
                         | Some e => true = true /\ remote_endpoint_type e = S3 end).
  { intros [e| |] Hm; try done. simpl. intros [= <-]. split; [done|by apply Hm]. }
  destruct (decide _).
  - destruct (parse_s3_url url) as [[b o]| |]; simpl; [|done|done]. apply Hs3.
    unfold make_s3_endpoint_of_bucket. intros e'.
    destruct (url_from_bucket_and_object _ _ _ _ _); simpl; [|done|done]. apply make_s3_type.
  - apply Hs3. intros e. apply make_s3_type.
Qed.

(** How [infer_from] picks: every type before was refused by its check. *)
Definition picked (url : string) (allow_list types : list RemoteEndpointType) (e : RemoteEndpoint)
    : Prop :=
  exists before type after, types = before ++ type :: after /\
    Forall (fun t => accepts url t = false) before /\
    ((accepts url type = true /\ remote_endpoint_type e = type) \/
     (type = S3 /\ S3_PUBLIC ∈ allow_list /\ e = S3PublicEndpoint url)).

Lemma infer_from_picks url scheme probe allow_list types e p :
  infer_from getenv curl_slist_append CURLU_NON_SUPPORT_SCHEME server url scheme probe allow_list types
    = Ok (e, p) -> picked url allow_list types e.
Proof.
  induction types as [|type types IH]; [done|]. simpl.
  destruct (try_type _ _ _ _ _ _ _ _) as [[[e' p']|]|ex|] eqn:Ht; [| | |done].
  - intros [= -> ->]. exists [], type, types. split; [done|]. split; [done|]. left.
    unfold try_type in Ht. destruct (create url scheme type) as [[e'|]| |] eqn:Hc; simpl in Ht; try done.
    apply create_spec in Hc. destruct (_ && _); [|injection Ht; by intros _ <-].
    destruct (get_file_size _ _); simpl in Ht; [|done|done]. injection Ht. by intros _ <-.
  - intros Hr. destruct (IH Hr) as (before & t & after & -> & Hb & Hp).
    exists (type :: before), t, after. split; [done|]. split; [|done]. constructor; [|done].
    unfold try_type in Ht. destruct (create url scheme type) as [[e'|]| |] eqn:Hc; simpl in Ht; try done.
    + destruct (_ && _); [|done]. by destruct (get_file_size _ _).
    + by apply create_spec in Hc.
  - case_bool; [|done]. intros [= <- <-]. exists [], type, types. split; [done|]. split; [done|].
    right. done.
Qed.

(** Opening a URL yields an endpoint of an allowed type only.  A type
    given by the caller is the one used, and its URL check has passed.  With
    [AUTO] it is the first type of the list whose check passes, or the public
    S3 endpoint when the credentials do not work and it is allowed; the size is
    the caller's when there is one. *)
Theorem open_picks_allowed (url : string) (type : RemoteEndpointType)
    (allow_list : option (list RemoteEndpointType)) (nbytes : option Z) (h : RemoteHandle) :
  open getenv curl_slist_append CURLU_NON_SUPPORT_SCHEME server url type allow_list nbytes = Ok h ->
  let allowed := default get_default_allow_list allow_list in
  remote_endpoint_type (rh_endpoint h) ∈ allowed /\
  rh_source h = endpoint_str (rh_endpoint h) /\
  (forall n, nbytes = Some n -> rh_nbytes h = n) /\
  (type <> AUTO -> remote_endpoint_type (rh_endpoint h) = type /\ accepts url type = true) /\
  (type = AUTO -> picked url allowed allowed (rh_endpoint h)).
Proof.
  unfold open. set (allowed := default get_default_allow_list allow_list). simpl.
  set (found := if decide (type = AUTO) then _ else _). intros Ho.
  assert (Hfound : forall e p, found = Ok (e, p) ->
    remote_endpoint_type e ∈ allowed /\
    (type <> AUTO -> remote_endpoint_type e = type /\ accepts url type = true) /\
    (type = AUTO -> picked url allowed allowed e)).
  { intros e p. unfold found. destruct (decide (type = AUTO)) as [->|Hne].
    - unfold infer_endpoint_impl. destruct (url_scheme _ url) as [s| |]; simpl; [|done|done].
      intros Hp%infer_from_picks. split; [|done].
      destruct Hp as (before & t & after & Heq & _ & [[_ ->]|(_ & Hin & ->)]); [|done].
      rewrite Heq. set_solver.
    - unfold expect. case_bool; simpl; [|done]. destruct (url_scheme _ url) as [s| |]; simpl; try done.
      destruct (create url s type) as [[e'|]| |] eqn:Hc; simpl; try done. intros [= -> _].
      apply create_spec in Hc as [Ha Ht]. rewrite Ht. done. }
  destruct found as [[e p]| |]; simpl in Ho; [|done|done].
  destruct (Hfound e p eq_refl) as (Hin & Hne & Hauto).
  assert (Hh : exists n, h = handle_of e n /\ (forall m, nbytes = Some m -> n = m)).
  { destruct nbytes as [n|], p as [m|]; try (injection Ho as <-; eexists; split; [done|congruence]).
    unfold new_remote_handle in Ho. destruct (get_file_size server e) as [n| |]; simpl in Ho; [|done|done].
    injection Ho as <-. by exists n. }
  destruct Hh as (n & -> & Hn). simpl. done.
Qed.
End selection.

(** ** Text *)

(** What [stol] makes of digits. *)
Lemma stol_digits ds rest :
  ds <> [] -> Forall (fun c => is_digit c = true) ds ->
  match rest with c :: _ => is_digit c = false | [] => True end ->
  stol (ds ++ rest) = if digits_value ds <=? SSIZE_MAX then Some (digits_value ds) else None.
Proof.
  intros Hne Hds Hrest. pose proof (digits_value_nonneg ds Hds) as Hpos. unfold stol.
  rewrite scan_integer_digits by done. rewrite (proj2 (Z.leb_le _ (digits_value ds))) by lia. done.
Qed.

Lemma eq_icase_refl a : eq_icase a a = true.
Proof. apply ascii_eqb_refl. Qed.

(** A [Content-Range] line, of whatever range, up to the end of the line. *)
Definition content_range_line (range text eol : list ascii) : list ascii :=
  chars_of "Content-Range:" ++ range ++ "/"%char :: text ++ eol.

Definition ends_line (eol : list ascii) : Prop :=
  match eol with c :: _ => line_terminator c = true | [] => True end.

Lemma callback_header_line n range text eol :
  range <> [] -> Forall (fun c => not_char "/"%char c = true) range ->
  Forall (fun c => line_terminator c = false) text -> ends_line eol ->
  callback_header n (content_range_line range text eol)
    = match stol text with
      | Some n => Ok n
      | None => Err (InvalidArgument "File size information missing on the server side.")
      end.
Proof.
  intros Hne Hrange Htext Heol. unfold callback_header, content_range_line.
  assert (Hat : content_range_at (chars_of "Content-Range:" ++ range ++ "/"%char :: text ++ eol)
      = Some text).
  { unfold content_range_at. rewrite strip_prefix_app by apply eq_icase_refl.
    rewrite span_unique by done. destruct range as [|c range]; [done|].
    rewrite span_unique; [done| |].
    - eapply Forall_impl; [exact Htext|]. by intros c' ->.
    - destruct eol as [|c' eol]; [done|]. simpl in Heol. by rewrite Heol. }
  assert (Hl : forall l, content_range_at l = Some text -> leftmost content_range_at l = Some text).
  { intros l Hl. destruct l; cbn [leftmost]; by rewrite Hl. }
  rewrite (Hl _ Hat). done.
Qed.

Lemma header_lines_skip n lines :
  Forall (fun l => leftmost content_range_at l = None) lines ->
  foldM callback_header n lines = Ok n.
Proof.
  intros Hl. revert n. induction Hl as [|l lines Hl _ IH]; intros n; [done|]. cbn [foldM].
  assert (callback_header n l = Ok n) as -> by (unfold callback_header; by rewrite Hl). apply IH.
Qed.

(** The size of a presigned object is the number after the slash of the
    [Content-Range] line, whatever the range and whatever the other lines; a
    text that is no number, such as [*], or a number beyond [long], is an
    error.  Without such a line the size comes out as 0. *)
Theorem presigned_file_size `{CurlUrl} (server : list setting -> result response) (url : string)
    (before after : list (list ascii)) (range text eol : list ascii) (r : response) :
  server [OPT_URL url; OPT_RANGE "0-0"] = Ok r ->
  Forall (fun l => leftmost content_range_at l = None) (before ++ after) ->
  range <> [] -> Forall (fun c => not_char "/"%char c = true) range ->
  Forall (fun c => line_terminator c = false) text -> ends_line eol ->
  (header_lines r = before ++ [content_range_line range text eol] ++ after ->
   (text <> [] -> Forall (fun c => is_digit c = true) text ->
    get_file_size server (S3EndpointWithPresignedUrl url)
      = if digits_value text <=? SSIZE_MAX then Ok (digits_value text)
        else Err (InvalidArgument "File size information missing on the server side.")) /\
   (text = ["*"%char] ->
    get_file_size server (S3EndpointWithPresignedUrl url)
      = Err (InvalidArgument "File size information missing on the server side."))) /\
  (header_lines r = before ++ after ->
   get_file_size server (S3EndpointWithPresignedUrl url) = Ok 0).
Proof.
  intros Hserver Hother Hne Hrange Htext Heol.
  assert (Hsize : get_file_size server (S3EndpointWithPresignedUrl url)
      = wrap64 <$> foldM callback_header 0 (header_lines r)).
  { unfold get_file_size, presigned_get_file_size. rewrite Hserver. simpl. by destruct (foldM _ _ _). }
  rewrite Hsize. split.
  - intros Hlines. apply Forall_app in Hother as [Hbefore Hafter].
    assert (Hfold : foldM callback_header 0 (header_lines r) = match stol text with
        | Some n => Ok n
        | None => Err (InvalidArgument "File size information missing on the server side.") end).
    { rewrite Hlines, foldM_app, header_lines_skip by done. simpl.
      rewrite (callback_header_line 0 range text eol) by done.
      destruct (stol text); simpl; [by apply header_lines_skip|done]. }
    rewrite Hfold. split.
    + intros Hnil Hd. pose proof (stol_digits text [] Hnil Hd I) as Hs. rewrite app_nil_r in Hs.
      pose proof (digits_value_nonneg text Hd). rewrite Hs. case_bool; [|done].
      simpl. by rewrite wrap64_small by lia.
    + by intros ->.
  - intros ->. by rewrite header_lines_skip.
Qed.

Lemma strip_prefix_inv (eq : ascii -> ascii -> bool) lit s w :
  strip_prefix eq lit s = Some w -> exists p, s = p ++ w /\ length p = length lit.
Proof.
  revert s. induction lit as [|a lit IH]; intros [|c s]; simpl; try done.
  - intros [= <-]. by exists [].
  - intros [= <-]. by exists [].
  - destruct (eq a c); [|done]. intros (p & -> & Hp)%IH. exists (c :: p). simpl. by rewrite Hp.
Qed.

(** The two captures and the language of the pattern. *)
Definition s3_pattern : regex := Seq [LitI "s3://"; Plus not_slash; LitI "/"; Plus Dot].

(** What follows the scheme. *)
Lemma s3_tail_lang w :
  lang (Seq [Plus not_slash; LitI "/"; Plus Dot]) w <->
  exists b o, w = b ++ "/"%char :: o /\ b <> [] /\ Forall (fun c => not_char "/"%char c = true) b /\
    o <> [] /\ Forall (fun c => negb (line_terminator c) = true) o.
Proof.
  assert (Hslash : forall c, eq_icase "/"%char c = true -> c = "/"%char)
    by (intros c; by destruct c as [[] [] [] [] [] [] [] []]).
  cbn [Seq]. rewrite lang_cat. split.
  - intros (b & v & -> & Hb & Hv). apply lang_set_plus in Hb as [Hne Hb].
    apply (lang_lit eq_icase) in Hv as (o & Hs & Ho). apply lang_set_plus in Ho as [Hone Ho].
    destruct v as [|c v]; [done|]. simpl in Hs. destruct (eq_icase "/"%char c) eqn:E; [|done].
    apply Hslash in E as ->. injection Hs as ->. by exists b, o.
  - intros (b & o & -> & Hne & Hb & Hone & Ho). exists b, ("/"%char :: o).
    split; [done|]. split; [by apply lang_set_plus|]. apply (lang_lit eq_icase). exists o.
    split; [done|]. by apply lang_set_plus.
Qed.

(** [parse_s3_url] takes exactly the strings of the pattern
    [s3://bucket/object], the scheme in either case; the bucket is what
    precedes the first slash, the object all that follows it. *)
Theorem parse_s3_url_spec (url : string) :
  match parse_s3_url url with
  | Ok (bucket, object) =>
      lang s3_pattern (chars_of url) /\ bucket <> "" /\ object <> "" /\
      Forall (fun c => not_char "/"%char c = true) (chars_of bucket) /\
      exists s, length s = 5%nat /\
        chars_of url = s ++ chars_of bucket ++ "/"%char :: chars_of object
  | Err _ => ~ lang s3_pattern (chars_of url)
  | NoFuel => False
  end.
Proof.
  assert (Hpat : lang s3_pattern (chars_of url) <->
    exists w, strip_prefix eq_icase (chars_of "s3://") (chars_of url) = Some w /\
      lang (Seq [Plus not_slash; LitI "/"; Plus Dot]) w) by apply (lang_lit eq_icase).
  assert (Hne : forall l, l <> [] -> string_of l <> "") by by intros [].
  unfold parse_s3_url.
  destruct (strip_prefix _ _ (chars_of url)) as [w|] eqn:Hs;
    [|by intros (w & ? & _)%Hpat].
  pose proof (span_app (not_char "/"%char) w) as Hspan.
  destruct (span _ w) as [b v]. destruct Hspan as (-> & Hb & Hv).
  assert (Hno : (~ exists o, v = "/"%char :: o /\ b <> [] /\ o <> [] /\
      Forall (fun c => negb (line_terminator c) = true) o) ->
    ~ lang s3_pattern (chars_of url)).
  { intros Hn (w & [= <-] & (b' & o & Heq & Hb'ne & Hb' & Ho & Hdot)%s3_tail_lang)%Hpat. apply Hn.
    assert (Hsp : span (not_char "/"%char) (b ++ v) = (b', "/"%char :: o))
      by (rewrite Heq; by apply span_unique).
    rewrite span_unique in Hsp by done. injection Hsp as -> ->. by exists o. }
  destruct b as [|c b]; [apply Hno; by intros (o & _ & ? & _)|].
  destruct v as [|c' v]; [apply Hno; by intros (o & ? & _)|].
  assert (c' = "/"%char) as ->.
  { unfold not_char in Hv. apply negb_false_iff in Hv. symmetry. by apply Ascii.eqb_eq. }
  destruct v as [|c' v]; [apply Hno; by intros (o & [= <-] & _ & ? & _)|].
  destruct (forallb (fun c => negb (line_terminator c)) (c' :: v)) eqn:Hall.
  - pose proof (proj1 (forallb_forall _ _) Hall) as Hchars.
    assert (Hdot : Forall (fun c => negb (line_terminator c) = true) (c' :: v)).
    { apply Forall_forall. intros x Hx. apply Hchars. by apply list_elem_of_In. }
    simpl. rewrite !chars_of_string_of. split.
    { apply Hpat. eexists. split; [done|]. apply s3_tail_lang. by exists (c :: b), (c' :: v). }
    split; [done|]. split; [done|]. split; [done|].
    destruct (strip_prefix_inv _ _ _ _ Hs) as (s & -> & Hl). exists s. split; [done|done].
  - apply Hno. intros (o & [= <-] & _ & _ & Ho).
    assert (forallb (fun c => negb (line_terminator c)) (c' :: v) = true) as Ht; [|congruence].
    apply forallb_forall. intros x Hx. apply (proj1 (Forall_forall _ _) Ho). by apply list_elem_of_In.
Qed.

(** ** An S3 URL whose credentials are missing, and a presigned object *)

Definition demo_curl : CurlUrl := {|
  curl_handle := unit;
  curl_url_set _ _ := inr tt;
  curl_url_get _ part _ :=
    match part with
    | CURLUPART_SCHEME => inr "https"
    | CURLUPART_HOST => inr "b.s3.eu-west-1.amazonaws.com"
    | CURLUPART_PATH => inr "/key"
    | CURLUPART_PORT => inl 1
    | CURLUPART_QUERY => inl 2
    | CURLUPART_FRAGMENT => inl 3
    end;
  curl_url_strerror _ := "error";
  no_part part := match part with CURLUPART_PORT => 1 | CURLUPART_QUERY => 2 | _ => 3 end |}.

Definition demo_url : string := "https://b.s3.eu-west-1.amazonaws.com/key".

Definition demo_server (opts : list setting) : result response :=
  mret (mkResponse 512 [chars_of "HTTP/1.1 206";
    content_range_line (chars_of " bytes 0-0") (chars_of "777") [ascii_of_nat 13; ascii_of_nat 10]]
    [] 206).

Example webhdfs_parts :
  make_webhdfs_endpoint (fun _ => None) "http://h:9870/webhdfs/v1/f?op=OPEN&user.name=me&x=1" None
    = WebHdfsEndpoint "http://h:9870/webhdfs/v1/f" (Some "me").
Proof. vm_compute. reflexivity. Qed.

Example webhdfs_size :
  leftmost length_at ((ascii_of_nat 34 :: chars_of "length" ++ [ascii_of_nat 34])
    ++ chars_of " : 1024,") = Some (chars_of "1024").
Proof. vm_compute. reflexivity. Qed.

Example s3_formats :
  url_has_aws_s3_http_format demo_url = true /\
  url_has_aws_s3_http_format "HTTPS://s3-x.amazonaws.com/b/k" = true /\
  url_has_aws_s3_http_format "https://example.com/b/k" = false.
Proof. vm_compute. done. Qed.

Example open_picks_allowed_witness :
  let h := handle_of (S3PublicEndpoint demo_url) 512 in
  open (H := demo_curl) (fun _ => None) (fun _ => true) 8 demo_server demo_url AUTO None None = Ok h /\
  remote_endpoint_type (rh_endpoint h) ∈ default get_default_allow_list None /\
  rh_source h = endpoint_str (rh_endpoint h) /\
  (forall n, None = Some n -> rh_nbytes h = n) /\
  (AUTO <> AUTO -> remote_endpoint_type (rh_endpoint h) = AUTO /\
     accepts (H := demo_curl) 8 demo_url AUTO = true) /\
  (AUTO = AUTO -> picked (H := demo_curl) 8 demo_url (default get_default_allow_list None)
     (default get_default_allow_list None) (rh_endpoint h)).
Proof.
  intros h.
  assert (Ho : open (H := demo_curl) (fun _ => None) (fun _ => true) 8 demo_server demo_url AUTO
    None None = Ok h) by (vm_compute; reflexivity).
  split; [exact Ho|].
  exact (open_picks_allowed (H := demo_curl) (fun _ => None) (fun _ => true) 8 demo_server
    demo_url AUTO None None h Ho).
Defined.

Example presigned_file_size_witness :
  get_file_size (H := demo_curl) demo_server (S3EndpointWithPresignedUrl demo_url) = Ok 777.
Proof.
  refine (proj1 (proj1 (presigned_file_size (H := demo_curl) demo_server demo_url
    [chars_of "HTTP/1.1 206"] [] (chars_of " bytes 0-0") (chars_of "777")
    [ascii_of_nat 13; ascii_of_nat 10] _ _ _ _ _ _ _) _) _ _);
    try reflexivity; try done; repeat constructor.
Defined.
