(* ===== verification/EasyHandles.v ===== *)
(** * Easy handles

    [src/shim/libcurl.cpp]: the pool of easy handles that [LibCurl] keeps, the
    construction of a [CurlHandle] over one of them with the options it sets,
    and its destruction.  The DNS share of the thread is that of [CurlShare], the
    certificates are those of [Tls].  What is shown is that reuse cannot be
    seen: a handle is set up, and stays, as if it had been made for its owner. *)

From stdpp Require Import base list gmap sets strings pretty.
From Stdlib Require Import ZArith Lia.
From S2P Require Import Prelude Utils Defaults CurlShare Tls Endpoint.

#[local] Open Scope Z_scope.

(** The options set on a handle; [REQUEST] stands for those of an endpoint. *)
Inductive easy_option :=
  | CURLOPT_NOSIGNAL
  | CURLOPT_ERRORBUFFER (owner : Z)       (* the [_errbuf] of that [CurlHandle] *)
  | CURLOPT_FAILONERROR
  | CURLOPT_TIMEOUT (seconds : Z)
  | CURLOPT_SHARE (share : Z)             (* 0 for null *)
  | CURLOPT_VERBOSE
  | CURLOPT_BUFFERSIZE (n : Z)
  | CURLOPT_INTERFACE (name : string)
  | REQUEST (s : setting).

(** An easy handle of libcurl: what was set, in order, but for the share and the
    certificates, which are kept apart. *)
Record easy := mkEasy {
  e_options : list easy_option;
  e_share : Z;
  e_cainfo : option string;
  e_capath : option string }.

Definition new_easy : easy := mkEasy [] 0 None None.

(** libcurl: [curl_easy_init] given the handles there are, 0 for a failure; the
    code of [curl_easy_setopt]; its texts; [CURL_MAX_WRITE_SIZE] and
    [CURL_MAX_READ_SIZE]. *)
Class EasyApi := {
  curl_easy_init : gset Z -> Z;
  curl_easy_setopt : easy_option -> Z;
  curl_easy_setopt_ca : ca_option -> Z;
  curl_easy_strerror : Z -> string;
  CURL_MAX_WRITE_SIZE : Z;
  CURL_MAX_READ_SIZE : Z }.

(** A new handle is none of those there are, and a handle can always be taken
    off its share. *)
Class EasyApiLaws `{EasyApi} := {
  easy_fresh l : curl_easy_init l = 0 \/ curl_easy_init l ∉ l;
  easy_detaches : curl_easy_setopt (CURLOPT_SHARE 0) = 0 }.

(** What the handles share: the registry of DNS caches, the certificates once
    found, and the statics of the constructor. *)
Record easy_statics := mkStatics {
  es_shares : shares;
  es_paths : option (option string * option string);
  es_share_dns : option bool;
  es_buffer_size : option Z;
  es_interface : option string }.

Definition no_statics : easy_statics := mkStatics no_shares None None None None.

(** [curl_easy_setopt] as it takes effect.  [curl_easy_reset] keeps the share,
    as its documentation says. *)
Definition apply_option (o : easy_option) (e : easy) : easy :=
  match o with
  | CURLOPT_SHARE h => mkEasy (e_options e) h (e_cainfo e) (e_capath e)
  | _ => mkEasy (e_options e ++ [o]) (e_share e) (e_cainfo e) (e_capath e)
  end.

Definition curl_easy_reset (e : easy) : easy := mkEasy [] (e_share e) None None.

(** ** Constructing a handle *)

Section construct.
Context `{ShareApi} `{EasyApi}.
(** The environment, [access] and [curl_version_info] at the time. *)
Variables (getenv : string -> option string) (access : string -> Z)
  (version_info : option (option string * option string)).

(** The handle that is set up, with the statics. *)
Abbreviation setting_up := (easy * easy_statics)%type.

Definition curl_setopt_error (err : Z) : exn :=
  RuntimeError ("curl_easy_setopt() error (" +:+ curl_easy_strerror err +:+ ")").

(** [CurlHandle::setopt] *)
Definition setopt (o : easy_option) : st setting_up unit :=
  let err := curl_easy_setopt o in
  _ ← require (err =? 0) (curl_setopt_error err);
  modify (fun x => (apply_option o x.1, x.2)).

Definition on_shares {A} (m : st shares A) : st setting_up A := fun x =>
  let '(r, s) := m (es_shares x.2) in
  (r, (x.1, mkStatics s (es_paths x.2) (es_share_dns x.2) (es_buffer_size x.2) (es_interface x.2))).

Definition on_tls {A} (m : st tls_state A) : st setting_up A := fun x =>
  let '(r, s) := m (mkTls (es_paths x.2) (e_cainfo x.1) (e_capath x.1)) in
  (r, (mkEasy (e_options x.1) (e_share x.1) (cainfo s) (capath s),
       mkStatics (es_shares x.2) (static_paths s) (es_share_dns x.2) (es_buffer_size x.2) (es_interface x.2))).

(** A [static] local: its initialiser runs until it returns once. *)
Definition read_once {A} (get : easy_statics -> option A) (put : A -> easy_statics -> easy_statics)
    (init : result A) : st setting_up A := fun x =>
  match get x.2 with
  | Some a => (inr a, x)
  | None => match init with
            | Ok a => (inr a, (x.1, put a x.2))
            | Err e => (inl e, x)
            | NoFuel => (inl (RuntimeError ""), x)
            end
  end.

Definition read_share_dns : st setting_up bool :=
  read_once es_share_dns
    (fun b s => mkStatics (es_shares s) (es_paths s) (Some b) (es_buffer_size s) (es_interface s))
    (getenv_or_bool getenv "KVIKIO_REMOTE_SHARE_DNS_CACHE" true).

Definition read_buffer_size : st setting_up Z :=
  read_once es_buffer_size
    (fun n s => mkStatics (es_shares s) (es_paths s) (es_share_dns s) (Some n) (es_interface s))
    (env ← getenv_or_long getenv "KVIKIO_REMOTE_IO_BUFFER_SIZE" CURL_MAX_WRITE_SIZE;
     _ ← expect ((env >=? 1024) && (env <=? CURL_MAX_READ_SIZE))
           (InvalidArgument ("KVIKIO_REMOTE_IO_BUFFER_SIZE has to be an integer between 1024 and "
                             +:+ pretty CURL_MAX_READ_SIZE));
     mret env).

Definition read_interface : st setting_up string :=
  read_once es_interface
    (fun i s => mkStatics (es_shares s) (es_paths s) (es_share_dns s) (es_buffer_size s) (Some i))
    (mret (default "" (getenv "KVIKIO_REMOTE_IO_INTERFACE"))).

(** The share the handle gets: that of the thread, or none. *)
Definition share_for (tid : Z) (use_shared_dns_cache : bool) : st setting_up Z :=
  share_dns_cache ← (if use_shared_dns_cache then read_share_dns else mret false);
  if (share_dns_cache : bool) then on_shares (share_handle_for_current_thread getenv tid) else mret 0.

(** The body of [CurlHandle::CurlHandle], for the object [k] in thread [tid];
    [http_timeout] is the setting. *)
Definition set_up (k tid http_timeout : Z) (use_shared_dns_cache : bool) : st setting_up unit :=
  _ ← setopt CURLOPT_NOSIGNAL;
  _ ← setopt (CURLOPT_ERRORBUFFER k);
  _ ← setopt CURLOPT_FAILONERROR;
  _ ← setopt (CURLOPT_TIMEOUT http_timeout);
  share ← share_for tid use_shared_dns_cache;
  _ ← setopt (CURLOPT_SHARE share);
  verbose ← of_result (getenv_or_bool getenv "KVIKIO_REMOTE_VERBOSE" false);
  _ ← (if (verbose : bool) then setopt CURLOPT_VERBOSE else mret tt);
  buffer_size ← read_buffer_size;
  _ ← setopt (CURLOPT_BUFFERSIZE buffer_size);
  interface ← read_interface;
  _ ← (if decide (interface = "") then mret tt else setopt (CURLOPT_INTERFACE interface));
  on_tls (set_up_ca_paths getenv access version_info curl_easy_setopt_ca curl_easy_strerror).
End construct.

(** ** The pool *)

Record easy_world := mkEasyWorld {
  free_curl_handles : list Z;          (* the back of the vector first *)
  handles : gmap Z easy;               (* of libcurl *)
  owners : gmap Z Z;                   (* the [_handle] of each [CurlHandle] *)
  statics : easy_statics }.

Definition empty_world : easy_world := mkEasyWorld [] ∅ ∅ no_statics.

Definition set_free (l : list Z) (w : easy_world) : easy_world := mkEasyWorld l (handles w) (owners w) (statics w).
Definition set_handles (m : gmap Z easy) (w : easy_world) : easy_world :=
  mkEasyWorld (free_curl_handles w) m (owners w) (statics w).

Section pool.
Context `{ShareApi} `{EasyApi}.

(** [LibCurl::get_free_handle] *)
Definition get_free_handle : st easy_world (option Z) := fun w =>
  match free_curl_handles w with
  | [] => (inr None, w)
  | h :: free => (inr (Some h), set_free free w)
  end.

(** [LibCurl::get_handle] *)
Definition get_handle : st easy_world Z :=
  ret ← get_free_handle;
  match ret with
  | Some h => _ ← modify (fun w => set_handles (alter curl_easy_reset h (handles w)) w); mret h
  | None =>
      w ← get_st;
      let raw_handle := curl_easy_init (dom (handles w)) in
      _ ← require (negb (raw_handle =? 0)) (RuntimeError "libcurl: call to curl_easy_init() failed");
      _ ← modify (fun w => set_handles (<[raw_handle := new_easy]> (handles w)) w);
      mret raw_handle
  end.

(** [LibCurl::retain_handle] *)
Definition retain_handle (h : Z) (w : easy_world) : easy_world := set_free (h :: free_curl_handles w) w.

(** [LibCurl::~LibCurl] cleans up what the pool holds. *)
Definition destroy_libcurl (w : easy_world) : easy_world :=
  set_free [] (set_handles (filter (fun kv => kv.1 ∉ free_curl_handles w) (handles w)) w).

(** The environment and the setting as a constructor finds them. *)
Record surroundings := mkSurroundings {
  su_getenv : string -> option string;
  su_access : string -> Z;
  su_version_info : option (option string * option string);
  su_http_timeout : Z }.

Definition set_up_in (u : surroundings) (k tid : Z) (use_shared_dns_cache : bool) : st (easy * easy_statics) unit :=
  set_up (su_getenv u) (su_access u) (su_version_info u) k tid (su_http_timeout u) use_shared_dns_cache.

(** [CurlHandle::CurlHandle]: an exception destroys the member [_handle], which
    cleans the easy handle up. *)
Definition new_curl_handle (u : surroundings) (k tid : Z) (use_shared_dns_cache : bool) (h : Z) : st easy_world unit := fun w =>
  match handles w !! h with
  | None => (inr tt, w)
  | Some e =>
      match set_up_in u k tid use_shared_dns_cache (e, statics w) with
      | (inr _, (e, ss)) =>
          (inr tt, mkEasyWorld (free_curl_handles w) (<[h := e]> (handles w)) (<[k := h]> (owners w)) ss)
      | (inl x, (_, ss)) => (inl x, mkEasyWorld (free_curl_handles w) (delete h (handles w)) (owners w) ss)
      end
  end.

(** [create_curl_handle()] *)
Definition create_curl_handle (u : surroundings) (k tid : Z) (use_shared_dns_cache : bool) : st easy_world unit :=
  _ ← libcurl_instance;
  h ← get_handle;
  new_curl_handle u k tid use_shared_dns_cache h.

(** [CurlHandle::~CurlHandle] ignores whether the share could be taken off. *)
Definition destroy_curl_handle (k : Z) (w : easy_world) : easy_world :=
  match owners w !! k with
  | None => w
  | Some h =>
      let w := if curl_easy_setopt (CURLOPT_SHARE 0) =? 0
               then set_handles (alter (apply_option (CURLOPT_SHARE 0)) h (handles w)) w else w in
      retain_handle h (mkEasyWorld (free_curl_handles w) (handles w) (delete k (owners w)) (statics w))
  end.

(** [CurlHandle::setopt], as an endpoint calls it. *)
Definition request_option (k : Z) (s : setting) : st easy_world unit := fun w =>
  match owners w !! k with
  | None => (inr tt, w)
  | Some h =>
      let err := curl_easy_setopt (REQUEST s) in
      (_ ← require (err =? 0) (curl_setopt_error err);
       modify (fun w => set_handles (alter (apply_option (REQUEST s)) h (handles w)) w)) w
  end.

(** What threads do, in any order; an object is constructed once. *)
Inductive easy_op :=
  | Create (u : surroundings) (k tid : Z) (use_shared_dns_cache : bool)
  | Request (k : Z) (s : setting)
  | Destroy (k : Z)
  | ThreadExit (tid : Z).

Definition on_statics (f : shares -> shares) (s : easy_statics) : easy_statics :=
  mkStatics (f (es_shares s)) (es_paths s) (es_share_dns s) (es_buffer_size s) (es_interface s).

Definition easy_step (o : easy_op) (w : easy_world) : easy_world :=
  match o with
  | Create u k tid use => if decide (owners w !! k = None) then (create_curl_handle u k tid use w).2 else w
  | Request k s => (request_option k s w).2
  | Destroy k => destroy_curl_handle k w
  | ThreadExit tid =>
      mkEasyWorld (free_curl_handles w) (handles w) (owners w) (on_statics (thread_exit tid) (statics w))
  end.

(** ** Handles of one's own

    The specification: every [CurlHandle] has an easy handle that was made for
    it, and nothing is pooled.  Making one may fail. *)
Abbreviation private_handles := (gmap Z easy * easy_statics)%type (only parsing).

Inductive private_step : easy_op -> private_handles -> private_handles -> Prop :=
  | private_none u k tid use m s :         (* libcurl gave no handle *)
      private_step (Create u k tid use) (m, s) (m, s)
  | private_made u k tid use m s e s' :
      m !! k = None -> set_up_in u k tid use (new_easy, s) = (inr tt, (e, s')) ->
      private_step (Create u k tid use) (m, s) (<[k := e]> m, s')
  | private_failed u k tid use m s x e s' :
      set_up_in u k tid use (new_easy, s) = (inl x, (e, s')) ->
      private_step (Create u k tid use) (m, s) (m, s')
  | private_request k o m s :
      private_step (Request k o) (m, s)
        (if curl_easy_setopt (REQUEST o) =? 0 then alter (apply_option (REQUEST o)) k m else m, s)
  | private_destroy k m s : private_step (Destroy k) (m, s) (delete k m, s)
  | private_exit tid m s : private_step (ThreadExit tid) (m, s) (m, on_statics (thread_exit tid) s).

Inductive private_run : list easy_op -> private_handles -> private_handles -> Prop :=
  | private_nil x : private_run [] x x
  | private_cons o ops x y z : private_step o x y -> private_run ops y z -> private_run (o :: ops) x z.

Definition run_easy (ops : list easy_op) (w : easy_world) : easy_world := foldl (flip easy_step) w ops.

(** What is set for the object [k]. *)
Definition configured (k : Z) (w : easy_world) : option easy := h ← owners w !! k; handles w !! h.
End pool.

(** ** A handle from the pool is set up like a new one

    Two runs of a computation from related handles give the same answer, and
    leave related handles when they return. *)
Section couples.
Context `{ShareApi} `{EasyApi}.
Abbreviation setting_up := (easy * easy_statics)%type (only parsing).
Implicit Type R : setting_up -> setting_up -> Prop.

Definition couples {A} R R' (m : st setting_up A) : Prop :=
  forall x y, R x y ->
  match m x, m y with
  | (inr a, x'), (inr b, y') => a = b /\ R' x' y'
  | (inl e, x'), (inl f, y') => e = f /\ x'.2 = y'.2
  | _, _ => False
  end.

Definition same_but_share (x y : setting_up) : Prop :=
  e_options x.1 = e_options y.1 /\ e_cainfo x.1 = e_cainfo y.1 /\ e_capath x.1 = e_capath y.1 /\ x.2 = y.2.

Lemma couples_bind {A B} R R' R'' (m : st setting_up A) (f : A -> st setting_up B) :
  couples R R' m -> (forall a, couples R' R'' (f a)) -> couples R R'' (m ≫= f).
Proof.
  intros Hm Hf x y Hxy. specialize (Hm x y Hxy). unfold mbind, st_bind.
  destruct (m x) as [[e|a] x'], (m y) as [[f'|b] y']; try done. destruct Hm as [-> Hr]. by apply Hf.
Qed.

Lemma couples_eq {A} (m : st setting_up A) : couples eq eq m.
Proof. intros x y ->. by destruct (m y) as [[e|a] y']. Qed.

Lemma couples_ret {A} R (a : A) : couples R R (mret a).
Proof. by intros x y Hxy. Qed.

Lemma couples_setopt o : couples same_but_share (match o with CURLOPT_SHARE _ => eq | _ => same_but_share end) (setopt o).
Proof.
  intros [[lx hx cx px] sx] [[ly hy cy py] sy] (? & ? & ? & ?); simpl in *; subst. unfold setopt, require.
  destruct (_ =? 0); [|done]. cbn. split; [done|]. by destruct o.
Qed.

Lemma couples_read_once {A} get put (init : result A) : couples same_but_share same_but_share (read_once get put init).
Proof.
  intros [ex sx] [ey sy] (? & ? & ? & Hs); simpl in Hs; subst. unfold read_once. simpl.
  by destruct (get sy), init.
Qed.

Lemma couples_on_shares {A} (m : st shares A) : couples same_but_share same_but_share (on_shares m).
Proof.
  intros [ex sx] [ey sy] (? & ? & ? & Hs); simpl in Hs; subst. unfold on_shares. simpl.
  by destruct (m (es_shares sy)) as [[e|a] s'].
Qed.

Lemma couples_share_for getenv tid use : couples same_but_share same_but_share (share_for getenv tid use).
Proof.
  unfold share_for. eapply couples_bind; [destruct use; [apply couples_read_once|apply couples_ret]|].
  intros []; [apply couples_on_shares|apply couples_ret].
Qed.

Lemma couples_set_up u k tid use : couples same_but_share eq (set_up_in u k tid use).
Proof.
  unfold set_up_in, set_up. do 4 (eapply couples_bind; [apply (couples_setopt _)|intros []]).
  eapply couples_bind; [apply couples_share_for|intros share].
  eapply couples_bind; [apply (couples_setopt (CURLOPT_SHARE share))|intros []]. apply couples_eq.
Qed.

(** Set up over whatever share it had, or over a new handle. *)
Lemma set_up_reset u k tid use e s :
  match set_up_in u k tid use (curl_easy_reset e, s), set_up_in u k tid use (new_easy, s) with
  | (inr _, x), (inr _, y) => x = y
  | (inl e, x), (inl f, y) => e = f /\ x.2 = y.2
  | _, _ => False
  end.
Proof.
  pose proof (couples_set_up u k tid use (curl_easy_reset e, s) (new_easy, s)) as Hc.
  assert (Hs : same_but_share (curl_easy_reset e, s) (new_easy, s)) by by split_and!. specialize (Hc Hs).
  destruct (set_up_in _ _ _ _ _) as [[a|a] x], (set_up_in _ _ _ _ (new_easy, s)) as [[b|b] y]; tauto.
Qed.
End couples.

(** ** Where the handles are *)

(** [hand] is a handle that has left the pool and has no object yet. *)
Record handles_ok (hand : option Z) (w : easy_world) : Prop := mkHandlesOk {
  ho_nodup : NoDup (free_curl_handles w);
  ho_free h : h ∈ free_curl_handles w -> exists e, handles w !! h = Some e /\ e_share e = 0;
  ho_owned k h : owners w !! k = Some h -> is_Some (handles w !! h) /\ h ∉ free_curl_handles w /\ hand <> Some h;
  ho_one k k' h : owners w !! k = Some h -> owners w !! k' = Some h -> k = k';
  ho_hand h : hand = Some h -> h ∉ free_curl_handles w /\ exists e, handles w !! h = Some (curl_easy_reset e);
  ho_all h : is_Some (handles w !! h) -> h ∈ free_curl_handles w \/ (exists k, owners w !! k = Some h) \/ hand = Some h }.

Lemma empty_world_ok : handles_ok None empty_world.
Proof.
  constructor; simpl; try done.
  - constructor.
  - by intros h ?%not_elem_of_nil.
  - intros h [e He]. by rewrite lookup_empty in He.
Qed.

Section places.
Context `{ShareApi} `{EasyApi} `{!EasyApiLaws}.

(** [w'] differs from [w] at most where no object looks. *)
Definition same_for_objects (w w' : easy_world) : Prop :=
  owners w' = owners w /\ statics w' = statics w /\
  (forall k h, owners w !! k = Some h -> handles w' !! h = handles w !! h).

Lemma get_handle_ok w :
  handles_ok None w ->
  ends get_handle w (fun h w' => handles_ok (Some h) w' /\ same_for_objects w w') (fun _ w' => w' = w).
Proof.
  intros [A1 A2 A3 A4 A5 A6]. unfold get_handle, get_free_handle, ends, mbind, st_bind.
  destruct (free_curl_handles w) as [|h free] eqn:Hfree.
  - cbn. destruct (easy_fresh (dom (handles w))) as [->|Hf]; [done|].
    set (h := curl_easy_init _) in *. rewrite not_elem_of_dom in Hf.
    assert (Hno : forall k h', owners w !! k = Some h' -> h <> h').
    { intros k h' Hk <-. apply A3 in Hk as [[e He] _]. congruence. }
    destruct (h =? 0); [done|]. cbn. split; [|split_and!; try done].
    + constructor; simpl; rewrite ?Hfree; try done.
      * intros h0 Hin. exfalso. exact (not_elem_of_nil _ Hin).
      * intros k h' Hk. pose proof (Hno k h' Hk). rewrite lookup_insert_ne by done.
        destruct (A3 k h' Hk) as (? & ? & _). split_and!; [done|by rewrite ?Hfree in *|congruence].
      * intros h' [= <-]. split; [by apply not_elem_of_nil|]. exists new_easy. by rewrite lookup_insert_eq.
      * intros h'. destruct (decide (h = h')) as [<-|Hne]; [by right; right|]. rewrite lookup_insert_ne by done.
        intros [?|[?|?]]%A6; [left; by rewrite ?Hfree in *|by right; left|done].
    + intros k h' Hk. simpl. by rewrite lookup_insert_ne by (by eapply Hno).
  - cbn. apply NoDup_cons in A1 as [Hn A1]. split; [|split_and!; try done].
    + constructor; simpl; try done.
      * intros h' Hh'. rewrite lookup_alter_ne by congruence. apply A2. by right.
      * intros k h' Hk. destruct (A3 k h' Hk) as (? & Hin & _). rewrite ?Hfree in Hin. apply not_elem_of_cons in Hin as [? ?].
        rewrite lookup_alter_ne by congruence. split_and!; [done|done|congruence].
      * intros h' [= <-]. split; [done|]. destruct (A2 h) as (e & He & _); [by left|]. exists e. by rewrite lookup_alter_eq, He.
      * intros h' Hs. destruct (decide (h = h')) as [<-|Hne]; [by right; right|]. rewrite lookup_alter_ne in Hs by done.
        destruct (A6 h' Hs) as [Hin|[?|?]]; [|by right; left|done]. rewrite ?Hfree in Hin. apply elem_of_cons in Hin as [->|?]; [done|by left].
    + intros k h' Hk. destruct (A3 k h' Hk) as (_ & Hin & _). rewrite ?Hfree in Hin. apply not_elem_of_cons in Hin as [? ?].
      simpl. by rewrite lookup_alter_ne by congruence.
Qed.

(** The handle in hand gets its object, or is cleaned up. *)
Lemma owned_ok w k h e ss :
  handles_ok (Some h) w -> owners w !! k = None ->
  handles_ok None (mkEasyWorld (free_curl_handles w) (<[h := e]> (handles w)) (<[k := h]> (owners w)) ss).
Proof.
  intros [A1 A2 A3 A4 A5 A6] Hk. destruct (A5 h eq_refl) as [Hfree _]. constructor; simpl; try done.
  - intros h' Hh'. rewrite lookup_insert_ne by congruence. by apply A2.
  - intros k' h' [[<- <-]|[Hne Hk']]%lookup_insert_Some; [by rewrite lookup_insert_eq|].
    destruct (A3 k' h' Hk') as (? & ? & ?). rewrite lookup_insert_ne by congruence. by split_and!.
  - intros k1 k2 h' [[<- <-]|[H1' Hk1]]%lookup_insert_Some [[<- Hh]|[H2' Hk2]]%lookup_insert_Some; try done.
    + by destruct (A3 k2 h Hk2) as (_ & _ & ?).
    + subst h'. by destruct (A3 k1 h Hk1) as (_ & _ & ?).
    + by eapply A4.
  - intros h' Hs. destruct (decide (h = h')) as [<-|Hne].
    { right. left. exists k. apply lookup_insert_eq. }
    rewrite lookup_insert_ne in Hs by done. destruct (A6 h' Hs) as [?|[[k' Hk']|?]]; [by left| |congruence].
    right. left. exists k'. rewrite lookup_insert_ne by congruence. done.
Qed.

Lemma discarded_ok w h ss :
  handles_ok (Some h) w ->
  handles_ok None (mkEasyWorld (free_curl_handles w) (delete h (handles w)) (owners w) ss).
Proof.
  intros [A1 A2 A3 A4 A5 A6]. destruct (A5 h eq_refl) as [Hfree _]. constructor; simpl; try done.
  - intros h' Hh'. rewrite lookup_delete_ne by congruence. by apply A2.
  - intros k h' Hk. destruct (A3 k h' Hk) as (? & ? & ?). rewrite lookup_delete_ne by congruence. by split_and!.
  - intros h' Hs. destruct (decide (h = h')) as [<-|Hne]; [rewrite lookup_delete_eq in Hs; by destruct Hs|].
    rewrite lookup_delete_ne in Hs by done. destruct (A6 h' Hs) as [?|[?|?]]; [by left|by right; left|congruence].
Qed.

(** Setting options of an owned handle moves nothing. *)
Lemma altered_ok w k h f :
  handles_ok None w -> owners w !! k = Some h -> handles_ok None (set_handles (alter f h (handles w)) w).
Proof.
  intros [A1 A2 A3 A4 A5 A6] Hk. destruct (A3 k h Hk) as (_ & Hfree & _). constructor; simpl; try done.
  - intros h' Hh'. rewrite lookup_alter_ne by congruence. by apply A2.
  - intros k' h' Hk'. rewrite lookup_alter_is_Some. by apply (A3 k').
  - intros h'. rewrite lookup_alter_is_Some. apply A6.
Qed.

Lemma destroyed_ok w k : handles_ok None w -> handles_ok None (destroy_curl_handle k w).
Proof.
  intros [A1 A2 A3 A4 A5 A6]. unfold destroy_curl_handle. destruct (owners w !! k) as [h|] eqn:Hk; [|by constructor].
  rewrite easy_detaches. simpl. destruct (A3 k h Hk) as ([e He] & Hfree & _).
  assert (Hother : forall k' h', delete k (owners w) !! k' = Some h' -> h' <> h /\ owners w !! k' = Some h').
  { intros k' h' [Hne Hk']%lookup_delete_Some. split; [|done]. intros ->. apply Hne. by eapply A4. }
  constructor; simpl; try done.
  - by apply NoDup_cons.
  - intros h' [->|Hin]%elem_of_cons; [exists (apply_option (CURLOPT_SHARE 0) e); by rewrite lookup_alter_eq, He|].
    rewrite lookup_alter_ne by congruence. by apply A2.
  - intros k' h' Hk'. destruct (Hother k' h' Hk') as [Hne Ho]. destruct (A3 k' h' Ho) as (? & ? & ?).
    rewrite lookup_alter_ne, not_elem_of_cons by congruence. by split_and!.
  - intros k1 k2 h' [_ Hk1]%Hother [_ Hk2]%Hother. by eapply A4.
  - intros h'. rewrite lookup_alter_is_Some. intros [?|[[k' Hk']|?]]%A6; [left; by right| |done].
    destruct (decide (k = k')) as [<-|Hne]; [rewrite Hk in Hk'; injection Hk' as <-; left; by left|].
    right. left. exists k'. by rewrite lookup_delete_ne.
Qed.

(** ** The refinement *)

Definition represents (w : easy_world) (x : gmap Z easy * easy_statics) : Prop :=
  x.2 = statics w /\ forall k, x.1 !! k = configured k w.

Lemma represents_same w w' x : same_for_objects w w' -> represents w x -> represents w' x.
Proof.
  intros (Ho & Hs & Hh) [Hx Hm]. split; [congruence|]. intros k. rewrite Hm. unfold configured. rewrite Ho.
  destruct (owners w !! k) as [h|] eqn:Hk; [|done]. simpl. symmetry. by eapply Hh.
Qed.

Definition refines_to (o : easy_op) (x : gmap Z easy * easy_statics) (w' : easy_world) : Prop :=
  handles_ok None w' /\ exists y, private_step o x y /\ represents w' y.

Lemma refines_nothing u k tid use w x :
  handles_ok None w -> represents w x -> refines_to (Create u k tid use) x w.
Proof. intros Hok Hr. split; [done|]. exists x. destruct x. split; [apply private_none|done]. Qed.

Lemma create_refines u k tid use w x :
  handles_ok None w -> represents w x -> owners w !! k = None ->
  refines_to (Create u k tid use) x (create_curl_handle u k tid use w).2.
Proof.
  intros Hok Hr Hk. unfold create_curl_handle, mbind at 1, st_bind at 1.
  assert (Hl : (libcurl_instance w).2 = w).
  { unfold libcurl_instance, require, mbind, st_bind. by destruct (_ =? 0), version_threadsafe. }
  destruct (libcurl_instance w) as [[e|[]] w0]; simpl in Hl; subst w0; simpl.
  { by apply refines_nothing. }
  unfold mbind, st_bind. pose proof (get_handle_ok w Hok) as Hg. unfold ends in Hg.
  destruct (get_handle w) as [[e|h] w1]; [subst w1; by apply refines_nothing|].
  destruct Hg as [Hok1 Hsame]. apply (represents_same _ _ _ Hsame) in Hr. rewrite <-(proj1 Hsame) in Hk. clear Hok Hsame.
  destruct (ho_hand _ _ Hok1 h eq_refl) as [Hfree [e He]]. unfold new_curl_handle. rewrite He.
  destruct x as [m s], Hr as [Hs Hm]. simpl in Hs, Hm. subst s.
  pose proof (set_up_reset u k tid use e (statics w1)) as Hset.
  assert (Hmine : forall k' h', owners w1 !! k' = Some h' -> h <> h').
  { intros k' h' Hk' <-. by destruct (ho_owned _ _ Hok1 k' h Hk') as (_ & _ & ?). }
  destruct (set_up_in u k tid use (curl_easy_reset e, _)) as [[f|[]] [e1 s1]], (set_up_in u k tid use (new_easy, _)) as [[f'|[]] [e2 s2]] eqn:Hnew; try done.
  - destruct Hset as [_ Hs]. simpl in Hs. subst s2. split; [by apply discarded_ok|]. exists (m, s1). split; [by eapply private_failed|].
    split; [done|]. intros k'. simpl. rewrite Hm. unfold configured. simpl.
    destruct (owners w1 !! k') as [h'|] eqn:Hk'; [|done]. simpl. by rewrite lookup_delete_ne by (by eapply Hmine).
  - injection Hset as -> ->. split; [by apply owned_ok|]. exists (<[k := e2]> m, s2). split.
    { apply private_made; [|done]. rewrite Hm. unfold configured. by rewrite Hk. }
    split; [done|]. intros k'. simpl. unfold configured. simpl. destruct (decide (k = k')) as [<-|Hne].
    + rewrite !lookup_insert_eq. simpl. by rewrite lookup_insert_eq.
    + rewrite !lookup_insert_ne, Hm by done. unfold configured. destruct (owners w1 !! k') as [h'|] eqn:Hk'; [|done].
      simpl. by rewrite lookup_insert_ne by (by eapply Hmine).
Qed.

Lemma request_option_refines k o w x :
  handles_ok None w -> represents w x -> refines_to (Request k o) x (request_option k o w).2.
Proof.
  intros Hok Hr. destruct x as [m s], Hr as [Hs Hm]. simpl in Hs, Hm. subst s. unfold request_option.
  destruct (owners w !! k) as [h|] eqn:Hk.
  - unfold require, mbind, st_bind. destruct (curl_easy_setopt (REQUEST o) =? 0) eqn:Ho; simpl.
    + split; [by eapply altered_ok|]. exists (alter (apply_option (REQUEST o)) k m, statics w).
      split; [pose proof (private_request k o m (statics w)) as Hp; by rewrite Ho in Hp|].
      split; [done|]. intros k'. simpl. unfold configured. simpl. destruct (decide (k = k')) as [<-|Hne].
      * rewrite lookup_alter_eq, Hm. unfold configured. rewrite Hk. simpl. by rewrite lookup_alter_eq.
      * rewrite lookup_alter_ne, Hm by done. unfold configured. destruct (owners w !! k') as [h'|] eqn:Hk'; [|done].
        simpl. rewrite lookup_alter_ne; [done|]. intros ->. apply Hne. by eapply (ho_one _ _ Hok).
    + split; [done|]. exists (m, statics w). split; [|by split].
      pose proof (private_request k o m (statics w)) as Hp. by rewrite Ho in Hp.
  - split; [done|]. exists (m, statics w). split; [|by split].
    pose proof (private_request k o m (statics w)) as Hp. destruct (_ =? 0); [|done].
    replace (alter (apply_option (REQUEST o)) k m) with m in Hp; [done|].
    symmetry. apply alter_id. intros e. rewrite Hm. unfold configured. by rewrite Hk.
Qed.

Lemma destroy_refines k w x :
  handles_ok None w -> represents w x -> refines_to (Destroy k) x (destroy_curl_handle k w).
Proof.
  intros Hok Hr. destruct x as [m s], Hr as [Hs Hm]. simpl in Hs, Hm. subst s.
  split; [by apply destroyed_ok|]. exists (delete k m, statics w). split; [apply private_destroy|].
  unfold destroy_curl_handle. destruct (owners w !! k) as [h|] eqn:Hk.
  - rewrite easy_detaches. split; [done|]. intros k'. simpl. unfold configured. simpl.
    destruct (decide (k = k')) as [<-|Hne]; [by rewrite !lookup_delete_eq|].
    rewrite !lookup_delete_ne, Hm by done. unfold configured. destruct (owners w !! k') as [h'|] eqn:Hk'; [|done].
    simpl. rewrite lookup_alter_ne; [done|]. intros ->. apply Hne. by eapply (ho_one _ _ Hok).
  - split; [done|]. intros k'. simpl. destruct (decide (k = k')) as [<-|Hne].
    + rewrite lookup_delete_eq. unfold configured. by rewrite Hk.
    + by rewrite lookup_delete_ne.
Qed.

Lemma exit_refines tid w x :
  handles_ok None w -> represents w x -> refines_to (ThreadExit tid) x (easy_step (ThreadExit tid) w).
Proof.
  intros [A1 A2 A3 A4 A5 A6] Hr. destruct x as [m s], Hr as [Hs Hm]. simpl in Hs, Hm. subst s. split; [by constructor|].
  exists (m, on_statics (thread_exit tid) (statics w)). split; [apply private_exit|by split].
Qed.

Lemma easy_step_refines o w x : handles_ok None w -> represents w x -> refines_to o x (easy_step o w).
Proof.
  intros Hok Hr. destruct o as [u k tid use|k s|k|tid]; simpl.
  - destruct (decide _) as [Hk|Hk]; [by apply create_refines|by apply refines_nothing].
  - by apply request_option_refines.
  - by apply destroy_refines.
  - by apply exit_refines.
Qed.

Lemma run_easy_refines ops w x :
  handles_ok None w -> represents w x ->
  handles_ok None (run_easy ops w) /\ exists y, private_run ops x y /\ represents (run_easy ops w) y.
Proof.
  revert w x. induction ops as [|o ops IH]; intros w x Hok Hr.
  - split; [done|]. exists x. split; [constructor|done].
  - destruct (easy_step_refines o w x Hok Hr) as (Hok1 & y & Hs & Hy).
    destruct (IH _ _ Hok1 Hy) as (Hok2 & z & Hz & Hrz). split; [exact Hok2|]. exists z. split; [by econstructor|exact Hrz].
Qed.
End places.

(** [~LibCurl] cleans up all but the handles that objects still have. *)
Lemma destroy_libcurl_keeps_owned w h :
  handles_ok None w ->
  is_Some (handles (destroy_libcurl w) !! h) <-> exists k, owners w !! k = Some h.
Proof.
  intros [A1 A2 A3 A4 A5 A6]. unfold destroy_libcurl. simpl. split.
  - intros [e [He Hh]%map_lookup_filter_Some]. destruct (A6 h) as [?|[?|?]]; [by eexists|done|done|done].
  - intros [k Hk]. destruct (A3 k h Hk) as ([e He] & Hf & _). exists e. by apply map_lookup_filter_Some.
Qed.

(** C20. Reuse cannot be seen.  Whatever threads construct, use and destroy, and
    whatever fails, what is set for each [CurlHandle] is what would be if it had
    an easy handle made for it alone: nothing an earlier owner set, its
    credentials and headers among it, is left.  Every easy handle is in one
    place: waiting in the pool, attached to no share, or with one object. *)
Theorem pooled_handles_like_new `{ShareApi} `{EasyApi} `{!EasyApiLaws} (ops : list easy_op) :
  let w := run_easy ops empty_world in
  (exists m, private_run ops (∅, no_statics) (m, statics w) /\ forall k, configured k w = m !! k) /\
  NoDup (free_curl_handles w) /\
  (forall h, h ∈ free_curl_handles w ->
     (exists e, handles w !! h = Some e /\ e_share e = 0) /\ forall k, owners w !! k <> Some h) /\
  (forall k k' h, owners w !! k = Some h -> owners w !! k' = Some h -> k = k') /\
  (forall h, is_Some (handles w !! h) <-> h ∈ free_curl_handles w \/ exists k, owners w !! k = Some h).
Proof.
  intros w. destruct (run_easy_refines ops empty_world (∅, no_statics) empty_world_ok) as (Hok & [m s] & Hrun & Hs & Hm).
  { split; [done|]. intros k. simpl. unfold configured. simpl. by rewrite !lookup_empty. }
  simpl in Hs, Hm. subst s. fold w in Hok, Hrun, Hm. destruct Hok as [A1 A2 A3 A4 A5 A6]. split_and!; [by exists m|done| |done|].
  - intros h Hh. split; [by apply A2|]. intros k Hk. by destruct (A3 k h Hk) as (_ & ? & _).
  - intros h. split.
    + intros [?|[?|?]]%A6; [by left|by right|done].
    + intros [Hh|[k Hk]]; [destruct (A2 h Hh) as (e & He & _); by eexists|by apply (A3 k)].
Qed.

(** ** Two requests after one another *)

Definition counting_handles : EasyApi := {|
  curl_easy_init l := next_id (elements l);
  curl_easy_setopt _ := 0;
  curl_easy_setopt_ca _ := 0;
  curl_easy_strerror _ := "";
  CURL_MAX_WRITE_SIZE := 16384;
  CURL_MAX_READ_SIZE := 10485760 |}.

Lemma counting_handles_laws : @EasyApiLaws counting_handles.
Proof.
  split; [|done]. intros l. right. intros Hin. apply (next_id_fresh (elements l)). by apply elem_of_elements.
Qed.

Definition plain : surroundings :=
  mkSurroundings (fun _ => None) (fun _ => 0) (Some (None, None)) 60.

(** An S3 request with credentials, then one without on the same easy handle. *)
Definition two_requests : list easy_op :=
  [Create plain 1 7 true; Request 1 (OPT_USERPWD "key:secret"); Destroy 1;
   Create plain 2 7 false; Request 2 (OPT_URL "http://h/f")].

Lemma two_requests_run :
  let w := run_easy (H := numbering_shares) (H0 := counting_handles) two_requests empty_world in
  owners w = {[2 := 1]} /\ free_curl_handles w = [] /\
  configured 2 w = Some (mkEasy
    [CURLOPT_NOSIGNAL; CURLOPT_ERRORBUFFER 2; CURLOPT_FAILONERROR; CURLOPT_TIMEOUT 60; CURLOPT_BUFFERSIZE 16384;
     REQUEST (OPT_URL "http://h/f")] 0 (Some "/etc/ssl/certs/ca-certificates.crt") None).
Proof. vm_compute. split_and!; reflexivity. Qed.

Lemma pooled_handles_like_new_witness :
  exists m, private_run (H := numbering_shares) (H0 := counting_handles) two_requests (∅, no_statics)
    (m, statics (run_easy (H := numbering_shares) (H0 := counting_handles) two_requests empty_world)) /\
    forall k, configured k (run_easy (H := numbering_shares) (H0 := counting_handles) two_requests empty_world) = m !! k.
Proof.
  exact (proj1 (pooled_handles_like_new (H := numbering_shares) (H0 := counting_handles)
    (H1 := counting_handles_laws) two_requests)).
Defined.

(** A handle in the pool still has the error buffer of the [CurlHandle] that is
    gone, until it is used again or cleaned up. *)
Lemma pooled_handle_keeps_error_buffer :
  let w := run_easy (H := numbering_shares) (H0 := counting_handles) (take 3 two_requests) empty_world in
  owners w = ∅ /\ (e_options <$> handles w !! 1) = Some
    [CURLOPT_NOSIGNAL; CURLOPT_ERRORBUFFER 1; CURLOPT_FAILONERROR; CURLOPT_TIMEOUT 60; CURLOPT_BUFFERSIZE 16384;
     REQUEST (OPT_USERPWD "key:secret")].
Proof. vm_compute. split; reflexivity. Qed.
