(* ===== verification/RemoteHandle.v ===== *)
(** * Remote reads

    [RemoteHandle] of [src/remote_handle.cpp]: the bounds check, the blocking
    read, and [pread], which either splits the range over the thread pool or
    builds the transfers of the multi-poll backend.

    What libcurl makes of a request is a parameter: the attempts that failed,
    the chunks of the last one, and its error if it had one. *)

From stdpp Require Import base list strings pretty.
From Stdlib Require Import ZArith Lia Permutation.
From S2P Require Import Prelude Defaults Observation ParallelIo Url Endpoint RemoteCallback.

#[local] Open Scope Z_scope.

Definition remote_io_backend_of (e : RemoteEndpoint) : IoBackend :=
  if decide (remote_endpoint_type e = WEBHDFS) then REMOTE_HDFS else REMOTE_HTTP.

(** ** Bounds *)

Definition is_read_out_of_bounds (file_offset size nbytes : Z) : bool :=
  (file_offset >? nbytes) || (size >? nbytes -% file_offset).

Definition expect_read_in_bounds (h : RemoteHandle) (size file_offset : Z) : result unit :=
  if negb (is_read_out_of_bounds file_offset size (rh_nbytes h)) then mret tt
  else Err (InvalidArgument ("cannot read " +:+ pretty file_offset +:+ "+" +:+ pretty size +:+
    " bytes into a " +:+ pretty (rh_nbytes h) +:+ " bytes file (" +:+
    endpoint_str (rh_endpoint h) +:+ ")")).

(** ** The blocking read *)

Record fetched := mkFetched {
  failed_attempts : list (list (list Z));
  last_attempt : list (list Z);
  attempt_error : option string }.

Section read.
Context `{CurlUrl}.
Variable CURL_WRITEFUNC_ERROR : Z.
Variable write_error_text : string.        (* libcurl's text for a refused chunk *)
Variable c : copy_config.
Variable network : list setting -> fetched.

(** The [catch] of [read_impl], [ok] telling whether every chunk was taken. *)
Definition check_transfer (ok : bool) (ctx : CallbackContext) (f : fetched) : result unit :=
  match (if ok then attempt_error f else Some (default write_error_text (attempt_error f))) with
  | None => mret tt
  | Some what =>
      if overflow_error ctx
      then Err (OverflowError ("maybe the server doesn't support file ranges? [" +:+ what +:+ "]"))
      else Err (RuntimeError what)
  end.

(** The common part: the options of the request, what libcurl makes of it. *)
Definition request (h : RemoteHandle) (size file_offset : Z) : result fetched :=
  opts ← setopt (rh_endpoint h);
  range ← setup_range_request (rh_endpoint h) file_offset size;
  mret (network (opts ++ range)).

Definition read_impl_host (h : RemoteHandle) (buf size file_offset : Z) (m : memory)
    : result (Z * memory) :=
  if size =? 0 then mret (0, m)
  else
    _ ← expect_read_in_bounds h size file_offset;
    f ← request h size file_offset;
    r ← fetch (callback_host_memory CURL_WRITEFUNC_ERROR c) (fun m => m) (failed_attempts f)
          (last_attempt f) (mkCtx buf size 0 false 0) m;
    let '(ok, ctx, m) := r in
    _ ← check_transfer ok ctx f;
    mret (size, m).

(** The bounce buffer of the read, and whether CUDA copies succeed. *)
Variables (host_buffer host_buffer_size : Z) (cuda_copy_ok : BounceBufferH2D -> Z -> bool).

(** [~BounceBufferH2D]: an error of the final flush is printed and dropped. *)
Definition destroy_h2d (b : BounceBufferH2D) (m : memories) : memories :=
  match flush cuda_copy_ok b m with Ok (_, m) => m | _ => m end.

Definition read_impl_device (h : RemoteHandle) (buf size file_offset : Z) (m : memories)
    : result (Z * memories) :=
  if size =? 0 then mret (0, m)
  else
    _ ← expect_read_in_bounds h size file_offset;
    f ← request h size file_offset;
    r ← fetch (callback_device_memory CURL_WRITEFUNC_ERROR c cuda_copy_ok)
          (fun s => (h2d_reset_for_retry s.1, s.2)) (failed_attempts f) (last_attempt f)
          (mkCtx buf size 0 false 0) (new_h2d buf host_buffer host_buffer_size, m);
    let '(ok, ctx, s) := r in
    let m := destroy_h2d s.1 s.2 in
    _ ← check_transfer ok ctx f;
    mret (size, m).

(** [read]: the checks, then [read_impl] between the two recorders, whose
    destructors have nothing left to report on this path. *)
Definition read {S : Type} (script : Z -> list call) (thread now : Z) (h : RemoteHandle)
    (is_host_mem : bool) (read_impl : S -> result (Z * S)) (size file_offset : Z) (s : S) (w : world)
    : result (Z * S * world) :=
  if size =? 0 then mret (0, s, w)
  else
    _ ← expect_read_in_bounds h size file_offset;
    _ ← expect_not_in_monitor thread w;
    let kind := if is_host_mem then HOST else DEVICE in
    let backend := remote_io_backend_of (rh_endpoint h) in
    '(recorder, w) ← logical_new script thread now backend READ kind file_offset size
                       (rh_source h) (Some "GET") w;
    let physical := mkContext backend READ kind (logical_id recorder) (rh_source h) (Some "GET") in
    '(physical_recorder, w) ← physical_new script thread now physical file_offset size w;
    '(nbytes, s) ← read_impl s;
    '(_, w) ← physical_finish script thread now nbytes physical_recorder w;
    '(_, w) ← logical_finish script thread now nbytes recorder w;
    mret (nbytes, s, w).
End read.

(** ** pread *)

Definition pread_checks (h : RemoteHandle) (size file_offset task_size thread_pool thread : Z)
    (is_host_mem : bool) (io_backend : RemoteIOBackend) (bounce_buffer_size : Z) (w : world)
    : result unit :=
  _ ← expect_read_in_bounds h size file_offset;
  _ ← expect_not_in_monitor thread w;
  _ ← expect (task_size >? 0) (InvalidArgument "`task_size` must be positive");
  match io_backend with
  | EASY_THREADPOOL =>
      expect (negb (thread_pool =? 0)) (CUfileException "The thread pool must not be nullptr")
  | MULTI_POLL =>
      if negb is_host_mem then
        expect (task_size <=? bounce_buffer_size) (InvalidArgument
          "MULTI_POLL backend with a device buffer requires task_size <= KVIKIO_BOUNCE_BUFFER_SIZE. Lower KVIKIO_TASK_SIZE or raise KVIKIO_BOUNCE_BUFFER_SIZE.")
      else mret tt
  end.

Definition num_subranges (size task_size : Z) : Z :=
  if task_size >=? size then 1 else (size +% task_size -% 1) / task_size.

(** A transfer as [pread] builds it: the options of its handle, its range, its
    place in the destination, whether it goes through a pinned buffer. *)
Record subrange := mkSubrange {
  sr_settings : list setting;
  sr_task : IoTask;               (* size, file offset, address *)
  sr_device : bool }.

Record building := mkBuilding {
  built : list subrange;
  remaining : Z;
  cur_off : Z;
  cur_buf : Z }.

Definition build_subrange `{CurlUrl} (h : RemoteHandle) (task_size : Z) (is_host_mem : bool)
    (s : building) (_ : Z) : result building :=
  let subrange_size := Z.min task_size (remaining s) in
  opts ← setopt (rh_endpoint h);
  range ← setup_range_request (rh_endpoint h) (cur_off s) subrange_size;
  mret (mkBuilding
    (built s ++ [mkSubrange (opts ++ range) (mkTask subrange_size (cur_off s) (cur_buf s))
                   (negb is_host_mem)])
    (remaining s -% subrange_size) (cur_off s +% subrange_size) (cur_buf s + subrange_size)).

Definition build_subranges `{CurlUrl} (h : RemoteHandle) (buf size file_offset task_size : Z)
    (is_host_mem : bool) : result (list subrange) :=
  s ← foldM (build_subrange h task_size is_host_mem) (mkBuilding [] size file_offset buf)
        (seqZ 0 (num_subranges size task_size));
  mret (built s).

(** What a call of [pread] leads to, and the context of its observations. *)
Inductive pread_plan :=
  | ReadyFuture (n : Z)
  | ThreadPoolTasks (physical : PhysicalObservationContext) (s : submission)
  | MultiPollTransfers (physical : PhysicalObservationContext) (transfers : list subrange).

Definition pread `{CurlUrl} (script : Z -> list call) (thread now page_size call_counter : Z)
    (h : RemoteHandle) (buf size file_offset task_size thread_pool : Z) (is_host_mem : bool)
    (io_backend : RemoteIOBackend) (bounce_buffer_size : Z) (w : world)
    : result (pread_plan * world) :=
  if size =? 0 then mret (ReadyFuture 0, w)
  else
    _ ← pread_checks h size file_offset task_size thread_pool thread is_host_mem io_backend
          bounce_buffer_size w;
    let kind := if is_host_mem then HOST else DEVICE in
    let backend := remote_io_backend_of (rh_endpoint h) in
    '(recorder, w) ← logical_new script thread now backend READ kind file_offset size
                       (rh_source h) (Some "GET") w;
    let physical := mkContext backend READ kind (logical_id recorder) (rh_source h) (Some "GET") in
    match io_backend with
    | EASY_THREADPOOL =>
        let '((color, idx), _) := get_next_color_and_call_idx call_counter in
        s ← parallel_io w thread page_size size file_offset task_size 0
              (mkParallelIoOptions thread_pool idx color None (log_active recorder));
        mret (ThreadPoolTasks physical s, w)
    | MULTI_POLL =>
        l ← build_subranges h buf size file_offset task_size is_host_mem;
        mret (MultiPollTransfers physical l, w)
    end.

(** ** Bounds: the check is exact *)

Lemma out_of_bounds_spec file_offset size nbytes :
  is_size file_offset -> is_size size -> is_size nbytes ->
  is_read_out_of_bounds file_offset size nbytes = bool_decide (nbytes < file_offset + size).
Proof.
  intros Ho Hs Hn. unfold is_read_out_of_bounds, is_size in *.
  destruct (file_offset >? nbytes) eqn:E; bool_to_prop; simpl.
  - symmetry. apply bool_decide_eq_true_2. lia.
  - rewrite wrap64_small by lia. destruct (size >? nbytes - file_offset) eqn:E2; bool_to_prop;
      symmetry; [apply bool_decide_eq_true_2|apply bool_decide_eq_false_2]; lia.
Qed.

Lemma in_bounds_ok h size file_offset :
  is_size file_offset -> is_size size -> is_size (rh_nbytes h) ->
  (file_offset + size <= rh_nbytes h /\ expect_read_in_bounds h size file_offset = Ok tt) \/
  (rh_nbytes h < file_offset + size /\
   exists msg, expect_read_in_bounds h size file_offset = Err (InvalidArgument msg)).
Proof.
  intros Ho Hs Hn. unfold expect_read_in_bounds. rewrite out_of_bounds_spec by done.
  case_bool_decide; simpl; [right|left]; split; try lia; [by eexists|done].
Qed.

(** ** The transfers tile the request *)

Section tiling.
Context `{CurlUrl} (h : RemoteHandle) (buf size file_offset task_size : Z) (is_host_mem : bool)
  (opts : list setting).
Hypothesis Hopts : setopt (rh_endpoint h) = Ok opts.
Hypothesis Hts : 0 < task_size.
Hypothesis Hsize : 0 < size.
Hypothesis Hoff : 0 <= file_offset.
Hypothesis Hfile : file_offset + size < SIZE_MOD.
Hypothesis Hsum : size + task_size <= SIZE_MOD.

Lemma num_subranges_spec :
  0 < num_subranges size task_size /\
  (num_subranges size task_size - 1) * task_size < size <= num_subranges size task_size * task_size.
Proof using Hts Hsize Hsum.
  clear Hoff Hfile.
  unfold num_subranges. destruct (task_size >=? size) eqn:E; bool_to_prop; [lia|].
  assert (Hw : size +% task_size -% 1 = size + task_size - 1).
  { rewrite wrap64_sub_l. apply wrap64_small. lia. }
  rewrite Hw. pose proof (Z.div_mod (size + task_size - 1) task_size ltac:(lia)).
  pose proof (Z.mod_pos_bound (size + task_size - 1) task_size Hts).
  assert (0 < (size + task_size - 1) / task_size) by (apply Z.div_str_pos; lia). nia.
Qed.

Definition subrange_ok (t : subrange) : Prop :=
  0 < tk_size (sr_task t) <= task_size /\ sr_device t = negb is_host_mem /\
  exists range,
    setup_range_request (rh_endpoint h) (tk_file_offset (sr_task t)) (tk_size (sr_task t)) = Ok range /\
    sr_settings t = opts ++ range.

(** After [k] rounds. *)
Definition build_inv (k : nat) (s : building) : Prop :=
  length (built s) = k /\ remaining s = Z.max 0 (size - Z.of_nat k * task_size) /\
  cur_off s = file_offset + (size - remaining s) /\ cur_buf s = buf + (size - remaining s) /\
  tiles file_offset buf (size - remaining s) (sr_task <$> built s) /\
  Forall subrange_ok (built s).

Lemma range_request_total e o n : 0 < n -> exists r, setup_range_request e o n = Ok r.
Proof.
  intros Hn. unfold setup_range_request, setup_range_request_impl. rewrite (proj2 (Z.gtb_lt n 0)) by lia.
  destruct e; eexists; done.
Qed.

Lemma build_rounds k :
  Z.of_nat k <= num_subranges size task_size ->
  exists s, foldM (build_subrange h task_size is_host_mem) (mkBuilding [] size file_offset buf)
      (seqZ 0 (Z.of_nat k)) = Ok s /\ build_inv k s.
Proof.
  destruct num_subranges_spec as [HN [Hlo Hhi]].
  induction k as [|k IH]; intros Hk.
  - eexists. split; [done|]. unfold build_inv. csimpl. split_and!; try done; lia.
  - destruct IH as (s & Hs & (Hl & Hrem & Ho & Hb & Ht & Hall)); [lia|].
    rewrite seqZ_S, foldM_app, Hs. cbn [mbind result_bind foldM]. unfold build_subrange.
    assert (Hpos : size - Z.of_nat k * task_size > 0) by nia.
    set (n := Z.min task_size (remaining s)). assert (0 < n <= remaining s) as Hn by lia.
    destruct (range_request_total (rh_endpoint h) (cur_off s) n) as [range Hrange]; [lia|].
    rewrite Hopts. simpl. rewrite Hrange. simpl. eexists. split; [done|].
    assert (Hr' : remaining s -% n = remaining s - n) by (apply wrap64_small; lia).
    assert (Ho' : cur_off s +% n = cur_off s + n) by (apply wrap64_small; lia).
    unfold build_inv. simpl. rewrite Hr', Ho', length_app, fmap_app. simpl.
    split_and!; [lia|lia|lia|lia| |].
    + apply tiles_snoc; simpl; [|lia|lia|lia].
      by replace (size - (remaining s - n) - n) with (size - remaining s) by lia.
    + apply Forall_app. split; [done|]. constructor; [|done]. split; [simpl; lia|].
      split; [done|]. by exists range.
Qed.

Lemma build_subranges_spec :
  exists l, build_subranges h buf size file_offset task_size is_host_mem = Ok l /\
    Z.of_nat (length l) = num_subranges size task_size /\
    tiles file_offset buf size (sr_task <$> l) /\ Forall subrange_ok l.
Proof.
  destruct num_subranges_spec as [HN [Hlo Hhi]].
  destruct (build_rounds (Z.to_nat (num_subranges size task_size))) as (s & Hs & Hl & Hrem & _ & _ & Ht & Hall);
    [lia|].
  rewrite Z2Nat.id in Hs by lia. exists (built s). unfold build_subranges. rewrite Hs. simpl.
  split; [done|]. split; [lia|]. split; [|done].
  by replace size with (size - remaining s) by lia.
Qed.
End tiling.

(** ** Order does not matter *)

(** What a transfer received: attempts that failed, and the chunks of the
    last. *)
Record delivery := mkDelivery { d_range : IoTask; d_failed : list (list (list Z)); d_last : list (list Z) }.

Section assemble.
Context (err : Z) (c : copy_config) (remote : Z -> Z) (buf file_offset : Z).
Hypothesis Herr : 0 <= err.
Hypothesis Hdiscard : discard_data_enabled c = false.

(** The bytes [[off, off + n)] of the remote file. *)
Definition file_bytes (off n : Z) : list Z := (fun i => remote (off + i)) <$> seqZ 0 n.

Definition delivery_ok (d : delivery) : Prop :=
  concat (d_last d) = file_bytes (tk_file_offset (d_range d)) (tk_size (d_range d)) /\
  Forall (small_chunks (err := err)) (d_failed d) /\ small_chunks (err := err) (d_last d) /\
  0 < tk_size (d_range d) < SIZE_MOD - err /\
  tk_devPtr_offset (d_range d) - buf = tk_file_offset (d_range d) - file_offset.

(** libcurl runs the transfer of one sub-range into host memory. *)
Definition run_delivery (m : memory) (d : delivery) : result memory :=
  r ← fetch (callback_host_memory err c) (fun m => m) (d_failed d) (d_last d)
        (mkCtx (tk_devPtr_offset (d_range d)) (tk_size (d_range d)) 0 false 0) m;
  mret r.2.

Lemma file_bytes_lookup off n i : 0 <= i < n -> file_bytes off n !! Z.to_nat i = Some (remote (off + i)).
Proof.
  intros Hi. unfold file_bytes. rewrite list_lookup_fmap, lookup_seqZ_lt by lia. simpl.
  do 3 f_equal. lia.
Qed.

Lemma file_bytes_length off n : 0 <= n -> Z.of_nat (length (file_bytes off n)) = n.
Proof. intros Hn. unfold file_bytes. rewrite length_fmap, length_seqZ. lia. Qed.

Lemma run_delivery_spec m d :
  delivery_ok d ->
  exists m', run_delivery m d = Ok m' /\
    forall a, m' a = if decide (covers (d_range d) a) then remote (file_offset + (a - buf)) else m a.
Proof.
  intros (Hlast & Hf & Hl & Hn & Hdst). unfold run_delivery.
  set (ctx0 := mkCtx (tk_devPtr_offset (d_range d)) (tk_size (d_range d)) 0 false 0).
  assert (Hsink : Sink err (callback_host_memory err c) (fun m => m) ctx0
    (holds_at (RemoteCallback.buf ctx0) (RemoteCallback.size ctx0) m))
    by (apply host_sink; [simpl; lia|done]).
  destruct (fetch_sink (Hsink := Hsink) (holds := holds_at _ _ m) (ctx0 := ctx0)
    ltac:(simpl; lia) (d_failed d) (d_last d) m Hf Hl)
    as (ok & kept & m' & Hr & Hok & [Hk Hframe] & Ht & _); [by split|].
  change (at_offset 0 ctx0) with ctx0 in Hr. rewrite Hr. simpl. exists m'. split; [done|].
  rewrite Hlast, bool_decide_eq_true_2 in Hok by (rewrite file_bytes_length; simpl; lia).
  rewrite (Ht Hok), Hlast in Hk. simpl in Hk, Hframe. unfold covers. intros a.
  destruct (decide _) as [Ha|Ha].
  - set (i := a - tk_devPtr_offset (d_range d)).
    pose proof (Hk (Z.to_nat i) (remote (tk_file_offset (d_range d) + i))) as Hi.
    rewrite Z2Nat.id in Hi by lia. rewrite file_bytes_lookup in Hi by lia. specialize (Hi eq_refl).
    replace a with (tk_devPtr_offset (d_range d) + i) at 1 by lia. rewrite Hi. f_equal. lia.
  - apply Hframe. lia.
Qed.

(** Transfers in any order, overlapping or not, write the same bytes. *)
Lemma run_deliveries_spec ds m :
  Forall delivery_ok ds ->
  exists m', foldM run_delivery m ds = Ok m' /\
    forall a, m' a = if decide (Exists (fun d => covers (d_range d) a) ds)
                     then remote (file_offset + (a - buf)) else m a.
Proof.
  intros Hds. revert m. induction Hds as [|d ds Hd _ IH]; intros m.
  - exists m. split; [done|]. intros a. rewrite decide_False; [done|]. by intros []%Exists_nil.
  - destruct (run_delivery_spec m d Hd) as (m1 & Hm1 & Ha1). destruct (IH m1) as (m' & Hm' & Ha').
    exists m'. simpl. rewrite Hm1. simpl. split; [done|]. intros a. rewrite Ha', Ha1.
    destruct (decide (Exists (fun d => covers (d_range d) a) ds)) as [He|He].
    + rewrite decide_True by by apply Exists_cons_tl. done.
    + destruct (decide (covers (d_range d) a)) as [Hc|Hc].
      * rewrite decide_True by by apply Exists_cons_hd. done.
      * rewrite decide_False; [done|]. by intros [|]%Exists_cons.
Qed.
End assemble.

(** The checks of [pread] pass exactly when the arguments are in order. *)
Lemma pread_checks_ok h size file_offset task_size thread_pool thread is_host_mem io_backend bbs w :
  is_size file_offset -> is_size size -> is_size (rh_nbytes h) ->
  pread_checks h size file_offset task_size thread_pool thread is_host_mem io_backend bbs w = Ok tt ->
  file_offset + size <= rh_nbytes h /\ in_monitor thread w = false /\ 0 < task_size /\
  (io_backend = MULTI_POLL -> is_host_mem = false -> task_size <= bbs).
Proof.
  intros Ho Hs Hn. unfold pread_checks.
  destruct (in_bounds_ok h size file_offset Ho Hs Hn) as [[Hle ->]|[_ [msg ->]]]; [|done]. simpl.
  unfold expect_not_in_monitor, expect. destruct (in_monitor thread w); [done|]. simpl.
  destruct (task_size >? 0) eqn:Et; [|done]. bool_to_prop. simpl. intros Hb.
  split_and!; try done. intros -> ->. simpl in Hb. destruct (task_size <=? bbs) eqn:E; [|done].
  by bool_to_prop.
Qed.

(** The transfers a multi-poll [pread] submits tile the request: they are
    as few as the task size allows, cover [[file_offset, file_offset + size)]
    of the file and the destination in step without gap or overlap, lie within
    the file, and each carries the options of the endpoint and the range of its
    own bytes.  A transfer for device memory fits a bounce buffer. *)
Theorem pread_transfers_tile `{CurlUrl} script thread now page call_counter (h : RemoteHandle)
    (buf size file_offset task_size thread_pool bbs : Z) (is_host_mem : bool)
    (opts : list setting) (w w' : world) physical (transfers : list subrange) :
  is_size file_offset -> is_size (rh_nbytes h) -> is_size size ->
  size + task_size <= SIZE_MOD -> setopt (rh_endpoint h) = Ok opts ->
  pread script thread now page call_counter h buf size file_offset task_size thread_pool is_host_mem
    MULTI_POLL bbs w = Ok (MultiPollTransfers physical transfers, w') ->
  (Z.of_nat (length transfers) - 1) * task_size < size <= Z.of_nat (length transfers) * task_size /\
  tiles file_offset buf size (sr_task <$> transfers) /\
  file_offset + size <= rh_nbytes h /\
  Forall (fun t => subrange_ok h task_size is_host_mem opts t /\
            (is_host_mem = false -> tk_size (sr_task t) <= bbs)) transfers.
Proof.
  intros Ho Hn Hs Hsum Hopts. unfold pread. destruct (size =? 0) eqn:E0; [done|]. bool_to_prop.
  destruct (pread_checks _ _ _ _ _ _ _ _ _ _) as [[]| |] eqn:Hchecks; simpl; [|done|done].
  apply pread_checks_ok in Hchecks as (Hle & Hm & Hts & Hdev); [|done..].
  destruct (logical_new _ _ _ _ _ _ _ _ _ _ _) as [[rec w1]| |]; simpl; [|done|done].
  unfold is_size in *. assert (Hpos : 0 < size) by lia.
  destruct (build_subranges_spec h buf size file_offset task_size is_host_mem opts Hopts Hts Hpos
    ltac:(lia) ltac:(lia) Hsum) as (l & -> & Hlen & Htiles & Hall).
  simpl. intros [= _ -> _]. rewrite Hlen.
  pose proof (num_subranges_spec size task_size) as Hnum.
  split; [by apply Hnum|]. split; [done|]. split; [done|].
  eapply Forall_impl; [exact Hall|]. intros t Ht. split; [done|].
  intros Hd. destruct Ht as ([_ Htt] & _). specialize (Hdev eq_refl Hd). lia.
Qed.

(** However the reactors interleave the transfers of a multi-poll
    [pread] into host memory, whatever attempts fail first and however each
    response is cut, once every transfer has received its bytes of the remote
    file the destination holds exactly the requested range and nothing else has
    changed. *)
Theorem pread_assembles `{CurlUrl} (err : Z) (c : copy_config) (remote : Z -> Z) script thread now page
    call_counter (h : RemoteHandle) (buf size file_offset task_size thread_pool bbs : Z)
    (opts : list setting) (w w' : world) physical (transfers : list subrange)
    (ds : list delivery) (m : memory) :
  0 <= err -> discard_data_enabled c = false ->
  is_size file_offset -> is_size (rh_nbytes h) -> 0 <= size < SIZE_MOD - err ->
  size + task_size <= SIZE_MOD -> setopt (rh_endpoint h) = Ok opts ->
  pread script thread now page call_counter h buf size file_offset task_size thread_pool true
    MULTI_POLL bbs w = Ok (MultiPollTransfers physical transfers, w') ->
  (d_range <$> ds) ≡ₚ (sr_task <$> transfers) ->
  Forall (fun d => concat (d_last d)
                     = file_bytes remote (tk_file_offset (d_range d)) (tk_size (d_range d)) /\
            Forall (small_chunks (err := err)) (d_failed d) /\
            small_chunks (err := err) (d_last d)) ds ->
  exists m', foldM (run_delivery err c) m ds = Ok m' /\
    (forall i, 0 <= i < size -> m' (buf + i) = remote (file_offset + i)) /\
    (forall a, a < buf \/ buf + size <= a -> m' a = m a).
Proof.
  intros Herr Hdisc Ho Hn Hs Hsum Hopts. unfold pread. destruct (size =? 0) eqn:E0; [done|]. bool_to_prop.
  destruct (pread_checks _ _ _ _ _ _ _ _ _ _) as [[]| |] eqn:Hchecks; simpl; [|done|done].
  assert (is_size size) as Hsz by (unfold is_size in *; lia).
  apply pread_checks_ok in Hchecks as (Hle & Hm & Hts & _); [|done..].
  destruct (logical_new _ _ _ _ _ _ _ _ _ _ _) as [[rec w1]| |]; simpl; [|done|done].
  unfold is_size in *. assert (Hpos : 0 < size) by lia.
  destruct (build_subranges_spec h buf size file_offset task_size true opts Hopts Hts Hpos
    ltac:(lia) ltac:(lia) Hsum) as (l & -> & Hlen & Htiles & Hall).
  simpl. intros [= _ -> _] Hperm Hds.
  assert (Hin : forall d, d ∈ ds -> d_range d ∈ sr_task <$> transfers).
  { intros d Hd. rewrite <- Hperm. by apply list_elem_of_fmap_2. }
  assert (Hok : Forall (delivery_ok err remote buf file_offset) ds).
  { apply Forall_forall. intros d Hd. destruct (proj1 (Forall_forall _ _) Hds d Hd) as (Hb & Hf & Hl).
    specialize (Hin d Hd). split_and!; [done|done|done| | |by eapply tiles_in_step].
    - apply list_elem_of_fmap in Hin as (t & -> & Ht).
      destruct (proj1 (Forall_forall _ _) Hall t Ht) as ([Hgt _] & _). lia.
    - assert (Hle' : forall ts off dev n t, tiles off dev n ts -> t ∈ ts -> tk_size t <= n).
      { clear. induction ts as [|u ts IH]; intros off dev n t; simpl;
          [intros _ Ht; by apply not_elem_of_nil in Ht|].
        intros (_ & _ & Hu & Hts) [->|Ht]%elem_of_cons; [lia|]. specialize (IH _ _ _ _ Hts Ht). lia. }
      specialize (Hle' _ _ _ _ _ Htiles Hin). lia. }
  destruct (run_deliveries_spec err c remote buf file_offset Herr Hdisc ds m Hok) as (m' & Hm' & Ha).
  assert (Hcover : forall a, Exists (fun d => covers (d_range d) a) ds <-> buf <= a < buf + size).
  { intros a. rewrite <- (tiles_cover _ _ _ _ a Htiles), <- Hperm. by rewrite Exists_fmap. }
  exists m'. split; [done|]. split.
  - intros i Hi. rewrite Ha, decide_True by (apply Hcover; lia). f_equal. lia.
  - intros a Hout. rewrite Ha, decide_False; [done|]. intros Hx%Hcover. lia.
Qed.

(** ** The blocking read *)

(** The bytes libcurl's last attempt handed over. *)
Definition response_of (f : fetched) : list Z := concat (last_attempt f).

Definition fetched_ok (err : Z) (f : fetched) : Prop :=
  Forall (small_chunks (err := err)) (failed_attempts f) /\ small_chunks (err := err) (last_attempt f).

(** What the caller learns of a response to a request of [size] bytes. *)
Definition told {A} (size : Z) (f : fetched) (delivered : A -> Prop) (r : result A) : Prop :=
  if size <? Z.of_nat (length (response_of f)) then exists msg, r = Err (OverflowError msg)
  else match attempt_error f with
       | Some what => r = Err (RuntimeError what)
       | None => exists a, r = Ok a /\ delivered a
       end.

(** ... and of a read: nothing is checked or asked for when [size] is 0. *)
Definition answers `{CurlUrl} {S : Type} (network : list setting -> fetched) (h : RemoteHandle)
    (size file_offset : Z) (delivered : list Z -> S -> Prop) (s : S) (w : world)
    (r : result (Z * S * world)) : Prop :=
  if size =? 0 then r = Ok (0, s, w)
  else if rh_nbytes h <? file_offset + size then exists msg, r = Err (InvalidArgument msg)
  else match request network h size file_offset with
       | Ok f => told size f (fun '(n, s', w') => n = size /\ quiet w' /\ delivered (response_of f) s') r
       | Err e => r = Err e
       | NoFuel => r = NoFuel
       end.

(** A destination that is a [Sink] gets what libcurl hands over; [finish] is
    what is left to do with it. *)
Lemma fetch_told {S A : Type} (err : Z) (text : string) callback (reset : S -> S) (ctx0 : CallbackContext)
    holds `{!Sink err callback reset ctx0 holds} (f : fetched) (s : S) (finish : S -> A)
    (delivered : Z * A -> Prop) :
  0 <= RemoteCallback.size ctx0 < SIZE_MOD - err -> fetched_ok err f -> holds [] s ->
  (forall s', Z.of_nat (length (response_of f)) <= RemoteCallback.size ctx0 -> holds (response_of f) s' ->
     delivered (RemoteCallback.size ctx0, finish s')) ->
  told (RemoteCallback.size ctx0) f delivered
    (r ← fetch callback reset (failed_attempts f) (last_attempt f) (at_offset 0 ctx0) s;
     let '(ok, ctx, s) := r in
     _ ← check_transfer text ok ctx f; mret (RemoteCallback.size ctx0, finish s)).
Proof.
  intros Hsize [Hf Hl] Hs Hdone. unfold told.
  destruct (fetch_sink Hsize (failed_attempts f) (last_attempt f) s Hf Hl Hs)
    as (ok & kept & s' & -> & Hok & Hk & Ht & _). fold (response_of f) in Hok, Ht. simpl. subst ok.
  destruct (RemoteCallback.size ctx0 <? _) eqn:Hlt; bool_to_prop.
  - rewrite bool_decide_eq_false_2 by lia. simpl. by eexists.
  - rewrite bool_decide_eq_true_2 in Ht |- * by lia. rewrite (Ht eq_refl) in Hk. unfold check_transfer. simpl.
    destruct (attempt_error f); [done|]. simpl. eexists. split; [done|]. by apply Hdone.
Qed.

(** With discarding switched on the destination stays as it was. *)
Definition host_delivered (c : copy_config) (buf size : Z) (m : memory) (l : list Z) (m' : memory) : Prop :=
  if discard_data_enabled c then m' = m else holds_at buf size m l m'.

Definition device_delivered (buf size hb hs : Z) (m : memories) (l : list Z) (m' : memories) : Prop :=
  holds_at buf size (device m) l (device m') /\
  forall a, a < hb \/ hb + hs <= a -> host m' a = host m a.

Lemma discarding_sink err c ctx0 m0 :
  RemoteCallback.size ctx0 < SIZE_MOD -> discard_data_enabled c = true ->
  Sink err (callback_host_memory err c) (fun m => m) ctx0 (fun _ m => m = m0).
Proof.
  intros Hsize Hdiscard. constructor; [| |done].
  - intros done data m -> Hle. unfold callback_host_memory.
    destruct (room_check ctx0 done data) as [-> Hsum]; [lia|]. simpl. rewrite Hsum, Hdiscard.
    rewrite (proj2 (Z.ltb_ge _ _)) by done. by eexists.
  - intros done data m _ Hlt. unfold callback_host_memory.
    destruct (room_check ctx0 done data) as [-> Hsum]; [lia|]. simpl. rewrite Hsum.
    by rewrite (proj2 (Z.ltb_lt _ _)) by lia.
Qed.

(** The end of a device read: the bounce buffer is flushed. *)
Lemma destroy_h2d_delivered cuda_copy_ok d hb hs n m0 l s :
  (forall b k, cuda_copy_ok b k = true) -> Z.of_nat (length l) <= n -> h2d_holds d hb hs n m0 l s ->
  device_delivered d n hb hs m0 l (destroy_h2d cuda_copy_ok s.1 s.2).
Proof.
  intros Hcopy Hn Hs. unfold destroy_h2d.
  destruct (flush_spec cuda_copy_ok Hcopy d hb hs n m0 l s Hn Hs)
    as ([b m] & -> & [_ _ (sent & rest & -> & _ & Hrest & Hdev & Hhost)] & H0). simpl in *.
  assert (rest = []) as -> by (apply nil_length_inv; lia). rewrite app_nil_r. split; [done|apply Hhost].
Qed.

Lemma request_ok `{CurlUrl} (P : fetched -> Prop) network h size file_offset f :
  (forall opts, P (network opts)) -> request network h size file_offset = Ok f -> P f.
Proof.
  intros Hnet. unfold request. destruct (setopt _) as [opts| |]; simpl; [|done..].
  destruct (setup_range_request _ _ _) as [range| |]; simpl; [|done..]. by intros [= <-].
Qed.

(** In a quiet world the recorders of [read] do not get in the way. *)
Lemma read_answers `{CurlUrl} {S : Type} network script thread now h is_host_mem
    (read_impl : S -> result (Z * S)) size file_offset delivered s w :
  is_size file_offset -> is_size (rh_nbytes h) -> is_size size -> quiet w ->
  (size <> 0 -> file_offset + size <= rh_nbytes h ->
   match request network h size file_offset with
   | Ok f => told size f (fun '(n, s') => n = size /\ delivered (response_of f) s') (read_impl s)
   | Err e => read_impl s = Err e
   | NoFuel => read_impl s = NoFuel
   end) ->
  answers network h size file_offset delivered s w
    (read script thread now h is_host_mem read_impl size file_offset s w).
Proof.
  intros Ho Hn Hs Hw Himpl. unfold answers, read. destruct (size =? 0) eqn:H0; [done|]. bool_to_prop.
  destruct (in_bounds_ok h size file_offset Ho Hs Hn) as [[Hle ->]|[Hgt [msg ->]]];
    [rewrite (proj2 (Z.ltb_ge _ _)) by done|rewrite (proj2 (Z.ltb_lt _ _)) by done; by eexists].
  specialize (Himpl H0 Hle). simpl. unfold expect_not_in_monitor. rewrite (quiet_monitor _ _ Hw). simpl.
  edestruct logical_new_quiet as (rec & w1 & -> & Hw1); [exact Hw|]. simpl.
  edestruct physical_new_quiet as (prec & w2 & -> & Hw2); [exact Hw1|]. simpl.
  destruct (request network h size file_offset) as [f| |]; [|by rewrite Himpl..].
  unfold told in *. destruct (_ <? _); [by destruct Himpl as [msg ->]; eexists|].
  destruct (attempt_error f); [by rewrite Himpl|]. destruct Himpl as ([n s'] & -> & -> & Hd). simpl.
  edestruct physical_finish_quiet as (? & w3 & -> & Hw3); [exact Hw2|]. simpl.
  edestruct logical_finish_quiet as (? & w4 & -> & Hw4); [exact Hw3|]. simpl. by eexists.
Qed.

(** C19. Outside the callback of a monitor, and for sizes that leave room for
    libcurl's error code below 2^64: a blocking read of no bytes returns 0,
    whatever its offset.  Any other is refused exactly when the range leaves the file; else, when the request
    can be built, it throws an overflow error exactly when the response is
    longer than the range, whatever libcurl then reports, and otherwise libcurl's
    error if there is one.  If there is none it returns [size]: a read into host
    memory has the bytes received at the front of the destination and nothing
    else touched (nothing at all with discarding switched on), and so has a read
    into device memory if every CUDA copy succeeds, the host memory outside the
    bounce buffer being untouched as well. *)
Theorem remote_read_spec `{CurlUrl} (err : Z) (text : string) (c : copy_config)
    (network : list setting -> fetched) (script : Z -> list call) (thread now : Z) (h : RemoteHandle)
    (buf size file_offset hb hs : Z) (cuda_copy_ok : BounceBufferH2D -> Z -> bool)
    (m : memory) (ms : memories) (w : world) :
  0 <= err -> is_size file_offset -> is_size (rh_nbytes h) -> 0 <= size < SIZE_MOD - err ->
  0 <= hs < SIZE_MOD -> quiet w -> (forall opts, fetched_ok err (network opts)) ->
  answers network h size file_offset (host_delivered c buf size m) m w
    (read script thread now h true (read_impl_host err text c network h buf size file_offset)
       size file_offset m w) /\
  ((forall b n, cuda_copy_ok b n = true) ->
   answers network h size file_offset (device_delivered buf size hb hs ms) ms w
     (read script thread now h false
        (read_impl_device err text c network hb hs cuda_copy_ok h buf size file_offset)
        size file_offset ms w)).
Proof.
  intros Herr Ho Hn Hs Hhs Hw Hnet. assert (is_size size) as Hsz by (unfold is_size in *; lia).
  set (ctx0 := mkCtx buf size 0 false 0).
  split; [|intros Hcopy]; apply read_answers; try done; intros H0 Hle;
    [unfold read_impl_host|unfold read_impl_device]; rewrite (proj2 (Z.eqb_neq size 0)) by done;
    (destruct (in_bounds_ok h size file_offset Ho Hsz Hn) as [[_ ->]|[? _]]; [|lia]);
    cbn [mbind result_bind]; destruct (request network h size file_offset) as [f| |] eqn:Hreq; try done;
    assert (Hf : fetched_ok err f) by (by eapply request_ok).
  - unfold host_delivered. destruct (discard_data_enabled c) eqn:Hd.
    + pose proof (discarding_sink err c ctx0 m ltac:(simpl; lia) Hd) as Hsink.
      by apply (fetch_told err text _ _ ctx0 _ f m (fun m => m)).
    + pose proof (host_sink err c ctx0 m ltac:(simpl; lia) Hd) as Hsink.
      by apply (fetch_told err text _ _ ctx0 _ f m (fun m => m)).
  - pose proof (device_sink err c cuda_copy_ok Hcopy ctx0 buf hb hs ms ltac:(simpl; lia) Hhs) as Hsink.
    apply (fetch_told err text _ _ ctx0 _ f _ (fun s => destroy_h2d cuda_copy_ok s.1 s.2)); [done|done| |].
    + constructor; simpl; [done|lia|]. exists [], []. by split_and!.
    + intros s Hlen Hh. split; [done|]. by apply destroy_h2d_delivered.
Qed.

(** A failed final flush goes unnoticed: when the CUDA copy of the bytes
    still in the bounce buffer fails, the read nevertheless returns [size], and
    device memory is what it was. *)
Theorem final_flush_error_is_lost `{CurlUrl} (err : Z) (text : string) (c : copy_config)
    (network : list setting -> fetched) (h : RemoteHandle) (buf size file_offset hb hs : Z)
    (m : memories) (opts range : list setting) (data : list Z) :
  0 <= err -> is_size file_offset -> is_size (rh_nbytes h) -> 0 < size < SIZE_MOD - err ->
  file_offset + size <= rh_nbytes h -> size <= hs < SIZE_MOD ->
  setopt (rh_endpoint h) = Ok opts ->
  setup_range_request (rh_endpoint h) file_offset size = Ok range ->
  network (opts ++ range) = mkFetched [] [data] None -> Z.of_nat (length data) = size ->
  exists m', read_impl_device err text c network hb hs (fun _ _ => false) h buf size file_offset m
    = Ok (size, m') /\ same_memory (device m') (device m).
Proof.
  intros Herr Ho Hn Hs Hle Hhs Hopts Hrange Hnet Hlen. unfold read_impl_device.
  rewrite (proj2 (Z.eqb_neq size 0)) by lia.
  assert (is_size size) as Hsz by (unfold is_size in *; lia).
  destruct (in_bounds_ok h size file_offset Ho Hsz Hn) as [[_ ->]|[Hgt _]]; [|lia].
  simpl. unfold request. rewrite Hopts. simpl. rewrite Hrange. simpl. rewrite Hnet. simpl.
  unfold callback_device_memory. cbn [RemoteCallback.size RemoteCallback.offset]. rewrite Hlen.
  rewrite Z.mul_1_l, (wrap64_small size), Z.add_0_l, (wrap64_small size), Z.ltb_irrefl by lia.
  unfold write, new_h2d. cbn [fst snd host_buffer_size host_offset host_buffer].
  rewrite Z.sub_0_r, wrap64_small by lia. rewrite (proj2 (Z.ltb_ge hs size)) by lia. simpl.
  rewrite (proj2 (Z.ltb_ge hs size)), (proj2 (Z.gtb_lt size 0)) by lia.
  destruct (copy_received_data_spec c (hb + 0) data size size (host m)) as (m' & -> & _); [lia|].
  simpl. rewrite Z.eqb_refl. simpl. unfold destroy_h2d, flush. simpl.
  unfold write_to_device. rewrite Z.add_0_l, (proj2 (Z.gtb_lt size 0)) by lia. simpl. by eexists.
Qed.

(** ** A file of 20 bytes behind an HTTP server *)

Definition demo_handle : RemoteHandle := handle_of (HttpEndpoint "http://h/f") 20.

Definition demo_file (i : Z) : Z := 7 * i.

Definition demo_plan : list subrange :=
  [mkSubrange [OPT_URL "http://h/f"; OPT_RANGE "3-10"] (mkTask 8 3 100) false;
   mkSubrange [OPT_URL "http://h/f"; OPT_RANGE "11-12"] (mkTask 2 11 108) false].

Definition demo_context : PhysicalObservationContext :=
  mkContext REMOTE_HTTP READ HOST None "http://h/f" (Some "GET").

Lemma demo_pread :
  pread (H := demo_curl) (fun _ => []) 1 0 4096 5 demo_handle 100 10 3 8 0 true MULTI_POLL 16
    initial_world = Ok (MultiPollTransfers demo_context demo_plan, initial_world).
Proof. vm_compute. reflexivity. Qed.

Example pread_transfers_tile_witness :
  (Z.of_nat (length demo_plan) - 1) * 8 < 10 <= Z.of_nat (length demo_plan) * 8 /\
  tiles 3 100 10 (sr_task <$> demo_plan) /\ 3 + 10 <= rh_nbytes demo_handle /\
  Forall (fun t => subrange_ok demo_handle 8 true [OPT_URL "http://h/f"] t /\
            (true = false -> tk_size (sr_task t) <= 16)) demo_plan.
Proof.
  apply (pread_transfers_tile (H := demo_curl) (fun _ => []) 1 0 4096 5 demo_handle 100 10 3 8 0 16
    true [OPT_URL "http://h/f"] initial_world initial_world demo_context demo_plan);
    [done|done|done|done|reflexivity|exact demo_pread].
Defined.

(** The second sub-range arrives first; the first one is retried. *)
Definition demo_deliveries : list delivery :=
  [mkDelivery (mkTask 2 11 108) [] [[77; 84]];
   mkDelivery (mkTask 8 3 100) [[[21; 28]]] [[21; 28; 35]; [42; 49; 56; 63; 70]]].

Example pread_assembles_witness :
  exists m', foldM (run_delivery 4294967295 demo_config) (fun _ => 0) demo_deliveries = Ok m' /\
    (forall i, 0 <= i < 10 -> m' (100 + i) = demo_file (3 + i)) /\
    (forall a, a < 100 \/ 100 + 10 <= a -> m' a = 0).
Proof.
  apply (pread_assembles (H := demo_curl) 4294967295 demo_config demo_file (fun _ => []) 1 0 4096 5
    demo_handle 100 10 3 8 0 16 [OPT_URL "http://h/f"] initial_world initial_world demo_context
    demo_plan demo_deliveries (fun _ => 0));
    [lia|done|done|done|lia|done|reflexivity|exact demo_pread|apply Permutation_swap|].
  repeat constructor.
Defined.

Definition demo_network (opts : list setting) : fetched :=
  mkFetched [] [[21; 28]; [35; 42]] None.

(** A read of four bytes, into host and into device memory; one of no bytes past
    the end, and one of four. *)
Example remote_read_spec_witness :
  (exists a, read (fun _ => []) 1 0 demo_handle true
       (read_impl_host (H := demo_curl) 4294967295 "write error" demo_config demo_network demo_handle 100 4 3)
       4 3 (fun _ => 0) initial_world = Ok a /\
     let '(n, m', w') := a in
     n = 4 /\ quiet w' /\ host_delivered demo_config 100 4 (fun _ => 0) [21; 28; 35; 42] m') /\
  (exists a, read (fun _ => []) 1 0 demo_handle false
       (read_impl_device (H := demo_curl) 4294967295 "write error" demo_config demo_network 500 3
          (fun _ _ => true) demo_handle 100 4 3)
       4 3 (mkMem (fun _ => 0) (fun _ => 9)) initial_world = Ok a /\
     let '(n, m', w') := a in
     n = 4 /\ quiet w' /\
     device_delivered 100 4 500 3 (mkMem (fun _ => 0) (fun _ => 9)) [21; 28; 35; 42] m') /\
  read (fun _ => []) 1 0 demo_handle true
    (read_impl_host (H := demo_curl) 4294967295 "write error" demo_config demo_network demo_handle 100 0 30)
    0 30 (fun _ => 0) initial_world = Ok (0, fun _ => 0, initial_world) /\
  exists msg, read (fun _ => []) 1 0 demo_handle true
    (read_impl_host (H := demo_curl) 4294967295 "write error" demo_config demo_network demo_handle 100 4 18)
    4 18 (fun _ => 0) initial_world = Err (InvalidArgument msg).
Proof.
  assert (Hnet : forall opts, fetched_ok 4294967295 (demo_network opts)) by (split; repeat constructor).
  assert (Hread : forall size file_offset, 0 <= size < 100 -> is_size file_offset -> _)
    by (intros size file_offset Hs Ho;
        apply (remote_read_spec (H := demo_curl) 4294967295 "write error" demo_config demo_network
          (fun _ => []) 1 0 demo_handle 100 size file_offset 500 3 (fun _ _ => true) (fun _ => 0)
          (mkMem (fun _ => 0) (fun _ => 9)) initial_world);
        [done|done|done|lia|done|apply initial_quiet|done]).
  split; [|split; [|split]].
  - exact (proj1 (Hread 4 3 ltac:(lia) ltac:(done))).
  - exact (proj2 (Hread 4 3 ltac:(lia) ltac:(done)) (fun _ _ => eq_refl)).
  - exact (proj1 (Hread 0 30 ltac:(lia) ltac:(done))).
  - exact (proj1 (Hread 4 18 ltac:(lia) ltac:(done))).
Defined.

Example final_flush_error_is_lost_witness :
  exists m', read_impl_device (H := demo_curl) 4294967295 "write error" demo_config
      (fun _ => mkFetched [] [[21; 28; 35; 42]] None) 500 16 (fun _ _ => false) demo_handle 100 4 3
      (mkMem (fun _ => 0) (fun _ => 9)) = Ok (4, m') /\
    same_memory (device m') (fun _ => 9).
Proof.
  apply (final_flush_error_is_lost (H := demo_curl) 4294967295 "write error" demo_config
    (fun _ => mkFetched [] [[21; 28; 35; 42]] None) demo_handle 100 4 3 500 16
    (mkMem (fun _ => 0) (fun _ => 9)) [OPT_URL "http://h/f"] [OPT_RANGE "3-6"] [21; 28; 35; 42]);
    [lia|done|done|lia|simpl; lia|lia|reflexivity|reflexivity|done|done].
Defined.
