(* ===== verification/MultiPollRead.v ===== *)
(** * A multi-poll read from end to end

    [RemoteHandle::pread] builds transfers and submits them, the reactors settle
    them, each settled transfer reports to the aggregate of its read, and the
    last report resolves the caller's future.  The parts are those of
    [RemoteHandle], [Reactor] with [Wakeup], and [Aggregate]; here they are put
    together, as [src/remote_handle.cpp] does. *)

From stdpp Require Import base list sets strings relations.
From Stdlib Require Import ZArith Lia.
From S2P Require Import Prelude ParallelIo HttpRetry Aggregate Reactor Wakeup Defaults Observation Url Endpoint RemoteHandle.

#[local] Open Scope Z_scope.

(** The transfer of a sub-range, on the easy handle [id]; [ctx] is the context
    of the event barrier of a device read. *)
Definition transfer_of (ctx : Z) (id : Z) (t : subrange) : transfer :=
  mkTransfer id (tk_size (sr_task t)) (sr_device t) (if sr_device t then ctx else 0) 0 0 false false false false.

Definition transfers_of (ctx : Z) (ids : list Z) (l : list subrange) : list transfer :=
  zip_with (transfer_of ctx) ids l.

(** The future [pread] returns: that of the aggregate, or, for device memory,
    one that also waits for the copies; [sync] is what [sync_all_events]
    throws. *)
Definition pread_future (is_host_mem : bool) (sync : option exn) (r : exn + Z) : exn + Z :=
  match r with
  | inl e => inl e
  | inr n => if is_host_mem then inr n else match sync with Some e => inl e | None => inr n end
  end.

(** ** What is fixed when a transfer is submitted

    A property of transfers that depends on the handle, the size and the
    destination only. *)

Section sized.
Variable sized : transfer -> Prop.
Hypothesis Hsame : forall t u, t_id u = t_id t -> t_size u = t_size t -> is_device u = is_device t ->
  device_ctx u = device_ctx t -> sized t -> sized u.

(** A success reports the size of the transfer. *)
Definition sized_report (r : Z * (exn + Z)) : Prop :=
  match r.2 with inr m => exists t, sized t /\ t_id t = r.1 /\ t_size t = m | inl _ => True end.

Record sized_reactor (x : reactor) : Prop := mkSizedReactor {
  sr_hand : Forall sized (hand_list x);
  sr_pending : Forall sized (pending x);
  sr_in_flight : Forall sized (in_flight x) }.

Record sized_pool (p : pool) : Prop := mkSizedPool {
  sp_queue : Forall sized (queue p);
  sp_reactors : Forall sized_reactor (reactors p);
  sp_reports : Forall sized_report (Reactor.reports p) }.

Lemma sized_at r x p : sized_pool p -> reactors p !! r = Some x -> sized_reactor x.
Proof. intros [_ H _] Hx. by eapply Forall_lookup_1. Qed.

Lemma set_reactor_sized r y p : sized_pool p -> sized_reactor y -> sized_pool (set_reactor r y p).
Proof. intros [] Hy. constructor; simpl; [done|by apply Forall_insert|done]. Qed.

Lemma add_reports_sized rs p : sized_pool p -> Forall sized_report rs -> sized_pool (add_reports rs p).
Proof. intros [] Hr. constructor; simpl; [done|done|by apply Forall_app]. Qed.

Lemma set_queue_sized q p : sized_pool p -> Forall sized q -> sized_pool (set_queue q p).
Proof. intros [] Hq. by constructor. Qed.

Lemma fail_with_sized e ts : Forall sized_report (fail_with e ts).
Proof. apply Forall_fmap, Forall_forall. done. Qed.

Lemma try_admit_sized g max count t pass :
  sized t ->
  match (try_admit g max count t pass).1.1 with Attached u | Refused u | Threw _ u => sized u end.
Proof.
  intros Ht. pose proof (try_admit_id g max count t pass) as Hid.
  assert (Hs : match (try_admit g max count t pass).1.1 with
               | Attached u | Refused u | Threw _ u =>
                   t_size u = t_size t /\ is_device u = is_device t /\ device_ctx u = device_ctx t end).
  { unfold try_admit. destruct (ready_at _ >? _); [done|]. destruct (_ && _); [done|].
    destruct (if slot t then _ else _) as [c|]; [|done].
    cbn [is_device set_slot]. destruct (is_device t) eqn:Hd; [destruct (try_get_buffer g) as [e|[|]]; try done|]; destruct (add_handle_error g); simpl; by rewrite ?Hd. }
  destruct (try_admit _ _ _ _ _) as [[[u|u|e u] ?] ?]; simpl in *; destruct Hs as (? & ? & ?); by eapply Hsame.
Qed.

Lemma settle_sized strerror policy now c t o :
  sized t ->
  match (settle_transfer strerror policy now c t o).1 with
  | Retry u => sized u
  | Report r => sized_report (t_id t, r)
  end.
Proof.
  intros Ht. unfold settle_transfer. destruct (_ && _).
  { destruct (if is_device t then _ else _); [done|]. by exists t. }
  destruct (c_overflow c); [done|]. destruct (evaluate _ _ _ _ _ _ _) as [v| |]; [|done|done].
  destruct (decide _); [|done]. simpl. unfold requeue_for_retry. destruct (c_requeue_error c); [done|]. by apply (Hsame t).
Qed.

(** ** Every operation keeps sizes *)

Lemma submit_sized ts p : sized_pool p -> Forall sized ts -> sized_pool (submit_pread ts p).
Proof.
  intros [Hq Hr Hp] Hts. unfold submit_pread. destruct (death_reason _).
  - apply add_reports_sized; [by constructor|apply fail_with_sized].
  - apply set_queue_sized; [by constructor|]. by apply Forall_app.
Qed.

Lemma try_pop_sized r p : sized_pool p -> sized_pool (try_pop_queued r p).
Proof.
  intros Hp. unfold try_pop_queued. destruct (reactors p !! r) as [x|] eqn:Hx; [|done].
  destruct (failing x); [done|]. destruct (hand x); [done|]. destruct (acquire (max_requests x) (requests x)); [|done].
  destruct (queue p) as [|t q] eqn:Hq; [done|].
  pose proof (sized_at r x p Hp Hx) as []. pose proof (sp_queue p Hp) as Hs. rewrite Hq in Hs. apply Forall_cons in Hs as [Ht Hs].
  apply set_reactor_sized; [by apply set_queue_sized|]. constructor; simpl; [|done|done].
  unfold hand_list. simpl. constructor; [by apply (Hsame t)|done].
Qed.

Lemma admit_hand_sized r g pass p : sized_pool p -> sized_pool (admit_hand r g pass p).1.1.
Proof.
  intros Hp. unfold admit_hand. destruct (reactors p !! r) as [x|] eqn:Hx; [|done].
  destruct (hand x) as [t|] eqn:Hh; [|done]. pose proof (sized_at r x p Hp Hx) as [H1 H2 H3].
  unfold hand_list in H1. rewrite Hh in H1. rewrite Forall_singleton in H1.
  pose proof (try_admit_sized g (max_requests x) (requests x) t pass H1) as Ha.
  destruct (try_admit _ _ _ _ _) as [[[u|u|e u] ?] ?]; simpl in *; (apply set_reactor_sized; [done|]);
    constructor; simpl; unfold hand_list; simpl; rewrite ?Forall_app, ?Forall_singleton; auto.
Qed.

Lemma return_sized r p : sized_pool p -> sized_pool (return_to_queue r p).
Proof.
  intros Hp. unfold return_to_queue. destruct (reactors p !! r) as [x|] eqn:Hx; [|done].
  destruct (hand x) as [t|] eqn:Hh; [|done]. destruct (slot t); [done|].
  pose proof (sized_at r x p Hp Hx) as [H1 H2 H3]. unfold hand_list in H1. rewrite Hh in H1. rewrite Forall_singleton in H1.
  set (p' := set_reactor _ _ _). assert (Hp' : sized_pool p') by (apply set_reactor_sized; [done|by constructor]).
  destruct (death_reason p').
  - apply add_reports_sized; [done|apply (fail_with_sized _ [t])].
  - apply set_queue_sized; [done|]. constructor; [done|apply Hp'].
Qed.

Lemma admit_retry_sized r i g pass p : sized_pool p -> sized_pool (admit_retry r i g pass p).1.1.
Proof.
  intros Hp. unfold admit_retry. destruct (reactors p !! r) as [x|] eqn:Hx; [|done].
  destruct (if in_loop x then pending x !! i else None) as [t|] eqn:Ht; [|done].
  pose proof (sized_at r x p Hp Hx) as [H1 H2 H3].
  assert (Hst : sized t) by (destruct (in_loop x); [exact (Forall_lookup_1 _ _ _ _ H2 Ht)|done]).
  pose proof (try_admit_sized g (max_requests x) (requests x) t pass Hst) as Ha.
  destruct (try_admit _ _ _ _ _) as [[[u|u|e u] ?] ?]; simpl in *; (apply set_reactor_sized; [done|]);
    constructor; simpl; rewrite ?Forall_app, ?Forall_singleton; auto using Forall_delete, Forall_insert.
Qed.

Lemma reap_sized strerror policy now r i c o p :
  sized_pool p -> sized_pool (reap strerror policy now r i c o p).1.
Proof.
  intros Hp. unfold reap. destruct (reactors p !! r) as [x|] eqn:Hx; [|done].
  destruct (if in_loop x then in_flight x !! i else None) as [t|] eqn:Ht; [|done].
  pose proof (sized_at r x p Hp Hx) as [H1 H2 H3].
  assert (Hst : sized t) by (destruct (in_loop x); [exact (Forall_lookup_1 _ _ _ _ H3 Ht)|done]).
  pose proof (settle_sized strerror policy now c t o Hst) as Hs.
  destruct (settle_transfer _ _ _ _ _ _) as [[rep|u] o']; simpl in *.
  - apply add_reports_sized; [|by constructor]. apply set_reactor_sized; [done|].
    constructor; simpl; auto using Forall_delete.
  - apply set_reactor_sized; [done|]. constructor; simpl; rewrite ?Forall_app, ?Forall_singleton; auto using Forall_delete.
Qed.

Lemma leave_loop_sized r p : sized_pool p -> sized_pool (leave_loop r p).
Proof.
  intros Hp. unfold leave_loop. destruct (reactors p !! r) as [x|] eqn:Hx; [|done]. destruct (hand x); [done|].
  pose proof (sized_at r x p Hp Hx) as []. apply set_reactor_sized; [done|]. by constructor.
Qed.

Lemma signal_death_sized e p : sized_pool p -> sized_pool (signal_death e p).
Proof. intros []. unfold signal_death. by destruct (death_reason p). Qed.

Lemma drain_sized p : sized_pool p -> sized_pool (drain_queue p).
Proof.
  intros Hp. unfold drain_queue. destruct (death_reason p) as [e|]; [|done].
  assert (Hd : sized_pool (add_reports (fail_with e (queue p)) (set_queue [] p))).
  { apply add_reports_sized; [by apply set_queue_sized|apply fail_with_sized]. }
  destruct Hd. by constructor.
Qed.

Lemma fail_all_sized r p : sized_pool p -> sized_pool (fail_all_pending r p).
Proof.
  intros Hp. unfold fail_all_pending. destruct (reactors p !! r) as [x|] eqn:Hx; [|done].
  destruct (death_reason p); [|done]. destruct (hand x); [done|]. destruct (failing x); [|done].
  apply add_reports_sized; [|apply fail_with_sized]. apply set_reactor_sized; [done|]. by constructor.
Qed.

Definition sized_submissions (ops : list world_op) : Prop :=
  Forall (fun o => match o with Submit ts => Forall sized ts | _ => True end) ops.

Lemma world_step_sized strerror policy w o :
  match o with Submit ts => Forall sized ts | _ => True end ->
  sized_pool (w_pool w) -> sized_pool (w_pool (world_step strerror policy w o)).
Proof.
  destruct o as [ts|k|r op|r now o n|r|r|r e| |r]; simpl; intros Ho Hw; try done.
  - unfold submit. destruct (is_dead _); by apply submit_sized.
  - unfold wake_next. by repeat case_match.
  - destruct (decide _); [|done]. destruct op; simpl;
      auto using try_pop_sized, admit_hand_sized, return_sized, admit_retry_sized, reap_sized.
  - unfold fall_asleep. by destruct (decide _).
  - unfold poll_returns. repeat case_match; simpl; auto using leave_loop_sized.
  - unfold die. destruct (decide _); [|done]. case_match; simpl; auto using leave_loop_sized, signal_death_sized.
  - by apply drain_sized.
  - destruct (decide _); [|done]. by apply fail_all_sized.
Qed.

Lemma run_world_sized strerror policy ops w :
  sized_submissions ops -> sized_pool (w_pool w) -> sized_pool (w_pool (run_world strerror policy ops w)).
Proof.
  intros Ho. revert w. induction Ho as [|o ops Ho _ IH]; intros w Hw; [done|]. by apply IH, world_step_sized.
Qed.

Lemma new_pool_sized max_total n p : new_reactor_pool max_total n = Ok p -> sized_pool p.
Proof.
  intros Hp. apply new_pool_inv in Hp as [_ ->]. constructor; simpl; [done| |done].
  apply Forall_fmap, Forall_forall. intros i _. by constructor.
Qed.
End sized.

(** ** What is submitted *)

Definition submitted_by (o : world_op) : list Z := match o with Submit ts => t_id <$> ts | _ => [] end.

Lemma turn_step_submitted strerror policy r op p : submitted (turn_step strerror policy r op p) = submitted p.
Proof.
  destruct op; simpl; unfold try_pop_queued, admit_hand, return_to_queue, admit_retry, reap;
    repeat (case_match; simplify_eq/=; try done).
Qed.

Lemma leave_loop_submitted r p : submitted (leave_loop r p) = submitted p.
Proof. unfold leave_loop. by repeat case_match. Qed.

Lemma signal_death_submitted e p : submitted (signal_death e p) = submitted p.
Proof. unfold signal_death. by destruct (death_reason p). Qed.

Lemma world_step_submitted strerror policy w o :
  submitted (w_pool (world_step strerror policy w o)) = submitted (w_pool w) ++ submitted_by o.
Proof.
  destruct o as [ts|k|r op|r now o n|r|r|r e| |r]; cbn [world_step submitted_by]; rewrite ?app_nil_r; try done.
  - unfold submit, submit_pread. destruct (is_dead _); simpl; by destruct (death_reason _).
  - unfold wake_next. by repeat case_match.
  - destruct (decide _); [|done]. apply turn_step_submitted.
  - unfold fall_asleep. by destruct (decide _).
  - unfold poll_returns. repeat case_match; simpl; auto using leave_loop_submitted.
  - unfold die. destruct (decide _); [|done]. case_match; simpl; rewrite ?signal_death_submitted; apply leave_loop_submitted.
  - simpl. unfold drain_queue. by destruct (death_reason _).
  - destruct (decide _); [|done]. simpl. unfold fail_all_pending. by repeat case_match.
Qed.

Lemma run_world_submitted strerror policy ops w :
  submitted (w_pool (run_world strerror policy ops w)) = submitted (w_pool w) ++ concat (submitted_by <$> ops).
Proof.
  revert w. induction ops as [|o ops IH]; intros w; simpl; [by rewrite app_nil_r|].
  unfold run_world in *. simpl. by rewrite IH, world_step_submitted, <-app_assoc.
Qed.

(** The operations of others do not use the handles [ids]. *)
Definition of_others (ids : list Z) (ops : list world_op) : Prop :=
  Forall (fun o => Forall (fun i => i ∉ ids) (submitted_by o)) ops.

Lemma asked_others ids ops i : of_others ids ops -> i ∈ ids -> asked i (concat (submitted_by <$> ops)) = 0%nat.
Proof.
  intros Ho Hi. induction Ho as [|o ops Hf _ IH]; [done|]. cbn [fmap list_fmap concat]. rewrite asked_app, IH, Nat.add_0_r.
  unfold asked. rewrite length_zero_iff_nil. induction Hf as [|j l Hj _ IHl]; [done|]. rewrite filter_cons.
  destruct (decide (j = i)) as [->|]; [done|exact IHl].
Qed.

Lemma asked_nodup ids i : NoDup ids -> i ∈ ids -> asked i ids = 1%nat.
Proof.
  induction 1 as [|j ids Hj Hn IH]; [by intros ?%not_elem_of_nil|]. intros [->|Hi]%elem_of_cons; unfold asked in *; rewrite filter_cons.
  - rewrite decide_True by done. simpl. f_equal. rewrite length_zero_iff_nil. clear -Hj.
    induction ids as [|k ids IH]; [done|]. apply not_elem_of_cons in Hj as [? ?]. rewrite filter_cons, decide_False by congruence. auto.
  - rewrite decide_False by (intros ->; done). by apply IH.
Qed.

(** ** The reports of one read *)

Definition reports_of (ids : list Z) (p : pool) : list (Z * (exn + Z)) := filter (fun r => r.1 ∈ ids) (Reactor.reports p).

Lemma reported_cons i r l : reported i (r :: l) = ((if decide (r.1 = i) then 1 else 0) + reported i l)%nat.
Proof. unfold reported. rewrite filter_cons. by destruct (decide _). Qed.

Lemma reported_elem i l : (0 < reported i l)%nat <-> i ∈ l.*1.
Proof.
  induction l as [|r l IH]; [split; [unfold reported; simpl; lia|by intros ?%not_elem_of_nil]|].
  rewrite reported_cons. cbn [fmap list_fmap]. rewrite elem_of_cons, <-IH. destruct (decide (r.1 = i)); [split; [auto|lia]|].
  split; [auto|]. intros [->|?]; [done|lia].
Qed.

Lemma once_nodup l : (forall i, i ∈ l.*1 -> (reported i l <= 1)%nat) -> NoDup l.*1.
Proof.
  induction l as [|r l IH]; intros Hl; [constructor|]. cbn [fmap list_fmap] in *. constructor.
  - intros Hin%reported_elem. specialize (Hl r.1 ltac:(left)). rewrite reported_cons, decide_True in Hl by done. lia.
  - apply IH. intros i Hi. specialize (Hl i ltac:(by right)). rewrite reported_cons in Hl. lia.
Qed.

Lemma reported_filter (ids : list Z) i l : i ∈ ids -> reported i (filter (fun r => r.1 ∈ ids) l) = reported i l.
Proof.
  intros Hi. induction l as [|r l IH]; [done|]. rewrite filter_cons, reported_cons.
  destruct (decide (r.1 ∈ ids)); [by rewrite reported_cons, IH|]. rewrite decide_False by (intros <-; done). exact IH.
Qed.

(** The values of reports. *)
Definition value_of (r : exn + Z) : Z := match r with inr n => n | inl _ => 0 end.
Definition succeeded (r : exn + Z) : Prop := exists n, r = inr n.

Lemma first_failure_spec l :
  match first_failure l with Some e => inl e ∈ l.*1 | None => Forall succeeded l.*1 end.
Proof.
  induction l as [|[[e|n] ph] l IH]; [constructor|by left|]. cbn [first_failure fmap list_fmap fst].
  destruct (first_failure l); [by right|]. constructor; [by exists n|done].
Qed.

Lemma bytes_of_values l : bytes_of l = sumZ (value_of <$> l.*1).
Proof. unfold bytes_of. by rewrite <-list_fmap_compose. Qed.

(** The sizes of the handles of a read. *)
Definition size_in (ids : list Z) (l : list subrange) (i : Z) : option Z :=
  snd <$> List.find (fun x => x.1 =? i) (zip ids ((fun t => tk_size (sr_task t)) <$> l)).

Lemma size_in_other ids l i : i ∉ ids -> size_in ids l i = None.
Proof.
  unfold size_in. revert l. induction ids as [|j ids IH]; intros [|t l] Hi; try done. cbn.
  apply not_elem_of_cons in Hi as [? ?]. replace (j =? i) with false by lia. by apply IH.
Qed.

Lemma size_in_cons j ids t l i :
  size_in (j :: ids) (t :: l) i = if j =? i then Some (tk_size (sr_task t)) else size_in ids l i.
Proof. unfold size_in. cbn. by destruct (j =? i). Qed.

(** The size of a transfer is that of its handle. *)
Definition has_size (ids : list Z) (l : list subrange) (t : transfer) : Prop :=
  forall n, size_in ids l (t_id t) = Some n -> t_size t = n.

Lemma has_size_same ids l t u : t_id u = t_id t -> t_size u = t_size t -> is_device u = is_device t ->
  device_ctx u = device_ctx t -> has_size ids l t -> has_size ids l u.
Proof. unfold has_size. by intros -> ->. Qed.

Lemma mine_sized ctx ids l : NoDup ids -> length ids = length l -> Forall (has_size ids l) (transfers_of ctx ids l).
Proof.
  intros Hn. revert l. induction Hn as [|j ids Hj Hn IH]; intros [|t l]; try done. simpl. intros [= Hl].
  constructor; [intros n; simpl; rewrite size_in_cons, Z.eqb_refl; by intros [= ->]|].
  specialize (IH l Hl). revert IH. rewrite !Forall_forall. intros IH u Hu n. rewrite size_in_cons.
  destruct (j =? t_id u) eqn:E; [|by apply IH]. bool_to_prop. exfalso. apply Hj. rewrite E.
  clear -Hu. revert l Hu. induction ids as [|k ids IH]; intros [|t l] Hu; simpl in *; try by apply not_elem_of_nil in Hu.
  apply elem_of_cons in Hu as [->|Hu]; [left|right; by eapply IH].
Qed.

Lemma mine_ids ctx ids l : length ids = length l -> t_id <$> transfers_of ctx ids l = ids.
Proof.
  revert l. induction ids as [|j ids IH]; intros [|t l]; try done. simpl. intros [= Hl]. f_equal. by apply IH.
Qed.

Lemma mine_fresh ctx ids l : Forall fresh (transfers_of ctx ids l).
Proof. revert l. induction ids as [|j ids IH]; intros [|t l]; constructor; [done|apply IH]. Qed.

(** The sum over the handles is the sum over the sub-ranges. *)
Lemma sizes_sum ids l :
  NoDup ids -> length ids = length l ->
  sumZ ((fun i => default 0 (size_in ids l i)) <$> ids) = sumZ (tk_size <$> (sr_task <$> l)).
Proof.
  intros Hn. revert l. induction Hn as [|j ids Hj Hn IH]; intros [|t l]; try done. intros [= Hl].
  rewrite !fmap_cons, !sumZ_cons, size_in_cons, Z.eqb_refl, <-IH by done. simpl default. do 2 f_equal. apply list_fmap_ext. intros n i Hi. rewrite size_in_cons.
  replace (j =? i) with false; [done|]. symmetry. apply Z.eqb_neq. intros ->. apply Hj. by eapply list_elem_of_lookup_2.
Qed.

(** ** The read *)

Lemma all_values ids l rs :
  NoDup ids -> Forall (sized_report (has_size ids l)) rs -> Forall succeeded rs.*2 ->
  length ids = length l -> rs.*1 ≡ₚ ids ->
  sumZ (value_of <$> rs.*2) = sumZ (tk_size <$> (sr_task <$> l)).
Proof.
  intros Hn Hs Hok Hl Hp. rewrite <-(sizes_sum ids l) by done.
  rewrite <-(sumZ_perm _ _ (fmap_Permutation (fun i => default 0 (size_in ids l i)) _ _ Hp)).
  assert (Hin : Forall (fun r => r.1 ∈ ids) rs).
  { apply Forall_forall. intros r Hr. rewrite <-Hp. by apply list_elem_of_fmap_2. }
  clear Hp. induction rs as [|[i r] rs IH]; [done|].
  apply Forall_cons in Hs as [Hr Hs], Hin as [Hi Hin]. apply Forall_cons in Hok as [[n Hx] Hok].
  cbn [fst snd] in *. rewrite !fmap_cons, !sumZ_cons, IH by done. f_equal. simpl in Hx. subst r. simpl.
  destruct (size_in ids l i) as [m|] eqn:Hm; [destruct Hr as (t & Ht & Hti & <-); simpl in Hti; subst i; exact (Ht m Hm)|].
  exfalso. clear -Hi Hm Hl. revert l Hl Hm. induction ids as [|j ids IH]; intros [|t l]; try done; [by apply not_elem_of_nil in Hi|].
  intros [= Hl]. rewrite size_in_cons. destruct (j =? i) eqn:E; [done|]. bool_to_prop.
  apply elem_of_cons in Hi as [->|Hi]; [done|]. by apply IH.
Qed.

Section read.
Context (strerror : CURLcode -> string) (policy : HttpRetryPolicy) (max_total reactors_ : Z) (p0 : pool).
Context (ctx : Z) (ids : list Z) (l : list subrange) (before after : list world_op).
Hypothesis Hmax : is_size max_total.
Hypothesis Hp0 : new_reactor_pool max_total reactors_ = Ok p0.
Hypothesis Hids : NoDup ids.
Hypothesis Hlen : length ids = length l.
Hypothesis Hothers : of_others ids (before ++ after).
Hypothesis Hfresh : fresh_submissions (before ++ after).

(** The whole history of the pool, with the submission of this read in it. *)
Definition history : list world_op := before ++ Submit (transfers_of ctx ids l) :: after.
Definition pool_after : pool := w_pool (run_world strerror policy history (new_world p0)).

Lemma history_split (P : world_op -> Prop) :
  P (Submit (transfers_of ctx ids l)) -> Forall P (before ++ after) -> Forall P history.
Proof. intros Hm [Hb Ha]%Forall_app. apply Forall_app. split; [done|by constructor]. Qed.

Lemma pool_after_ok : pool_ok pool_after /\ conserved pool_after.
Proof.
  apply (reachable_pool_ok strerror policy max_total reactors_); [done|]. exists p0. split; [done|].
  apply (run_world_pool strerror policy history (new_world p0)). unfold fresh_submissions.
  apply history_split; [apply mine_fresh|exact Hfresh].
Qed.

Lemma asked_once i : i ∈ ids -> asked i (submitted pool_after) = 1%nat.
Proof.
  intros Hi. unfold pool_after. rewrite run_world_submitted.
  apply new_pool_inv in Hp0 as [_ ->]. simpl. unfold history.
  apply Forall_app in Hothers as [Hb Ha]. rewrite fmap_app, concat_app, asked_app. cbn [fmap list_fmap concat submitted_by].
  rewrite asked_app, mine_ids, (asked_others ids before), (asked_others ids after), asked_nodup by done. lia.
Qed.

Lemma pool_after_sized : sized_pool (has_size ids l) pool_after.
Proof.
  apply run_world_sized; [apply has_size_same| |by eapply new_pool_sized]. unfold sized_submissions. apply history_split; [by apply mine_sized|].
  eapply Forall_impl; [exact Hothers|]. intros [] Ho; try done. cbn [submitted_by] in Ho. rewrite Forall_fmap in Ho.
  eapply Forall_impl; [exact Ho|]. intros t Ht n. simpl in Ht. by rewrite size_in_other.
Qed.

Lemma reported_at_most_once i : i ∈ ids -> (reported i (Reactor.reports pool_after) <= 1)%nat.
Proof.
  intros Hi. destruct pool_after_ok as [_ Hc]. specialize (Hc i). rewrite (asked_once i Hi) in Hc. unfold whereabouts in Hc. lia.
Qed.

Lemma reports_nodup : NoDup (reports_of ids pool_after).*1.
Proof.
  apply once_nodup. intros i Hi. assert (Hin : i ∈ ids).
  { apply list_elem_of_fmap in Hi as (r & -> & Hr). by apply list_elem_of_filter in Hr as [? _]. }
  unfold reports_of. rewrite reported_filter by done. by apply reported_at_most_once.
Qed.

Lemma reports_within : (reports_of ids pool_after).*1 ⊆+ ids.
Proof.
  apply NoDup_submseteq; [apply reports_nodup|]. intros i Hi.
  apply list_elem_of_fmap in Hi as (r & -> & Hr). by apply list_elem_of_filter in Hr as [? _].
Qed.

Lemma reports_sized : Forall (sized_report (has_size ids l)) (reports_of ids pool_after).
Proof.
  apply Forall_forall. intros r [_ Hr]%list_elem_of_filter.
  by apply (proj1 (Forall_forall _ _) (sp_reports _ _ pool_after_sized)).
Qed.

(** What the aggregate of the read has been told is what the pool reported. *)
Lemma read_resolves recorder a r :
  (0 < length l)%nat -> sumZ (tk_size <$> (sr_task <$> l)) < SIZE_MOD -> 0 <= sumZ (tk_size <$> (sr_task <$> l)) ->
  aggregate_ok recorder (length l) a -> (Aggregate.reports a).*1 ≡ₚ (reports_of ids pool_after).*2 ->
  promise a = Some r ->
  (forall i, i ∈ ids -> reported i (Reactor.reports pool_after) = 1%nat) /\
  match r with
  | inr n => n = sumZ (tk_size <$> (sr_task <$> l)) /\ Forall succeeded (reports_of ids pool_after).*2
  | inl e => inl e ∈ (reports_of ids pool_after).*2
  end.
Proof.
  intros Hpos Hmod Hnn [Hal Hleft _ _ Hlast] Hperm Hr. rewrite Hr in Hlast. destruct Hlast as (Hz & -> & _ & _).
  assert (Hn : length (Aggregate.reports a) = length l) by lia.
  assert (Hall : (reports_of ids pool_after).*1 ≡ₚ ids).
  { apply submseteq_length_Permutation; [apply reports_within|]. rewrite length_fmap.
    apply Permutation_length in Hperm. rewrite !length_fmap in Hperm. lia. }
  split.
  { intros i Hi. pose proof (reported_at_most_once i Hi).
    assert (0 < reported i (Reactor.reports pool_after))%nat; [|lia].
    rewrite <-(reported_filter ids) by done. apply reported_elem. by rewrite Hall. }
  unfold expected. pose proof (first_failure_spec (Aggregate.reports a)) as Hf.
  destruct (first_failure _) as [e|]; [by rewrite <-Hperm|]. rewrite Hperm in Hf. split; [|done].
  rewrite bytes_of_values. rewrite (sumZ_perm _ (value_of <$> (reports_of ids pool_after).*2)) by by apply Permutation_map.
  rewrite (all_values ids l) by (done || apply reports_sized). by apply wrap64_small.
Qed.

(** ... and when that is a value, each sub-range has reported one. *)
Lemma read_succeeds recorder a n :
  (0 < length l)%nat -> Z.of_nat (length l) < SIZE_MOD -> sumZ (tk_size <$> (sr_task <$> l)) < SIZE_MOD ->
  0 <= sumZ (tk_size <$> (sr_task <$> l)) ->
  rtc (aggregate_step recorder (length l)) (fresh_aggregate (length l)) a ->
  (Aggregate.reports a).*1 ≡ₚ (reports_of ids pool_after).*2 -> promise a = Some (inr n) ->
  n = sumZ (tk_size <$> (sr_task <$> l)) /\
  forall id, id ∈ ids -> exists m, (id, inr m) ∈ Reactor.reports pool_after.
Proof.
  intros Hpos Hlt Hmod Hnn Ha Hperm Hr.
  destruct (read_resolves recorder a (inr n) Hpos Hmod Hnn (reachable_aggregate recorder (length l) a Hpos Hlt Ha) Hperm Hr)
    as [Hone [-> Hall]]. split; [done|]. intros id Hid. pose proof (Hone id Hid) as H1.
  rewrite <-(reported_filter ids) in H1 by done.
  assert (Hin : id ∈ (reports_of ids pool_after).*1) by (apply reported_elem; unfold reports_of; lia).
  apply list_elem_of_fmap in Hin as ([id' r] & -> & Hr'). rewrite Forall_forall in Hall.
  destruct (Hall r (list_elem_of_fmap_2 snd _ _ Hr')) as [x Hx]. exists x. simpl in Hx |- *. subst r.
  by apply list_elem_of_filter in Hr' as [_ ?].
Qed.
End read.

(** The plan of a read has transfers, fewer than [size_t] holds, that make up
    its size. *)
Lemma plan_adds_up `{CurlUrl} script thread now page call_counter h buf size file_offset task_size thread_pool bbs
    is_host_mem opts w w' physical l :
  is_size file_offset -> is_size (rh_nbytes h) -> is_size size ->
  size + task_size <= SIZE_MOD -> setopt (rh_endpoint h) = Ok opts ->
  pread script thread now page call_counter h buf size file_offset task_size thread_pool is_host_mem
    MULTI_POLL bbs w = Ok (MultiPollTransfers physical l, w') ->
  (0 < length l)%nat /\ Z.of_nat (length l) < SIZE_MOD /\ sumZ (tk_size <$> (sr_task <$> l)) = size.
Proof.
  intros Ho Hn Hs Hsum Hopts Hp.
  destruct (pread_transfers_tile script thread now page call_counter h buf size file_offset task_size thread_pool bbs
              is_host_mem opts w w' physical l Ho Hn Hs Hsum Hopts Hp) as ([Hlo Hhi] & Ht & _ & Hall).
  assert (Hne : size <> 0).
  { intros ->. unfold pread in Hp. simpl in Hp. done. }
  unfold is_size in Hs. destruct l as [|t l]; [simpl in Hhi; lia|].
  apply Forall_cons in Hall as [[[Hsz _] _] _]. split; [simpl; lia|]. split; [|by eapply tiles_sum]. nia.
Qed.

(** C6. A multi-poll [pread] end to end.  However the reactors, other callers
    and a death of the pool interleave, the caller's future is resolved only
    when every sub-range has been reported, each exactly once; it then holds
    the size of the read if all of them succeeded (for device memory: and the
    copies were waited for), and otherwise an exception that one of them, or
    that wait, ended with.  When the pool has died and its threads are gone, all
    of them have been reported. *)
Theorem multi_poll_read_returns `{CurlUrl} script thread now page call_counter (h : RemoteHandle)
    (buf size file_offset task_size thread_pool bbs : Z) (is_host_mem : bool) (opts : list setting)
    (w w' : world) physical (l : list subrange)
    strerror policy (max_total n : Z) (p0 : pool) (ctx : Z) (ids : list Z) (before after : list world_op)
    (recorder : bool) (a : aggregate) (sync : option exn) :
  is_size file_offset -> is_size (rh_nbytes h) -> is_size size ->
  size + task_size <= SIZE_MOD -> setopt (rh_endpoint h) = Ok opts ->
  pread script thread now page call_counter h buf size file_offset task_size thread_pool is_host_mem
    MULTI_POLL bbs w = Ok (MultiPollTransfers physical l, w') ->
  is_size max_total -> new_reactor_pool max_total n = Ok p0 ->
  NoDup ids -> length ids = length l -> of_others ids (before ++ after) -> fresh_submissions (before ++ after) ->
  let p := pool_after strerror policy p0 ctx ids l before after in
  rtc (aggregate_step recorder (length l)) (fresh_aggregate (length l)) a ->
  (Aggregate.reports a).*1 ≡ₚ (reports_of ids p).*2 ->
  (forall r, promise a = Some r ->
     (forall i, i ∈ ids -> reported i (Reactor.reports p) = 1%nat) /\
     match pread_future is_host_mem sync r with
     | inr m => m = size /\ Forall succeeded (reports_of ids p).*2 /\ (is_host_mem = false -> sync = None)
     | inl e => inl e ∈ (reports_of ids p).*2 \/ (is_host_mem = false /\ sync = Some e)
     end) /\
  (drained p = true -> Forall (fun x => exited x = true) (reactors p) ->
   length (Aggregate.reports a) = length l).
Proof.
  intros Ho Hn Hs Hsum Hopts Hp Hmax Hp0 Hids Hlen Hothers Hfresh p Ha Hperm.
  destruct (plan_adds_up _ _ _ _ _ _ _ _ _ _ _ _ _ _ _ _ _ _ Ho Hn Hs Hsum Hopts Hp) as (Hpos & Hlt & Hsize).
  pose proof (reachable_aggregate recorder (length l) a Hpos Hlt Ha) as Hok. split.
  - intros r Hr. unfold is_size in Hs.
    destruct (read_resolves strerror policy max_total n p0 ctx ids l before after Hmax Hp0 Hids Hlen Hothers Hfresh
                recorder a r Hpos ltac:(lia) ltac:(lia) Hok Hperm Hr) as [Hone Hres].
    split; [exact Hone|]. destruct r as [e|m]; simpl; [by left|]. destruct Hres as [-> Hall].
    destruct is_host_mem; [by split_and!|]. destruct sync; [by right|by split_and!].
  - intros Hd He.
    destruct (pool_after_ok strerror policy max_total n p0 ctx ids l before after Hmax Hp0 Hfresh) as [Hpok Hc].
    assert (Hall : forall i, i ∈ ids -> (0 < reported i (reports_of ids p))%nat).
    { intros i Hi. unfold reports_of. rewrite reported_filter, (drained_all_reported p Hpok Hc Hd He i) by done.
      rewrite (asked_once strerror policy max_total n p0 ctx ids l before after) by done. lia. }
    pose proof (Permutation_length Hperm) as Hl. rewrite !length_fmap in Hl. rewrite Hl, <-(length_fmap fst), <-Hlen.
    apply Nat.le_antisymm.
    + apply submseteq_length, (reports_within strerror policy max_total n p0 ctx ids l before after); done.
    + apply submseteq_length, NoDup_submseteq; [done|]. intros i Hi. by apply reported_elem, Hall.
Qed.

(** ** Two sub-ranges on two reactors *)

Definition demo_pool : pool :=
  match new_reactor_pool 4 2 with Ok p => p | _ => two_reactors end.

(** Another caller's transfer goes first; each reactor settles one of ours,
    the second sub-range before the first. *)
Definition demo_before : list world_op := [Submit [demo_transfer 9 false]].

Definition take (r : nat) : list world_op :=
  [Work r TurnPop; Work r (TurnHand (mkGates (inr true) None) a_pass)].

Definition reaps (r i : nat) : world_op :=
  Work r (TurnReap 6 i (mkCompletion CURLE_OK 200 "" false None None) calm).

Definition demo_after : list world_op := take 0 ++ take 0 ++ take 1 ++ [reaps 1 0; reaps 0 1].

Definition demo_sum : aggregate :=
  mkAggregate 0 10 None (Some (inr 10)) [Some 10] [(inr 2, Over); (inr 8, Over)].

Lemma demo_sum_run : rtc (aggregate_step true 2) (fresh_aggregate 2) demo_sum.
Proof.
  eapply rtc_l; [apply (report_in true 2 (inr 2)); simpl; lia|].
  eapply rtc_l; [apply (report_in true 2 (inr 8)); simpl; lia|].
  eapply rtc_l; [by apply (report_counted true 2 1 (inr 8))|].
  eapply rtc_l; [by apply (report_counted true 2 0 (inr 2))|].
  eapply rtc_l; [by apply (report_tells true 2 0 (inr 2))|].
  eapply rtc_l; [by apply (report_fulfils true 2 0 (inr 2))|]. apply rtc_refl.
Qed.

Lemma multi_poll_read_returns_witness :
  (forall i, i ∈ [1; 2] -> reported i (Reactor.reports
      (pool_after demo_text demo_policy demo_pool 0 [1; 2] demo_plan demo_before demo_after)) = 1%nat) /\
  promise demo_sum = Some (inr 10).
Proof.
  split; [|reflexivity].
  refine (proj1 (proj1 (multi_poll_read_returns (H := demo_curl) (fun _ => []) 1 0 4096 5 demo_handle 100 10 3 8 0 16
    true [OPT_URL "http://h/f"] initial_world initial_world demo_context demo_plan demo_text demo_policy 4 2 demo_pool 0
    [1; 2] demo_before demo_after true demo_sum None _ _ _ _ _ _ _ _ _ _ _ _ _ _) (inr 10) _));
    try exact demo_pread; try done; try (vm_compute; reflexivity).
  - repeat constructor; set_solver.
  - repeat constructor; set_solver.
  - repeat constructor.
  - exact demo_sum_run.
Defined.
