(* ===== verification/MultiPollBytes.v ===== *)
(** * The bytes of a multi-poll read

    [MultiPollRead] says what the future of a multi-poll read holds; this file
    says what the memory holds by then.  libcurl calls
    [callback_host_memory] ([src/detail/remote_callback.cpp]) inside a turn of
    the reactor that has the transfer in flight, over several attempts, while
    other transfers, other callers and the threads of the pool go on
    ([src/detail/multi_poll_reactor.cpp]). *)

From stdpp Require Import base list sets strings relations.
From Stdlib Require Import ZArith Lia.
From S2P Require Import Prelude ParallelIo HttpRetry Aggregate Reactor Wakeup RemoteCallback Defaults Observation Url Endpoint RemoteHandle MultiPollRead.

#[local] Open Scope Z_scope.

(** ** Steps *)

(** The [CallbackContext] of the transfer of a sub-range of host memory. *)
Definition context_of (t : subrange) : CallbackContext :=
  mkCtx (tk_devPtr_offset (sr_task t)) (tk_size (sr_task t)) 0 false 0.

(** The pool and its threads, the memory, the context of each transfer, and the
    bytes libcurl has delivered to it in the attempt it is in. *)
Record byte_world := mkByteWorld {
  b_io : io_world;
  b_memory : memory;
  b_context : Z -> CallbackContext;
  b_delivered : Z -> list Z }.

Definition set_at {A} (i : Z) (x : A) (f : Z -> A) : Z -> A := fun j => if j =? i then x else f j.

(** [Deliver r i data]: libcurl hands a chunk to the transfer at place [i] of
    reactor [r].  [Elsewhere]: something else writes to memory. *)
Inductive byte_op :=
  | Io (o : world_op)
  | Deliver (r i : nat) (data : list Z)
  | Elsewhere (a : Z) (data : list Z).

(** The transfer at place [i] of reactor [r], while that is in a turn. *)
Definition on_wire (r i : nat) (w : io_world) : option transfer :=
  if decide (mode_at r w = Some InTurn)
  then x ← reactors (w_pool w) !! r; if in_loop x then in_flight x !! i else None
  else None.

Section steps.
Context (err : Z) (c : copy_config) (strerror : CURLcode -> string) (policy : HttpRetryPolicy).

(** Whose context [settle_transfer] resets: that of a transfer it puts back. *)
Definition put_back (o : world_op) (w : io_world) : option Z :=
  match o with
  | Work r (TurnReap now i cm out) =>
      t ← on_wire r i w;
      match (settle_transfer strerror policy now cm t out).1 with
      | Retry _ => Some (t_id t)
      | Report _ => None
      end
  | _ => None
  end.

Definition deliver (r i : nat) (data : list Z) (w : byte_world) : byte_world :=
  match on_wire r i (b_io w) with
  | None => w
  | Some t =>
      let id := t_id t in
      let ctx := b_context w id in
      if is_device t || overflow_error ctx then w
      else
        match callback_host_memory err c data 1 (Z.of_nat (length data)) ctx (b_memory w) with
        | Ok (_, ctx, m) =>
            mkByteWorld (b_io w) m (set_at id ctx (b_context w))
              (if overflow_error ctx then b_delivered w
               else set_at id (b_delivered w id ++ data) (b_delivered w))
        | _ => w
        end
  end.

Definition byte_step (w : byte_world) (o : byte_op) : byte_world :=
  match o with
  | Io o =>
      let io := world_step strerror policy (b_io w) o in
      match put_back o (b_io w) with
      | Some id =>
          mkByteWorld io (b_memory w) (set_at id (reset_for_retry (b_context w id)) (b_context w))
            (set_at id [] (b_delivered w))
      | None => mkByteWorld io (b_memory w) (b_context w) (b_delivered w)
      end
  | Deliver r i data => deliver r i data w
  | Elsewhere a data => mkByteWorld (b_io w) (store a data (b_memory w)) (b_context w) (b_delivered w)
  end.

Definition run_bytes (ops : list byte_op) (w : byte_world) : byte_world := foldl byte_step w ops.

Definition io_of (o : byte_op) : option world_op := match o with Io o => Some o | _ => None end.

Lemma byte_step_io o w : b_io (byte_step w (Io o)) = world_step strerror policy (b_io w) o.
Proof. unfold byte_step. by case_match. Qed.

Lemma deliver_io r i data w : b_io (deliver r i data w) = b_io w.
Proof. unfold deliver. by repeat case_match. Qed.

Lemma run_bytes_io ops w : b_io (run_bytes ops w) = run_world strerror policy (omap io_of ops) (b_io w).
Proof.
  revert w. induction ops as [|o ops IH]; intros w; [done|]. unfold run_bytes, run_world in *. simpl. rewrite IH.
  destruct o as [o|r i data|a data]; [by rewrite byte_step_io|simpl; by rewrite deliver_io|done].
Qed.

(** What libcurl and the server do.  A chunk is shorter than the error value of
    the callback.  For a transfer of the read ([body id]), settling sees whether
    the callback refused a chunk, and an attempt that ends with [CURLE_OK] and
    no refusal has been given the bytes of the range. *)
Variable body : Z -> option (list Z).

Definition op_honest (w : byte_world) (o : byte_op) : Prop :=
  match o with
  | Io (Work r (TurnReap now i cm out)) =>
      forall t l, on_wire r i (b_io w) = Some t -> body (t_id t) = Some l ->
        c_overflow cm = overflow_error (b_context w (t_id t)) /\
        (c_result cm = CURLE_OK -> c_overflow cm = false -> b_delivered w (t_id t) = l)
  | Deliver r i data => Z.of_nat (length data) < err
  | _ => True
  end.

(** The same as a test. *)
Definition op_honest_b (w : byte_world) (o : byte_op) : bool :=
  match o with
  | Io (Work r (TurnReap now i cm out)) =>
      match (t ← on_wire r i (b_io w); l ← body (t_id t); mret (t, l)) with
      | Some (t, l) =>
          bool_decide (c_overflow cm = overflow_error (b_context w (t_id t))) &&
          (negb (bool_decide (c_result cm = CURLE_OK)) || c_overflow cm || bool_decide (b_delivered w (t_id t) = l))
      | None => true
      end
  | Deliver r i data => Z.of_nat (length data) <? err
  | _ => true
  end.

Lemma op_honest_b_ok w o : op_honest_b w o = true -> op_honest w o.
Proof.
  destruct o as [o|r i data|]; simpl; [|intros; by bool_to_prop|done]. destruct o as [| |r []| | | | | |]; try done.
  intros Hb t l Ht Hl. rewrite Ht in Hb. simpl in Hb. rewrite Hl in Hb. simpl in Hb.
  apply andb_true_iff in Hb as [Ho Hb]. apply bool_decide_eq_true in Ho. split; [done|]. intros Hc Hn.
  rewrite (bool_decide_eq_true_2 _ Hc), Hn in Hb. simpl in Hb. by apply bool_decide_eq_true in Hb.
Qed.

Fixpoint honest (ops : list byte_op) (w : byte_world) : Prop :=
  match ops with
  | [] => True
  | o :: ops => op_honest w o /\ honest ops (byte_step w o)
  end.
Fixpoint honest_b (ops : list byte_op) (w : byte_world) : bool :=
  match ops with [] => true | o :: ops => op_honest_b w o && honest_b ops (byte_step w o) end.

Lemma honest_b_ok ops w : honest_b ops w = true -> honest ops w.
Proof.
  revert w. induction ops as [|o ops IH]; intros w; simpl; [done|]. intros [Ho Hr]%andb_true_iff.
  split; [by apply op_honest_b_ok|by apply IH].
Qed.
End steps.

(** ** Where a success comes from *)

Lemma fail_with_no_success e ts id n : (id, inr n) ∉ fail_with e ts.
Proof. intros (t & Ht & _)%list_elem_of_fmap. done. Qed.

Lemma leave_loop_reports r p : Reactor.reports (leave_loop r p) = Reactor.reports p.
Proof. unfold leave_loop. by repeat case_match. Qed.

Lemma signal_death_reports e p : Reactor.reports (signal_death e p) = Reactor.reports p.
Proof. unfold signal_death. by destruct (death_reason p). Qed.

Section successes.
Context (strerror : CURLcode -> string) (policy : HttpRetryPolicy).

Definition reaped_well (o : world_op) (w : io_world) (id n : Z) : Prop :=
  exists r now i cm out t, o = Work r (TurnReap now i cm out) /\ on_wire r i w = Some t /\ t_id t = id /\
    (settle_transfer strerror policy now cm t out).1 = Report (inr n).

Lemma settle_success now cm t out n :
  (settle_transfer strerror policy now cm t out).1 = Report (inr n) -> c_result cm = CURLE_OK /\ c_overflow cm = false.
Proof.
  unfold settle_transfer. destruct (bool_decide_reflect (c_result cm = CURLE_OK)), (c_overflow cm); simpl;
    try (by repeat case_match); intros Hs; repeat (case_match; simplify_eq/=);
    unfold requeue_for_retry in *; repeat (case_match; simplify_eq/=).
Qed.

Lemma turn_step_success r op p id n :
  (id, inr n) ∈ Reactor.reports (turn_step strerror policy r op p) ->
  (id, inr n) ∈ Reactor.reports p \/
  exists now i cm out x t, op = TurnReap now i cm out /\ reactors p !! r = Some x /\
    (if in_loop x then in_flight x !! i else None) = Some t /\ t_id t = id /\
    (settle_transfer strerror policy now cm t out).1 = Report (inr n).
Proof.
  destruct op as [|g pass| |i g pass|now i cm out]; simpl.
  - unfold try_pop_queued. repeat (case_match; simpl; try by left). all: intros ?; by left.
  - unfold admit_hand. repeat (case_match; simpl; try by left). all: intros ?; by left.
  - unfold return_to_queue. repeat (case_match; simpl; try by left); intros Hin; left; try done.
    apply elem_of_app in Hin as [?|Hin]; [done|]. by apply (fail_with_no_success e [t]) in Hin.
  - unfold admit_retry. repeat (case_match; simpl; try by left). all: intros ?; by left.
  - unfold reap. destruct (reactors p !! r) as [x|] eqn:Hx; [|by left].
    destruct (if in_loop x then in_flight x !! i else None) as [t|] eqn:Ht; [|by left].
    destruct (settle_transfer _ _ _ _ _ _) as [[rep|u] o'] eqn:Hs; simpl; [|by left].
    intros [?|Hin%list_elem_of_singleton]%elem_of_app; [by left|]. right. injection Hin as -> <-.
    exists now, i, cm, out, x, t. by rewrite Hs.
Qed.

Lemma world_step_success w o id n :
  (id, inr n) ∈ Reactor.reports (w_pool (world_step strerror policy w o)) ->
  (id, inr n) ∈ Reactor.reports (w_pool w) \/ reaped_well o w id n.
Proof.
  destruct o as [ts|k|r op|r now o m|r|r|r e| |r]; simpl; try by left.
  - unfold submit, submit_pread. destruct (is_dead _); simpl; destruct (death_reason _); simpl; try by left.
    all: intros [?|Hin]%elem_of_app; [by left|]; by apply fail_with_no_success in Hin.
  - unfold wake_next. repeat case_match; by left.
  - destruct (decide _) as [Hm|]; [|by left]. simpl. intros [?|H]%turn_step_success; [by left|right].
    destruct H as (now & i & cm & out & x & t & -> & Hx & Ht & Hid & Hs).
    exists r, now, i, cm, out, t. split_and!; try done. unfold on_wire. rewrite decide_True by done. by rewrite Hx.
  - unfold fall_asleep. destruct (decide _); by left.
  - unfold poll_returns. repeat case_match; simpl; rewrite ?leave_loop_reports; by left.
  - unfold die. destruct (decide _); [|by left]. case_match; simpl; rewrite ?signal_death_reports, leave_loop_reports; by left.
  - unfold drain_queue. destruct (death_reason _); simpl; [|by left].
    intros [?|Hin]%elem_of_app; [by left|]. by apply fail_with_no_success in Hin.
  - destruct (decide _); [|by left]. simpl. unfold fail_all_pending. repeat (case_match; try by left). simpl.
    intros [?|Hin]%elem_of_app; [by left|]. by apply fail_with_no_success in Hin.
Qed.
End successes.

(** ** A chunk *)

Section bytes.
Context (err : Z) (c : copy_config) (strerror : CURLcode -> string) (policy : HttpRetryPolicy).
Hypothesis Hdiscard : discard_data_enabled c = false.

Lemma callback_chunk ctx0 (got data : list Z) m :
  Z.of_nat (length data) < err -> size ctx0 < SIZE_MOD - err -> Z.of_nat (length got) <= size ctx0 ->
  exists r m', callback_host_memory err c data 1 (Z.of_nat (length data)) (at_offset (Z.of_nat (length got)) ctx0) m = Ok (r, m') /\
    if decide (Z.of_nat (length (got ++ data)) <= size ctx0)
    then r.2 = at_offset (Z.of_nat (length (got ++ data))) ctx0 /\
      same_memory m' (store (buf ctx0 + Z.of_nat (length got)) data m)
    else r.2 = set_overflow (at_offset (Z.of_nat (length got)) ctx0) /\ m' = m.
Proof using Hdiscard.
  intros Hd Hs Hg. unfold callback_host_memory. simpl.
  destruct (room_check ctx0 got data) as [-> Hsum]; [lia|]. rewrite Hsum, length_app, Nat2Z.inj_add.
  destruct (decide _) as [Hle|Hgt].
  - rewrite (proj2 (Z.ltb_ge _ _)) by done. rewrite Hdiscard.
    destruct (copy_received_data_spec c (buf ctx0 + Z.of_nat (length got)) data (Z.of_nat (length data)) (size ctx0) m)
      as (m' & -> & Hm); [lia|]. simpl. rewrite memcpy_all in Hm. by eexists _, m'.
  - rewrite (proj2 (Z.ltb_lt _ _)) by lia. simpl. by eexists _, m.
Qed.

(** Memory at [a] begins with [l]. *)
Definition prefix_at (a : Z) (l : list Z) (m : memory) : Prop := forall i x, l !! i = Some x -> m (a + Z.of_nat i) = x.

Lemma prefix_at_app a l k m m' :
  prefix_at a l m -> same_memory m' (store (a + Z.of_nat (length l)) k m) -> prefix_at a (l ++ k) m'.
Proof.
  intros Hl Hm. destruct (holds_at_store a (Z.of_nat (length l) + Z.of_nat (length k))
    (fun x => if decide (a <= x < a + (Z.of_nat (length l) + Z.of_nat (length k))) then 0 else m x) l k
    (fun x => m x) m') as [Hp _]; [|lia|done|exact Hp].
  split; [exact Hl|]. intros x Hx. rewrite decide_False by lia. done.
Qed.

Lemma prefix_at_store a l b k m :
  (b + Z.of_nat (length k) <= a \/ a + Z.of_nat (length l) <= b) -> prefix_at a l m -> prefix_at a l (store b k m).
Proof. intros Ho Hl i x Hi. apply lookup_lt_Some in Hi as Hlt. rewrite store_out by lia. by apply Hl. Qed.

Lemma prefix_at_same a l m m' : same_memory m' m -> prefix_at a l m -> prefix_at a l m'.
Proof. intros Hm Hl i x Hi. rewrite Hm. by apply Hl. Qed.

(** ** A transfer on the wire has not reported *)

Lemma sum_list_part (f : reactor -> nat) rs r x : rs !! r = Some x -> (f x <= sum_list (f <$> rs))%nat.
Proof.
  revert r. induction rs as [|y rs IH]; intros [|r] Hr; try done; csimpl; simpl in *.
  - injection Hr as ->. lia.
  - specialize (IH r Hr). lia.
Qed.

Lemma on_wire_unreported r i w t rep :
  conserved (w_pool w) -> (asked (t_id t) (submitted (w_pool w)) <= 1)%nat -> on_wire r i w = Some t ->
  (t_id t, rep) ∉ Reactor.reports (w_pool w).
Proof.
  intros Hc Ha Hw Hin. unfold on_wire in Hw. destruct (decide _); [|done].
  destruct (reactors (w_pool w) !! r) as [x|] eqn:Hx; [|done]. simpl in Hw.
  destruct (in_loop x); [|done]. specialize (Hc (t_id t)). unfold whereabouts in Hc.
  pose proof (sum_list_part (occ_reactor (t_id t)) _ r x Hx) as Hs. unfold occ_reactor at 1 in Hs.
  pose proof (occ_delete (t_id t) _ _ _ Hw) as Ho. replace (occ (t_id t) [t]) with 1%nat in Ho.
  2:{ unfold occ. rewrite filter_cons, decide_True by done. done. }
  assert (0 < reported (t_id t) (Reactor.reports (w_pool w)))%nat; [|lia].
  apply reported_elem. exact (list_elem_of_fmap_2 fst _ _ Hin).
Qed.

(** ** The tiles of a read do not meet *)

Lemma tiles_apart off dev n ts i j t u :
  tiles off dev n ts -> ts !! i = Some t -> ts !! j = Some u -> (i < j)%nat ->
  tk_devPtr_offset t + tk_size t <= tk_devPtr_offset u.
Proof.
  revert off dev n i j. induction ts as [|v ts IH]; intros off dev n i j; [done|]. simpl.
  intros (_ & Hdev & _ & Hts) Hi Hj Hlt. destruct j as [|j]; [lia|]. simpl in Hj. destruct i as [|i].
  - simpl in Hi. injection Hi as ->. pose proof (tiles_within _ _ _ _ u Hts (list_elem_of_lookup_2 _ _ _ Hj)). lia.
  - eapply (IH _ _ _ i j); [exact Hts|done|done|lia].
Qed.

(** ** The invariant *)

Section invariant.
Context (dest : Z -> CallbackContext) (body : Z -> option (list Z)) (m0 : memory).
Context (buf size file_offset : Z) (remote : Z -> Z) (ids : list Z) (l : list subrange).
Hypothesis Hdest : forall id, 0 <= RemoteCallback.size (dest id) < SIZE_MOD - err /\ at_offset 0 (dest id) = dest id.
Hypothesis Hids : NoDup ids.
Hypothesis Hlen : length ids = length l.
Hypothesis Htiles : tiles file_offset buf size (sr_task <$> l).
Hypothesis Hmine : forall k id t, ids !! k = Some id -> l !! k = Some t ->
  dest id = context_of t /\ body id = Some (file_bytes remote (tk_file_offset (sr_task t)) (tk_size (sr_task t))).
Hypothesis Hothers : forall id, id ∉ ids ->
  RemoteCallback.buf (dest id) + RemoteCallback.size (dest id) <= buf \/ buf + size <= RemoteCallback.buf (dest id).

(** Addresses that nothing is meant to write. *)
Variable quiet : Z -> Prop.
Hypothesis Hquiet : forall a id, quiet a ->
  a < RemoteCallback.buf (dest id) \/ RemoteCallback.buf (dest id) + RemoteCallback.size (dest id) <= a.

Definition part_of (k : nat) (id : Z) (t : subrange) : Prop := ids !! k = Some id /\ l !! k = Some t.

Record bytes_ok (w : byte_world) : Prop := mkBytesOk {
  by_context id : Z.of_nat (length (b_delivered w id)) <= RemoteCallback.size (dest id) /\
    (b_context w id = at_offset (Z.of_nat (length (b_delivered w id))) (dest id) \/
     b_context w id = set_overflow (at_offset (Z.of_nat (length (b_delivered w id))) (dest id)));
  by_memory k id t : part_of k id t -> prefix_at (tk_devPtr_offset (sr_task t)) (b_delivered w id) (b_memory w);
  by_success k id t n : part_of k id t -> (id, inr n) ∈ Reactor.reports (w_pool (b_io w)) ->
    prefix_at (tk_devPtr_offset (sr_task t)) (file_bytes remote (tk_file_offset (sr_task t)) (tk_size (sr_task t))) (b_memory w);
  by_frame a : quiet a -> b_memory w a = m0 a }.

Lemma part_within k id t : part_of k id t ->
  RemoteCallback.buf (dest id) = tk_devPtr_offset (sr_task t) /\ RemoteCallback.size (dest id) = tk_size (sr_task t) /\
  0 <= tk_size (sr_task t) /\ buf <= tk_devPtr_offset (sr_task t) /\ tk_devPtr_offset (sr_task t) + tk_size (sr_task t) <= buf + size.
Proof using Htiles Hmine.
  intros [Hk Ht]. destruct (Hmine k id t Hk Ht) as [-> _]. split_and!; [done|done|..];
    eapply (tiles_within _ _ _ _ (sr_task t) Htiles), list_elem_of_fmap_2, list_elem_of_lookup_2, Ht.
Qed.

(** The destination of another transfer is elsewhere. *)
Lemma part_apart k id t id' : part_of k id t -> id' <> id ->
  RemoteCallback.buf (dest id') + RemoteCallback.size (dest id') <= tk_devPtr_offset (sr_task t) \/
  tk_devPtr_offset (sr_task t) + tk_size (sr_task t) <= RemoteCallback.buf (dest id').
Proof using Hids Hlen Htiles Hmine Hothers.
  intros Hp Hne. pose proof (part_within k id t Hp) as (_ & _ & _ & Hlo & Hhi). destruct Hp as [Hk Ht].
  destruct (decide (id' ∈ ids)) as [Hin|Hout].
  - apply list_elem_of_lookup in Hin as [k' Hk']. destruct (lookup_lt_is_Some_2 l k') as [t' Ht'].
    { rewrite <-Hlen. by eapply lookup_lt_Some. }
    destruct (part_within k' id' t' (conj Hk' Ht')) as (-> & -> & _ & _ & _).
    assert (Hkk : k <> k') by (intros ->; congruence).
    assert (Hf : forall j u, l !! j = Some u -> (sr_task <$> l) !! j = Some (sr_task u)) by (intros j u Hj; by rewrite list_lookup_fmap, Hj).
    destruct (decide (k < k')%nat); [right|left]; eapply (tiles_apart _ _ _ _ _ _ _ _ Htiles); eauto; lia.
  - destruct (Hothers id' Hout); lia.
Qed.

Lemma deliver_ok w r i data :
  bytes_ok w -> Z.of_nat (length data) < err ->
  (forall t rep, on_wire r i (b_io w) = Some t -> t_id t ∈ ids -> (t_id t, rep) ∉ Reactor.reports (w_pool (b_io w))) ->
  bytes_ok (deliver err c r i data w).
Proof using All.
  intros Hw Hd Hun. unfold deliver. destruct (on_wire r i (b_io w)) as [t|] eqn:Hwire; [|done].
  destruct (is_device t || overflow_error (b_context w (t_id t))) eqn:Hgo; [done|]. apply orb_false_iff in Hgo as [_ Hov].
  specialize (Hun t). set (id := t_id t) in *. destruct (by_context w Hw id) as [Hgot Hctx].
  destruct Hctx as [Hctx|Hctx]; [|rewrite Hctx in Hov; done]. rewrite Hctx.
  destruct (Hdest id) as [Hsz _].
  destruct (callback_chunk (dest id) (b_delivered w id) data (b_memory w)) as ([n ctx'] & m' & -> & Hres); [done|lia|done|].
  destruct (decide _) as [Hle|Hgt]; destruct Hres as [Hc' Hm']; simpl in Hc'; subst ctx'; simpl.
  - assert (Hkeep : forall k id' t', part_of k id' t' -> id' <> id ->
      forall b, Z.of_nat (length b) <= tk_size (sr_task t') ->
      prefix_at (tk_devPtr_offset (sr_task t')) b (b_memory w) -> prefix_at (tk_devPtr_offset (sr_task t')) b m').
    { intros k id' t' Hp Hne b Hb Hpre. eapply prefix_at_same; [exact Hm'|]. apply prefix_at_store; [|done].
      rewrite length_app in Hle. destruct (part_apart k id' t' id Hp ltac:(congruence)); lia. }
    constructor; simpl.
    + intros id'. unfold set_at. destruct (id' =? id) eqn:E; bool_to_prop; [subst id'|apply (by_context w Hw)].
      split; [done|by left].
    + intros k id' t' Hp. unfold set_at. destruct (id' =? id) eqn:E; bool_to_prop.
      * subst id'. destruct (part_within k id t' Hp) as (Hb & _). eapply prefix_at_app; [by apply (by_memory w Hw k)|]. by rewrite <-Hb.
      * apply (Hkeep k id'); [done|done| |by apply (by_memory w Hw k)].
        destruct (part_within k id' t' Hp) as (_ & <- & _). apply (by_context w Hw).
    + intros k id' t' n' Hp Hrep. destruct (decide (id' = id)) as [->|Hne].
      * exfalso. eapply Hun; [done| |exact Hrep]. eapply list_elem_of_lookup_2, Hp.
      * apply (Hkeep k id'); [done|done| |by eapply (by_success w Hw)].
        rewrite file_bytes_length; [done|]. by apply (part_within k id' t').
    + intros a Ha. rewrite Hm', store_out; [by apply (by_frame w Hw)|]. rewrite length_app in Hle.
      destruct (Hquiet a id Ha); lia.
  - subst m'. constructor; simpl; [|apply (by_memory w Hw)|apply (by_success w Hw)|apply (by_frame w Hw)].
    intros id'. unfold set_at. destruct (id' =? id) eqn:E; bool_to_prop; [subst id'|apply (by_context w Hw)].
    split; [done|by right].
Qed.

Lemma elsewhere_ok w a data :
  bytes_ok w -> (a + Z.of_nat (length data) <= buf \/ buf + size <= a) ->
  (forall q, quiet q -> q < a \/ a + Z.of_nat (length data) <= q) ->
  bytes_ok (mkByteWorld (b_io w) (store a data (b_memory w)) (b_context w) (b_delivered w)).
Proof using All.
  intros Hw Ha Hq.
  assert (Hkeep : forall k id t b, part_of k id t -> Z.of_nat (length b) <= tk_size (sr_task t) ->
    prefix_at (tk_devPtr_offset (sr_task t)) b (b_memory w) ->
    prefix_at (tk_devPtr_offset (sr_task t)) b (store a data (b_memory w))).
  { intros k id t b Hp Hb. apply prefix_at_store. destruct (part_within k id t Hp) as (_ & _ & _ & Hlo & Hhi). lia. }
  constructor; simpl; [apply (by_context w Hw)| | |].
  - intros k id t Hp. apply (Hkeep k id); [done| |by apply (by_memory w Hw k)].
    destruct (part_within k id t Hp) as (_ & <- & _). apply (by_context w Hw).
  - intros k id t n Hp Hr. apply (Hkeep k id); [done| |by eapply (by_success w Hw)].
    rewrite file_bytes_length; [done|]. by apply (part_within k id t).
  - intros q Hqa. rewrite store_out; [by apply (by_frame w Hw)|]. destruct (Hq q Hqa); lia.
Qed.

Lemma io_ok w o : bytes_ok w -> op_honest err body w (Io o) -> bytes_ok (byte_step err c strerror policy w (Io o)).
Proof using All.
  intros Hw Hh.
  assert (Hsuc : forall k id t n, part_of k id t ->
    (id, inr n) ∈ Reactor.reports (w_pool (world_step strerror policy (b_io w) o)) ->
    prefix_at (tk_devPtr_offset (sr_task t)) (file_bytes remote (tk_file_offset (sr_task t)) (tk_size (sr_task t))) (b_memory w)).
  { intros k id t n Hp [Hr|Hr]%world_step_success; [by eapply (by_success w Hw)|].
    destruct Hr as (r & now & i & cm & out & u & -> & Hu & <- & [Hc Ho]%settle_success). destruct (Hmine k (t_id u) t) as [_ Hbody]; [apply Hp|apply Hp|].
    destruct (Hh u _ Hu Hbody) as [_ Hb]. rewrite <-(Hb Hc Ho).
    by apply (by_memory w Hw k). }
  unfold byte_step. destruct (put_back strerror policy o (b_io w)) as [id|];
    constructor; simpl; try apply (by_context w Hw); try apply (by_memory w Hw); try exact Hsuc; try apply (by_frame w Hw).
  - intros id'. unfold set_at. destruct (id' =? id) eqn:E; bool_to_prop; [subst id'|apply (by_context w Hw)].
    destruct (by_context w Hw id) as [_ Hctx], (Hdest id) as [Hs _]. simpl. split; [lia|]. left. by destruct Hctx as [->| ->].
  - intros k id' t Hp. unfold set_at. destruct (id' =? id); [|by apply (by_memory w Hw k)]. by intros i x ?.
Qed.

(** Writes from elsewhere respect the buffer of the read. *)
Definition op_apart (o : byte_op) : Prop :=
  match o with
  | Elsewhere a data =>
      (a + Z.of_nat (length data) <= buf \/ buf + size <= a) /\
      (forall q, quiet q -> q < a \/ a + Z.of_nat (length data) <= q)
  | _ => True
  end.

Definition op_submits (o : byte_op) : list Z := match io_of o with Some o => submitted_by o | None => [] end.

Lemma asked_le_app id l1 l2 : (asked id l1 <= asked id (l1 ++ l2))%nat.
Proof. rewrite asked_app. lia. Qed.

Lemma pool_steps_conserved p p' : rtc (pool_step strerror policy) p p' -> conserved p -> conserved p'.
Proof. induction 1 as [|p p1 p' Hs _ IH]; [done|]. intros Hc. by eapply IH, pool_step_conserved. Qed.

Lemma run_bytes_ok ops w :
  bytes_ok w -> conserved (w_pool (b_io w)) ->
  (forall id, id ∈ ids -> (asked id (submitted (w_pool (b_io w)) ++ concat (op_submits <$> ops)) <= 1)%nat) ->
  fresh_submissions (omap io_of ops) -> Forall op_apart ops ->
  honest err c strerror policy body ops w -> bytes_ok (run_bytes err c strerror policy ops w).
Proof using All.
  revert w. induction ops as [|o ops IH]; intros w Hw Hc Honce Hfresh Hap Hh; [done|].
  destruct Hh as [Ho Hh]. apply Forall_cons in Hap as [Hapo Hap]. cbn [run_bytes foldl]. apply IH; [| | | |done|exact Hh].
  - destruct o as [o|r i data|a data].
    + by apply io_ok.
    + apply deliver_ok; [done|done|]. intros t rep Ht Hin. apply (on_wire_unreported r i); [done| |done].
      etrans; [apply asked_le_app|by apply Honce].
    + destruct Hapo. by apply elsewhere_ok.
  - destruct o as [o|r i data|a data]; [rewrite byte_step_io|simpl; by rewrite deliver_io|done].
    apply (pool_steps_conserved (w_pool (b_io w))); [|done].
    apply world_step_pool. unfold fresh_submissions in Hfresh. simpl in Hfresh. by apply Forall_cons in Hfresh as [? _].
  - intros id Hid. specialize (Honce id Hid). cbn [fmap list_fmap concat] in Honce. rewrite app_assoc in Honce.
    destruct o as [o|r i data|a data].
    + by rewrite byte_step_io, world_step_submitted.
    + unfold op_submits in Honce. simpl in Honce. rewrite app_nil_r in Honce. simpl. by rewrite deliver_io.
    + unfold op_submits in Honce. simpl in Honce. by rewrite app_nil_r in Honce.
  - destruct o; simpl in *; [by apply Forall_cons in Hfresh as [_ ?]|done|done].
Qed.
End invariant.
End bytes.

(** ** The read *)

Definition read_of (ids : list Z) (l : list subrange) (id : Z) : option subrange :=
  snd <$> List.find (fun x => x.1 =? id) (zip ids l).

(** The contexts as [pread] and the other callers make them. *)
Definition contexts (others : Z -> CallbackContext) (ids : list Z) (l : list subrange) (id : Z) : CallbackContext :=
  default (others id) (context_of <$> read_of ids l id).

(** What the server has for each transfer of the read. *)
Definition body_of (remote : Z -> Z) (ids : list Z) (l : list subrange) (id : Z) : option (list Z) :=
  (fun t => file_bytes remote (tk_file_offset (sr_task t)) (tk_size (sr_task t))) <$> read_of ids l id.

Lemma read_of_part ids l k id t : NoDup ids -> ids !! k = Some id -> l !! k = Some t -> read_of ids l id = Some t.
Proof.
  unfold read_of. intros Hn. revert l k. induction Hn as [|j ids Hj Hn IH]; intros [|u l] [|k]; try done; simpl.
  - intros [= ->] [= ->]. by rewrite Z.eqb_refl.
  - intros Hk Ht. replace (j =? id) with false; [by eapply IH|]. symmetry. apply Z.eqb_neq. intros ->.
    apply Hj. by eapply list_elem_of_lookup_2.
Qed.

Lemma read_of_other ids l id : id ∉ ids -> read_of ids l id = None.
Proof.
  unfold read_of. revert l. induction ids as [|j ids IH]; intros [|u l]; try done. simpl.
  intros [Hj Hn]%not_elem_of_cons. replace (j =? id) with false by (symmetry; apply Z.eqb_neq; congruence). by apply IH.
Qed.

Definition outside (ctx : CallbackContext) (q : Z) : Prop :=
  q < RemoteCallback.buf ctx \/ RemoteCallback.buf ctx + RemoteCallback.size ctx <= q.

(** Writes from elsewhere: not into [[a, a + n)]. *)
Definition not_into (a n : Z) (o : byte_op) : Prop :=
  match o with
  | Elsewhere b data => b + Z.of_nat (length data) <= a \/ a + n <= b
  | _ => True
  end.

Lemma submits_io ops : concat (op_submits <$> ops) = concat (submitted_by <$> omap io_of ops).
Proof. induction ops as [|[o|r i data|a data] ops IH]; csimpl; [done|by rewrite IH|done|done]. Qed.

(** Parts that hold their ranges of the file make up the whole. *)
Lemma parts_make_whole (ids : list Z) (l : list subrange) buf size file_offset remote (m : memory) :
  length ids = length l -> tiles file_offset buf size (sr_task <$> l) ->
  (forall k id t, ids !! k = Some id -> l !! k = Some t ->
     prefix_at (tk_devPtr_offset (sr_task t)) (file_bytes remote (tk_file_offset (sr_task t)) (tk_size (sr_task t))) m) ->
  forall i, 0 <= i < size -> m (buf + i) = remote (file_offset + i).
Proof.
  intros Hlen Htiles Hparts i Hi. pose proof (proj2 (tiles_cover _ _ _ _ (buf + i) Htiles) ltac:(lia)) as Hc.
  apply Exists_exists in Hc as (u & Hu & Hcov). pose proof (tiles_in_step _ _ _ _ u Htiles Hu) as Hstep.
  apply list_elem_of_fmap in Hu as (t & -> & [k Ht]%list_elem_of_lookup).
  destruct (lookup_lt_is_Some_2 ids k) as [id Hk]; [rewrite Hlen; by eapply lookup_lt_Some|]. unfold covers in Hcov.
  specialize (Hparts k id t Hk Ht (Z.to_nat (buf + i - tk_devPtr_offset (sr_task t)))
                (remote (tk_file_offset (sr_task t) + (buf + i - tk_devPtr_offset (sr_task t))))).
  rewrite file_bytes_lookup, Z2Nat.id in Hparts by lia. specialize (Hparts eq_refl).
  replace (tk_devPtr_offset (sr_task t) + (buf + i - tk_devPtr_offset (sr_task t))) with (buf + i) in Hparts by lia.
  rewrite Hparts. f_equal. lia.
Qed.

Section read.
Context (err : Z) (c : copy_config) (strerror : CURLcode -> string) (policy : HttpRetryPolicy) (max_total reactors_ : Z) (p0 : pool).
Context (ctx : Z) (ids : list Z) (l : list subrange) (before after : list world_op) (ops : list byte_op).
Context (buf size file_offset : Z) (remote : Z -> Z) (m0 : memory) (others : Z -> CallbackContext).
Hypothesis Hdiscard : discard_data_enabled c = false.
Hypothesis Hmax : is_size max_total.
Hypothesis Hp0 : new_reactor_pool max_total reactors_ = Ok p0.
Hypothesis Hids : NoDup ids.
Hypothesis Hlen : length ids = length l.
Hypothesis Hothers : of_others ids (before ++ after).
Hypothesis Hfresh : fresh_submissions (before ++ after).
Hypothesis Hops : omap io_of ops = history ctx ids l before after.
Hypothesis Hsize : 0 <= size < SIZE_MOD - err.
Hypothesis Htiles : tiles file_offset buf size (sr_task <$> l).
Hypothesis Hcontexts : forall id, 0 <= RemoteCallback.size (others id) < SIZE_MOD - err /\ at_offset 0 (others id) = others id.
Hypothesis Hapart : forall id, id ∉ ids ->
  RemoteCallback.buf (others id) + RemoteCallback.size (others id) <= buf \/ buf + size <= RemoteCallback.buf (others id).
Hypothesis Helse : Forall (not_into buf size) ops.

Definition start : byte_world := mkByteWorld (new_world p0) m0 (contexts others ids l) (fun _ => []).
Definition world_after : byte_world := run_bytes err c strerror policy ops start.

(** Nobody writes [q]. *)
Definition unwritten (q : Z) : Prop :=
  (q < buf \/ buf + size <= q) /\ (forall id, id ∉ ids -> outside (others id) q) /\ Forall (not_into q 1) ops.

Hypothesis Hhonest : honest err c strerror policy (body_of remote ids l) ops start.

Lemma mine_context k id t :
  ids !! k = Some id -> l !! k = Some t ->
  contexts others ids l id = context_of t /\
  body_of remote ids l id = Some (file_bytes remote (tk_file_offset (sr_task t)) (tk_size (sr_task t))).
Proof using Hids. intros Hk Ht. unfold contexts, body_of. by rewrite (read_of_part ids l k id t). Qed.

Lemma mine_within k t : l !! k = Some t ->
  0 <= tk_size (sr_task t) /\ buf <= tk_devPtr_offset (sr_task t) /\ tk_devPtr_offset (sr_task t) + tk_size (sr_task t) <= buf + size.
Proof using Htiles. intros Ht. eapply (tiles_within _ _ _ _ (sr_task t) Htiles), list_elem_of_fmap_2, list_elem_of_lookup_2, Ht. Qed.

(** A handle is one of ours, with its sub-range, or another caller's. *)
Lemma whose id : (exists k t, ids !! k = Some id /\ l !! k = Some t) \/ id ∉ ids.
Proof using Hlen.
  destruct (decide (id ∈ ids)) as [Hin|]; [left|by right]. apply list_elem_of_lookup in Hin as [k Hk].
  destruct (lookup_lt_is_Some_2 l k) as [t Ht]; [rewrite <-Hlen; by eapply lookup_lt_Some|]. by exists k, t.
Qed.

Lemma unwritten_outside q id : unwritten q -> outside (contexts others ids l id) q.
Proof using All.
  intros (Hq & Ho & _). destruct (whose id) as [(k & t & Hk & Ht)|Hid].
  - destruct (mine_context k id t Hk Ht) as [-> _]. pose proof (mine_within k t Ht). unfold outside. simpl. lia.
  - unfold contexts. rewrite read_of_other by done. by apply Ho.
Qed.

Lemma ops_apart : Forall (op_apart buf size unwritten) ops.
Proof using All.
  apply Forall_forall. intros o Ho. pose proof (proj1 (Forall_forall _ _) Helse o Ho) as He.
  destruct o as [|r i data|a data]; try done. split; [exact He|]. intros q (_ & _ & Hq).
  pose proof (proj1 (Forall_forall _ _) Hq _ Ho) as Hn. simpl in Hn. lia.
Qed.

Lemma contexts_new id :
  0 <= RemoteCallback.size (contexts others ids l id) < SIZE_MOD - err /\
  at_offset 0 (contexts others ids l id) = contexts others ids l id.
Proof using All.
  destruct (whose id) as [(k & t & Hk & Ht)|Hid].
  - destruct (mine_context k id t Hk Ht) as [-> _]. pose proof (mine_within k t Ht). split; [simpl; lia|done].
  - unfold contexts. rewrite read_of_other by done. apply Hcontexts.
Qed.

Lemma pool_reports_none : Reactor.reports p0 = [] /\ submitted p0 = [].
Proof using All. by apply new_pool_inv in Hp0 as [_ ->]. Qed.

Lemma submitted_once id : id ∈ ids -> (asked id (submitted p0 ++ concat (op_submits <$> ops)) <= 1)%nat.
Proof using All.
  intros Hid. rewrite submits_io, Hops.
  pose proof (asked_once strerror policy max_total reactors_ p0 ctx ids l before after Hp0 Hids Hlen Hothers id Hid) as Ha.
  unfold pool_after in Ha. rewrite run_world_submitted in Ha. simpl in Ha. lia.
Qed.

Lemma world_after_ok : bytes_ok (contexts others ids l) m0 remote ids l unwritten world_after.
Proof using All.
  eapply (run_bytes_ok err c strerror policy Hdiscard (contexts others ids l) (body_of remote ids l) m0 buf size file_offset);
    [exact contexts_new|exact Hids|exact Hlen|exact Htiles|exact mine_context| |intros q id; apply unwritten_outside
    | | | | |exact ops_apart|exact Hhonest].
  - intros id Hid. unfold contexts. rewrite read_of_other by done. by apply Hapart.
  - destruct pool_reports_none as [Hr _]. constructor; simpl; [|by intros k id t _ i x ?| |done].
    + intros id. destruct (contexts_new id) as [? ?]. split; [lia|by left].
    + rewrite Hr. by intros k id t n _ ?%not_elem_of_nil.
  - by eapply new_pool_ok.
  - intros id. apply submitted_once.
  - rewrite Hops. apply history_split; [apply mine_fresh|exact Hfresh].
Qed.

Lemma pool_of_world_after : w_pool (b_io world_after) = pool_after strerror policy p0 ctx ids l before after.
Proof using Hops. unfold world_after, pool_after. by rewrite run_bytes_io, Hops. Qed.

(** Once every part has succeeded the buffer holds the range of the file. *)
Lemma succeeded_bytes :
  (forall id, id ∈ ids -> exists n, (id, inr n) ∈ Reactor.reports (w_pool (b_io world_after))) ->
  forall i, 0 <= i < size -> b_memory world_after (buf + i) = remote (file_offset + i).
Proof using All.
  intros Hall. apply (parts_make_whole ids l buf size file_offset remote); [done|done|]. intros k id t Hk Ht.
  destruct (Hall id) as [n Hn]; [by eapply list_elem_of_lookup_2|].
  exact (by_success _ _ _ _ _ _ _ world_after_ok k id t n (conj Hk Ht) Hn).
Qed.
End read.

(** C7. The bytes of a multi-poll read into host memory.  However the chunks of
    its transfers, their failed attempts and retries, other callers, other
    transfers and the threads of the pool interleave, once the caller's future
    holds a value, that value is the size of the read and the buffer holds
    exactly the range of the file, in whichever order the parts ended.  At all
    times, memory that nobody else writes and that is not in the buffer is as it
    was, however much the server sends. *)
Theorem multi_poll_read_delivers `{CurlUrl} (err : Z) (c : copy_config) (remote : Z -> Z)
    script thread now page call_counter (h : RemoteHandle)
    (buf size file_offset task_size thread_pool bbs : Z) (opts : list setting)
    (w w' : world) physical (l : list subrange)
    strerror policy (max_total n : Z) (p0 : pool) (ctx : Z) (ids : list Z) (before after : list world_op)
    (ops : list byte_op) (m0 : memory) (others : Z -> CallbackContext) (recorder : bool) (a : aggregate) :
  discard_data_enabled c = false ->
  is_size file_offset -> is_size (rh_nbytes h) -> is_size size -> size < SIZE_MOD - err ->
  size + task_size <= SIZE_MOD -> Endpoint.setopt (rh_endpoint h) = Ok opts ->
  pread script thread now page call_counter h buf size file_offset task_size thread_pool true
    MULTI_POLL bbs w = Ok (MultiPollTransfers physical l, w') ->
  is_size max_total -> new_reactor_pool max_total n = Ok p0 ->
  NoDup ids -> length ids = length l -> of_others ids (before ++ after) -> fresh_submissions (before ++ after) ->
  omap io_of ops = history ctx ids l before after ->
  (forall id, 0 <= RemoteCallback.size (others id) < SIZE_MOD - err /\ at_offset 0 (others id) = others id) ->
  (forall id, id ∉ ids -> RemoteCallback.buf (others id) + RemoteCallback.size (others id) <= buf \/
                          buf + size <= RemoteCallback.buf (others id)) ->
  Forall (not_into buf size) ops ->
  honest err c strerror policy (body_of remote ids l) ops (start p0 ids l m0 others) ->
  let v := world_after err c strerror policy p0 ids l ops m0 others in
  rtc (aggregate_step recorder (length l)) (fresh_aggregate (length l)) a ->
  (Aggregate.reports a).*1 ≡ₚ (reports_of ids (w_pool (b_io v))).*2 ->
  (forall m, promise a = Some (inr m) ->
     m = size /\ forall i, 0 <= i < size -> b_memory v (buf + i) = remote (file_offset + i)) /\
  (forall q, unwritten ids ops buf size others q -> b_memory v q = m0 q).
Proof.
  intros Hdisc Ho Hn Hs Hse Hsum Hopts Hp Hmax Hp0 Hids Hlen Hothers Hfresh Hops Hctx Hap Helse Hh v Ha Hperm.
  destruct (plan_adds_up _ _ _ _ _ _ _ _ _ _ _ _ _ _ _ _ _ _ Ho Hn Hs Hsum Hopts Hp) as (Hpos & Hlt & Hsize).
  destruct (pread_transfers_tile _ _ _ _ _ _ _ _ _ _ _ _ _ _ _ _ _ _ Ho Hn Hs Hsum Hopts Hp) as (_ & Htiles & _).
  unfold is_size in Hs. split; [intros m Hm|intros q Hq].
  - pose proof (pool_of_world_after err c strerror policy p0 ctx ids l before after ops m0 others Hops) as Hpool.
    unfold v in Hperm. rewrite Hpool in Hperm.
    destruct (read_succeeds strerror policy max_total n p0 ctx ids l before after Hmax Hp0 Hids Hlen Hothers Hfresh
                recorder a m Hpos Hlt ltac:(lia) ltac:(lia) Ha Hperm Hm) as [-> Hall].
    split; [done|].
    eapply (succeeded_bytes err c strerror policy max_total n p0 ctx ids l before after); try done; [lia|].
    intros id Hid. rewrite Hpool. by apply Hall.
  - eapply by_frame, Hq.
    eapply (world_after_ok err c strerror policy max_total n p0 ctx ids l before after); try done; lia.
Qed.

(** ** Two sub-ranges, one of them at the second attempt *)

Definition broken : completion := mkCompletion CURLE_RECV_ERROR 0 "" false None None.

Definition demo_byte_ops : list byte_op :=
  (Io <$> (demo_before ++ [Submit (transfers_of 0 [1; 2] demo_plan)] ++ take 0 ++ take 0 ++ take 1)) ++
  [Deliver 0 1 [21; 28; 35]; Io (Work 0 (TurnReap 6 1 broken calm)); Deliver 1 0 [77];
   Io (Work 0 (TurnRetry 0 (mkGates (inr true) None) (mkAdmitPass calm 600000000 [])));
   Deliver 0 1 [21; 28; 35; 42]; Elsewhere 300 [1; 2]; Deliver 1 0 [84]; Io (reaps 1 0);
   Deliver 0 1 [49; 56; 63; 70]; Io (reaps 0 1)].

Definition demo_byte_after : list world_op := drop 2 (omap io_of demo_byte_ops).

Definition no_context : CallbackContext := mkCtx 0 0 0 false 0.

Lemma demo_honest :
  honest 4294967295 demo_config demo_text demo_policy (body_of demo_file [1; 2] demo_plan) demo_byte_ops
    (start demo_pool [1; 2] demo_plan (fun _ => 0) (fun _ => no_context)).
Proof. apply honest_b_ok. vm_compute. reflexivity. Qed.

Lemma multi_poll_read_delivers_witness :
  promise demo_sum = Some (inr 10) /\
  forall i, 0 <= i < 10 ->
    b_memory (world_after 4294967295 demo_config demo_text demo_policy demo_pool [1; 2] demo_plan demo_byte_ops
                (fun _ => 0) (fun _ => no_context)) (100 + i) = demo_file (3 + i).
Proof.
  split; [reflexivity|].
  refine (proj2 (proj1 (multi_poll_read_delivers (H := demo_curl) 4294967295 demo_config demo_file
    (fun _ => []) 1 0 4096 5 demo_handle 100 10 3 8 0 16 [OPT_URL "http://h/f"] initial_world initial_world
    demo_context demo_plan demo_text demo_policy 4 2 demo_pool 0 [1; 2] demo_before demo_byte_after
    demo_byte_ops (fun _ => 0) (fun _ => no_context) true demo_sum
    _ _ _ _ _ _ _ demo_pread _ _ _ _ _ _ _ _ _ _ demo_honest demo_sum_run _) 10 _));
    try done; try (vm_compute; reflexivity).
  - repeat constructor; set_solver.
  - repeat constructor; set_solver.
  - repeat constructor.
  - intros id _. left. simpl. lia.
  - unfold demo_byte_ops. repeat constructor; simpl; lia.
Defined.
