(* ===== verification/Flights.v ===== *)
(** * Transfers on the wire

    Which transfers the reactors have in flight ([_in_flight] of
    [src/detail/multi_poll_reactor.cpp]), over the whole pool, and how a step of
    the pool changes that: [try_admit] puts one on the wire, settling takes one
    off, and [fail_all_pending] takes off those of a reactor. *)

From stdpp Require Import base list sets strings.
From Stdlib Require Import ZArith Lia.
From S2P Require Import Prelude HttpRetry Reactor Wakeup MultiPollRead MultiPollBytes.

#[local] Open Scope Z_scope.

Definition flights_of (p : pool) : list transfer := concat (in_flight <$> reactors p).
Definition flights (w : io_world) : list transfer := flights_of (w_pool w).

(** The transfer that a step of thread [r] puts on the wire. *)
Definition boards (r : nat) (op : turn_op) (p : pool) : option transfer :=
  x ← reactors p !! r;
  match op with
  | TurnHand g pass =>
      t ← hand x;
      match (try_admit g (max_requests x) (requests x) t pass).1.1 with Attached u => Some u | _ => None end
  | TurnRetry i g pass =>
      t ← (if in_loop x then pending x !! i else None);
      match (try_admit g (max_requests x) (requests x) t pass).1.1 with Attached u => Some u | _ => None end
  | _ => None
  end.

Definition boarding (o : world_op) (w : io_world) : option transfer :=
  match o with
  | Work r op => if decide (mode_at r w = Some InTurn) then boards r op (w_pool w) else None
  | _ => None
  end.

(** The transfer that a step settles, with its reactor, how the attempt ended
    and what becomes of it. *)
Definition settling (strerror : CURLcode -> string) (policy : HttpRetryPolicy) (o : world_op) (w : io_world)
    : option (nat * transfer * completion * settlement) :=
  match o with
  | Work r (TurnReap now i cm out) =>
      t ← on_wire r i w; Some (r, t, cm, (settle_transfer strerror policy now cm t out).1)
  | _ => None
  end.

(** Those that were on the wire and are not any more. *)
Definition landing (before after : list transfer) : list transfer :=
  filter (fun t => t_id t ∉ t_id <$> after) before.

Lemma filter_all {A} (P : A -> Prop) `{!forall x, Decision (P x)} (l : list A) : (forall x, x ∈ l -> P x) -> filter P l = l.
Proof.
  induction l as [|x l IH]; intros Hl; [done|]. rewrite filter_cons_True by (apply Hl; by left).
  f_equal. apply IH. intros y Hy. apply Hl. by right.
Qed.

Lemma filter_none {A} (P : A -> Prop) `{!forall x, Decision (P x)} (l : list A) : (forall x, x ∈ l -> ~ P x) -> filter P l = [].
Proof.
  induction l as [|x l IH]; intros Hl; [done|]. rewrite filter_cons_False by (apply Hl; by left).
  apply IH. intros y Hy. apply Hl. by right.
Qed.

Lemma landing_perm l l' : NoDup (t_id <$> l) -> l' ⊆+ l -> l ≡ₚ landing l l' ++ l'.
Proof.
  intros Hn [k Hk]%submseteq_Permutation. rewrite Hk, fmap_app in Hn. apply NoDup_app in Hn as (_ & Hd & _).
  unfold landing. rewrite Hk at 1. rewrite (Permutation_app_comm l' k). f_equiv.
  assert (Hf : filter (fun t => t_id t ∉ t_id <$> l') l ≡ₚ filter (fun t => t_id t ∉ t_id <$> l') (l' ++ k))
    by by rewrite Hk.
  rewrite Hf, filter_app, filter_none, filter_all; [done| |].
  - intros t Ht Hin. apply (Hd (t_id t)); [done|]. by apply list_elem_of_fmap_2.
  - intros t Ht Hno. by apply Hno, list_elem_of_fmap_2.
Qed.

(** ** The list of a pool *)

Lemma flights_set r x p :
  reactors p !! r = Some x ->
  exists rest, flights_of p ≡ₚ in_flight x ++ rest /\
    forall y, flights_of (set_reactor r y p) ≡ₚ in_flight y ++ rest.
Proof.
  intros Hx. exists (concat (in_flight <$> firstn r (reactors p)) ++ concat (in_flight <$> drop (S r) (reactors p))).
  unfold flights_of. split.
  - rewrite <-(take_drop_middle _ _ _ Hx) at 1. rewrite fmap_app, concat_app. simpl. apply Permutation_app_swap_app.
  - intros y. simpl. rewrite insert_take_drop by (by eapply lookup_lt_Some). rewrite fmap_app, concat_app. simpl.
    apply Permutation_app_swap_app.
Qed.

Lemma flights_set_same r x y p :
  reactors p !! r = Some x -> in_flight y = in_flight x -> flights_of (set_reactor r y p) ≡ₚ flights_of p.
Proof. intros Hx Hy. destruct (flights_set r x p Hx) as (rest & -> & Hs). by rewrite Hs, Hy. Qed.

Lemma flights_queue q p : flights_of (set_queue q p) = flights_of p.
Proof. done. Qed.

Lemma flights_reports rs p : flights_of (add_reports rs p) = flights_of p.
Proof. done. Qed.

Lemma occ_flights id rs : occ id (concat (in_flight <$> rs)) = sum_list ((fun x => occ id (in_flight x)) <$> rs).
Proof. induction rs as [|x rs IH]; [done|]. csimpl. simpl. by rewrite occ_app, IH. Qed.

Definition grounded (id : Z) (x : reactor) : nat := (occ id (pending x) + occ id (hand_list x))%nat.

Lemma whereabouts_split id p :
  whereabouts id p = (occ id (queue p) + sum_list (grounded id <$> reactors p) + occ id (flights_of p) +
                      reported id (Reactor.reports p))%nat.
Proof.
  unfold whereabouts, flights_of. rewrite occ_flights.
  assert (Hs : forall rs, sum_list (occ_reactor id <$> rs) =
    (sum_list (grounded id <$> rs) + sum_list ((fun x => occ id (in_flight x)) <$> rs))%nat); [|rewrite Hs; lia].
  induction rs as [|x rs IH]; [done|]. csimpl. simpl. rewrite IH. unfold occ_reactor, grounded. lia.
Qed.

Lemma occ_pos id l : (0 < occ id l)%nat <-> id ∈ t_id <$> l.
Proof.
  induction l as [|t l IH]; [split; [unfold occ; simpl; lia|by intros ?%not_elem_of_nil]|].
  rewrite occ_cons. cbn [fmap list_fmap]. rewrite elem_of_cons, <-IH. unfold occ at 1. rewrite filter_cons.
  destruct (decide (t_id t = id)) as [->|Hne]; simpl; [split; [by left|lia]|].
  split; [by right|]. intros [?|?]; [congruence|lia].
Qed.

Lemma occ_nodup l : (forall id, (occ id l <= 1)%nat) -> NoDup (t_id <$> l).
Proof.
  induction l as [|t l IH]; intros Hl; [constructor|]. csimpl. constructor.
  - intros Hin%occ_pos. specialize (Hl (t_id t)). rewrite occ_cons in Hl. unfold occ at 1 in Hl.
    rewrite filter_cons, decide_True in Hl by done. simpl in Hl. lia.
  - apply IH. intros id. specialize (Hl id). rewrite occ_cons in Hl. lia.
Qed.

(** Handles that are submitted once. *)
Definition once (p : pool) : Prop := conserved p /\ forall id, (asked id (submitted p) <= 1)%nat.

Lemma once_flights p : once p -> NoDup (t_id <$> flights_of p).
Proof.
  intros [Hc Ha]. apply occ_nodup. intros id. specialize (Hc id). specialize (Ha id). rewrite whereabouts_split in Hc. lia.
Qed.

Lemma flying_unreported p t rep : once p -> t ∈ flights_of p -> (t_id t, rep) ∉ Reactor.reports p.
Proof.
  intros [Hc Ha] Ht Hr. specialize (Hc (t_id t)). specialize (Ha (t_id t)). rewrite whereabouts_split in Hc.
  pose proof (proj2 (occ_pos _ _) (list_elem_of_fmap_2 t_id _ _ Ht)).
  pose proof (proj2 (reported_elem _ _) (list_elem_of_fmap_2 fst _ _ Hr)). simpl in *. lia.
Qed.

Lemma reported_same p id r r' : once p -> (id, r) ∈ Reactor.reports p -> (id, r') ∈ Reactor.reports p -> r = r'.
Proof.
  intros [Hc Ha]. assert (Hr : (reported id (Reactor.reports p) <= 1)%nat).
  { specialize (Hc id). specialize (Ha id). rewrite whereabouts_split in Hc. lia. }
  clear Hc Ha. induction (Reactor.reports p) as [|y l IH]; [by intros ?%not_elem_of_nil|].
  rewrite reported_cons in Hr. rewrite !elem_of_cons. destruct (decide (y.1 = id)) as [Hy|Hy].
  - assert (Hno : forall x, (id, x) ∉ l).
    { intros x Hin%(list_elem_of_fmap_2 fst). apply reported_elem in Hin. simpl in Hin. lia. }
    intros [Hx|Hin] [Hx'|Hin']; [congruence|by destruct (Hno r')|by destruct (Hno r)|by destruct (Hno r)].
  - intros [Hx|Hin] [Hx'|Hin']; [by rewrite <-Hx in Hy..|by rewrite <-Hx' in Hy|]. apply IH; [lia|done|done].
Qed.

(** What holds of all transfers of a pool holds of those on the wire. *)
Lemma flights_sized P p t : sized_pool P p -> t ∈ flights_of p -> P t.
Proof.
  intros [_ Hr _] Ht. unfold flights_of in Ht. revert Hr Ht. induction (reactors p) as [|x rs IH]; intros Hr Ht;
    [by apply not_elem_of_nil in Ht|]. apply Forall_cons in Hr as [Hx Hr]. csimpl in Ht. simpl in Ht.
  apply elem_of_app in Ht as [Ht|Ht]; [|by apply IH]. by apply (proj1 (Forall_forall _ _) (sr_in_flight _ _ Hx)).
Qed.

(** ** Steps *)

(** What a step does to the flights: it puts one on the wire, or it may take
    some off; the one it settles, in particular, and those it takes off are
    retried or reported. *)
Section steps.
Context (strerror : CURLcode -> string) (policy : HttpRetryPolicy).

Definition lands (p p' : pool) : Prop :=
  flights_of p' ⊆+ flights_of p /\
  forall t, t ∈ flights_of p -> t ∈ flights_of p' \/ exists rep, (t_id t, rep) ∈ Reactor.reports p'.

Lemma lands_same p p' : flights_of p' ≡ₚ flights_of p -> lands p p'.
Proof. intros Hp. split; [by rewrite Hp|]. intros t Ht. left. by rewrite Hp. Qed.

(** A step of a turn that settles nothing. *)
Lemma turn_flights r op p :
  (forall now i cm out, op <> TurnReap now i cm out) ->
  match boards r op p with
  | Some u => flights_of (turn_step strerror policy r op p) ≡ₚ u :: flights_of p
  | None => flights_of (turn_step strerror policy r op p) ≡ₚ flights_of p
  end.
Proof.
  intros Hno. unfold boards. destruct (reactors p !! r) as [x|] eqn:Hx; simpl.
  2:{ destruct op as [| | | |now i cm out]; simpl; [..|by destruct (Hno now i cm out)];
        unfold try_pop_queued, admit_hand, return_to_queue, admit_retry; by rewrite Hx. }
  destruct op as [|g pass| |i g pass|now i cm out]; simpl; [| | | |by destruct (Hno now i cm out)].
  - unfold try_pop_queued. rewrite Hx. destruct (failing x); [done|]. destruct (hand x); [done|].
    destruct (acquire _ _); [|done]. destruct (queue p); [done|]. by apply (flights_set_same r x _ (set_queue _ p)).
  - unfold admit_hand. rewrite Hx. destruct (hand x) as [t|]; simpl; [|done].
    destruct (try_admit _ _ _ _ _) as [[[u|u|e u] n] ps]; simpl; try by apply (flights_set_same r x).
    destruct (flights_set r x p Hx) as (rest & -> & Hs). rewrite Hs. simpl. rewrite <-app_assoc. simpl. by rewrite Permutation_middle.
  - unfold return_to_queue. rewrite Hx. destruct (hand x) as [t|]; [|done]. destruct (slot t); [done|]. simpl.
    destruct (death_reason p); by apply (flights_set_same r x).
  - unfold admit_retry. rewrite Hx. destruct (if in_loop x then pending x !! i else None) as [t|]; simpl; [|done].
    destruct (try_admit _ _ _ _ _) as [[[u|u|e u] n] ps]; simpl; try by apply (flights_set_same r x).
    destruct (flights_set r x p Hx) as (rest & -> & Hs). rewrite Hs. simpl. rewrite <-app_assoc. simpl. by rewrite Permutation_middle.
Qed.

Lemma reap_flights now r i cm out p t x :
  reactors p !! r = Some x -> (if in_loop x then in_flight x !! i else None) = Some t ->
  t :: flights_of (reap strerror policy now r i cm out p).1 ≡ₚ flights_of p.
Proof.
  intros Hx Ht. unfold reap. rewrite Hx, Ht. destruct (in_loop x); [|done].
  destruct (flights_set r x p Hx) as (rest & -> & Hs). pose proof (delete_Permutation _ _ _ Ht) as Hd.
  destruct (settle_transfer _ _ _ _ _ _) as [[rep|u] o']; simpl; rewrite ?flights_reports, Hs; simpl;
    by rewrite Hd at 2.
Qed.

Lemma leave_loop_flights r p : flights_of (leave_loop r p) ≡ₚ flights_of p.
Proof.
  unfold leave_loop. destruct (reactors p !! r) as [x|] eqn:Hx; [|done]. destruct (hand x); [done|].
  by apply (flights_set_same r x).
Qed.

Lemma signal_death_flights e p : flights_of (signal_death e p) = flights_of p.
Proof. unfold signal_death. by destruct (death_reason p). Qed.

Lemma fail_all_lands r p : lands p (fail_all_pending r p).
Proof.
  unfold fail_all_pending. destruct (reactors p !! r) as [x|] eqn:Hx; [|by apply lands_same].
  destruct (death_reason p) as [e|]; [|by apply lands_same]. destruct (hand x); [by apply lands_same|].
  destruct (failing x); [|by apply lands_same].
  destruct (flights_set r x p Hx) as (rest & Hp & Hs). split.
  - rewrite flights_reports, Hp, Hs. simpl. by apply submseteq_inserts_l.
  - intros t Ht. rewrite Hp in Ht. apply elem_of_app in Ht as [Ht|Ht]; [right|left].
    + exists (inl e). simpl. apply elem_of_app. right. apply list_elem_of_fmap. exists t.
      split; [done|]. apply elem_of_app. by right.
    + rewrite flights_reports, Hs. done.
Qed.

Lemma world_flights w o :
  match boarding o w, settling strerror policy o w with
  | Some u, _ => flights (world_step strerror policy w o) ≡ₚ u :: flights w
  | None, Some (r, t, cm, s) =>
      t :: flights (world_step strerror policy w o) ≡ₚ flights w /\
      forall rep, s = Report rep -> (t_id t, rep) ∈ Reactor.reports (w_pool (world_step strerror policy w o))
  | None, None => lands (w_pool w) (w_pool (world_step strerror policy w o))
  end.
Proof.
  unfold flights. destruct o as [ts|k|r op|r now o m|r|r|r e| |r]; simpl; try by apply lands_same.
  - apply lands_same. unfold submit, submit_pread. destruct (is_dead _); simpl; by destruct (death_reason _).
  - apply lands_same. unfold wake_next. by repeat case_match.
  - destruct (decide (mode_at r w = Some InTurn)) as [Hm|Hm].
    + destruct op as [|g pass| |i g pass|now i cm out].
      5:{ replace (boards r (TurnReap now i cm out) (w_pool w)) with (@None transfer)
            by (unfold boards; by destruct (reactors (w_pool w) !! r)).
          unfold on_wire. rewrite decide_True by done.
          destruct (reactors (w_pool w) !! r) as [x|] eqn:Hx; simpl.
          2:{ apply lands_same. unfold reap. by rewrite Hx. }
          destruct (if in_loop x then in_flight x !! i else None) as [t|] eqn:Ht; simpl.
          - split; [by apply (reap_flights now r i cm out (w_pool w) t x)|]. intros rep Hrep.
            unfold reap. rewrite Hx, Ht. destruct (settle_transfer _ _ _ _ _ _) as [s o'']. simpl in Hrep. subst s.
            simpl. apply elem_of_app. right. by left.
          - apply lands_same. unfold reap. by rewrite Hx, Ht. }
      all: match goal with |- context [boards ?q ?op ?p] => pose proof (turn_flights q op p ltac:(done)) as Ht end;
        destruct (boards _ _ _); [exact Ht|by apply lands_same].
    + destruct op; try by apply lands_same. simpl. unfold on_wire. rewrite decide_False by done. by apply lands_same.
  - apply lands_same. unfold fall_asleep. by destruct (decide _).
  - apply lands_same. unfold poll_returns. repeat case_match; simpl; auto using leave_loop_flights.
  - apply lands_same. unfold die. destruct (decide _); [|done]. case_match; simpl; rewrite ?signal_death_flights; apply leave_loop_flights.
  - apply lands_same. unfold drain_queue. by destruct (death_reason _).
  - destruct (decide _); [|by apply lands_same]. apply fail_all_lands.
Qed.

(** What goes on the wire was not there, and has not reported. *)
Lemma boarding_new w o u :
  once (w_pool w) -> boarding o w = Some u ->
  t_id u ∉ t_id <$> flights w /\ forall rep, (t_id u, rep) ∉ Reactor.reports (w_pool w).
Proof.
  intros [Hc Ha] Hb. destruct o as [| |r op| | | | | |]; try done. simpl in Hb. destruct (decide _); [|done].
  unfold boards in Hb. destruct (reactors (w_pool w) !! r) as [x|] eqn:Hx; [|done].
  assert (Hg : (1 <= grounded (t_id u) x)%nat).
  { assert (Ho : forall t g pass, match (try_admit g (max_requests x) (requests x) t pass).1.1 with Attached u => Some u | _ => None end = Some u ->
               t_id u = t_id t).
    { intros t g pass. pose proof (try_admit_id g (max_requests x) (requests x) t pass) as Hid.
      by destruct (try_admit _ _ _ _ _) as [[[v|v|e1 v] n] ps]; simpl in *; intros [= <-]. }
    unfold grounded, hand_list. destruct op as [|g pass| |i g pass|now i cm out]; try done; simpl in Hb.
    - destruct (hand x) as [t|]; [|done]. apply Ho in Hb as ->. simpl.
      rewrite (proj2 (Nat.le_succ_l 0 (occ (t_id t) [t]))); [lia|]. apply occ_pos. by left.
    - destruct (in_loop x); [|done]. destruct (pending x !! i) as [t|] eqn:Ht; [|done]. apply Ho in Hb as ->.
      pose proof (proj2 (occ_pos (t_id t) (pending x)) (list_elem_of_fmap_2 t_id _ _ (list_elem_of_lookup_2 _ _ _ Ht))). lia. }
  pose proof (sum_list_part (grounded (t_id u)) _ _ _ Hx) as Hs. specialize (Hc (t_id u)). specialize (Ha (t_id u)).
  rewrite whereabouts_split in Hc. split.
  - intros Hin%occ_pos. unfold flights in Hin. lia.
  - intros rep Hin%(list_elem_of_fmap_2 fst)%reported_elem. simpl in Hin. lia.
Qed.

(** Reports stay. *)
Lemma reports_stay w o y :
  y ∈ Reactor.reports (w_pool w) -> y ∈ Reactor.reports (w_pool (world_step strerror policy w o)).
Proof.
  intros Hy. destruct o as [ts|k|r op|r now o m|r|r|r e| |r]; simpl; try done.
  - unfold submit, submit_pread. destruct (is_dead _); simpl; destruct (death_reason _); simpl; rewrite ?elem_of_app; auto.
  - unfold wake_next. by repeat case_match.
  - destruct (decide _); [|done]. simpl. destruct op; simpl;
      unfold try_pop_queued, admit_hand, return_to_queue, admit_retry, reap;
      repeat (case_match; simplify_eq/=; try done); rewrite ?elem_of_app; auto.
  - unfold fall_asleep. by destruct (decide _).
  - unfold poll_returns. repeat case_match; simpl; by rewrite ?leave_loop_reports.
  - unfold die. destruct (decide _); [|done]. case_match; simpl; by rewrite ?signal_death_reports, leave_loop_reports.
  - unfold drain_queue. destruct (death_reason _); [|done]. simpl. rewrite elem_of_app. auto.
  - destruct (decide _); [|done]. simpl. unfold fail_all_pending. repeat (case_match; try done). simpl. rewrite elem_of_app. auto.
Qed.

(** A new success is that of the transfer that is settled. *)
Lemma success_settled w o id n :
  (id, inr n) ∈ Reactor.reports (w_pool (world_step strerror policy w o)) ->
  (id, inr n) ∈ Reactor.reports (w_pool w) \/
  exists r t cm, settling strerror policy o w = Some (r, t, cm, Report (inr n)) /\ t_id t = id.
Proof.
  intros [?|H]%world_step_success; [by left|right]. destruct H as (r & now & i & cm & out & t & -> & Ht & Hid & Hs).
  exists r, t, cm. simpl. rewrite Ht. simpl. by rewrite Hs.
Qed.

Lemma wire_flies w r i t : on_wire r i w = Some t -> t ∈ flights w.
Proof.
  unfold on_wire. destruct (decide _); [|done]. destruct (reactors (w_pool w) !! r) as [x|] eqn:Hx; [|done]. simpl.
  destruct (in_loop x); [|done]. intros Ht. destruct (flights_set r x _ Hx) as (rest & Hf & _). unfold flights.
  rewrite Hf. apply elem_of_app. left. by eapply list_elem_of_lookup_2.
Qed.

Lemma settled_flies w o r t cm s : settling strerror policy o w = Some (r, t, cm, s) -> t ∈ flights w.
Proof.
  destruct o as [| |q op| | | | | |]; try done. simpl. destruct op as [| | | |now i c out]; try done.
  destruct (on_wire q i w) eqn:Hw; [|done]. intros [= <- <- _ _]. by eapply wire_flies.
Qed.

(** One that succeeded was without an error. *)
Lemma settled_success w o r t cm n :
  settling strerror policy o w = Some (r, t, cm, Report (inr n)) -> c_result cm = CURLE_OK /\ c_overflow cm = false.
Proof.
  destruct o as [| |q op| | | | | |]; try done. simpl. destruct op as [| | | |now i c out]; try done.
  destruct (on_wire q i w); [|done]. simpl. intros [= <- <- <- Hs]. by apply settle_success in Hs.
Qed.

Lemma boarding_settles_none w o u : boarding o w = Some u -> settling strerror policy o w = None.
Proof.
  destruct o as [| |r op| | | | | |]; try done. simpl. destruct (decide _); [|done].
  unfold boards. destruct (reactors (w_pool w) !! r); [|done]. by destruct op.
Qed.
End steps.
