(* ===== verification/MultiPollDevice.v ===== *)
(** * The bytes of a multi-poll read into device memory

    The device half of [MultiPollBytes].  libcurl calls [callback_pinned_buffer]
    ([src/detail/remote_callback.cpp]) into the bounce buffer a transfer was
    given when it went on the wire; a transfer that succeeded queues a copy to
    the device on the stream of its thread, records the event of the read there
    and leaves its buffer to the stream ([stage_device_copy] of
    [src/detail/multi_poll_reactor.cpp]); the future of the read waits for the
    events ([IoEventBarrier]).  Buffers are reused: that a buffer is not written
    while a copy from it is queued is part of what is shown. *)

From stdpp Require Import base list sets strings relations.
From Stdlib Require Import ZArith Lia.
From S2P Require Import Prelude ParallelIo HttpRetry Aggregate Reactor Wakeup RemoteCallback Defaults Observation Url Endpoint RemoteHandle MultiPollRead MultiPollBytes Flights.

#[local] Open Scope Z_scope.

Abbreviation host := RemoteCallback.host (only parsing).
Abbreviation device := RemoteCallback.device (only parsing).
Abbreviation width := RemoteCallback.size (only parsing).

(** ** Steps *)

(** A copy to the device that is queued, and whether the stream gives its buffer
    back after it (the callback of [recycle_after]). *)
Record copy := mkCopy {
  cp_stream : nat * Z;         (* of a thread and a context *)
  cp_id : Z;                   (* the transfer *)
  cp_src : Z;
  cp_dst : Z;
  cp_size : Z;
  cp_owns : bool }.

(** [v_free] are the buffers of the caches and the pool that are free,
    [v_queued] the work of all streams in the order it was queued, [v_done] how
    much of it each stream has done, [v_event] where on its stream each thread
    recorded the event of the read last. *)
Record device_world := mkDeviceWorld {
  v_io : io_world;
  v_mem : memories;
  v_context : Z -> CallbackContext;
  v_delivered : Z -> list Z;
  v_free : list Z;
  v_queued : list copy;
  v_done : nat * Z -> Z;
  v_event : nat -> Z }.

(** [DIo o b queued]: the pool takes step [o]; a device transfer that goes on
    the wire by it gets buffer [b], and when staging one throws, [queued] is
    whether that was after its copy had been queued.  [Chunk r i data]: libcurl
    hands a chunk to the transfer at place [i] of reactor [r]. *)
Inductive device_op :=
  | DIo (o : world_op) (b : Z) (queued : bool)
  | Chunk (r i : nat) (data : list Z)
  | StreamRuns (k : nat * Z)
  | HostWrites (a : Z) (data : list Z)
  | DeviceWrites (a : Z) (data : list Z).

Fixpoint remove_one (x : Z) (l : list Z) : list Z :=
  match l with [] => [] | y :: l => if y =? x then l else y :: remove_one x l end.

(** The next piece of work of a stream, and the rest of all work. *)
Fixpoint next_of (k : nat * Z) (l : list copy) : option (copy * list copy) :=
  match l with
  | [] => None
  | c :: l => if decide (cp_stream c = k) then Some (c, l) else '(d, l) ← next_of k l; Some (d, c :: l)
  end.

Definition on_stream (k : nat * Z) (l : list copy) : list copy := filter (fun c => cp_stream c = k) l.

(** The buffers of device transfers. *)
Definition buffers (ctx : Z -> CallbackContext) (ts : list transfer) : list Z :=
  (fun t => pinned_buffer (ctx (t_id t))) <$> filter (fun t => is_device t = true) ts.

Definition sources (l : list copy) : list Z := cp_src <$> filter (fun c => cp_owns c = true) l.

Definition set_pinned (b : Z) (ctx : CallbackContext) : CallbackContext :=
  mkCtx (buf ctx) (width ctx) (offset ctx) (RemoteCallback.overflow_error ctx) b.

Section steps.
Context (err : Z) (c : copy_config) (strerror : CURLcode -> string) (policy : HttpRetryPolicy).
(** The destination of each transfer, and the handles of the read. *)
Context (device_dst : Z -> Z) (ids : list Z).

(** [stage_device_copy]: the copy, the event, the callback.  When it throws
    after the copy the transfer keeps its buffer. *)
Definition stage_copy (owns : bool) (r : nat) (t : transfer) (w : device_world) : device_world :=
  let k := (r, device_ctx t) in
  let x := v_context w (t_id t) in
  let l := v_queued w ++ [mkCopy k (t_id t) (pinned_buffer x) (device_dst (t_id t)) (width x) owns] in
  mkDeviceWorld (v_io w) (v_mem w) (v_context w) (v_delivered w) (v_free w) l (v_done w)
    (if owns && bool_decide (t_id t ∈ ids)
     then fun q => if decide (q = r) then v_done w k + Z.of_nat (length (on_stream k l)) else v_event w q
     else v_event w).

(** A device transfer goes on the wire with buffer [b]. *)
Definition board (t : transfer) (b : Z) (w : device_world) : device_world :=
  if is_device t then
    mkDeviceWorld (v_io w) (v_mem w) (set_at (t_id t) (set_pinned b (v_context w (t_id t))) (v_context w))
      (v_delivered w) (remove_one b (v_free w)) (v_queued w) (v_done w) (v_event w)
  else w.

(** [requeue_for_retry] *)
Definition restart (t : transfer) (w : device_world) : device_world :=
  mkDeviceWorld (v_io w) (v_mem w) (set_at (t_id t) (reset_for_retry (v_context w (t_id t))) (v_context w))
    (set_at (t_id t) [] (v_delivered w)) (v_free w) (v_queued w) (v_done w) (v_event w).

Definition give_back (bs : list Z) (w : device_world) : device_world :=
  mkDeviceWorld (v_io w) (v_mem w) (v_context w) (v_delivered w) (bs ++ v_free w) (v_queued w) (v_done w) (v_event w).

Definition set_io (io : io_world) (w : device_world) : device_world :=
  mkDeviceWorld io (v_mem w) (v_context w) (v_delivered w) (v_free w) (v_queued w) (v_done w) (v_event w).

(** A transfer leaves the wire: it succeeded and leaves its buffer to the
    stream, or it gives it back, retried ([recycle_now]) or destroyed. *)
Definition pool_step_d (o : world_op) (b : Z) (queued : bool) (w : device_world) : device_world :=
  let io := world_step strerror policy (v_io w) o in
  match boarding o (v_io w), settling strerror policy o (v_io w) with
  | Some t, _ => set_io io (board t b w)
  | None, Some (r, t, cm, s) =>
      let gone := buffers (v_context w) [t] in
      set_io io
        (match s with
         | Retry _ => give_back gone (restart t w)
         | Report (inr _) => if is_device t then stage_copy true r t w else w
         | Report (inl _) =>
             give_back gone
               (if is_device t && queued && bool_decide (c_result cm = CURLE_OK) && negb (c_overflow cm)
                then stage_copy false r t w else w)
         end)
  | None, None => set_io io (give_back (buffers (v_context w) (landing (flights (v_io w)) (flights io))) w)
  end.

Definition chunk (r i : nat) (data : list Z) (w : device_world) : device_world :=
  match on_wire r i (v_io w) with
  | None => w
  | Some t =>
      let id := t_id t in
      let ctx := v_context w id in
      if negb (is_device t) || RemoteCallback.overflow_error ctx then w
      else
        match callback_pinned_buffer err c data 1 (Z.of_nat (length data)) ctx (host (v_mem w)) with
        | Ok (_, ctx, m) =>
            mkDeviceWorld (v_io w) (mkMem m (device (v_mem w))) (set_at id ctx (v_context w))
              (if RemoteCallback.overflow_error ctx then v_delivered w
               else set_at id (v_delivered w id ++ data) (v_delivered w))
              (v_free w) (v_queued w) (v_done w) (v_event w)
        | _ => w
        end
  end.

(** The device does the next piece of work of a stream: [cuMemcpyHtoDAsync],
    and the callback that gives the buffer back. *)
Definition stream_runs (k : nat * Z) (w : device_world) : device_world :=
  match next_of k (v_queued w) with
  | None => w
  | Some (d, l) =>
      mkDeviceWorld (v_io w)
        (mkMem (host (v_mem w)) (store (cp_dst d) (read_host (host (v_mem w)) (cp_src d) (cp_size d)) (device (v_mem w))))
        (v_context w) (v_delivered w) (if cp_owns d then cp_src d :: v_free w else v_free w) l
        (fun q => if decide (q = k) then v_done w q + 1 else v_done w q) (v_event w)
  end.

Definition device_step (w : device_world) (o : device_op) : device_world :=
  match o with
  | DIo o b queued => pool_step_d o b queued w
  | Chunk r i data => chunk r i data w
  | StreamRuns k => stream_runs k w
  | HostWrites a data =>
      mkDeviceWorld (v_io w) (mkMem (store a data (host (v_mem w))) (device (v_mem w))) (v_context w) (v_delivered w)
        (v_free w) (v_queued w) (v_done w) (v_event w)
  | DeviceWrites a data =>
      mkDeviceWorld (v_io w) (mkMem (host (v_mem w)) (store a data (device (v_mem w)))) (v_context w) (v_delivered w)
        (v_free w) (v_queued w) (v_done w) (v_event w)
  end.

Definition run_device (ops : list device_op) (w : device_world) : device_world := foldl device_step w ops.

Definition world_op_of (o : device_op) : option world_op := match o with DIo o _ _ => Some o | _ => None end.

(** ** What libcurl, the server and the allocator do

    [cap] is the size of a bounce buffer.  A buffer that is not one of the free
    ones is new: it is apart from all there are.  The rest of the process does
    not write into buffers that are in use. *)
Context (cap : Z) (body : Z -> option (list Z)).

Definition apart (a b : Z) : Prop := a + cap <= b \/ b + cap <= a.

Definition in_use (w : device_world) : list Z :=
  buffers (v_context w) (flights (v_io w)) ++ sources (v_queued w).

Definition holders (w : device_world) : list Z := v_free w ++ in_use w.

Definition op_fair (w : device_world) (o : device_op) : Prop :=
  match o with
  | DIo o b _ =>
      (forall t, boarding o (v_io w) = Some t -> is_device t = true ->
         b ∈ v_free w \/ Forall (apart b) (holders w)) /\
      (forall r t cm s l, settling strerror policy o (v_io w) = Some (r, t, cm, s) -> body (t_id t) = Some l ->
         c_overflow cm = RemoteCallback.overflow_error (v_context w (t_id t)) /\
         (c_result cm = CURLE_OK -> c_overflow cm = false -> v_delivered w (t_id t) = l))
  | Chunk r i data => Z.of_nat (length data) < err
  | HostWrites a data => Forall (fun b => a + Z.of_nat (length data) <= b \/ b + cap <= a) (in_use w)
  | _ => True
  end.

Fixpoint fair (ops : list device_op) (w : device_world) : Prop :=
  match ops with
  | [] => True
  | o :: ops => op_fair w o /\ fair ops (device_step w o)
  end.

(** The same as a test. *)
Definition apart_b (a b : Z) : bool := (a + cap <=? b) || (b + cap <=? a).

Definition op_fair_b (w : device_world) (o : device_op) : bool :=
  match o with
  | DIo o b _ =>
      match boarding o (v_io w) with
      | Some t => negb (is_device t) || bool_decide (b ∈ v_free w) || forallb (apart_b b) (holders w)
      | None => true
      end &&
      match settling strerror policy o (v_io w) with
      | Some (r, t, cm, s) =>
          match body (t_id t) with
          | Some l =>
              bool_decide (c_overflow cm = RemoteCallback.overflow_error (v_context w (t_id t))) &&
              (negb (bool_decide (c_result cm = CURLE_OK)) || c_overflow cm || bool_decide (v_delivered w (t_id t) = l))
          | None => true
          end
      | None => true
      end
  | Chunk r i data => Z.of_nat (length data) <? err
  | HostWrites a data => forallb (fun b => (a + Z.of_nat (length data) <=? b) || (b + cap <=? a)) (in_use w)
  | _ => true
  end.

Fixpoint fair_b (ops : list device_op) (w : device_world) : bool :=
  match ops with [] => true | o :: ops => op_fair_b w o && fair_b ops (device_step w o) end.

Lemma forallb_ok {A} (f : A -> bool) (P : A -> Prop) k :
  (forall x, f x = true -> P x) -> forallb f k = true -> Forall P k.
Proof. intros Hf Hk. apply Forall_forall. intros x Hx. apply Hf. rewrite forallb_forall in Hk. apply Hk. by apply list_elem_of_In. Qed.

Lemma op_fair_b_ok w o : op_fair_b w o = true -> op_fair w o.
Proof.
  destruct o as [o b q|r i data|k|a data|a data]; simpl; try done.
  - intros [Hb Hs]%andb_true_iff. split.
    + intros t Ht Hd. rewrite Ht, Hd in Hb. simpl in Hb. apply orb_true_iff in Hb as [Hb|Hb]; [left; by apply bool_decide_eq_true in Hb|right].
      eapply forallb_ok; [|exact Hb]. intros x [Hx|Hx]%orb_true_iff; apply Z.leb_le in Hx; [by left|by right].
    + intros r t cm s l Ht Hl. rewrite Ht, Hl in Hs. apply andb_true_iff in Hs as [Ho Hs]. apply bool_decide_eq_true in Ho.
      split; [done|]. intros Hc Hn. rewrite (bool_decide_eq_true_2 _ Hc), Hn in Hs. simpl in Hs. by apply bool_decide_eq_true in Hs.
  - intros Hd. by apply Z.ltb_lt.
  - intros Hf. eapply forallb_ok; [|exact Hf]. intros x [Hx|Hx]%orb_true_iff; apply Z.leb_le in Hx; [by left|by right].
Qed.

Lemma fair_b_ok ops w : fair_b ops w = true -> fair ops w.
Proof.
  revert w. induction ops as [|o ops IH]; intros w; simpl; [done|]. intros [Ho Hr]%andb_true_iff.
  split; [by apply op_fair_b_ok|by apply IH].
Qed.

Lemma device_step_io w o :
  v_io (device_step w o) = match world_op_of o with Some o => world_step strerror policy (v_io w) o | None => v_io w end.
Proof.
  destruct o as [o b q|r i data|k|a data|a data]; simpl; [|..]; try done.
  - unfold pool_step_d. destruct (boarding _ _); [done|]. by destruct (settling _ _ _ _) as [[[[r t] cm] s]|].
  - unfold chunk. destruct (on_wire _ _ _); [|done]. destruct (_ || _); [done|].
    by destruct (callback_pinned_buffer _ _ _ _ _ _ _) as [[[n x] m]| |].
  - unfold stream_runs. by destruct (next_of _ _) as [[d l]|].
Qed.

Lemma run_device_io ops w : v_io (run_device ops w) = run_world strerror policy (omap world_op_of ops) (v_io w).
Proof.
  revert w. induction ops as [|o ops IH]; intros w; [done|]. unfold run_device, run_world in *. simpl.
  rewrite IH, device_step_io. by destruct o.
Qed.
End steps.

(** ** Lists of buffers and of work *)

Section lists.
Variable cap : Z.

Lemma remove_one_perm x l : x ∈ l -> l ≡ₚ x :: remove_one x l.
Proof.
  induction l as [|y l IH]; [by intros ?%not_elem_of_nil|]. simpl. destruct (y =? x) eqn:E; bool_to_prop; [by subst y|].
  intros [?|Hx]%elem_of_cons; [congruence|]. rewrite (IH Hx) at 1. apply perm_swap.
Qed.

Lemma remove_one_none x l : x ∉ l -> remove_one x l = l.
Proof.
  induction l as [|y l IH]; [done|]. intros [? ?]%not_elem_of_cons. simpl.
  destruct (y =? x) eqn:E; bool_to_prop; [congruence|]. by rewrite IH.
Qed.

Lemma next_of_spec k l d l' :
  next_of k l = Some (d, l') ->
  cp_stream d = k /\ l ≡ₚ d :: l' /\ on_stream k l = d :: on_stream k l' /\
  forall q, q <> k -> on_stream q l = on_stream q l'.
Proof.
  revert l'. induction l as [|c l IH]; intros l'; [done|]. simpl. destruct (decide (cp_stream c = k)) as [Hk|Hk].
  - intros [= <- <-]. split_and!; [done|done|unfold on_stream; by rewrite filter_cons_True|].
    intros q Hq. unfold on_stream. rewrite filter_cons_False by congruence. done.
  - destruct (next_of k l) as [[e m]|] eqn:Hn; [|done]. intros [= <- <-].
    destruct (IH m eq_refl) as (He & Hp & Hs & Ho). split_and!; [done|rewrite Hp; apply perm_swap| |].
    + unfold on_stream in *. rewrite !filter_cons_False by done. exact Hs.
    + intros q Hq. unfold on_stream in *. rewrite !filter_cons. destruct (decide (cp_stream c = q)); [f_equal|]; by apply Ho.
Qed.

Lemma far_sym a b : apart cap a b -> apart cap b a.
Proof. unfold apart. tauto. Qed.

(** Buffers that are apart from each other, in any order. *)
Definition all_apart (l : list Z) : Prop := ForallOrdPairs (apart cap) l.

Lemma all_apart_cons a l : all_apart (a :: l) <-> Forall (apart cap a) l /\ all_apart l.
Proof. split; [by inversion_clear 1|intros []; by constructor]. Qed.

Lemma all_apart_perm l k : l ≡ₚ k -> all_apart l -> all_apart k.
Proof.
  induction 1 as [|x l k Hp IH|x y l|l m k _ IH1 _ IH2]; intros Hl; [done| | |by apply IH2, IH1].
  - apply all_apart_cons in Hl as [Hx Hl]. apply all_apart_cons. split; [|by apply IH].
    apply Forall_forall. intros a Ha. rewrite <-Hp in Ha. by apply (proj1 (Forall_forall _ _) Hx).
  - apply all_apart_cons in Hl as [[Hxy Hx]%Forall_cons [Hy Hl]%all_apart_cons].
    apply all_apart_cons. split; [constructor; [by apply far_sym|done]|]. by apply all_apart_cons.
Qed.

#[global] Instance all_apart_proper : Proper ((≡ₚ) ==> iff) all_apart.
Proof. intros l k Hl. split; apply all_apart_perm; by rewrite Hl. Qed.

Lemma all_apart_app l k : all_apart (l ++ k) -> forall a b, a ∈ l -> b ∈ k -> apart cap a b.
Proof.
  induction l as [|x l IH]; simpl; [by intros _ a b ?%not_elem_of_nil|].
  intros [Hx Hl]%all_apart_cons a b [->|Ha]%elem_of_cons Hb; [|by apply IH].
  apply (proj1 (Forall_forall _ _) Hx). apply elem_of_app. by right.
Qed.

Lemma all_apart_map {A} (f : A -> Z) l x y : all_apart (f <$> l) -> x ∈ l -> y ∈ l -> x <> y -> apart cap (f x) (f y).
Proof.
  intros Hl Hx Hy Hne. apply list_elem_of_split in Hx as (l1 & l2 & ->).
  rewrite fmap_app, fmap_cons in Hl. rewrite <-Permutation_middle in Hl. apply all_apart_cons in Hl as [Hl _].
  rewrite <-fmap_app in Hl. apply (proj1 (Forall_forall _ _) Hl), list_elem_of_fmap_2.
  apply elem_of_app in Hy as [Hy|[Hy|Hy]%elem_of_cons]; [apply elem_of_app; by left|congruence|apply elem_of_app; by right].
Qed.

Lemma all_apart_drop l k : all_apart (l ++ k) -> all_apart k.
Proof. induction l as [|x l IH]; [done|]. simpl. intros [_ Hl]%all_apart_cons. by apply IH. Qed.

Lemma all_apart_take l k : all_apart (l ++ k) -> all_apart l.
Proof.
  induction l as [|x l IH]; [intros _; constructor|]. simpl. intros [Hx Hl]%all_apart_cons. apply all_apart_cons.
  split; [|by apply IH]. by apply Forall_app in Hx as [? _].
Qed.

(** Sub-lists of the transfers hold sub-lists of the buffers. *)
#[global] Instance buffers_perm ctx : Proper ((≡ₚ) ==> (≡ₚ)) (buffers ctx).
Proof. intros l k Hl. unfold buffers. by rewrite Hl. Qed.

Lemma buffers_app ctx l k : buffers ctx (l ++ k) = buffers ctx l ++ buffers ctx k.
Proof. unfold buffers. by rewrite filter_app, fmap_app. Qed.

Lemma buffers_cons ctx t l : buffers ctx (t :: l) = buffers ctx [t] ++ buffers ctx l.
Proof. apply (buffers_app ctx [t] l). Qed.

Lemma buffers_ext ctx ctx' l :
  (forall t, t ∈ l -> is_device t = true -> pinned_buffer (ctx (t_id t)) = pinned_buffer (ctx' (t_id t))) ->
  buffers ctx l = buffers ctx' l.
Proof.
  intros Hl. unfold buffers. apply list_fmap_ext. intros i t Ht. apply list_elem_of_lookup_2, list_elem_of_filter in Ht as [Hd Ht]. by apply Hl.
Qed.

Lemma buffers_device ctx t : is_device t = true -> buffers ctx [t] = [pinned_buffer (ctx (t_id t))].
Proof. intros Ht. unfold buffers. by rewrite filter_cons_True. Qed.

Lemma buffers_host ctx t : is_device t = false -> buffers ctx [t] = [].
Proof. intros Ht. unfold buffers. rewrite filter_cons_False; [done|]. by rewrite Ht. Qed.

Lemma buffers_in ctx t l : t ∈ l -> is_device t = true -> pinned_buffer (ctx (t_id t)) ∈ buffers ctx l.
Proof. intros Ht Hd. apply (list_elem_of_fmap_2 (fun t => pinned_buffer (ctx (t_id t)))). by apply list_elem_of_filter. Qed.

Lemma sources_app l k : sources (l ++ k) = sources l ++ sources k.
Proof. unfold sources. by rewrite filter_app, fmap_app. Qed.

Lemma sources_in d l : d ∈ l -> cp_owns d = true -> cp_src d ∈ sources l.
Proof. intros Hd Ho. apply list_elem_of_fmap_2. by apply list_elem_of_filter. Qed.

#[global] Instance sources_perm : Proper ((≡ₚ) ==> (≡ₚ)) sources.
Proof. intros l k Hl. unfold sources. by rewrite Hl. Qed.

Lemma on_stream_app k l m : on_stream k (l ++ m) = on_stream k l ++ on_stream k m.
Proof. apply filter_app. Qed.

Lemma on_stream_one k d : on_stream k [d] = if decide (cp_stream d = k) then [d] else [].
Proof. done. Qed.
End lists.

Lemma read_host_prefix m a l n : prefix_at a l m -> Z.of_nat (length l) = n -> read_host m a n = l.
Proof.
  intros Hl <-. unfold read_host. apply list_eq. intros i. rewrite list_lookup_fmap.
  destruct (decide (i < length l)%nat) as [Hi|Hi].
  - rewrite lookup_seqZ_lt by lia. simpl. destruct (lookup_lt_is_Some_2 l i Hi) as [x Hx]. rewrite Hx.
    f_equal. by apply Hl.
  - rewrite lookup_seqZ_ge by lia. simpl. symmetry. apply lookup_ge_None. lia.
Qed.

Lemma read_host_length m a n : 0 <= n -> Z.of_nat (length (read_host m a n)) = n.
Proof. intros Hn. unfold read_host. rewrite length_fmap, length_seqZ. lia. Qed.

Lemma prefix_at_written a l m : prefix_at a l (store a l m).
Proof. intros i x Hi. rewrite (store_in a l m i) in Hi by (by eapply lookup_lt_Some). congruence. Qed.

(** ** A chunk *)

Lemma pinned_chunk err c ctx (got data : list Z) m :
  Z.of_nat (length data) < err -> width ctx < SIZE_MOD - err ->
  offset ctx = Z.of_nat (length got) -> Z.of_nat (length got) <= width ctx ->
  exists n x m', callback_pinned_buffer err c data 1 (Z.of_nat (length data)) ctx m = Ok (n, x, m') /\
    if decide (Z.of_nat (length (got ++ data)) <= width ctx)
    then x = advance (Z.of_nat (length data)) ctx /\
      same_memory m' (store (pinned_buffer ctx + Z.of_nat (length got)) data m)
    else x = set_overflow ctx /\ m' = m.
Proof.
  intros Hd Hs Ho Hg. unfold callback_pinned_buffer. destruct (room_check ctx got data) as [-> Hsum]; [lia|].
  rewrite Ho, Hsum, length_app, Nat2Z.inj_add. destruct (decide _) as [Hle|Hgt].
  - rewrite (proj2 (Z.ltb_ge _ _)) by done.
    destruct (copy_received_data_spec c (pinned_buffer ctx + Z.of_nat (length got)) data (Z.of_nat (length data)) (width ctx) m)
      as (m' & -> & Hm); [lia|]. simpl. rewrite memcpy_all in Hm. by eexists _, _, m'.
  - rewrite (proj2 (Z.ltb_lt _ _)) by lia. simpl. by eexists _, _, m.
Qed.

(** ** The invariant *)

Section invariant.
Context (err : Z) (c : copy_config) (strerror : CURLcode -> string) (policy : HttpRetryPolicy).
Context (device_dst wide : Z -> Z) (ids : list Z) (l : list subrange) (dctx cap : Z) (body : Z -> option (list Z)) (m0 : memory).
Context (buf size file_offset : Z) (remote : Z -> Z).
Hypothesis Hwide : forall id, 0 <= wide id < SIZE_MOD - err /\ wide id <= cap.
Hypothesis Hids : NoDup ids.
Hypothesis Hlen : length ids = length l.
Hypothesis Htiles : tiles file_offset buf size (sr_task <$> l).
Hypothesis Hmine : forall k id t, ids !! k = Some id -> l !! k = Some t ->
  wide id = tk_size (sr_task t) /\ device_dst id = tk_devPtr_offset (sr_task t) /\
  body id = Some (file_bytes remote (tk_file_offset (sr_task t)) (tk_size (sr_task t))).
Hypothesis Hothers : forall id, id ∉ ids -> device_dst id + wide id <= buf \/ buf + size <= device_dst id.

(** Device memory that nothing is meant to write. *)
Variable quiet : Z -> Prop.
Hypothesis Hquiet : forall a id, quiet a -> a < device_dst id \/ device_dst id + wide id <= a.

(** The bytes of the file that the transfer [id] is for. *)
Definition wants (id : Z) (bytes : list Z) : Prop :=
  exists k t, ids !! k = Some id /\ l !! k = Some t /\
    bytes = file_bytes remote (tk_file_offset (sr_task t)) (tk_size (sr_task t)).

(** A copy goes to the destination of its transfer; with its buffer, it holds
    what the transfer wants; without it, the transfer has failed. *)
Record copy_ok (w : device_world) (d : copy) : Prop := mkCopyOk {
  co_dst : cp_dst d = device_dst (cp_id d);
  co_size : cp_size d = wide (cp_id d);
  co_bytes : cp_owns d = true -> forall bytes, wants (cp_id d) bytes -> prefix_at (cp_src d) bytes (host (v_mem w));
  co_stray : cp_owns d = false -> exists e, (cp_id d, inl e) ∈ Reactor.reports (w_pool (v_io w)) }.

Record device_ok (w : device_world) : Prop := mkDeviceOk {
  dk_context id : width (v_context w id) = wide id /\ offset (v_context w id) = Z.of_nat (length (v_delivered w id)) /\
    Z.of_nat (length (v_delivered w id)) <= wide id;
  dk_wait id : v_delivered w id = [] \/ id ∈ t_id <$> flights (v_io w) \/
    exists rep, (id, rep) ∈ Reactor.reports (w_pool (v_io w));
  dk_pinned t : t ∈ flights (v_io w) -> is_device t = true ->
    prefix_at (pinned_buffer (v_context w (t_id t))) (v_delivered w (t_id t)) (host (v_mem w));
  dk_apart : all_apart cap (holders w);
  dk_copies d : d ∈ v_queued w -> copy_ok w d;
  dk_event k j d : on_stream k (v_queued w) !! j = Some d -> cp_owns d = true -> cp_id d ∈ ids ->
    exists r, k = (r, dctx) /\ v_done w k + Z.of_nat j < v_event w r;
  dk_success id n bytes : (id, inr n) ∈ Reactor.reports (w_pool (v_io w)) -> wants id bytes ->
    prefix_at (device_dst id) bytes (device (v_mem w)) \/
    exists d, d ∈ v_queued w /\ cp_owns d = true /\ cp_id d = id;
  dk_frame a : quiet a -> device (v_mem w) a = m0 a }.

(** What the pool keeps: each handle is submitted once, and those of the read
    are for the device. *)
Definition for_device (t : transfer) : Prop := t_id t ∈ ids -> is_device t = true /\ device_ctx t = dctx.

Lemma for_device_same t u : t_id u = t_id t -> t_size u = t_size t -> is_device u = is_device t ->
  device_ctx u = device_ctx t -> for_device t -> for_device u.
Proof. unfold for_device. by intros -> _ -> ->. Qed.

Lemma wants_in id bytes : wants id bytes -> id ∈ ids.
Proof. intros (k & t & Hk & _). by eapply list_elem_of_lookup_2. Qed.

Lemma wants_body id bytes : wants id bytes -> body id = Some bytes.
Proof using Hmine. intros (k & t & Hk & Ht & ->). by destruct (Hmine k id t Hk Ht) as (_ & _ & ->). Qed.

Lemma wants_length id bytes : wants id bytes -> Z.of_nat (length bytes) = wide id.
Proof using All.
  intros (k & t & Hk & Ht & ->). destruct (Hmine k id t Hk Ht) as (-> & _ & _). apply file_bytes_length.
  eapply (tiles_within _ _ _ _ (sr_task t) Htiles), list_elem_of_fmap_2, list_elem_of_lookup_2, Ht.
Qed.

(** Where a part goes is in the buffer of the read, and apart from where any
    other transfer goes. *)
Lemma wants_within id bytes : wants id bytes -> buf <= device_dst id /\ device_dst id + wide id <= buf + size.
Proof using All.
  intros (k & t & Hk & Ht & _). destruct (Hmine k id t Hk Ht) as (-> & -> & _).
  pose proof (tiles_within _ _ _ _ (sr_task t) Htiles) as Hw.
  destruct Hw as (? & ? & ?); [by eapply list_elem_of_fmap_2, list_elem_of_lookup_2|lia].
Qed.

Lemma destinations_apart id bytes id' :
  wants id bytes -> id' <> id ->
  device_dst id' + wide id' <= device_dst id \/ device_dst id + wide id <= device_dst id'.
Proof using All.
  intros Hw Hne. pose proof (wants_within id bytes Hw) as Hin. destruct (decide (id' ∈ ids)) as [Hid|Hid].
  2:{ destruct (Hothers id' Hid); lia. }
  destruct Hw as (k & t & Hk & Ht & _). apply list_elem_of_lookup in Hid as [k' Hk'].
  destruct (lookup_lt_is_Some_2 l k') as [t' Ht']; [rewrite <-Hlen; by eapply lookup_lt_Some|].
  destruct (Hmine k id t Hk Ht) as (-> & -> & _), (Hmine k' id' t' Hk' Ht') as (-> & -> & _).
  assert (Hkk : k <> k') by (intros ->; congruence).
  assert (Hf : forall j u, l !! j = Some u -> (sr_task <$> l) !! j = Some (sr_task u)) by (intros j u Hj; by rewrite list_lookup_fmap, Hj).
  destruct (decide (k < k')%nat); [right|left]; eapply (tiles_apart _ _ _ _ _ _ _ _ Htiles); eauto; lia.
Qed.

(** *** The device and the rest of the process *)

Lemma flying_apart w t u :
  device_ok w -> t ∈ flights (v_io w) -> u ∈ flights (v_io w) -> is_device t = true -> is_device u = true -> t <> u ->
  apart cap (pinned_buffer (v_context w (t_id t))) (pinned_buffer (v_context w (t_id u))).
Proof.
  intros Hw Ht Hu Hdt Hdu Hne. pose proof (dk_apart w Hw) as Ha. unfold holders, in_use in Ha.
  apply all_apart_drop, all_apart_take in Ha. unfold buffers in Ha.
  apply (all_apart_map cap (fun t => pinned_buffer (v_context w (t_id t))) _ t u Ha); [by apply list_elem_of_filter..|done].
Qed.

Lemma source_apart w t d :
  device_ok w -> t ∈ flights (v_io w) -> is_device t = true -> d ∈ v_queued w -> cp_owns d = true ->
  apart cap (pinned_buffer (v_context w (t_id t))) (cp_src d).
Proof.
  intros Hw Ht Hdt Hd Ho. pose proof (dk_apart w Hw) as Ha. unfold holders, in_use in Ha. apply all_apart_drop in Ha.
  eapply all_apart_app; [exact Ha|by apply buffers_in|by apply sources_in].
Qed.

(** Host memory changes outside of what a transfer or a copy holds. *)
Lemma host_write_ok w a data :
  device_ok w -> Forall (fun b => a + Z.of_nat (length data) <= b \/ b + cap <= a) (in_use w) ->
  device_ok (device_step err c strerror policy device_dst ids w (HostWrites a data)).
Proof using All.
  intros Hw Hf. assert (Hkeep : forall b bytes, b ∈ in_use w -> Z.of_nat (length bytes) <= cap ->
    prefix_at b bytes (host (v_mem w)) -> prefix_at b bytes (store a data (host (v_mem w)))).
  { intros b bytes Hb Hl. apply prefix_at_store. pose proof (proj1 (Forall_forall _ _) Hf b Hb). simpl in *. lia. }
  destruct Hw as [A1 A2 A3 A4 A5 A6 A7 A8]. constructor; simpl; try done.
  - intros t Ht Hd. apply Hkeep; [|destruct (A1 (t_id t)) as (_ & _ & ?), (Hwide (t_id t)); lia|by apply A3].
    apply elem_of_app. left. by apply buffers_in.
  - intros d Hd. destruct (A5 d Hd) as [B1 B2 B3 B4]. constructor; try done. intros Ho bytes Hb.
    apply Hkeep; [|rewrite (wants_length _ _ Hb); apply Hwide|by apply B3]. apply elem_of_app. right. by apply sources_in.
Qed.

Lemma device_write_ok w a data :
  device_ok w -> (a + Z.of_nat (length data) <= buf \/ buf + size <= a) ->
  (forall q, quiet q -> q < a \/ a + Z.of_nat (length data) <= q) ->
  device_ok (device_step err c strerror policy device_dst ids w (DeviceWrites a data)).
Proof using All.
  intros [A1 A2 A3 A4 A5 A6 A7 A8] Ha Hq. constructor; simpl; try done.
  - intros d Hd. by destruct (A5 d Hd).
  - intros id n bytes Hr Hb. destruct (A7 id n bytes Hr Hb) as [Hp|?]; [left|by right].
    apply prefix_at_store; [|done]. pose proof (wants_within id bytes Hb). rewrite (wants_length _ _ Hb). lia.
  - intros q Hqq. rewrite store_out; [by apply A8|]. destruct (Hq q Hqq); lia.
Qed.

(** A copy reaches the device, and its buffer is free. *)
Lemma stream_ok w k :
  once (w_pool (v_io w)) -> device_ok w -> device_ok (stream_runs k w).
Proof using All.
  intros Hone Hw. unfold stream_runs. destruct (next_of k (v_queued w)) as [[d q]|] eqn:Hn; [|done].
  destruct (next_of_spec k _ _ _ Hn) as (Hk & Hp & Hs & Hsn). pose proof (dk_apart w Hw) as Hap.
  destruct Hw as [A1 A2 A3 A4 A5 A6 A7 A8].
  assert (Hd : d ∈ v_queued w) by (rewrite Hp; by left). assert (Hq : forall e, e ∈ q -> e ∈ v_queued w) by (intros e He; rewrite Hp; by right).
  destruct (A5 d Hd) as [B1 B2 B3 B4]. destruct (Hwide (cp_id d)) as [[Hw0 _] _].
  pose proof (read_host_length (host (v_mem w)) (cp_src d) (cp_size d) ltac:(lia)) as Hrl.
  constructor; simpl; try done.
  - unfold holders, in_use in *. simpl. revert Hap. rewrite Hp. unfold sources. rewrite filter_cons. destruct (decide (cp_owns d = true)) as [Ho|Ho].
    + rewrite Ho. simpl. apply all_apart_perm. rewrite !app_assoc. symmetry. apply Permutation_middle.
    + apply not_true_is_false in Ho. by rewrite Ho.
  - intros e He. by destruct (A5 e (Hq e He)).
  - intros k' j e He Ho Hi. destruct (decide (k' = k)) as [->|Hne].
    + destruct (A6 k (S j) e) as (r & -> & Hr); [by rewrite Hs|done|done|]. exists r. split; [done|]. lia.
    + destruct (A6 k' j e) as (r & -> & Hr); [by rewrite Hsn|done|done|]. by exists r.
  - intros id n bytes Hr Hb. destruct (decide (cp_id d = id)) as [Hid|Hid].
    + left. destruct (cp_owns d) eqn:Ho.
      * rewrite B1, B2, Hid. rewrite (read_host_prefix _ _ bytes); [apply prefix_at_written|by apply B3; [|rewrite Hid]|by apply wants_length].
      * destruct (B4 eq_refl) as [e He]. rewrite Hid in He. by pose proof (reported_same _ _ _ _ Hone Hr He).
    + destruct (A7 id n bytes Hr Hb) as [Hpre|(e & He & Ho & Hei)]; [left|right; exists e].
      * apply prefix_at_store; [|done]. rewrite Hrl, B1, B2, (wants_length _ _ Hb). by apply (destinations_apart id bytes).
      * rewrite Hp in He. apply elem_of_cons in He as [->|He]; done.
  - intros a Ha. rewrite store_out; [by apply A8|]. rewrite Hrl, B1, B2. by apply Hquiet.
Qed.

(** A chunk for a transfer on the wire. *)
Lemma chunk_ok w r i data :
  once (w_pool (v_io w)) -> device_ok w -> Z.of_nat (length data) < err -> device_ok (chunk err c r i data w).
Proof using All.
  intros Hone Hw Hd. unfold chunk. destruct (on_wire r i (v_io w)) as [t|] eqn:Hwire; [|done].
  apply wire_flies in Hwire as Ht. destruct (negb (is_device t) || _) eqn:Hgo; [done|].
  apply orb_false_iff in Hgo as [Hdt Hov]. apply negb_false_iff in Hdt.
  pose proof (fun u d => flying_apart w t u Hw Ht d Hdt) as Hfar. pose proof (fun d => source_apart w t d Hw Ht Hdt) as Hsrc.
  set (id := t_id t) in *. destruct (dk_context w Hw id) as (Hwid & Hoff & Hgot). destruct (Hwide id) as [Hlim Hcap].
  destruct (pinned_chunk err c (v_context w id) (v_delivered w id) data (host (v_mem w))) as (n & x & m' & -> & Hres);
    [done|lia|done|lia|]. rewrite Hwid in Hres. pose proof Hw as [A1 A2 A3 A4 A5 A6 A7 A8].
  destruct (decide _) as [Hle|Hgt]; destruct Hres as [-> Hm]; simpl.
  - rewrite Hov. rewrite length_app in Hle.
    assert (Hkeep : forall b bytes, apart cap (pinned_buffer (v_context w id)) b -> Z.of_nat (length bytes) <= cap ->
      prefix_at b bytes (host (v_mem w)) -> prefix_at b bytes m').
    { intros b bytes Hb Hl Hpre. eapply prefix_at_same; [exact Hm|]. apply prefix_at_store; [|done]. unfold apart in Hb. lia. }
    assert (Hpin : forall q, pinned_buffer (set_at id (advance (Z.of_nat (length data)) (v_context w id)) (v_context w) q) =
                             pinned_buffer (v_context w q)).
    { intros q. unfold set_at. by destruct (Z.eqb_spec q id) as [->|]. }
    constructor; simpl; try done.
    + intros q. unfold set_at. destruct (Z.eqb_spec q id) as [->|]; [|apply A1]. simpl. rewrite length_app. lia.
    + intros q. unfold set_at. destruct (Z.eqb_spec q id) as [->|]; [|apply A2]. right. left. by apply list_elem_of_fmap_2.
    + intros u Hu Hdu. rewrite Hpin. unfold set_at. destruct (Z.eqb_spec (t_id u) id) as [Heq|Hne].
      * rewrite Heq. eapply prefix_at_app; [|exact Hm]. rewrite <-Heq. by apply A3.
      * apply Hkeep; [apply (Hfar u Hu Hdu); intros ->; by apply Hne|destruct (A1 (t_id u)) as (_ & _ & ?), (Hwide (t_id u)); lia|by apply A3].
    + unfold holders, in_use in *. simpl. erewrite buffers_ext; [exact A4|]. intros u _ _. apply Hpin.
    + intros d Hin. destruct (A5 d Hin) as [B1 B2 B3 B4]. constructor; try done. simpl. intros Ho bytes Hb.
      apply Hkeep; [by apply Hsrc|rewrite (wants_length _ _ Hb); apply Hwide|by apply B3].
  - subst m'. assert (Hpin : forall q, pinned_buffer (set_at id (set_overflow (v_context w id)) (v_context w) q) =
                             pinned_buffer (v_context w q)).
    { intros q. unfold set_at. by destruct (Z.eqb_spec q id) as [->|]. }
    constructor; simpl; try done.
    + intros q. unfold set_at. destruct (Z.eqb_spec q id) as [->|]; [|apply A1]. simpl. lia.
    + intros u Hu Hdu. rewrite Hpin. by apply A3.
    + unfold holders, in_use in *. simpl. erewrite buffers_ext; [exact A4|]. intros u _ _. apply Hpin.
    + intros d Hin. by destruct (A5 d Hin).
Qed.

(** *** The pool *)

(** A step of the pool that may queue copies; memory does not change. *)
Lemma pool_change w io ctx' delivered' free' new event' :
  device_ok w ->
  let w' := mkDeviceWorld io (v_mem w) ctx' delivered' free' (v_queued w ++ new) (v_done w) event' in
  (forall y, y ∈ Reactor.reports (w_pool (v_io w)) -> y ∈ Reactor.reports (w_pool io)) ->
  (forall id, width (ctx' id) = wide id /\ offset (ctx' id) = Z.of_nat (length (delivered' id)) /\
     Z.of_nat (length (delivered' id)) <= wide id) ->
  (forall id, delivered' id = [] \/ id ∈ t_id <$> flights io \/ exists rep, (id, rep) ∈ Reactor.reports (w_pool io)) ->
  (forall t, t ∈ flights io -> is_device t = true ->
     prefix_at (pinned_buffer (ctx' (t_id t))) (delivered' (t_id t)) (host (v_mem w))) ->
  all_apart cap (free' ++ buffers ctx' (flights io) ++ sources (v_queued w ++ new)) ->
  Forall (copy_ok w') new ->
  (forall k j d, on_stream k (v_queued w ++ new) !! j = Some d -> cp_owns d = true -> cp_id d ∈ ids ->
     exists r, k = (r, dctx) /\ v_done w k + Z.of_nat j < event' r) ->
  (forall id n, (id, inr n) ∈ Reactor.reports (w_pool io) -> id ∈ ids ->
     (id, inr n) ∈ Reactor.reports (w_pool (v_io w)) \/ exists d, d ∈ new /\ cp_owns d = true /\ cp_id d = id) ->
  device_ok w'.
Proof.
  intros [A1 A2 A3 A4 A5 A6 A7 A8] w' Hstay H1 H2 H3 H4 H5 H6 H7. constructor; simpl; try done.
  - intros d [Hd|Hd]%elem_of_app; [|by apply (proj1 (Forall_forall _ _) H5)].
    destruct (A5 d Hd) as [B1 B2 B3 B4]. constructor; try done. intros Ho. destruct (B4 Ho) as [e He]. exists e. by apply Hstay.
  - intros id n bytes Hr Hb. destruct (H7 id n Hr (wants_in _ _ Hb)) as [Hold|(d & Hd & Ho & Hi)].
    + destruct (A7 id n bytes Hold Hb) as [?|(d & Hd & Ho & Hi)]; [by left|right]. exists d. split; [|done].
      apply elem_of_app. by left.
    + right. exists d. split; [|done]. apply elem_of_app. by right.
Qed.

(** Nothing is queued. *)
Lemma pool_change_none w io ctx' delivered' free' :
  device_ok w ->
  (forall y, y ∈ Reactor.reports (w_pool (v_io w)) -> y ∈ Reactor.reports (w_pool io)) ->
  (forall id, width (ctx' id) = wide id /\ offset (ctx' id) = Z.of_nat (length (delivered' id)) /\
     Z.of_nat (length (delivered' id)) <= wide id) ->
  (forall id, delivered' id = [] \/ id ∈ t_id <$> flights io \/ exists rep, (id, rep) ∈ Reactor.reports (w_pool io)) ->
  (forall t, t ∈ flights io -> is_device t = true ->
     prefix_at (pinned_buffer (ctx' (t_id t))) (delivered' (t_id t)) (host (v_mem w))) ->
  all_apart cap (free' ++ buffers ctx' (flights io) ++ sources (v_queued w)) ->
  (forall id n, (id, inr n) ∈ Reactor.reports (w_pool io) -> id ∈ ids -> (id, inr n) ∈ Reactor.reports (w_pool (v_io w))) ->
  device_ok (mkDeviceWorld io (v_mem w) ctx' delivered' free' (v_queued w) (v_done w) (v_event w)).
Proof.
  intros Hw Hstay H1 H2 H3 H4 H7. rewrite <-(app_nil_r (v_queued w)).
  apply pool_change; rewrite ?app_nil_r; try done; [apply (dk_event w Hw)|]. intros id n Hr Hi. left. by apply (H7 id n).
Qed.

Lemma unsettled_success w o id n :
  settling strerror policy o w = None -> (id, inr n) ∈ Reactor.reports (w_pool (world_step strerror policy w o)) ->
  (id, inr n) ∈ Reactor.reports (w_pool w).
Proof. intros Hs [?|(r & t & cm & Ht & _)]%success_settled; [done|]. congruence. Qed.

(** A transfer goes on the wire. *)
Lemma board_ok w o t b :
  once (w_pool (v_io w)) -> device_ok w -> boarding o (v_io w) = Some t ->
  (is_device t = true -> b ∈ v_free w \/ Forall (apart cap b) (holders w)) ->
  device_ok (set_io (world_step strerror policy (v_io w) o) (board t b w)).
Proof using All.
  intros Hone Hw Hb Hfree. pose proof (world_flights strerror policy (v_io w) o) as Hf. rewrite Hb in Hf.
  destruct (boarding_new (v_io w) o t Hone Hb) as [Hnew Hun]. set (io := world_step strerror policy (v_io w) o) in *.
  assert (Hstay : forall y, y ∈ Reactor.reports (w_pool (v_io w)) -> y ∈ Reactor.reports (w_pool io)) by (intros y; apply reports_stay).
  assert (Hsuc : forall id n, (id, inr n) ∈ Reactor.reports (w_pool io) -> id ∈ ids -> (id, inr n) ∈ Reactor.reports (w_pool (v_io w))).
  { intros id n Hr _. eapply unsettled_success, Hr. by eapply boarding_settles_none. }
  assert (Hwait : forall id, v_delivered w id = [] \/ id ∈ t_id <$> flights io \/ exists rep, (id, rep) ∈ Reactor.reports (w_pool io)).
  { intros id. destruct (dk_wait w Hw id) as [?|[Hin|[rep Hr]]]; [by left|right; left|right; right].
    - rewrite Hf. csimpl. by right.
    - exists rep. by apply Hstay. }
  assert (Hempty : v_delivered w (t_id t) = []).
  { destruct (dk_wait w Hw (t_id t)) as [?|[Hin|[rep Hr]]]; [done|by destruct Hnew|by destruct (Hun rep)]. }
  pose proof (dk_apart w Hw) as Hap. unfold holders, in_use in Hap. unfold board, set_io. destruct (is_device t) eqn:Hd; simpl.
  - assert (Hpin : forall u, u ∈ flights (v_io w) ->
      pinned_buffer (set_at (t_id t) (set_pinned b (v_context w (t_id t))) (v_context w) (t_id u)) = pinned_buffer (v_context w (t_id u))).
    { intros u Hu. unfold set_at. destruct (Z.eqb_spec (t_id u) (t_id t)) as [He|]; [|done]. exfalso. apply Hnew. rewrite <-He. by apply list_elem_of_fmap_2. }
    apply pool_change_none; try done.
    + intros id. unfold set_at. destruct (Z.eqb_spec id (t_id t)) as [->|]; simpl; apply (dk_context w Hw).
    + intros u Hu Hdu. rewrite Hf in Hu. apply elem_of_cons in Hu as [->|Hu].
      * rewrite Hempty. by intros i x ?.
      * rewrite Hpin by done. by apply (dk_pinned w Hw).
    + rewrite Hf, buffers_cons, (buffers_device _ t Hd). unfold set_at at 1. rewrite Z.eqb_refl. cbn [pinned_buffer set_pinned].
      rewrite (buffers_ext _ (v_context w) (flights (v_io w))) by (intros u Hu _; by apply Hpin). simpl.
      destruct (decide (b ∈ v_free w)) as [Hin|Hout].
      * revert Hap. apply all_apart_perm. rewrite (remove_one_perm b (v_free w)) at 1 by done. simpl. apply Permutation_middle.
      * rewrite (remove_one_none _ _ Hout), <-Permutation_middle. apply all_apart_cons.
        split; [by destruct (Hfree eq_refl)|done].
  - apply pool_change_none; try done.
    + apply (dk_context w Hw).
    + intros u Hu Hdu. rewrite Hf in Hu. apply elem_of_cons in Hu as [->|Hu]; [congruence|]. by apply (dk_pinned w Hw).
    + by rewrite Hf, buffers_cons, (buffers_host _ t Hd).
Qed.

(** A step that settles nothing. *)
Lemma landing_ok w o :
  once (w_pool (v_io w)) -> device_ok w -> boarding o (v_io w) = None -> settling strerror policy o (v_io w) = None ->
  let io := world_step strerror policy (v_io w) o in
  device_ok (set_io io (give_back (buffers (v_context w) (landing (flights (v_io w)) (flights io))) w)).
Proof using All.
  intros Hone Hw Hb Hs io. pose proof (world_flights strerror policy (v_io w) o) as Hf. rewrite Hb, Hs in Hf.
  fold io in Hf. destruct Hf as [Hsub Hland]. apply (pool_change_none w); simpl.
  - done.
  - intros y. apply reports_stay.
  - apply (dk_context w Hw).
  - intros id. destruct (dk_wait w Hw id) as [?|[Hin|[rep Hr]]]; [by left|right|right; right].
    + apply list_elem_of_fmap in Hin as (t & -> & Ht). destruct (Hland t Ht) as [Hin|?]; [left|by right]. by apply list_elem_of_fmap_2.
    + exists rep. by apply reports_stay.
  - intros t Ht. apply (dk_pinned w Hw). apply submseteq_Permutation in Hsub as [k Hk].
    unfold flights. rewrite Hk. apply elem_of_app. by left.
  - pose proof (dk_apart w Hw) as Hap. unfold holders, in_use in Hap. revert Hap. apply all_apart_perm.
    rewrite (landing_perm (flights (v_io w)) (flights io) (once_flights _ Hone) Hsub) at 1.
    rewrite buffers_app, <-!app_assoc. apply Permutation_app_swap_app.
  - intros id n Hr _. by eapply unsettled_success.
Qed.

Lemma settled_wait w o r t cm s :
  once (w_pool (v_io w)) -> device_ok w -> boarding o (v_io w) = None ->
  settling strerror policy o (v_io w) = Some (r, t, cm, s) ->
  let io := world_step strerror policy (v_io w) o in
  forall id, id <> t_id t \/ (exists rep, s = Report rep) ->
    v_delivered w id = [] \/ id ∈ t_id <$> flights io \/ exists rep, (id, rep) ∈ Reactor.reports (w_pool io).
Proof using All.
  intros Hone Hw Hb Hs io id Hid. pose proof (world_flights strerror policy (v_io w) o) as Hf. rewrite Hb, Hs in Hf.
  fold io in Hf. destruct Hf as [Hp Hrep]. destruct (dk_wait w Hw id) as [?|[Hin|[rep Hr]]]; [by left|right|right; right].
  - rewrite <-Hp in Hin. csimpl in Hin. apply elem_of_cons in Hin as [->|Hin]; [right|by left].
    destruct Hid as [?|[rep ->]]; [done|]. exists rep. by apply Hrep.
  - exists rep. by apply reports_stay.
Qed.

(** A transfer is put back. *)
Lemma put_back_ok w o r t cm u :
  once (w_pool (v_io w)) -> device_ok w -> boarding o (v_io w) = None ->
  settling strerror policy o (v_io w) = Some (r, t, cm, Retry u) ->
  device_ok (set_io (world_step strerror policy (v_io w) o) (give_back (buffers (v_context w) [t]) (restart t w))).
Proof using All.
  intros Hone Hw Hb Hs. pose proof (settled_wait w o r t cm (Retry u) Hone Hw Hb Hs) as Hwait.
  pose proof (world_flights strerror policy (v_io w) o) as Hf. rewrite Hb, Hs in Hf.
  set (io := world_step strerror policy (v_io w) o) in *. destruct Hf as [Hp _].
  assert (Hpin : forall q, pinned_buffer (set_at (t_id t) (reset_for_retry (v_context w (t_id t))) (v_context w) q) = pinned_buffer (v_context w q)).
  { intros q. unfold set_at. by destruct (Z.eqb_spec q (t_id t)) as [->|]. }
  apply (pool_change_none w); simpl.
  - done.
  - intros y. apply reports_stay.
  - intros id. unfold set_at. destruct (Z.eqb_spec id (t_id t)) as [->|]; [|apply (dk_context w Hw)].
    destruct (dk_context w Hw (t_id t)) as (? & _ & _), (Hwide (t_id t)). simpl. split_and!; [done|done|lia].
  - intros id. unfold set_at. destruct (Z.eqb_spec id (t_id t)) as [->|]; [by left|]. apply Hwait. by left.
  - intros v Hv Hd. rewrite Hpin. unfold set_at. destruct (t_id v =? t_id t); [by intros i x ?|].
    apply (dk_pinned w Hw); [|done]. rewrite <-Hp. by right.
  - rewrite (buffers_ext _ (v_context w) (flights io)) by (intros v _ _; apply Hpin).
    pose proof (dk_apart w Hw) as Hap. unfold holders, in_use in Hap. revert Hap. apply all_apart_perm.
    rewrite <-Hp, (buffers_cons _ t), <-!app_assoc. apply Permutation_app_swap_app.
  - intros id n [?|(r' & t' & cm' & Hs' & _)]%success_settled _; [done|congruence].
Qed.

(** The event of the read is behind its copies. *)
Lemma stage_events w owns r t :
  device_ok w -> for_device t ->
  let w' := stage_copy device_dst ids owns r t w in
  forall k j d, on_stream k (v_queued w') !! j = Some d -> cp_owns d = true -> cp_id d ∈ ids ->
    exists q, k = (q, dctx) /\ v_done w k + Z.of_nat j < v_event w' q.
Proof.
  intros Hw Ht w' k j d. unfold w', stage_copy. cbn [v_queued v_event]. set (new := mkCopy _ _ _ _ _ _).
  rewrite on_stream_app. intros [Hj|[Hge Hj]]%lookup_app_Some Ho Hi.
  - destruct (dk_event w Hw k j d Hj Ho Hi) as (q & -> & Hq). exists q. split; [done|].
    destruct (owns && _) eqn:Hupd; [|done]. destruct (decide (q = r)) as [->|]; [|done].
    apply andb_true_iff in Hupd as [_ Hin%bool_decide_eq_true]. destruct (Ht Hin) as [_ ->].
    rewrite on_stream_app, length_app. apply lookup_lt_Some in Hj. lia.
  - rewrite on_stream_one in Hj. destruct (decide (cp_stream new = k)) as [Hk|]; [|done].
    destruct (j - length (on_stream k (v_queued w)))%nat as [|i] eqn:E; [|done]. injection Hj as <-.
    simpl in Ho, Hi, Hk. subst owns. destruct (Ht Hi) as [_ Hc]. rewrite Hc in Hk |- *. exists r. split; [done|].
    rewrite (bool_decide_eq_true_2 _ Hi). simpl. rewrite decide_True by done. subst k.
    rewrite on_stream_app, length_app, on_stream_one, decide_True by (simpl; by rewrite Hc). simpl. lia.
Qed.

(** A transfer has succeeded: its copy is queued with its buffer. *)
Lemma success_ok w o r t cm n :
  once (w_pool (v_io w)) -> sized_pool for_device (w_pool (v_io w)) -> device_ok w -> boarding o (v_io w) = None ->
  settling strerror policy o (v_io w) = Some (r, t, cm, Report (inr n)) ->
  (forall bytes, wants (t_id t) bytes -> v_delivered w (t_id t) = bytes) ->
  device_ok (set_io (world_step strerror policy (v_io w) o) (if is_device t then stage_copy device_dst ids true r t w else w)).
Proof using All.
  intros Hone Hsized Hw Hb Hs Hall. pose proof (settled_wait w o r t cm _ Hone Hw Hb Hs) as Hwait.
  pose proof (world_flights strerror policy (v_io w) o) as Hf. rewrite Hb, Hs in Hf.
  pose proof (settled_flies _ _ _ _ _ _ _ _ Hs) as Ht. pose proof (flights_sized _ _ _ Hsized Ht) as Hfor.
  set (io := world_step strerror policy (v_io w) o) in *. destruct Hf as [Hp _].
  assert (Hsub : forall u, u ∈ flights io -> u ∈ flights (v_io w)) by (intros u Hu; rewrite <-Hp; by right).
  pose proof (dk_apart w Hw) as Hap. unfold holders, in_use in Hap. destruct (is_device t) eqn:Hd.
  - apply (pool_change w); simpl.
    + done.
    + intros y. apply reports_stay.
    + apply (dk_context w Hw).
    + intros id. apply Hwait. right. by eexists.
    + intros u Hu. apply (dk_pinned w Hw). by apply Hsub.
    + rewrite sources_app. revert Hap. apply all_apart_perm. rewrite <-Hp, (buffers_cons _ t), (buffers_device _ t Hd).
      f_equiv. rewrite <-app_assoc. change (sources [_]) with [pinned_buffer (v_context w (t_id t))].
      rewrite (app_assoc (buffers _ _)). apply Permutation_app_comm.
    + apply Forall_singleton. constructor; simpl; [done|apply (dk_context w Hw)| |done]. intros _ bytes Hbytes.
      rewrite <-(Hall bytes Hbytes). by apply (dk_pinned w Hw).
    + exact (stage_events w true r t Hw Hfor).
    + intros id m [?|(r' & t' & cm' & Hs' & <-)]%success_settled _; [by left|right]. rewrite Hs in Hs'. injection Hs' as _ <- _ _.
      eexists. split; [by left|]. done.
  - apply (pool_change_none w); simpl.
    + done.
    + intros y. apply reports_stay.
    + apply (dk_context w Hw).
    + intros id. apply Hwait. right. by eexists.
    + intros u Hu. apply (dk_pinned w Hw). by apply Hsub.
    + revert Hap. by rewrite <-Hp, (buffers_cons _ t), (buffers_host _ t Hd).
    + intros id m [?|(r' & t' & cm' & Hs' & <-)]%success_settled Hin; [done|]. rewrite Hs in Hs'. injection Hs' as _ <- _ _.
      destruct (Hfor Hin) as [? _]. congruence.
Qed.

(** A transfer has failed, with or without a copy left on the stream. *)
Lemma failure_ok w o r t cm e (queued : bool) :
  once (w_pool (v_io w)) -> sized_pool for_device (w_pool (v_io w)) -> device_ok w -> boarding o (v_io w) = None ->
  settling strerror policy o (v_io w) = Some (r, t, cm, Report (inl e)) ->
  device_ok (set_io (world_step strerror policy (v_io w) o)
    (give_back (buffers (v_context w) [t]) (if queued then stage_copy device_dst ids false r t w else w))).
Proof using All.
  intros Hone Hsized Hw Hb Hs. pose proof (settled_wait w o r t cm _ Hone Hw Hb Hs) as Hwait.
  pose proof (world_flights strerror policy (v_io w) o) as Hf. rewrite Hb, Hs in Hf.
  pose proof (settled_flies _ _ _ _ _ _ _ _ Hs) as Ht. pose proof (flights_sized _ _ _ Hsized Ht) as Hfor.
  set (io := world_step strerror policy (v_io w) o) in *. destruct Hf as [Hp Hrep].
  assert (Hap : all_apart cap ((buffers (v_context w) [t] ++ v_free w) ++ buffers (v_context w) (flights io) ++ sources (v_queued w))).
  { pose proof (dk_apart w Hw) as Hap. unfold holders, in_use in Hap. revert Hap. apply all_apart_perm.
    rewrite <-Hp, (buffers_cons _ t), <-!app_assoc. apply Permutation_app_swap_app. }
  assert (Hsuc : forall id m, (id, inr m) ∈ Reactor.reports (w_pool io) -> (id, inr m) ∈ Reactor.reports (w_pool (v_io w))).
  { intros id m [?|(r' & t' & cm' & Hs' & _)]%success_settled; [done|congruence]. }
  assert (Hpin : forall u, u ∈ flights io -> is_device u = true ->
    prefix_at (pinned_buffer (v_context w (t_id u))) (v_delivered w (t_id u)) (host (v_mem w))).
  { intros u Hu. apply (dk_pinned w Hw). rewrite <-Hp. by right. }
  destruct queued.
  - apply (pool_change w); simpl; try done.
    + intros y. apply reports_stay.
    + apply (dk_context w Hw).
    + intros id. apply Hwait. right. by eexists.
    + by rewrite sources_app, app_nil_r.
    + apply Forall_singleton. constructor; simpl; [done|apply (dk_context w Hw)|done|]. intros _. exists e. by apply Hrep.
    + exact (stage_events w false r t Hw Hfor).
    + intros id m Hm _. left. by apply Hsuc.
  - apply (pool_change_none w); simpl; try done.
    + intros y. apply reports_stay.
    + apply (dk_context w Hw).
    + intros id. apply Hwait. right. by eexists.
    + intros id m Hm _. by apply Hsuc.
Qed.

Lemma pool_ok w o b queued :
  once (w_pool (v_io w)) -> sized_pool for_device (w_pool (v_io w)) -> device_ok w ->
  op_fair err strerror policy cap body w (DIo o b queued) ->
  device_ok (pool_step_d strerror policy device_dst ids o b queued w).
Proof using All.
  intros Hone Hsized Hw [Hfree Hhonest]. unfold pool_step_d. destruct (boarding o (v_io w)) as [t|] eqn:Hb.
  - apply board_ok; try done. by apply Hfree.
  - destruct (settling strerror policy o (v_io w)) as [[[[r t] cm] [[e|n]|u]]|] eqn:Hs.
    + by apply (failure_ok w o r t cm e).
    + apply (success_ok w o r t cm n); try done. intros bytes Hbytes.
      destruct (Hhonest r t cm _ bytes eq_refl (wants_body _ _ Hbytes)) as [_ Hd].
      destruct (settled_success _ _ _ _ _ _ _ _ Hs). by apply Hd.
    + by apply (put_back_ok w o r t cm u).
    + by apply landing_ok.
Qed.

Definition op_apart_d (o : device_op) : Prop :=
  match o with
  | DeviceWrites a data =>
      (a + Z.of_nat (length data) <= buf \/ buf + size <= a) /\
      (forall q, quiet q -> q < a \/ a + Z.of_nat (length data) <= q)
  | _ => True
  end.

Lemma once_next w o :
  (match o with Submit ts => Forall fresh ts | _ => True end) -> conserved (w_pool w) ->
  conserved (w_pool (world_step strerror policy w o)).
Proof. intros Ho. by apply (pool_steps_conserved strerror policy), world_step_pool. Qed.

Lemma run_device_ok ops w :
  device_ok w -> conserved (w_pool (v_io w)) ->
  (forall id, (asked id (submitted (w_pool (v_io w)) ++ concat (submitted_by <$> omap world_op_of ops)) <= 1)%nat) ->
  sized_pool for_device (w_pool (v_io w)) ->
  fresh_submissions (omap world_op_of ops) -> sized_submissions for_device (omap world_op_of ops) ->
  Forall op_apart_d ops -> fair err c strerror policy device_dst ids cap body ops w ->
  device_ok (run_device err c strerror policy device_dst ids ops w).
Proof using All.
  revert w. induction ops as [|o ops IH]; intros w Hw Hc Honce Hs Hfresh Hsub Hap Hfair; [done|].
  destruct Hfair as [Ho Hfair]. apply Forall_cons in Hap as [Hapo Hap].
  assert (Hone : once (w_pool (v_io w))).
  { split; [done|]. intros id. specialize (Honce id). rewrite asked_app in Honce. lia. }
  unfold fresh_submissions, sized_submissions in *. cbn [run_device foldl].
  assert (Hnext : device_ok (device_step err c strerror policy device_dst ids w o)).
  { destruct o as [o b q|r i data|k|a data|a data]; simpl in *.
    - by apply pool_ok.
    - by apply chunk_ok.
    - by apply stream_ok.
    - by apply host_write_ok.
    - destruct Hapo. by apply device_write_ok. }
  apply IH; [exact Hnext| | | | | |exact Hap|exact Hfair]; rewrite ?device_step_io; destruct o as [o b q|r i data|k|a data|a data]; simpl in *; try done.
  - apply Forall_cons in Hfresh as [? _]. by apply once_next.
  - intros id. specialize (Honce id). by rewrite world_step_submitted, <-app_assoc.
  - apply Forall_cons in Hsub as [? _]. by apply world_step_sized; [apply for_device_same|..].
  - by apply Forall_cons in Hfresh as [_ ?].
  - by apply Forall_cons in Hsub as [_ ?].
Qed.
End invariant.

(** ** The read *)

(** Where each transfer goes and how wide it is, [other] telling it for the
    handles of other callers. *)
Definition destinations (other : Z -> Z * Z) (ids : list Z) (l : list subrange) (id : Z) : Z * Z :=
  default (other id) ((fun t => (tk_devPtr_offset (sr_task t), tk_size (sr_task t))) <$> read_of ids l id).

Section read.
Context (err : Z) (c : copy_config) (strerror : CURLcode -> string) (policy : HttpRetryPolicy) (max_total reactors_ : Z) (p0 : pool).
Context (ctx : Z) (ids : list Z) (l : list subrange) (before after : list world_op) (ops : list device_op).
Context (buf size file_offset cap : Z) (remote : Z -> Z) (m0 : memories) (other : Z -> Z * Z).
Hypothesis Hmax : is_size max_total.
Hypothesis Hp0 : new_reactor_pool max_total reactors_ = Ok p0.
Hypothesis Hids : NoDup ids.
Hypothesis Hlen : length ids = length l.
Hypothesis Hothers : of_others ids (before ++ after).
Hypothesis Hnames : NoDup (concat (submitted_by <$> (before ++ after))).
Hypothesis Hfresh : fresh_submissions (before ++ after).
Hypothesis Hops : omap world_op_of ops = history ctx ids l before after.
Hypothesis Htiles : tiles file_offset buf size (sr_task <$> l).
Hypothesis Hparts : Forall (fun t => sr_device t = true /\ tk_size (sr_task t) < SIZE_MOD - err /\ tk_size (sr_task t) <= cap) l.
Hypothesis Hwide : forall id, 0 <= (other id).2 < SIZE_MOD - err /\ (other id).2 <= cap.
Hypothesis Hapart : forall id, id ∉ ids -> (other id).1 + (other id).2 <= buf \/ buf + size <= (other id).1.
Hypothesis Helse : Forall (fun o => match o with DeviceWrites a data => a + Z.of_nat (length data) <= buf \/ buf + size <= a | _ => True end) ops.

Abbreviation dst := (fun id => (destinations other ids l id).1).
Abbreviation wide := (fun id => (destinations other ids l id).2).

Definition start_device : device_world :=
  mkDeviceWorld (new_world p0) m0 (fun id => mkCtx 0 (wide id) 0 false 0) (fun _ => []) [] [] (fun _ => 0) (fun _ => 0).

Definition device_after : device_world := run_device err c strerror policy dst ids ops start_device.

(** Nobody writes [q] in device memory. *)
Definition untouched (q : Z) : Prop :=
  (q < buf \/ buf + size <= q) /\ (forall id, q < (other id).1 \/ (other id).1 + (other id).2 <= q) /\
  Forall (fun o => match o with DeviceWrites a data => q < a \/ a + Z.of_nat (length data) <= q | _ => True end) ops.

Hypothesis Hfair : fair err c strerror policy dst ids cap (body_of remote ids l) ops start_device.

Lemma part_destination k id t :
  ids !! k = Some id -> l !! k = Some t ->
  wide id = tk_size (sr_task t) /\ dst id = tk_devPtr_offset (sr_task t) /\
  body_of remote ids l id = Some (file_bytes remote (tk_file_offset (sr_task t)) (tk_size (sr_task t))).
Proof using Hids. intros Hk Ht. unfold destinations, body_of. by rewrite (read_of_part ids l k id t). Qed.

Lemma destination_of id :
  (exists k t, ids !! k = Some id /\ l !! k = Some t) \/ (id ∉ ids /\ destinations other ids l id = other id).
Proof using Hlen.
  destruct (decide (id ∈ ids)) as [Hin|Hin]; [left|right].
  - apply list_elem_of_lookup in Hin as [k Hk]. destruct (lookup_lt_is_Some_2 l k) as [t Ht];
      [rewrite <-Hlen; by eapply lookup_lt_Some|]. by exists k, t.
  - split; [done|]. unfold destinations. by rewrite read_of_other.
Qed.

Lemma wide_ok id : 0 <= wide id < SIZE_MOD - err /\ wide id <= cap.
Proof using All.
  destruct (destination_of id) as [(k & t & Hk & Ht)|[_ ->]]; [|apply Hwide].
  destruct (part_destination k id t Hk Ht) as (-> & _ & _).
  pose proof (proj1 (Forall_forall _ _) Hparts t (list_elem_of_lookup_2 _ _ _ Ht)) as (_ & ? & ?). simpl in *.
  pose proof (tiles_within _ _ _ _ (sr_task t) Htiles (list_elem_of_fmap_2 _ _ _ (list_elem_of_lookup_2 _ _ _ Ht))). lia.
Qed.

Lemma untouched_outside q id : untouched q -> q < dst id \/ dst id + wide id <= q.
Proof using All.
  intros (Hq & Ho & _). destruct (destination_of id) as [(k & t & Hk & Ht)|[_ ->]]; [|apply Ho].
  destruct (part_destination k id t Hk Ht) as (-> & -> & _).
  pose proof (tiles_within _ _ _ _ (sr_task t) Htiles (list_elem_of_fmap_2 _ _ _ (list_elem_of_lookup_2 _ _ _ Ht))). lia.
Qed.

Lemma named_once id : (asked id (concat (submitted_by <$> history ctx ids l before after)) <= 1)%nat.
Proof using Hids Hlen Hnames Hothers.
  pose proof (asked_others ids (before ++ after) id Hothers) as Ho. rewrite fmap_app, concat_app in Ho, Hnames.
  unfold history. rewrite fmap_app, concat_app. cbn [fmap list_fmap concat submitted_by].
  rewrite !asked_app in *. rewrite mine_ids by done. destruct (decide (id ∈ ids)) as [Hin|Hin].
  - specialize (Ho Hin). rewrite (asked_nodup ids id) by done. lia.
  - assert (Hz : asked id ids = 0%nat).
    { unfold asked. rewrite filter_none; [done|]. by intros x Hx ->. }
    assert (Hn : (asked id (concat (submitted_by <$> before) ++ concat (submitted_by <$> after)) <= 1)%nat); [|rewrite asked_app in Hn; lia].
    clear Ho Hz. induction Hnames as [|x k Hx _ IH]; [unfold asked; simpl; lia|]. unfold asked in *. rewrite filter_cons.
    destruct (decide (x = id)) as [->|]; [|exact IH]. rewrite filter_none; [simpl; lia|]. by intros y Hy ->.
Qed.

Lemma mine_for_device : Forall (for_device ids ctx) (transfers_of ctx ids l).
Proof using Hparts.
  assert (Hall : forall js, Forall (fun u => is_device u = true /\ device_ctx u = ctx) (transfers_of ctx js l)).
  { unfold transfers_of. clear -Hparts. induction Hparts as [|t k [Ht _] Hk IH]; intros [|j js]; simpl; constructor.
    - simpl. by rewrite Ht.
    - by apply (IH Hk). }
  eapply Forall_impl; [apply Hall|]. by intros u Hu _.
Qed.

Lemma others_for_device o : o ∈ before ++ after -> match o with Submit ts => Forall (for_device ids ctx) ts | _ => True end.
Proof using Hothers.
  intros Ho. pose proof (proj1 (Forall_forall _ _) Hothers o Ho) as Hi. destruct o as [ts| | | | | | | |]; try done.
  simpl in Hi. rewrite Forall_fmap in Hi. eapply Forall_impl; [exact Hi|]. intros t Ht Hin. by destruct Ht.
Qed.

Lemma device_after_ok : device_ok dst wide ids l ctx cap (device m0) remote untouched device_after.
Proof using All.
  assert (Hpool : w_pool (new_world p0) = p0) by done.
  assert (Hr0 : Reactor.reports p0 = [] /\ submitted p0 = [] /\ flights_of p0 = []).
  { apply new_pool_inv in Hp0 as [_ ->]. split_and!; [done|done|]. unfold flights_of. simpl. clear.
    induction (seqZ 0 reactors_) as [|i k IH]; [done|exact IH]. }
  destruct Hr0 as (Hr0 & Hs0 & Hf0).
  apply (run_device_ok err c strerror policy dst wide ids l ctx cap (body_of remote ids l) (device m0) buf size file_offset remote);
    try done.
  - apply wide_ok.
  - apply part_destination.
  - intros id Hid. destruct (destination_of id) as [(k & t & Hk & _)|[_ ->]]; [|by apply Hapart].
    by destruct Hid; eapply list_elem_of_lookup_2.
  - intros q id. apply untouched_outside.
  - constructor; simpl; try done.
    + intros id. pose proof (wide_ok id). simpl in *. lia.
    + by left.
    + unfold holders, in_use. simpl. change (flights (new_world p0)) with (flights_of p0). rewrite Hf0. constructor.
    + by intros d ?%not_elem_of_nil.
    + rewrite Hr0. by intros id n bytes ?%not_elem_of_nil.
  - by eapply new_pool_ok.
  - intros id. simpl. rewrite Hs0, Hops. apply named_once.
  - by eapply new_pool_sized.
  - rewrite Hops. apply history_split; [apply mine_fresh|exact Hfresh].
  - rewrite Hops. apply history_split; [apply mine_for_device|]. apply Forall_forall, others_for_device.
  - apply Forall_forall. intros o Ho. pose proof (proj1 (Forall_forall _ _) Helse o Ho) as Hi.
    destruct o as [| | | |a data]; try done. split; [exact Hi|]. intros q (_ & _ & Hq).
    exact (proj1 (Forall_forall _ _) Hq _ Ho).
Qed.

Lemma pool_of_device_after : w_pool (v_io device_after) = pool_after strerror policy p0 ctx ids l before after.
Proof using Hops. unfold device_after, pool_after. by rewrite run_device_io, Hops. Qed.

(** The events have been reached, so no copy of the read is queued. *)
Lemma synced_bytes :
  (forall q, v_event device_after q <= v_done device_after (q, ctx)) ->
  (forall id, id ∈ ids -> exists n, (id, inr n) ∈ Reactor.reports (w_pool (v_io device_after))) ->
  forall i, 0 <= i < size -> device (v_mem device_after) (buf + i) = remote (file_offset + i).
Proof using All.
  intros Hsync Hall. pose proof device_after_ok as Hok. apply (parts_make_whole ids l buf size file_offset remote); [done|done|].
  intros k id t Hk Ht. destruct (Hall id) as [n Hn]; [by eapply list_elem_of_lookup_2|].
  destruct (part_destination k id t Hk Ht) as (_ & Hd & _).
  destruct (dk_success _ _ _ _ _ _ _ _ _ _ Hok id n _ Hn (ex_intro _ k (ex_intro _ t (conj Hk (conj Ht eq_refl))))) as [Hp|(d & Hdq & Ho & Hi)].
  - simpl in Hp, Hd. by rewrite <-Hd.
  - exfalso. assert (Hin : d ∈ on_stream (cp_stream d) (v_queued device_after)) by by apply list_elem_of_filter.
    apply list_elem_of_lookup in Hin as [j Hj].
    destruct (dk_event _ _ _ _ _ _ _ _ _ _ Hok _ j d Hj Ho) as (q & Hq & Hlt); [subst id; by eapply list_elem_of_lookup_2|].
    specialize (Hsync q). rewrite <-Hq in Hsync. lia.
Qed.
End read.

(** C8. The bytes of a multi-poll read into device memory.  However the chunks
    of its transfers, their failed attempts and retries, the streams of the
    threads, other callers and the reuse of bounce buffers interleave, once the
    caller's future, which also waits for the events, holds a value, that value
    is the size of the read and device memory holds exactly the range of the
    file.  At all times, device memory that nobody else writes and that is not
    in the destination is as it was. *)
Theorem multi_poll_device_read_delivers `{CurlUrl} (err : Z) (c : copy_config) (remote : Z -> Z)
    script thread now page call_counter (h : RemoteHandle)
    (buf size file_offset task_size thread_pool bbs : Z) (opts : list setting)
    (w w' : world) physical (l : list subrange)
    strerror policy (max_total n : Z) (p0 : pool) (ctx : Z) (ids : list Z) (before after : list world_op)
    (ops : list device_op) (m0 : memories) (other : Z -> Z * Z) (recorder : bool) (a : aggregate) (sync : option exn) :
  is_size file_offset -> is_size (rh_nbytes h) -> is_size size -> size < SIZE_MOD - err ->
  size + task_size <= SIZE_MOD -> Endpoint.setopt (rh_endpoint h) = Ok opts ->
  pread script thread now page call_counter h buf size file_offset task_size thread_pool false
    MULTI_POLL bbs w = Ok (MultiPollTransfers physical l, w') ->
  is_size max_total -> new_reactor_pool max_total n = Ok p0 ->
  NoDup ids -> length ids = length l -> of_others ids (before ++ after) ->
  NoDup (concat (submitted_by <$> (before ++ after))) -> fresh_submissions (before ++ after) ->
  omap world_op_of ops = history ctx ids l before after ->
  (forall id, 0 <= (other id).2 < SIZE_MOD - err /\ (other id).2 <= bbs) ->
  (forall id, id ∉ ids -> (other id).1 + (other id).2 <= buf \/ buf + size <= (other id).1) ->
  Forall (fun o => match o with DeviceWrites a data => a + Z.of_nat (length data) <= buf \/ buf + size <= a | _ => True end) ops ->
  fair err c strerror policy (fun id => (destinations other ids l id).1) ids bbs (body_of remote ids l) ops
    (start_device p0 ids l m0 other) ->
  let v := device_after err c strerror policy p0 ids l ops m0 other in
  rtc (aggregate_step recorder (length l)) (fresh_aggregate (length l)) a ->
  (Aggregate.reports a).*1 ≡ₚ (reports_of ids (w_pool (v_io v))).*2 ->
  (sync = None -> forall q, v_event v q <= v_done v (q, ctx)) ->
  (forall r m, promise a = Some r -> pread_future false sync r = inr m ->
     m = size /\ forall i, 0 <= i < size -> device (v_mem v) (buf + i) = remote (file_offset + i)) /\
  (forall q, untouched ops buf size other q -> device (v_mem v) q = device m0 q).
Proof.
  intros Ho Hn Hs Hse Hsum Hopts Hp Hmax Hp0 Hids Hlen Hothers Hnames Hfresh Hops Hwide Hap Helse Hfair v Ha Hperm Hsync.
  destruct (plan_adds_up _ _ _ _ _ _ _ _ _ _ _ _ _ _ _ _ _ _ Ho Hn Hs Hsum Hopts Hp) as (Hpos & Hlt & Hsize).
  destruct (pread_transfers_tile _ _ _ _ _ _ _ _ _ _ _ _ _ _ _ _ _ _ Ho Hn Hs Hsum Hopts Hp) as (_ & Htiles & _ & Hall).
  unfold is_size in Hs.
  assert (Hparts : Forall (fun t => sr_device t = true /\ tk_size (sr_task t) < SIZE_MOD - err /\ tk_size (sr_task t) <= bbs) l).
  { apply Forall_forall. intros t Ht. pose proof (proj1 (Forall_forall _ _) Hall t Ht) as [(_ & Hd & _) Hc].
    pose proof (tiles_within _ _ _ _ (sr_task t) Htiles (list_elem_of_fmap_2 _ _ _ Ht)). split_and!; [done|lia|by apply Hc]. }
  split; [intros r m Hr Hm|intros q Hq].
  - destruct r as [e|x]; [done|]. simpl in Hm. destruct sync as [e|]; [done|]. injection Hm as ->.
    pose proof (pool_of_device_after err c strerror policy p0 ctx ids l before after ops m0 other Hops) as Hpool.
    unfold v in Hperm. rewrite Hpool in Hperm.
    destruct (read_succeeds strerror policy max_total n p0 ctx ids l before after Hmax Hp0 Hids Hlen Hothers Hfresh
                recorder a m Hpos Hlt ltac:(lia) ltac:(lia) Ha Hperm Hr) as [-> Hdone].
    split; [done|]. apply (synced_bytes err c strerror policy max_total n p0 ctx ids l before after ops buf size file_offset bbs);
      try done; [by apply Hsync|]. intros id Hid. rewrite Hpool. by apply Hdone.
  - eapply dk_frame, Hq.
    apply (device_after_ok err c strerror policy max_total n p0 ctx ids l before after ops buf size file_offset bbs remote); done.
Qed.

(** ** Two sub-ranges, a retry, and a buffer that is used again *)

Definition device_plan : list subrange :=
  [mkSubrange [OPT_URL "http://h/f"; OPT_RANGE "3-10"] (mkTask 8 3 100) true;
   mkSubrange [OPT_URL "http://h/f"; OPT_RANGE "11-12"] (mkTask 2 11 108) true].

Definition device_context : PhysicalObservationContext :=
  mkContext REMOTE_HTTP READ DEVICE None "http://h/f" (Some "GET").

Lemma device_pread :
  pread (H := demo_curl) (fun _ => []) 1 0 4096 5 demo_handle 100 10 3 8 0 false MULTI_POLL 16
    initial_world = Ok (MultiPollTransfers device_context device_plan, initial_world).
Proof. vm_compute. reflexivity. Qed.

Definition another : transfer := mkTransfer 9 5 true 7 0 0 false false false false.
Definition another_goes (id : Z) : Z * Z := if id =? 9 then (1000, 5) else (0, 0).

Definition admits (r : nat) (b : Z) : list device_op :=
  [DIo (Work r TurnPop) 0 false; DIo (Work r (TurnHand (mkGates (inr true) None) a_pass)) b false].

(** The part of reactor 0 is retried with the buffer of the part of reactor 1,
    whose copy the device has made by then. *)
Definition demo_device_ops : list device_op :=
  [DIo (Submit [another]) 0 false; DIo (Submit (transfers_of 7 [1; 2] device_plan)) 0 false] ++
  admits 0 5000 ++ admits 0 5016 ++ admits 1 6000 ++
  [Chunk 0 1 [21; 28; 35]; DIo (Work 0 (TurnReap 6 1 broken calm)) 0 false;
   Chunk 1 0 [77]; HostWrites 5016 [1; 2]; Chunk 1 0 [84]; DIo (reaps 1 0) 0 false; Chunk 0 0 [3]; StreamRuns (1%nat, 7);
   DIo (Work 0 (TurnRetry 0 (mkGates (inr true) None) (mkAdmitPass calm 600000000 []))) 6000 false;
   Chunk 0 1 [21; 28; 35; 42]; DeviceWrites 300 [1; 2]; Chunk 0 1 [49; 56; 63; 70]; DIo (reaps 0 1) 0 false;
   StreamRuns (0%nat, 7)].

Definition demo_device_after : list world_op := drop 2 (omap world_op_of demo_device_ops).

Definition empty_memories : memories := mkMem (fun _ => 0) (fun _ => 0).

Lemma demo_fair :
  fair 4294967295 demo_config demo_text demo_policy (fun id => (destinations another_goes [1; 2] device_plan id).1) [1; 2] 16
    (body_of demo_file [1; 2] device_plan) demo_device_ops (start_device demo_pool [1; 2] device_plan empty_memories another_goes).
Proof. apply fair_b_ok. vm_compute. reflexivity. Qed.

Abbreviation demo_v :=
  (device_after 4294967295 demo_config demo_text demo_policy demo_pool [1; 2] device_plan demo_device_ops empty_memories another_goes)
  (only parsing).

Lemma demo_told : (Aggregate.reports demo_sum).*1 ≡ₚ (reports_of [1; 2] (w_pool (v_io demo_v))).*2.
Proof. vm_compute. reflexivity. Qed.

Lemma demo_synced q : v_event demo_v q <= v_done demo_v (q, 7).
Proof. destruct q as [|[|q]]; vm_compute; discriminate. Qed.

Lemma demo_history : omap world_op_of demo_device_ops = history 7 [1; 2] device_plan [Submit [another]] demo_device_after.
Proof. vm_compute. reflexivity. Qed.

Lemma demo_names :
  of_others [1; 2] ([Submit [another]] ++ demo_device_after) /\
  NoDup (concat (submitted_by <$> ([Submit [another]] ++ demo_device_after))) /\
  fresh_submissions ([Submit [another]] ++ demo_device_after).
Proof. split_and!; repeat constructor; set_solver. Qed.

Lemma multi_poll_device_read_delivers_witness :
  promise demo_sum = Some (inr 10) /\
  forall i, 0 <= i < 10 -> device (v_mem demo_v) (100 + i) = demo_file (3 + i).
Proof.
  split; [reflexivity|]. destruct demo_names as (Hothers & Hnames & Hfresh).
  refine (proj2 (proj1 (multi_poll_device_read_delivers (H := demo_curl) 4294967295 demo_config demo_file
    (fun _ => []) 1 0 4096 5 demo_handle 100 10 3 8 0 16 [OPT_URL "http://h/f"] initial_world initial_world
    device_context device_plan demo_text demo_policy 4 2 demo_pool 7 [1; 2] [Submit [another]] demo_device_after
    demo_device_ops empty_memories another_goes true demo_sum None
    ltac:(done) ltac:(done) ltac:(done) ltac:(done) ltac:(done) ltac:(reflexivity) device_pread ltac:(done)
    ltac:(reflexivity) _ ltac:(reflexivity) Hothers Hnames Hfresh demo_history _ _ _ demo_fair demo_sum_run demo_told
    (fun _ => demo_synced)) (inr 10) 10 ltac:(reflexivity) ltac:(reflexivity))).
  - repeat constructor; set_solver.
  - intros id. unfold another_goes. destruct (id =? 9); simpl; lia.
  - intros id _. unfold another_goes. destruct (id =? 9); simpl; lia.
  - unfold demo_device_ops. repeat constructor; simpl; lia.
Defined.
