(* ===== verification/Summary.v ===== *)
(** * Statistics

    [src/statistics/counters.cpp] and [src/statistics/summary.cpp]: the
    process-wide counters, the summary a [SummaryMonitor] keeps of the
    operations it is told of, its busy time, and the serialised form.  The
    critical sections of the monitor are the steps; [now] is a reading of the
    steady clock.  Times and durations are integers of nanoseconds, counts
    64-bit words.  Its reports are in [Report]. *)

From stdpp Require Import base list strings pretty.
From Stdlib Require Import ZArith Lia.
From S2P Require Import Prelude Observation.

#[local] Open Scope Z_scope.

(** ** Counters *)

Record Counters := mkCounters {
  remote_size_probes : Z;
  remote_size_probing : Z;
  http_connections : Z;
  http_dns : Z;
  http_tcp : Z;
  http_tls : Z;
  http_retries : Z;
  http_retry_backoff : Z }.

#[global] Instance Counters_eq_dec : EqDecision Counters.
Proof. solve_decision. Defined.

Definition no_counters : Counters := mkCounters 0 0 0 0 0 0 0 0.

(** [count_remote_size_probe], [count_http_connection], [count_http_retry]. *)
Definition count_remote_size_probe (probing : Z) (c : Counters) : Counters :=
  mkCounters (remote_size_probes c +% 1) (remote_size_probing c + probing) (http_connections c)
    (http_dns c) (http_tcp c) (http_tls c) (http_retries c) (http_retry_backoff c).

Definition count_http_connection (connections dns tcp tls : Z) (c : Counters) : Counters :=
  mkCounters (remote_size_probes c) (remote_size_probing c) (http_connections c +% connections)
    (http_dns c + dns) (http_tcp c + tcp) (http_tls c + tls) (http_retries c)
    (http_retry_backoff c).

Definition count_http_retry (backoff : Z) (c : Counters) : Counters :=
  mkCounters (remote_size_probes c) (remote_size_probing c) (http_connections c) (http_dns c)
    (http_tcp c) (http_tls c) (http_retries c +% 1) (http_retry_backoff c + backoff).

(** [spent], the saturating difference; also the [subtract] of
    [Summary::since]. *)
Definition spent (mine previous : Z) : Z := if mine >? previous then mine - previous else 0.

Definition counters_since (c previous : Counters) : Counters :=
  mkCounters (spent (remote_size_probes c) (remote_size_probes previous))
    (spent (remote_size_probing c) (remote_size_probing previous))
    (spent (http_connections c) (http_connections previous))
    (spent (http_dns c) (http_dns previous)) (spent (http_tcp c) (http_tcp previous))
    (spent (http_tls c) (http_tls previous)) (spent (http_retries c) (http_retries previous))
    (spent (http_retry_backoff c) (http_retry_backoff previous)).

Definition counters_empty (c : Counters) : bool := bool_decide (c = no_counters).

(** ** The summary *)

Record BackendTotals := mkTotals {
  bt_num_ops : Z;
  bt_bytes_transferred : Z;
  bt_total_duration : Z;
  bt_num_errors : Z }.

Definition no_totals : BackendTotals := mkTotals 0 0 0 0.

(** [sum_kind] is the byte of the enumeration. *)
Record Summary := mkSummary {
  sum_start : Z;
  sum_end : Z;
  anchor : ClockAnchor;
  num_ops : Z;
  num_reads : Z;
  num_writes : Z;
  bytes_requested : Z;
  bytes_transferred : Z;
  bytes_read : Z;
  bytes_written : Z;
  num_errors : Z;
  by_backend : list BackendTotals;
  sum_counters : Counters;
  total_duration : Z;
  busy : Z;
  sum_kind : Z;
  reserved : list Z }.

Definition empty_summary : Summary :=
  mkSummary 0 0 (mkAnchor 0 0) 0 0 0 0 0 0 0 0 (replicate num_io_backends no_totals) no_counters 0 0
    (Z.of_nat (kind_index LOGICAL)) (replicate 7 0).

Definition wall (s : Summary) : Z := if sum_end s >? sum_start s then sum_end s - sum_start s else 0.

Definition mean_duration (s : Summary) : Z :=
  if num_ops s =? 0 then 0 else Z.quot (total_duration s) (num_ops s).

(** [Summary::since] *)
Definition totals_since (now was : BackendTotals) : BackendTotals :=
  mkTotals (spent (bt_num_ops now) (bt_num_ops was))
    (spent (bt_bytes_transferred now) (bt_bytes_transferred was))
    (spent (bt_total_duration now) (bt_total_duration was))
    (spent (bt_num_errors now) (bt_num_errors was)).

Definition summary_since (s previous : Summary) : result Summary :=
  _ ← expect ((sum_start previous =? sum_start s) && (sum_end previous <=? sum_end s))
        (InvalidArgument "`previous` must be an earlier reading of the same span, from `get()` rather than from `since()`");
  mret (mkSummary (sum_end previous) (sum_end s) (anchor s)
    (spent (num_ops s) (num_ops previous)) (spent (num_reads s) (num_reads previous))
    (spent (num_writes s) (num_writes previous))
    (spent (bytes_requested s) (bytes_requested previous))
    (spent (bytes_transferred s) (bytes_transferred previous))
    (spent (bytes_read s) (bytes_read previous)) (spent (bytes_written s) (bytes_written previous))
    (spent (num_errors s) (num_errors previous))
    (zip_with totals_since (by_backend s) (by_backend previous))
    (counters_since (sum_counters s) (sum_counters previous))
    (spent (total_duration s) (total_duration previous)) (spent (busy s) (busy previous))
    (sum_kind s) (replicate 7 0)).

(** ** Busy time *)

Record BusyTracker := mkTracker {
  closed_busy : Z;
  in_flight : Z;
  busy_since : Z;
  pending_end : Z;
  last_closed : Z;
  emitted_busy : Z }.

Definition new_tracker : BusyTracker := mkTracker 0 0 0 0 0 0.

Definition busy_reset (start : Z) (b : BusyTracker) : BusyTracker :=
  mkTracker 0 (in_flight b) start 0 start 0.

Definition busy_on_start (start : Z) (b : BusyTracker) : BusyTracker :=
  let from := Z.max start (last_closed b) in
  mkTracker (closed_busy b) (in_flight b +% 1)
    (if in_flight b =? 0 then from else Z.min (busy_since b) from)
    (pending_end b) (last_closed b) (emitted_busy b).

Definition busy_on_finish (end_ : Z) (b : BusyTracker) : BusyTracker :=
  if in_flight b =? 0 then b
  else
    let pending := Z.max (pending_end b) end_ in
    let left := in_flight b -% 1 in
    if left >? 0 then
      mkTracker (closed_busy b) left (busy_since b) pending (last_closed b) (emitted_busy b)
    else
      mkTracker
        (if pending >? busy_since b then closed_busy b + (pending - busy_since b) else closed_busy b)
        left (busy_since b) 0 (Z.max (last_closed b) pending) (emitted_busy b).

(** The reading, and the tracker after it. *)
Definition busy_read (now : Z) (b : BusyTracker) : Z * BusyTracker :=
  let open := if (in_flight b >? 0) && (now >? busy_since b) then now - busy_since b else 0 in
  let emitted := Z.max (emitted_busy b) (closed_busy b + open) in
  (emitted, mkTracker (closed_busy b) (in_flight b) (busy_since b) (pending_end b) (last_closed b)
              emitted).

(** ** The monitor *)

Record SummaryMonitor := mkMonitor {
  totals : Summary;
  registered : option Z;           (* [None] for [TimePoint::max()] *)
  stopped_end : option Z;          (* [None] while it runs *)
  registration : Z;
  counters_at_start : Counters;
  counters_at_stop : Counters;
  tracker : BusyTracker }.

(** The members before the constructor has stamped the span. *)
Definition unstamped (registration : Z) : SummaryMonitor :=
  mkMonitor empty_summary None None registration no_counters no_counters new_tracker.

Definition set_span (start : Z) (a : ClockAnchor) (kind : Z) : Summary :=
  mkSummary start 0 a 0 0 0 0 0 0 0 0 (replicate num_io_backends no_totals) no_counters 0 0 kind
    (replicate 7 0).

(** The constructor's critical section. *)
Definition stamp (t wall_clock : Z) (kind : ObservationKind) (counters : Counters)
    (m : SummaryMonitor) : SummaryMonitor :=
  mkMonitor (set_span t (mkAnchor t wall_clock) (Z.of_nat (kind_index kind))) (Some t)
    (stopped_end m) (registration m) counters (counters_at_stop m) (busy_reset t (tracker m)).

Definition refused (start : Z) (m : SummaryMonitor) : bool :=
  match registered m with None => true | Some t => start <? t end.

Definition monitor_on_start (o : Observation) (m : SummaryMonitor) : SummaryMonitor :=
  if refused (obs_start o) m then m
  else mkMonitor (totals m) (registered m) (stopped_end m) (registration m) (counters_at_start m)
         (counters_at_stop m) (busy_on_start (obs_start o) (tracker m)).

Definition add_totals (o : Observation) (t : BackendTotals) : BackendTotals :=
  mkTotals (bt_num_ops t +% 1) (bt_bytes_transferred t +% Observation.bytes_transferred o)
    (bt_total_duration t + duration o)
    (if negb (obs_ok o) then bt_num_errors t +% 1 else bt_num_errors t).

Definition add_operation (o : Observation) (s : Summary) : Summary :=
  let is_read := bool_decide (obs_direction o = READ) in
  mkSummary (sum_start s) (sum_end s) (anchor s) (num_ops s +% 1)
    (if is_read then num_reads s +% 1 else num_reads s)
    (if is_read then num_writes s else num_writes s +% 1)
    (bytes_requested s +% obs_size o) (bytes_transferred s +% Observation.bytes_transferred o)
    (if is_read then bytes_read s +% Observation.bytes_transferred o else bytes_read s)
    (if is_read then bytes_written s else bytes_written s +% Observation.bytes_transferred o)
    (if negb (obs_ok o) then num_errors s +% 1 else num_errors s)
    (alter (add_totals o) (backend_index (obs_backend o)) (by_backend s))
    (sum_counters s) (total_duration s + duration o) (busy s) (sum_kind s) (reserved s).

Definition monitor_on_finish (o : Observation) (m : SummaryMonitor) : SummaryMonitor :=
  if refused (obs_start o) m then m
  else
    let tracker := busy_on_finish (obs_end o) (tracker m) in
    mkMonitor (if obs_start o <? sum_start (totals m) then totals m else add_operation o (totals m))
      (registered m) (stopped_end m) (registration m) (counters_at_start m) (counters_at_stop m)
      tracker.

(** [get]: the reading, and the monitor with the tracker's mark advanced. *)
Definition monitor_get (now : Z) (current_counters : Counters) (m : SummaryMonitor)
    : Summary * SummaryMonitor :=
  let end_ := default now (stopped_end m) in
  let '(b, tracker) := busy_read end_ (tracker m) in
  let s := totals m in
  (mkSummary (sum_start s) end_ (anchor s) (num_ops s) (num_reads s) (num_writes s)
     (bytes_requested s) (bytes_transferred s) (bytes_read s) (bytes_written s) (num_errors s)
     (by_backend s)
     (counters_since (match stopped_end m with Some _ => counters_at_stop m | None => current_counters end)
        (counters_at_start m))
     (total_duration s) b (sum_kind s) (reserved s),
   mkMonitor (totals m) (registered m) (stopped_end m) (registration m) (counters_at_start m)
     (counters_at_stop m) tracker).

Definition monitor_since (now : Z) (current_counters : Counters) (previous : Summary)
    (m : SummaryMonitor) : result Summary * SummaryMonitor :=
  let '(s, m) := monitor_get now current_counters m in (summary_since s previous, m).

Definition monitor_reset (t : Z) (counters : Counters) (m : SummaryMonitor) : SummaryMonitor :=
  mkMonitor (set_span t (anchor (totals m)) (sum_kind (totals m))) (registered m) (stopped_end m)
    (registration m) counters (counters_at_stop m) (busy_reset t (tracker m)).

Definition monitor_stop (now : Z) (final_counters : Counters) (m : SummaryMonitor) : SummaryMonitor :=
  if registration m =? 0 then m
  else mkMonitor (totals m) (registered m) (Some now) 0 (counters_at_start m) final_counters (tracker m).

(** What a callback throws: an exception with its [what()], or anything else. *)
Inductive thrown :=
  | ThrownException (what : string)
  | ThrownUnknown.

(** [~SummaryMonitor]: the monitor, the reading the callback got, and the log.
    [on_destruction] is the callback, which may throw; [now] and [later] are the
    clock at the stop and at the reading. *)
Definition destroy_monitor (now later : Z) (final_counters current_counters : Counters)
    (on_destruction : option (Summary -> option thrown)) (m : SummaryMonitor)
    : SummaryMonitor * option Summary * list string :=
  let m := monitor_stop now final_counters m in
  match on_destruction with
  | None => (m, None, [])
  | Some f =>
      let '(s, m) := monitor_get later current_counters m in
      (m, Some s,
       match f s with
       | None => []
       | Some (ThrownException what) => [("SummaryMonitor callback threw: " +:+ what)%string]
       | Some ThrownUnknown => ["SummaryMonitor callback threw an unknown exception"%string]
       end)
  end.

(** ** Busy time stays within the span *)

(** The span began at [start]; nothing has been reported later than [clock].
    Every reading so far fits between the two. *)
Record tracker_ok (start clock : Z) (b : BusyTracker) : Prop := mkTrackerOk {
  to_clock : start <= last_closed b <= clock;
  to_closed : 0 <= closed_busy b <= last_closed b - start;
  to_flight : 0 <= in_flight b < SIZE_MOD;
  to_since : 0 < in_flight b -> last_closed b <= busy_since b;
  to_pending : pending_end b <= clock;
  to_emitted : 0 <= emitted_busy b <= clock - start }.

Lemma tracker_later start clock clock' b :
  clock <= clock' -> tracker_ok start clock b -> tracker_ok start clock' b.
Proof. intros Hc [H1 H2 H3 H4 H5 H6]. constructor; try done; lia. Qed.

Lemma busy_reset_ok start clock b :
  0 <= clock -> tracker_ok start clock b -> tracker_ok clock clock (busy_reset clock b).
Proof. intros H0 [H1 H2 H3 H4 H5 H6]. constructor; simpl; try lia. Qed.

Lemma busy_on_start_ok start clock s b :
  s <= clock -> in_flight b + 1 < SIZE_MOD -> tracker_ok start clock b ->
  tracker_ok start clock (busy_on_start s b).
Proof.
  intros Hs Hb [H1 H2 H3 H4 H5 H6]. unfold busy_on_start.
  constructor; simpl; try done; rewrite ?wrap64_small by lia; [lia|].
  intros _. case_bool; [lia|]. specialize (H4 ltac:(lia)). lia.
Qed.

Lemma busy_on_finish_ok start clock e b :
  0 <= start -> e <= clock -> tracker_ok start clock b -> tracker_ok start clock (busy_on_finish e b).
Proof.
  intros H0 He [H1 H2 H3 H4 H5 H6]. unfold busy_on_finish. case_bool; [done|].
  specialize (H4 ltac:(lia)). rewrite (wrap64_small (in_flight b - 1)) by lia.
  destruct (in_flight b - 1 >? 0) eqn:Ef; bool_to_prop; constructor; simpl; try lia.
  case_bool; lia.
Qed.

Lemma busy_read_ok start clock b :
  0 <= start -> tracker_ok start clock b ->
  let '(r, b') := busy_read clock b in
  tracker_ok start clock b' /\ emitted_busy b <= r <= clock - start.
Proof.
  intros H0 [H1 H2 H3 H4 H5 H6]. unfold busy_read. simpl.
  destruct ((in_flight b >? 0) && (clock >? busy_since b)) eqn:E.
  - bool_to_prop. specialize (H4 ltac:(lia)). split; [constructor; simpl; try done; lia|lia].
  - split; [constructor; simpl; try done; lia|lia].
Qed.

(** What happens to a monitor, [clock] being a time no earlier than any taken
    before.  An operation is reported no earlier than it began or ended, in
    whatever order. *)
Inductive monitor_event :=
  | Started (o : Observation)
  | Finished (o : Observation)
  | Read_ (c : Counters)
  | Reset_ (c : Counters)
  | Stopped (c : Counters).

Definition event_ok (clock : Z) (e : monitor_event) (m : SummaryMonitor) : Prop :=
  match e with
  | Started o => obs_start o <= clock /\ stopped_end m = None /\ in_flight (tracker m) + 1 < SIZE_MOD
  | Finished o => obs_start o <= obs_end o <= clock /\ stopped_end m = None
  | Read_ _ | Reset_ _ | Stopped _ => True
  end.

Definition monitor_step (clock : Z) (e : monitor_event) (m : SummaryMonitor)
    : option Summary * SummaryMonitor :=
  match e with
  | Started o => (None, monitor_on_start o m)
  | Finished o => (None, monitor_on_finish o m)
  | Read_ c => let '(s, m) := monitor_get clock c m in (Some s, m)
  | Reset_ c => (None, monitor_reset clock c m)
  | Stopped c => (None, monitor_stop clock c m)
  end.

(** The totals of a span agree with each other. *)
Record totals_ok (s : Summary) : Prop := mkTotalsOk {
  tk_backends : length (by_backend s) = num_io_backends;
  tk_ops : num_ops s = wrap64 (num_reads s + num_writes s);
  tk_bytes : bytes_transferred s = wrap64 (bytes_read s + bytes_written s);
  tk_ops_by : num_ops s = wrap64 (sumZ (bt_num_ops <$> by_backend s));
  tk_bytes_by : bytes_transferred s = wrap64 (sumZ (bt_bytes_transferred <$> by_backend s));
  tk_time_by : total_duration s = sumZ (bt_total_duration <$> by_backend s);
  tk_errors_by : num_errors s = wrap64 (sumZ (bt_num_errors <$> by_backend s)) }.

(** The end of the measured span: the time of the stop, or now. *)
Definition span_clock (clock : Z) (m : SummaryMonitor) : Z := default clock (stopped_end m).

(** The span was reset after the stop, so that it ends before it starts. *)
Definition degenerate (m : SummaryMonitor) : Prop :=
  (exists e, stopped_end m = Some e /\ e <= sum_start (totals m)) /\
  closed_busy (tracker m) = 0 /\ emitted_busy (tracker m) = 0 /\
  busy_since (tracker m) = sum_start (totals m).

Record monitor_ok (clock : Z) (m : SummaryMonitor) : Prop := mkMonitorOk {
  mo_start : 0 <= sum_start (totals m);
  mo_clock : 0 <= span_clock clock m <= clock;
  mo_tracker : tracker_ok (sum_start (totals m)) (span_clock clock m) (tracker m) \/ degenerate m;
  mo_running : registration m <> 0 -> stopped_end m = None;
  mo_totals : totals_ok (totals m) }.

Lemma sum_alter (f : BackendTotals -> Z) (g : BackendTotals -> BackendTotals) l i t :
  l !! i = Some t -> sumZ (f <$> alter g i l) = sumZ (f <$> l) - f t + f (g t).
Proof.
  revert i. induction l as [|x l IH]; intros [|i] Hi; try done.
  - injection Hi as ->. csimpl. simpl. lia.
  - change (alter g (S i) (x :: l)) with (x :: alter g i l). csimpl. simpl. rewrite (IH i Hi). lia.
Qed.

Lemma totals_ok_span start a kind : totals_ok (set_span start a kind).
Proof. constructor; done. Qed.

Lemma add_operation_ok o s : totals_ok s -> totals_ok (add_operation o s).
Proof.
  intros [Hl Hops Hby Hopsb Hbyb Ht He].
  assert (Hi : (backend_index (obs_backend o) < length (by_backend s))%nat)
    by (rewrite Hl; destruct (obs_backend o); vm_compute; lia).
  apply lookup_lt_is_Some_2 in Hi as [t Hi].
  unfold add_operation. constructor; simpl; rewrite ?length_alter, ?(sum_alter _ _ _ _ _ Hi); simpl;
    [done|..].
  - rewrite Hops. destruct (bool_decide _); wrap_eq.
  - rewrite Hby. destruct (bool_decide _); wrap_eq.
  - rewrite Hopsb. wrap_eq.
  - rewrite Hbyb. wrap_eq.
  - lia.
  - rewrite He. destruct (obs_ok o); simpl; wrap_eq.
Qed.

Lemma refused_later o m : refused (obs_start o) m = false -> exists t, registered m = Some t.
Proof. unfold refused. destruct (registered m); [by eexists|done]. Qed.

(** While the monitor runs, and in the span it was stopped in. *)
Lemma monitor_step_running clock e m :
  monitor_ok clock m -> event_ok clock e m ->
  tracker_ok (sum_start (totals m)) (span_clock clock m) (tracker m) ->
  monitor_ok clock (monitor_step clock e m).2.
Proof.
  intros [H0 Hs Ht' Hr Htot] He Ht.
  destruct e as [o|o|c|c|c]; cbn [monitor_step event_ok] in *.
  - destruct He as (Ho & Hrun & Hf). unfold monitor_on_start.
    case_match; [done|]. unfold span_clock in *. rewrite Hrun in *. simpl in *.
    constructor; simpl; unfold span_clock; simpl; rewrite ?Hrun; try done.
    left. by apply busy_on_start_ok.
  - destruct He as (Ho & Hrun). unfold monitor_on_finish.
    case_match; [done|]. unfold span_clock in *. rewrite Hrun in *. simpl in *.
    assert (Hstart : sum_start (if obs_start o <? sum_start (totals m) then totals m
      else add_operation o (totals m)) = sum_start (totals m)) by by case_match.
    constructor; simpl; rewrite ?Hstart; unfold span_clock; simpl; rewrite ?Hrun; try done.
    + left. apply busy_on_finish_ok; [done|lia|done].
    + case_match; [done|by apply add_operation_ok].
  - pose proof (busy_read_ok _ _ _ H0 Ht) as Hread. unfold monitor_get.
    fold (span_clock clock m). destruct (busy_read _ _) as [b t]. destruct Hread as [Hok Hb].
    constructor; simpl; try done. by left.
  - pose proof (to_clock _ _ _ Ht). unfold monitor_reset.
    destruct (stopped_end m) as [z|] eqn:Hstop; constructor; simpl; unfold span_clock in *;
      simpl; rewrite ?Hstop in *; simpl in *; try done; try lia.
    + right. split; [exists z; split; [done|simpl; lia]|done].
    + left. eapply busy_reset_ok; [lia|done].
  - unfold monitor_stop. case_bool; [by constructor|].
    specialize (Hr ltac:(done)). unfold span_clock in *. rewrite Hr in *. simpl in *.
    constructor; simpl; unfold span_clock; simpl; try done. by left.
Qed.

Lemma monitor_step_degenerate clock e m :
  monitor_ok clock m -> event_ok clock e m -> degenerate m ->
  monitor_ok clock (monitor_step clock e m).2.
Proof.
  intros Hok He Hd. pose proof Hd as ((z & Hz & Hle) & Hc & Hem & Hsince).
  destruct Hok as [H0 Hs Ht' Hr Htot]. unfold span_clock in *. rewrite Hz in *. simpl in *.
  destruct e as [o|o|c|c|c]; cbn [monitor_step event_ok] in *.
  - destruct He as (_ & He & _). congruence.
  - destruct He as (_ & He). congruence.
  - unfold monitor_get, busy_read. rewrite Hz. simpl.
    constructor; simpl; unfold span_clock; simpl; rewrite ?Hz; try done. right.
    split; [by exists z|]. simpl. rewrite Hc, Hem.
    rewrite (Z.gtb_ltb z), (proj2 (Z.ltb_ge (busy_since (tracker m)) z)) by lia. by rewrite andb_false_r.
  - constructor; simpl; unfold span_clock; simpl; rewrite ?Hz; try done; [lia|].
    right. split; [exists z; split; [done|simpl; lia]|done].
  - unfold monitor_stop. case_bool; [|specialize (Hr ltac:(done)); congruence].
    constructor; cbn [snd]; unfold span_clock; rewrite ?Hz; try done.
Qed.

Lemma monitor_get_ok clock c m :
  monitor_ok clock m ->
  let s := (monitor_get clock c m).1 in 0 <= busy s <= wall s /\ totals_ok s.
Proof.
  intros [H0 Hs Ht Hr Htot]. unfold monitor_get. fold (span_clock clock m).
  destruct Ht as [Ht|((z & Hz & Hle) & Hc & Hem & Hsince)].
  - pose proof (busy_read_ok _ _ _ H0 Ht) as Hread. destruct (busy_read _ _) as [b t].
    destruct Hread as [Hok Hb]. pose proof (to_emitted _ _ _ Ht). unfold wall. simpl.
    split; [case_bool; lia|by destruct Htot].
  - unfold span_clock. rewrite Hz. unfold busy_read, wall. simpl. rewrite Hc, Hem, Hsince.
    assert (Hgt : (z >? sum_start (totals m)) = false) by (rewrite Z.gtb_ltb; by apply Z.ltb_ge).
    rewrite Hgt, andb_false_r. simpl.
    split; [lia|by destruct Htot].
Qed.

Lemma monitor_ok_later clock clock' m :
  clock <= clock' -> monitor_ok clock m -> monitor_ok clock' m.
Proof.
  intros Hc [H0 Hs Ht Hr Htot].
  assert (Hs' : span_clock clock' m <= clock' /\ span_clock clock m <= span_clock clock' m)
    by (unfold span_clock in *; destruct (stopped_end m); simpl in *; lia).
  constructor; try done; [lia|].
  destruct Ht as [Ht|Ht]; [left|by right]. eapply tracker_later; [apply Hs'|exact Ht].
Qed.

Lemma monitor_step_ok clock clock' e m :
  clock <= clock' -> monitor_ok clock m -> event_ok clock' e m ->
  let '(r, m') := monitor_step clock' e m in
  monitor_ok clock' m' /\
  match r with Some s => 0 <= busy s <= wall s /\ totals_ok s | None => True end.
Proof.
  intros Hc Hok He. apply (monitor_ok_later clock clock') in Hok; [|done].
  assert (Hstep : monitor_ok clock' (monitor_step clock' e m).2).
  { destruct (mo_tracker _ _ Hok); [by apply monitor_step_running|by apply monitor_step_degenerate]. }
  destruct e as [o|o|c|c|c]; try (split; [exact Hstep|done]).
  pose proof (monitor_get_ok clock' c m Hok) as Hget. simpl in *.
  by destruct (monitor_get clock' c m) as [s m'].
Qed.

(** A run: events with the clock at each, which never goes back. *)
Fixpoint run_monitor (events : list (Z * monitor_event)) (m : SummaryMonitor)
    : list Summary * SummaryMonitor :=
  match events with
  | [] => ([], m)
  | (clock, e) :: events =>
      let '(r, m) := monitor_step clock e m in
      let '(rs, m) := run_monitor events m in
      (match r with Some s => s :: rs | None => rs end, m)
  end.

Fixpoint run_valid (clock : Z) (events : list (Z * monitor_event)) (m : SummaryMonitor) : Prop :=
  match events with
  | [] => True
  | (clock', e) :: events =>
      clock <= clock' /\ event_ok clock' e m /\ run_valid clock' events (monitor_step clock' e m).2
  end.

Lemma run_monitor_ok clock events m :
  monitor_ok clock m -> run_valid clock events m ->
  Forall (fun s => 0 <= busy s <= wall s /\ totals_ok s) (run_monitor events m).1.
Proof.
  revert clock m. induction events as [|[clock' e] events IH]; intros clock m Hok; [done|].
  intros (Hc & He & Hv). cbn [run_monitor]. pose proof (monitor_step_ok clock clock' e m Hc Hok He) as Hs.
  destruct (monitor_step clock' e m) as [r m']. destruct Hs as [Hok' Hr].
  specialize (IH clock' m' Hok' Hv). destruct (run_monitor events m') as [rs m'']. simpl in *.
  destruct r as [s|]; [|done]. constructor; [tauto|done].
Qed.

(** A monitor as its constructor leaves it. *)
Definition new_monitor (registration t wall_clock : Z) (kind : ObservationKind) (c : Counters)
    : SummaryMonitor := stamp t wall_clock kind c (unstamped registration).

Lemma new_monitor_ok registration t wall_clock kind c :
  0 <= t -> monitor_ok t (new_monitor registration t wall_clock kind c).
Proof.
  intros Ht. unfold new_monitor, stamp, unstamped. constructor; simpl; try done.
  left. constructor; unfold span_clock; simpl; lia.
Qed.

(** Whatever the callback does, the destructor returns; the reading it is given
    ends where the monitor stopped, and agrees with itself. *)
Lemma destroy_monitor_reading clock now later final_counters current_counters f m :
  clock <= now -> now <= later -> monitor_ok clock m ->
  exists s, (destroy_monitor now later final_counters current_counters (Some f) m).1.2 = Some s /\
    0 <= busy s <= wall s /\ totals_ok s /\
    (registration m <> 0 -> sum_end s = now /\ sum_counters s = counters_since final_counters (counters_at_start m)).
Proof.
  intros Hnow Hlater Hok. unfold destroy_monitor.
  pose proof (monitor_step_ok clock now (Stopped final_counters) m Hnow Hok I) as [Hs _].
  apply (monitor_ok_later _ _ _ Hlater) in Hs. pose proof (monitor_get_ok later current_counters _ Hs) as [Hb Ht].
  cbn [monitor_step] in Hb, Ht. unfold monitor_get in *.
  destruct (busy_read _ _) as [b t]. eexists. split; [done|]. split_and!; [apply Hb|apply Hb|exact Ht|].
  unfold monitor_stop. intros Hr. by rewrite (proj2 (Z.eqb_neq _ 0) Hr).
Qed.

(** C36. In every reading of a monitor, whatever operations ran concurrently,
    however late they were reported, and whatever resets and stops there were,
    the busy time lies within the wall time of the span, and the totals agree:
    the operations are those read plus those written and those of all backends,
    and so are the bytes, the durations and the errors. *)
Theorem summary_readings_consistent (registration t wall_clock : Z) (kind : ObservationKind)
    (c : Counters) (events : list (Z * monitor_event)) :
  0 <= t ->
  run_valid t events (new_monitor registration t wall_clock kind c) ->
  Forall (fun s => 0 <= busy s <= wall s /\ totals_ok s)
    (run_monitor events (new_monitor registration t wall_clock kind c)).1.
Proof. intros Ht Hv. eapply run_monitor_ok; [by apply new_monitor_ok|exact Hv]. Qed.

(** Two overlapping reads on different backends, the second still running at
    the first reading and reported late, then a stop and a reset. *)
Definition sample_op (start end_ bytes : Z) (backend : IoBackend) : Observation :=
  mkObservation start end_ 0 100 bytes 1 None None "/data" LOGICAL backend READ HOST true.

Definition sample_events : list (Z * monitor_event) :=
  let a := sample_op 110 150 100 GDS in
  let b := sample_op 120 180 60 POSIX in
  [(110, Started a); (125, Started b); (155, Finished a); (160, Read_ no_counters);
   (190, Finished b); (200, Read_ no_counters); (210, Stopped no_counters);
   (220, Read_ no_counters); (230, Reset_ no_counters); (240, Read_ no_counters)].

Example summary_readings_consistent_witness :
  let m := new_monitor 7 100 5000 LOGICAL no_counters in
  (fun s => (busy s, wall s, num_ops s, bytes_transferred s)) <$> (run_monitor sample_events m).1
    = [(50, 60, 1, 100); (70, 100, 2, 160); (70, 110, 2, 160); (0, 0, 0, 0)] /\
  Forall (fun s => 0 <= busy s <= wall s /\ totals_ok s) (run_monitor sample_events m).1.
Proof.
  split; [vm_compute; reflexivity|].
  apply summary_readings_consistent; [lia|]. unfold sample_events. cbn [run_valid event_ok sample_op].
  repeat split; try (vm_compute; intros; discriminate); vm_compute; reflexivity.
Defined.

(** ** Busy time is the time something was in flight *)

(** The reference: a clock that is advanced, and the time counted. *)
Record stopwatch := mkWatch { w_clock : Z; w_flying : Z; w_counted : Z }.

Definition advance (t : Z) (w : stopwatch) : stopwatch :=
  mkWatch t (w_flying w) (w_counted w + if w_flying w >? 0 then t - w_clock w else 0).

Inductive prompt_event := OpStarts | OpEnds | BusyRead.

Definition watch_step (t : Z) (e : prompt_event) (w : stopwatch) : option Z * stopwatch :=
  let w := advance t w in
  match e with
  | OpStarts => (None, mkWatch t (w_flying w + 1) (w_counted w))
  | OpEnds => (None, mkWatch t (Z.max 0 (w_flying w - 1)) (w_counted w))
  | BusyRead => (Some (w_counted w), w)
  end.

(** An operation reported at the moment it starts or ends. *)
Definition prompt_step (t : Z) (e : prompt_event) (b : BusyTracker) : option Z * BusyTracker :=
  match e with
  | OpStarts => (None, busy_on_start t b)
  | OpEnds => (None, busy_on_finish t b)
  | BusyRead => let '(r, b) := busy_read t b in (Some r, b)
  end.

Fixpoint run_steps {S : Type} (step : Z -> prompt_event -> S -> option Z * S)
    (events : list (Z * prompt_event)) (s : S) : list (option Z) :=
  match events with
  | [] => []
  | (t, e) :: events => let '(r, s) := step t e s in r :: run_steps step events s
  end.

Record tracks (w : stopwatch) (b : BusyTracker) : Prop := mkTracks {
  tr_flying : in_flight b = w_flying w;
  tr_nonneg : 0 <= w_flying w;
  tr_closed : last_closed b <= w_clock w;
  tr_pending : pending_end b <= w_clock w;
  tr_idle : w_flying w = 0 -> closed_busy b = w_counted w;
  tr_open : 0 < w_flying w ->
    busy_since b <= w_clock w /\ closed_busy b + (w_clock w - busy_since b) = w_counted w;
  tr_emitted : emitted_busy b <= w_counted w }.

Lemma prompt_step_tracks t e w b :
  0 <= w_clock w <= t -> w_flying w + 1 < SIZE_MOD -> tracks w b ->
  (watch_step t e w).1 = (prompt_step t e b).1 /\ tracks (watch_step t e w).2 (prompt_step t e b).2.
Proof.
  intros Ht Hb [H1 H2 H3 H4 H5 H6 H7]. unfold watch_step, advance.
  assert (Hf : w_flying w = 0 \/ 0 < w_flying w) by lia.
  destruct e; simpl.
  - split; [done|]. unfold busy_on_start. rewrite H1. destruct Hf as [Hf|Hf].
    + rewrite Hf in *. simpl. specialize (H5 eq_refl). constructor; simpl; try lia; done.
    + specialize (H6 Hf). rewrite (proj2 (Z.eqb_neq _ 0)), (proj2 (Z.gtb_lt _ 0)), wrap64_small by lia.
      constructor; simpl; lia.
  - split; [done|]. unfold busy_on_finish. rewrite H1. destruct Hf as [Hf|Hf].
    + rewrite Hf in *. simpl. specialize (H5 eq_refl). constructor; simpl; lia.
    + specialize (H6 Hf). rewrite (proj2 (Z.eqb_neq _ 0)), (proj2 (Z.gtb_lt (w_flying w) 0)), wrap64_small by lia.
      destruct (w_flying w - 1 >? 0) eqn:E; bool_to_prop; constructor; simpl; try lia.
      intros _. case_bool; lia.
  - unfold busy_read. rewrite H1. destruct Hf as [Hf|Hf].
    + rewrite Hf in *. simpl. specialize (H5 eq_refl). split; [f_equal; lia|]. constructor; simpl; lia.
    + specialize (H6 Hf). rewrite (proj2 (Z.gtb_lt (w_flying w) 0)) by lia. simpl.
      assert (Hopen : (if t >? busy_since b then t - busy_since b else 0) = t - busy_since b)
        by (case_bool; lia).
      rewrite Hopen. split; [f_equal; lia|]. constructor; simpl; lia.
Qed.

(** The times never go back, and the count of operations stays a word. *)
Fixpoint prompt_valid (clock flying : Z) (events : list (Z * prompt_event)) : Prop :=
  match events with
  | [] => True
  | (t, e) :: events =>
      clock <= t /\ flying + 1 < SIZE_MOD /\
      prompt_valid t (match e with OpStarts => flying + 1 | OpEnds => Z.max 0 (flying - 1)
                      | BusyRead => flying end) events
  end.

(** C37. When operations are reported as they start and end, every busy time a
    tracker reads is exactly the time, since the span began, during which at
    least one operation was in flight; overlapping operations count once. *)
Theorem busy_is_time_in_flight (start : Z) (events : list (Z * prompt_event)) :
  0 <= start -> prompt_valid start 0 events ->
  run_steps prompt_step events (busy_reset start new_tracker)
    = run_steps watch_step events (mkWatch start 0 0).
Proof.
  intros H0.
  assert (Hgen : forall w b, 0 <= w_clock w -> tracks w b ->
    prompt_valid (w_clock w) (w_flying w) events ->
    run_steps prompt_step events b = run_steps watch_step events w).
  { induction events as [|[t e] events IH]; intros w b Hw Ht; [done|]. intros (Hc & Hf & Hv).
    destruct (prompt_step_tracks t e w b ltac:(lia) Hf Ht) as [Hr Ht'].
    assert (Hclock : w_clock (watch_step t e w).2 = t) by by destruct e.
    assert (Hfly : w_flying (watch_step t e w).2 = match e with OpStarts => w_flying w + 1
      | OpEnds => Z.max 0 (w_flying w - 1) | BusyRead => w_flying w end) by by destruct e.
    cbn [run_steps]. destruct (watch_step t e w) as [r w'], (prompt_step t e b) as [r' b']. simpl in *.
    rewrite Hr. f_equal. apply IH; [lia|done|]. by rewrite Hclock, Hfly. }
  intros Hv. apply (Hgen (mkWatch start 0 0)); [done| |exact Hv]. constructor; simpl; lia.
Qed.

(** Two operations that overlap, a gap, and a third that is still running. *)
Example busy_is_time_in_flight_witness :
  let events := [(110, OpStarts); (120, OpStarts); (130, BusyRead); (150, OpEnds); (160, OpEnds);
                 (170, BusyRead); (200, OpStarts); (215, BusyRead)] in
  prompt_valid 100 0 events /\
  run_steps prompt_step events (busy_reset 100 new_tracker)
    = [None; None; Some 20; None; None; Some 50; None; Some 65].
Proof.
  intros events. assert (Hv : prompt_valid 100 0 events) by (simpl; lia).
  split; [exact Hv|]. rewrite (busy_is_time_in_flight 100 events); [vm_compute; reflexivity|lia|exact Hv].
Defined.
