(* ===== verification/Atomics.v ===== *)
(** * The counters and the threads that count

    [src/statistics/counters.cpp]: one atomic per counter, added to by any
    thread while another takes a reading, counter by counter.  An [atomic] is a
    field of [Counters], and everything that happens is a sequence of single
    additions and loads. *)

From stdpp Require Import base list.
From Stdlib Require Import ZArith Lia.
From S2P Require Import Prelude Summary.

#[local] Open Scope Z_scope.

Inductive counter :=
  | REMOTE_SIZE_PROBES | REMOTE_SIZE_PROBING | HTTP_CONNECTIONS | HTTP_DNS
  | HTTP_TCP | HTTP_TLS | HTTP_RETRIES | HTTP_RETRY_BACKOFF.

#[global] Instance counter_eq_dec : EqDecision counter.
Proof. solve_decision. Defined.

Definition load_counter (k : counter) (c : Counters) : Z :=
  match k with
  | REMOTE_SIZE_PROBES => remote_size_probes c
  | REMOTE_SIZE_PROBING => remote_size_probing c
  | HTTP_CONNECTIONS => http_connections c
  | HTTP_DNS => http_dns c
  | HTTP_TCP => http_tcp c
  | HTTP_TLS => http_tls c
  | HTTP_RETRIES => http_retries c
  | HTTP_RETRY_BACKOFF => http_retry_backoff c
  end.

(** [fetch_add]; the counts are 64 bits wide, the durations are not let
    overflow. *)
Definition fetch_add (k : counter) (n : Z) (c : Counters) : Counters :=
  let 'mkCounters a b d e f g h i := c in
  match k with
  | REMOTE_SIZE_PROBES => mkCounters (a +% n) b d e f g h i
  | REMOTE_SIZE_PROBING => mkCounters a (b + n) d e f g h i
  | HTTP_CONNECTIONS => mkCounters a b (d +% n) e f g h i
  | HTTP_DNS => mkCounters a b d (e + n) f g h i
  | HTTP_TCP => mkCounters a b d e (f + n) g h i
  | HTTP_TLS => mkCounters a b d e f (g + n) h i
  | HTTP_RETRIES => mkCounters a b d e f g (h +% n) i
  | HTTP_RETRY_BACKOFF => mkCounters a b d e f g h (i + n)
  end.

Definition addition : Type := counter * Z.
Definition add_all (l : list addition) (c : Counters) : Counters := foldl (fun c a => fetch_add a.1 a.2 c) c l.

(** What each call adds, in order. *)
Definition probe_additions (probing : Z) : list addition :=
  [(REMOTE_SIZE_PROBES, 1); (REMOTE_SIZE_PROBING, probing)].
Definition connection_additions (connections dns tcp tls : Z) : list addition :=
  [(HTTP_CONNECTIONS, connections); (HTTP_DNS, dns); (HTTP_TCP, tcp); (HTTP_TLS, tls)].
Definition retry_additions (backoff : Z) : list addition := [(HTTP_RETRIES, 1); (HTTP_RETRY_BACKOFF, backoff)].

(** The order of the loads of [counters]. *)
Definition counter_order : list counter :=
  [REMOTE_SIZE_PROBES; REMOTE_SIZE_PROBING; HTTP_CONNECTIONS; HTTP_DNS; HTTP_TCP; HTTP_TLS; HTTP_RETRIES; HTTP_RETRY_BACKOFF].

(** The loads, with what other threads add before each: the values and the
    counters in the end. *)
Fixpoint load_all (ks : list counter) (before : counter -> list addition) (c : Counters) : list Z * Counters :=
  match ks with
  | [] => ([], c)
  | k :: ks =>
      let c := add_all (before k) c in
      let '(vs, c') := load_all ks before c in (load_counter k c :: vs, c')
  end.

Definition counters (before : counter -> list addition) (c : Counters) : Counters * Counters :=
  match load_all counter_order before c with
  | ([a; b; d; e; f; g; h; i], c') => (mkCounters a b d e f g h i, c')
  | (_, c') => (no_counters, c')
  end.

(** ** The calls, undisturbed *)

Lemma probe_added probing c : add_all (probe_additions probing) c = count_remote_size_probe probing c.
Proof. by destruct c. Qed.

Lemma connection_added connections dns tcp tls c :
  add_all (connection_additions connections dns tcp tls) c = count_http_connection connections dns tcp tls c.
Proof. by destruct c. Qed.

Lemma retry_added backoff c : add_all (retry_additions backoff) c = count_http_retry backoff c.
Proof. by destruct c. Qed.

(** ** Readings *)

Definition total (k : counter) (l : list addition) : Z :=
  sumZ ((fun a => if decide (a.1 = k) then a.2 else 0) <$> l).

Lemma total_app k l l' : total k (l ++ l') = total k l + total k l'.
Proof. unfold total. by rewrite fmap_app, sumZ_app. Qed.

Lemma total_cons k a l : total k (a :: l) = (if decide (a.1 = k) then a.2 else 0) + total k l.
Proof. done. Qed.

Definition increasing (l : list addition) : Prop := Forall (fun a => 0 <= a.2) l.

Lemma total_nonneg k l : increasing l -> 0 <= total k l.
Proof. induction 1 as [|a l Ha _ IH]; [done|]. rewrite total_cons. destruct (decide _); lia. Qed.

Lemma load_fetch_add k k' n c :
  0 <= load_counter k c -> 0 <= n -> load_counter k c + (if decide (k' = k) then n else 0) < SIZE_MOD ->
  load_counter k (fetch_add k' n c) = load_counter k c + (if decide (k' = k) then n else 0).
Proof.
  intros Hk Hn. destruct (decide (k' = k)) as [->|Hne]; intros Hlt; destruct c.
  - destruct k; simpl in *; rewrite ?wrap64_small by lia; done.
  - rewrite Z.add_0_r. destruct k, k'; done.
Qed.

(** Nothing overflows. *)
Definition room (l : list addition) (c : Counters) : Prop :=
  increasing l /\ forall k, 0 <= load_counter k c /\ load_counter k c + total k l < SIZE_MOD.

Lemma load_add_all k l c : room l c -> load_counter k (add_all l c) = load_counter k c + total k l.
Proof.
  revert c. induction l as [|a l IH]; intros c [Hl Hr]; [unfold total; simpl; lia|].
  apply Forall_cons in Hl as [Ha Hl]. unfold add_all. simpl. fold (add_all l (fetch_add a.1 a.2 c)).
  assert (Hf : forall k', load_counter k' (fetch_add a.1 a.2 c) = load_counter k' c + (if decide (a.1 = k') then a.2 else 0)).
  { intros k'. destruct (Hr k') as [? Hs]. apply load_fetch_add; try done.
    pose proof (total_nonneg k' l Hl). rewrite total_cons in Hs. lia. }
  rewrite IH, Hf; [rewrite total_cons; lia|]. split; [done|]. intros k'. rewrite Hf. destruct (Hr k') as [? Hs].
  rewrite total_cons in Hs. destruct (decide _); lia.
Qed.

Lemma room_app l l' c : room (l ++ l') c -> room l c /\ room l' (add_all l c).
Proof.
  intros [Hl Hr]. apply Forall_app in Hl as [Hl Hl'].
  assert (Hroom : room l c).
  { split; [done|]. intros k. specialize (Hr k). rewrite total_app in Hr. pose proof (total_nonneg k l' Hl'). lia. }
  split; [done|]. split; [done|]. intros k. rewrite load_add_all by done. specialize (Hr k).
  rewrite total_app in Hr. pose proof (total_nonneg k l Hl). lia.
Qed.

Lemma load_all_spec ks before c :
  room (concat (before <$> ks)) c ->
  (load_all ks before c).2 = add_all (concat (before <$> ks)) c /\
  forall i k, ks !! i = Some k ->
    (load_all ks before c).1 !! i = Some (load_counter k c + total k (concat (before <$> take (S i) ks))).
Proof.
  revert c. induction ks as [|k0 ks IH]; intros c Hr; [done|]. cbn [fmap list_fmap concat] in Hr.
  apply room_app in Hr as [H0 Hr]. specialize (IH _ Hr). simpl. destruct (load_all ks before _) as [vs c']. simpl in *.
  destruct IH as [-> IH]. split; [unfold add_all; by rewrite foldl_app|].
  intros [|i] k; simpl; [intros [= <-]; by rewrite app_nil_r, load_add_all|].
  intros Hi. rewrite (IH i k Hi), total_app, load_add_all by done. f_equal. rewrite Z.add_assoc. done.
Qed.

Lemma load_all_length ks before c : length (load_all ks before c).1 = length ks.
Proof.
  revert c. induction ks as [|k ks IH]; intros c; [done|]. simpl. specialize (IH (add_all (before k) c)).
  destruct (load_all _ _ _). simpl in *. by rewrite IH.
Qed.

(** A reading has of each counter exactly what was added before its load, so
    between what was there at the start and what is there at the end; nothing
    added meanwhile is lost. *)
Theorem reading_is_of_the_moment before c :
  room (concat (before <$> counter_order)) c ->
  let '(reading, after) := counters before c in
  after = add_all (concat (before <$> counter_order)) c /\
  (forall i k, counter_order !! i = Some k ->
     load_counter k reading = load_counter k c + total k (concat (before <$> take (S i) counter_order))) /\
  forall k, load_counter k c <= load_counter k reading <= load_counter k after.
Proof.
  intros Hr. pose proof (load_all_spec counter_order before c Hr) as [Hafter Hload].
  pose proof (load_all_length counter_order before c) as Hlen. unfold counters.
  destruct (load_all counter_order before c) as [vs c']. cbn [fst snd] in Hafter, Hload, Hlen.
  do 8 (destruct vs as [|? vs]; [done|]). destruct vs; [|done].
  assert (Hread : forall i k, counter_order !! i = Some k ->
    load_counter k (mkCounters z z0 z1 z2 z3 z4 z5 z6) = load_counter k c + total k (concat (before <$> take (S i) counter_order))).
  { intros i k Hi. pose proof (Hload i k Hi) as Hv. do 8 (destruct i as [|i]; [injection Hi as <-; by injection Hv|]). done. }
  split; [done|]. split; [done|]. intros k.
  assert (exists i, counter_order !! i = Some k) as [i Hi].
  { destruct k; [by exists 0%nat|by exists 1%nat|by exists 2%nat|by exists 3%nat|by exists 4%nat|by exists 5%nat
                |by exists 6%nat|by exists 7%nat]. }
  rewrite (Hread i k Hi), Hafter, load_add_all by done.
  assert (Hsplit : concat (before <$> counter_order)
    = concat (before <$> take (S i) counter_order) ++ concat (before <$> drop (S i) counter_order)).
  { by rewrite <-concat_app, <-fmap_app, take_drop. }
  destruct Hr as [Hinc _]. rewrite Hsplit in Hinc |- *. apply Forall_app in Hinc as [H1 H2]. rewrite total_app.
  pose proof (total_nonneg k _ H1). pose proof (total_nonneg k _ H2). lia.
Qed.

(** A reading may have the time of a probe and not the probe. *)
Example torn_reading :
  (counters (fun k => if decide (k = REMOTE_SIZE_PROBING) then probe_additions 7 else []) no_counters).1
  = mkCounters 0 7 0 0 0 0 0 0.
Proof. reflexivity. Qed.

Lemma reading_is_of_the_moment_witness :
  let before := fun k => if decide (k = HTTP_DNS) then retry_additions 500 else [] in
  counters before no_counters = (mkCounters 0 0 0 0 0 0 1 500, mkCounters 0 0 0 0 0 0 1 500) /\
  http_retries (counters before no_counters).1 <= http_retries (counters before no_counters).2.
Proof.
  intros before. split; [reflexivity|].
  assert (Hr : room (concat (before <$> counter_order)) no_counters).
  { split; [repeat constructor; simpl; lia|]. intros k. split; [by destruct k|]. destruct k; vm_compute; reflexivity. }
  destruct (reading_is_of_the_moment before no_counters Hr) as (_ & _ & H). apply (H HTTP_RETRIES).
Defined.
