(* ===== verification/Json.v ===== *)
(** * A reader of JSON

    The part of JSON that the reports use: objects, strings without escapes,
    numbers.  [read_json] reads a text; [render] is the text of a value with the
    separators of the code; reading a rendered value gives it back. *)

From stdpp Require Import base list strings.
From Stdlib Require Import ZArith Lia Ascii.
From S2P Require Import Prelude Utils Regex Numerals.

#[local] Open Scope nat_scope.

#[warnings="-register-all"]
Inductive json :=
  | JString (s : list ascii)
  | JNumber (s : list ascii)
  | JObject (members : list (list ascii * json)).

Definition quote : ascii := ascii_of_nat 34.

(** ** Reading *)

Definition number_char (c : ascii) : bool :=
  is_digit c || Ascii.eqb c "-"%char || Ascii.eqb c "+"%char || Ascii.eqb c "."%char || Ascii.eqb c "e"%char.

Definition number_start (c : ascii) : bool := is_digit c || Ascii.eqb c "-"%char.

Definition not_quote (c : ascii) : bool := negb (Ascii.eqb c quote).

(** A string up to its closing quote. *)
Definition read_quoted (s : list ascii) : option (list ascii * list ascii) :=
  match span not_quote s with
  | (u, _ :: rest) => Some (u, rest)
  | (_, []) => None
  end.

Fixpoint read_value (fuel : nat) (s : list ascii) : option (json * list ascii) :=
  match fuel with
  | 0 => None
  | S fuel =>
      match s with
      | [] => None
      | c :: rest =>
          if Ascii.eqb c quote then
            '(u, rest) ← read_quoted rest; Some (JString u, rest)
          else if Ascii.eqb c "{"%char then
            match rest with
            | [] => None
            | d :: rest' =>
                if Ascii.eqb d "}"%char then Some (JObject [], rest')
                else '(ms, rest) ← read_members fuel rest; Some (JObject ms, rest)
            end
          else if number_start c then
            let '(u, rest) := span number_char s in Some (JNumber u, rest)
          else None
      end
  end
with read_members (fuel : nat) (s : list ascii) : option (list (list ascii * json) * list ascii) :=
  match fuel with
  | 0 => None
  | S fuel =>
      rest ← strip_prefix Ascii.eqb [quote] s;
      '(name, rest) ← read_quoted rest;
      rest ← strip_prefix Ascii.eqb [":"; " "]%char rest;
      '(v, rest) ← read_value fuel rest;
      match strip_prefix Ascii.eqb ["}"]%char rest with
      | Some rest => Some ([(name, v)], rest)
      | None =>
          rest ← strip_prefix Ascii.eqb [","; " "]%char rest;
          '(ms, rest) ← read_members fuel rest;
          Some ((name, v) :: ms, rest)
      end
  end.

(** A whole text. *)
Definition read_json (s : list ascii) : option json :=
  match read_value (S (length s)) s with
  | Some (j, []) => Some j
  | _ => None
  end.

(** ** Looking up *)

Definition get_member (name : string) (j : json) : option json :=
  match j with
  | JObject ms => snd <$> List.find (fun m : list ascii * json => bool_decide (m.1 = chars_of name)) ms
  | _ => None
  end.

Definition get_path (path : list string) (j : json) : option json :=
  foldl (fun j name => j ≫= get_member name) (Some j) path.

Definition as_integer (j : json) : option Z :=
  match j with JNumber s => scan_integer s | _ => None end.

Definition as_string (j : json) : option (list ascii) :=
  match j with JString s => Some s | _ => None end.

(** ** Rendering *)

Definition member_text (m : list ascii * list ascii) : list ascii :=
  quote :: m.1 ++ [quote; ":"; " "]%char ++ m.2.

Fixpoint joined (l : list (list ascii)) : list ascii :=
  match l with
  | [] => []
  | [s] => s
  | s :: l => s ++ [","; " "]%char ++ joined l
  end.

Fixpoint render (j : json) : list ascii :=
  match j with
  | JString s => quote :: s ++ [quote]
  | JNumber s => s
  | JObject ms => "{"%char :: joined ((fun '(k, v) => member_text (k, render v)) <$> ms) ++ ["}"%char]
  end.

(** Strings without quotes, numbers made of their characters. *)
Fixpoint well_formed (j : json) : Prop :=
  match j with
  | JString s => Forall (fun c => not_quote c = true) s
  | JNumber s =>
      Forall (fun c => number_char c = true) s /\ match s with c :: _ => number_start c = true | [] => False end
  | JObject ms =>
      foldr (fun '(k, v) P => Forall (fun c => not_quote c = true) k /\ well_formed v /\ P) True ms
  end.

(** ** Round trip *)

Definition no_number (rest : list ascii) : Prop :=
  match rest with c :: _ => number_char c = false | [] => True end.

Lemma read_quoted_app s rest : Forall (fun c => not_quote c = true) s -> read_quoted (s ++ quote :: rest) = Some (s, rest).
Proof. intros Hs. unfold read_quoted. by rewrite span_unique. Qed.

Lemma strip_app lit s : strip_prefix Ascii.eqb lit (lit ++ s) = Some s.
Proof. apply strip_prefix_app, Ascii.eqb_refl. Qed.

Lemma joined_cons s t l : joined (s :: t :: l) = s ++ [","; " "]%char ++ joined (t :: l).
Proof. done. Qed.

Definition members_text (ms : list (list ascii * json)) : list ascii :=
  joined ((fun '(k, v) => member_text (k, render v)) <$> ms).

Lemma members_text_start ms : ms <> [] -> exists u, members_text ms = quote :: u.
Proof.
  destruct ms as [|[k v] ms]; [done|]. intros _. unfold members_text. rewrite fmap_cons.
  destruct ms as [|m ms]; [by eexists|]. rewrite fmap_cons, joined_cons. by eexists.
Qed.

Lemma members_text_cons k v m ms :
  members_text ((k, v) :: m :: ms) = member_text (k, render v) ++ [","; " "]%char ++ members_text (m :: ms).
Proof. unfold members_text. by rewrite !fmap_cons, joined_cons. Qed.

Lemma length_member k s : length (member_text (k, s)) = length k + length s + 4.
Proof. unfold member_text. simpl. rewrite !length_app. simpl. lia. Qed.

(** What reading does with one member. *)
Lemma read_member fuel k v tail :
  Forall (fun c => not_quote c = true) k ->
  read_members (S fuel) (member_text (k, render v) ++ tail)
  = ('(v, rest) ← read_value fuel (render v ++ tail);
     match strip_prefix Ascii.eqb ["}"]%char rest with
     | Some rest => Some ([(k, v)], rest)
     | None =>
         rest ← strip_prefix Ascii.eqb [","; " "]%char rest;
         '(ms, rest) ← read_members fuel rest;
         Some ((k, v) :: ms, rest)
     end).
Proof.
  intros Hk. cbn [read_members].
  change (member_text (k, render v) ++ tail)
    with ([quote] ++ ((k ++ [quote; ":"; " "]%char ++ render v) ++ tail)).
  rewrite strip_app. cbn [mbind option_bind]. rewrite <- !app_assoc.
  change ([quote; ":"; " "]%char ++ render v ++ tail) with (quote :: [":"; " "]%char ++ (render v ++ tail)).
  rewrite read_quoted_app by done. cbn [mbind option_bind]. by rewrite strip_app.
Qed.

Lemma read_render fuel :
  (forall j rest, well_formed j -> no_number rest -> length (render j) < fuel ->
     read_value fuel (render j ++ rest) = Some (j, rest)) /\
  (forall ms rest, ms <> [] -> foldr (fun '(k, v) P => Forall (fun c => not_quote c = true) k /\ well_formed v /\ P) True ms ->
     length (members_text ms) < fuel ->
     read_members fuel (members_text ms ++ "}"%char :: rest) = Some (ms, rest)).
Proof.
  induction fuel as [|fuel [IHv IHm]]; [split; intros; lia|]. split.
  - intros [s|s|ms] rest Hw Hr Hl; cbn [read_value].
    + cbn [render app]. rewrite Ascii.eqb_refl, <- app_assoc. cbn [app]. by rewrite read_quoted_app.
    + destruct Hw as [Hs Hstart]. destruct s as [|c s]; [done|]. cbn [render app].
      assert (Ascii.eqb c quote = false /\ Ascii.eqb c "{"%char = false) as [-> ->]
        by (by destruct c as [[] [] [] [] [] [] [] []]).
      rewrite Hstart. change (c :: s ++ rest) with ((c :: s) ++ rest). by rewrite span_unique.
    + change (render (JObject ms)) with ("{"%char :: (members_text ms ++ ["}"]%char)) in *.
      cbn [app]. change (Ascii.eqb "{"%char quote) with false. change (Ascii.eqb "{"%char "{"%char) with true.
      cbn iota. rewrite <- app_assoc. cbn [app]. cbn [length] in Hl. rewrite length_app in Hl. cbn [length] in Hl.
      destruct (decide (ms = [])) as [->|Hne]; [done|]. pose proof (IHm ms rest Hne Hw ltac:(lia)) as Hms.
      destruct (members_text_start ms Hne) as [u Hu]. rewrite Hu in Hms |- *. cbn [app] in Hms |- *.
      change (Ascii.eqb quote "}"%char) with false. cbn iota. by rewrite Hms.
  - intros ms rest Hne Hms Hl. destruct ms as [|[k v] [|[k' v'] ms]]; [done| |].
    + destruct Hms as (Hk & Hv & _). change (members_text [(k, v)]) with (member_text (k, render v)) in *.
      rewrite read_member by done. rewrite length_member in Hl. rewrite IHv by (done || lia).
      cbn [mbind option_bind]. change ("}"%char :: rest) with (["}"]%char ++ rest). by rewrite strip_app.
    + destruct Hms as (Hk & Hv & Hms). rewrite members_text_cons in Hl |- *.
      rewrite !length_app, length_member in Hl. rewrite <- !app_assoc, read_member by done.
      rewrite IHv by (done || lia). cbn [mbind option_bind].
      change (strip_prefix Ascii.eqb ["}"]%char ([","; " "]%char ++ ?x)) with (@None (list ascii)).
      cbn iota. rewrite strip_app. cbn [mbind option_bind]. by rewrite IHm by (done || lia).
Qed.

Lemma read_json_render j : well_formed j -> read_json (render j) = Some j.
Proof.
  intros Hw. unfold read_json. destruct (read_render (S (length (render j)))) as [Hr _].
  specialize (Hr j [] Hw I ltac:(lia)). rewrite app_nil_r in Hr. by rewrite Hr.
Qed.
