(* ===== verification/Report.v ===== *)
(** * Reports of the statistics

    The text and the JSON of a summary and of the counters:
    [Summary::report] and [to_json] of [src/statistics/summary.cpp],
    [Counters::report] and [to_json] of [src/statistics/counters.cpp].  The
    locale is the classic one.  That the JSON is well formed is proved by a
    reader of the part of JSON it uses. *)

From stdpp Require Import base list strings pretty.
From Stdlib Require Import ZArith Lia Ascii SpecFloat.
From S2P Require Import Prelude Utils Regex Numerals Json Doubles TextFormat Observation Summary.

#[local] Open Scope Z_scope.

Inductive ReportRows := RowsUsed | RowsAll.

#[global] Instance ReportRows_eq_dec : EqDecision ReportRows.
Proof. solve_decision. Defined.

(** The default arguments: two decimals, zero fractions trimmed. *)
Definition duration_text (ns : Z) : string := format_duration ns 2 TrimYes.
Definition size_text (n : Z) : string := format_nbytes n 2 TrimYes.
Definition rate_text (x : double) : string := format_rate x 2 TrimYes.

(** Bytes over a duration in nanoseconds, or zero for a degenerate one. *)
Definition rate_over (bytes ns : Z) : double :=
  let seconds := seconds_of ns in
  if fltb (double_of 0) seconds then fdiv (double_of bytes) seconds else double_of 0.

Definition busy_bytes_per_sec (s : Summary) : double := rate_over (Summary.bytes_transferred s) (busy s).

(** [Observation::bytes_per_sec] *)
Definition bytes_per_sec (o : Observation) : double := rate_over (Observation.bytes_transferred o) (duration o).

Definition busy_fraction (s : Summary) : double :=
  let span := Summary.wall s in
  if span =? 0 then double_of 0 else fdiv (double_of (busy s)) (double_of span).

Definition newline : string := String (ascii_of_nat 10) "".

Fixpoint spaces_text (n : nat) : string := match n with O => "" | S n => String " "%char (spaces_text n) end.

(** [std::left << std::setw(21) << label]. *)
Definition report_row (label value : string) : string :=
  "  " +:+ label +:+ spaces_text (21 - String.length label) +:+ value +:+ newline.

Definition counters_report (rows : ReportRows) (c : Counters) : string :=
  if negb (bool_decide (rows = RowsAll)) && counters_empty c then ""
  else
    report_row "http size probes"
      (pretty (remote_size_probes c) +:+ " probes, " +:+ duration_text (remote_size_probing c)) +:+
    report_row "http handshake"
      (pretty (http_connections c) +:+ " connections, " +:+ duration_text (http_dns c) +:+ " dns, " +:+
       duration_text (http_tcp c) +:+ " tcp, " +:+ duration_text (http_tls c) +:+ " tls") +:+
    report_row "http retries"
      (pretty (http_retries c) +:+ " retries, " +:+ duration_text (http_retry_backoff c) +:+ " backoff").

(** [to_string(kind)] of a byte; the enumeration has two values. *)
Definition kind_text (k : Z) : string :=
  if k =? 0 then "LOGICAL" else if k =? 1 then "PHYSICAL" else "Unknown".

Definition backend_name (i : nat) : string :=
  match i with
  | 0%nat => "POSIX" | 1%nat => "GDS" | 2%nat => "MMAP" | 3%nat => "REMOTE_HTTP" | 4%nat => "REMOTE_HDFS"
  | _ => "Unknown"
  end.

Definition backend_row (rows : ReportRows) (i : nat) (t : BackendTotals) : string :=
  let label := "backend " +:+ backend_name i in
  if bt_num_ops t =? 0 then
    if bool_decide (rows = RowsAll) then report_row label "unused" else ""
  else
    report_row label
      (size_text (bt_bytes_transferred t) +:+ " in " +:+ pretty (bt_num_ops t) +:+ " ops, " +:+
       duration_text (bt_total_duration t) +:+
       (if 0 <? bt_total_duration t then
          ", " +:+ rate_text (fdiv (double_of (bt_bytes_transferred t)) (seconds_of (bt_total_duration t)))
        else "") +:+
       (if bt_num_errors t =? 0 then "" else ", " +:+ pretty (bt_num_errors t) +:+ " failed")).

Definition concat_strings (l : list string) : string := foldr String.append "" l.

Definition used (s : Summary) (i : nat) : bool :=
  match by_backend s !! i with Some t => negb (bt_num_ops t =? 0) | None => false end.

Definition summary_report (rows : ReportRows) (s : Summary) : string :=
  let remote := used s 3 || used s 4 in
  "KvikIO I/O summary (" +:+ kind_text (sum_kind s) +:+ ")" +:+ newline +:+
  report_row "wall time" (duration_text (Summary.wall s)) +:+
  report_row "busy time"
    (duration_text (busy s) +:+ " (" +:+ fixed 2 (fmul (busy_fraction s) (double_of 100)) +:+
     " % of the wall time)") +:+
  report_row "busy bandwidth" (rate_text (busy_bytes_per_sec s)) +:+
  report_row "operations"
    (pretty (num_ops s) +:+ " (" +:+ pretty (num_reads s) +:+ " read, " +:+ pretty (num_writes s) +:+ " write)") +:+
  report_row "mean duration" (duration_text (mean_duration s)) +:+
  report_row "bytes"
    (size_text (Summary.bytes_transferred s) +:+ " of " +:+ size_text (bytes_requested s) +:+ " requested (" +:+
     size_text (bytes_read s) +:+ " read, " +:+ size_text (bytes_written s) +:+ " written)") +:+
  report_row "errors" (pretty (num_errors s)) +:+
  concat_strings (imap (backend_row rows) (by_backend s)) +:+
  counters_report (if remote then RowsAll else rows) (sum_counters s).

(** ** JSON *)

Definition quoted (s : string) : string := String quote (s +:+ String quote "").

(** A member: what stands before it, its name, its value. *)
Definition member (before name value : string) : string := before +:+ quoted name +:+ ": " +:+ value.

Definition counters_to_json (c : Counters) : string :=
  member "{" "remote_size_probes" (pretty (remote_size_probes c)) +:+
  member ", " "remote_size_probing_ns" (pretty (remote_size_probing c)) +:+
  member ", " "http_connections" (pretty (http_connections c)) +:+
  member ", " "http_dns_ns" (pretty (http_dns c)) +:+
  member ", " "http_tcp_ns" (pretty (http_tcp c)) +:+
  member ", " "http_tls_ns" (pretty (http_tls c)) +:+
  member ", " "http_retries" (pretty (http_retries c)) +:+
  member ", " "http_retry_backoff_ns" (pretty (http_retry_backoff c)) +:+ "}".

Definition backend_to_json (i : nat) (t : BackendTotals) : string :=
  (if (i =? 0)%nat then "" else ", ") +:+ quoted (backend_name i) +:+ ": {" +:+
  member "" "num_ops" (pretty (bt_num_ops t)) +:+
  member ", " "bytes_transferred" (pretty (bt_bytes_transferred t)) +:+
  member ", " "total_duration_ns" (pretty (bt_total_duration t)) +:+
  member ", " "num_errors" (pretty (bt_num_errors t)) +:+ "}".

Definition summary_to_json (s : Summary) : string :=
  let wall_ns time := to_wall_clock (anchor s) time in
  member "{" "kind" (quoted (kind_text (sum_kind s))) +:+
  member ", " "start_unix_ns" (pretty (wall_ns (sum_start s))) +:+
  member ", " "end_unix_ns" (pretty (wall_ns (sum_end s))) +:+
  member ", " "wall_ns" (pretty (Summary.wall s)) +:+
  member ", " "num_ops" (pretty (num_ops s)) +:+
  member ", " "num_reads" (pretty (num_reads s)) +:+
  member ", " "num_writes" (pretty (num_writes s)) +:+
  member ", " "bytes_requested" (pretty (bytes_requested s)) +:+
  member ", " "bytes_transferred" (pretty (Summary.bytes_transferred s)) +:+
  member ", " "bytes_read" (pretty (bytes_read s)) +:+
  member ", " "bytes_written" (pretty (bytes_written s)) +:+
  member ", " "num_errors" (pretty (num_errors s)) +:+
  member ", " "busy_ns" (pretty (busy s)) +:+
  member ", " "total_duration_ns" (pretty (total_duration s)) +:+
  member ", " "busy_bytes_per_sec" (general (busy_bytes_per_sec s)) +:+
  member ", " "busy_fraction" (general (busy_fraction s)) +:+
  member ", " "mean_duration_ns" (pretty (mean_duration s)) +:+
  member ", " "counters" (counters_to_json (sum_counters s)) +:+
  member ", " "by_backend" "{" +:+
  concat_strings (imap backend_to_json (by_backend s)) +:+ "}}".

(** ** What a reader of the JSON sees *)

Definition jint (z : Z) : json := JNumber (chars_of (pretty z)).
Definition jtext (s : string) : json := JString (chars_of s).
Definition jobject (ms : list (string * json)) : json := JObject ((fun m => (chars_of m.1, m.2)) <$> ms).

Definition counters_json (c : Counters) : json :=
  jobject
    [("remote_size_probes", jint (remote_size_probes c)); ("remote_size_probing_ns", jint (remote_size_probing c));
     ("http_connections", jint (http_connections c)); ("http_dns_ns", jint (http_dns c));
     ("http_tcp_ns", jint (http_tcp c)); ("http_tls_ns", jint (http_tls c));
     ("http_retries", jint (http_retries c)); ("http_retry_backoff_ns", jint (http_retry_backoff c))].

Definition totals_json (t : BackendTotals) : json :=
  jobject
    [("num_ops", jint (bt_num_ops t)); ("bytes_transferred", jint (bt_bytes_transferred t));
     ("total_duration_ns", jint (bt_total_duration t)); ("num_errors", jint (bt_num_errors t))].

Definition summary_json (s : Summary) : json :=
  jobject
    [("kind", jtext (kind_text (sum_kind s)));
     ("start_unix_ns", jint (to_wall_clock (anchor s) (sum_start s)));
     ("end_unix_ns", jint (to_wall_clock (anchor s) (sum_end s)));
     ("wall_ns", jint (Summary.wall s)); ("num_ops", jint (num_ops s)); ("num_reads", jint (num_reads s));
     ("num_writes", jint (num_writes s)); ("bytes_requested", jint (bytes_requested s));
     ("bytes_transferred", jint (Summary.bytes_transferred s)); ("bytes_read", jint (bytes_read s));
     ("bytes_written", jint (bytes_written s)); ("num_errors", jint (num_errors s)); ("busy_ns", jint (busy s));
     ("total_duration_ns", jint (total_duration s));
     ("busy_bytes_per_sec", JNumber (chars_of (general (busy_bytes_per_sec s))));
     ("busy_fraction", JNumber (chars_of (general (busy_fraction s))));
     ("mean_duration_ns", jint (mean_duration s)); ("counters", counters_json (sum_counters s));
     ("by_backend", jobject (imap (fun i t => (backend_name i, totals_json t)) (by_backend s)))].

Lemma chars_of_quoted t : chars_of (quoted t) = quote :: chars_of t ++ [quote].
Proof. unfold quoted. cbn. by rewrite chars_of_app. Qed.

Lemma chars_of_member before name value :
  chars_of (member before name value) = chars_of before ++ member_text (chars_of name, chars_of value).
Proof. unfold member. rewrite !chars_of_app, chars_of_quoted. cbn. by rewrite <- !app_assoc. Qed.

Lemma render_counters c : render (counters_json c) = chars_of (counters_to_json c).
Proof.
  unfold counters_to_json, counters_json, jobject, jint. rewrite !chars_of_app, !chars_of_member.
  cbn [fmap list_fmap joined render fst snd]. rewrite <- !app_assoc. reflexivity.
Qed.

Lemma render_totals t :
  render (totals_json t)
  = "{"%char :: chars_of (member "" "num_ops" (pretty (bt_num_ops t)) +:+
      member ", " "bytes_transferred" (pretty (bt_bytes_transferred t)) +:+
      member ", " "total_duration_ns" (pretty (bt_total_duration t)) +:+
      member ", " "num_errors" (pretty (bt_num_errors t)) +:+ "}").
Proof.
  unfold totals_json, jobject, jint. rewrite !chars_of_app, !chars_of_member.
  cbn [fmap list_fmap joined render fst snd]. rewrite <- !app_assoc. reflexivity.
Qed.

Definition backend_member (i : nat) (t : BackendTotals) : list ascii :=
  member_text (chars_of (backend_name i), render (totals_json t)).

Lemma chars_of_backend i t :
  chars_of (backend_to_json i t) = (if (i =? 0)%nat then [] else [","; " "]%char) ++ backend_member i t.
Proof.
  unfold backend_to_json, backend_member. rewrite render_totals. rewrite !chars_of_app, chars_of_quoted.
  unfold member_text. cbn [fst snd chars_of app]. rewrite <- !app_assoc. by destruct i.
Qed.

Lemma backends_joined (f : nat -> BackendTotals -> string * json) l k :
  (forall i, f i = fun t => (backend_name (i + k), totals_json t)) ->
  members_text ((fun m => (chars_of m.1, m.2)) <$> imap f l)
  = joined (imap (fun i t => backend_member (i + k) t) l).
Proof.
  intros Hf. unfold members_text. f_equal. rewrite !fmap_imap. apply imap_ext. intros i t _. simpl. by rewrite Hf.
Qed.

Lemma concat_tail l k :
  chars_of (concat_strings (imap (fun i => backend_to_json (i + S k)) l))
  = concat ((fun s => [","; " "]%char ++ s) <$> imap (fun i t => backend_member (i + S k) t) l).
Proof.
  revert k. induction l as [|t l IH]; intros k; [done|]. rewrite !imap_cons. cbn [concat_strings foldr fmap list_fmap concat].
  fold (concat_strings (imap ((fun i => backend_to_json (i + S k)) ∘ S) l)).
  rewrite chars_of_app, chars_of_backend. cbn [Nat.eqb Nat.add]. f_equal.
  replace (imap ((fun i => backend_to_json (i + S k)) ∘ S) l) with (imap (fun i => backend_to_json (i + S (S k))) l)
    by (apply imap_ext; intros; unfold compose; f_equal; lia).
  rewrite IH. do 2 f_equal. apply imap_ext. intros. unfold compose. f_equal. lia.
Qed.

Lemma joined_concat s l : joined (s :: l) = s ++ concat ((fun t => [","; " "]%char ++ t) <$> l).
Proof.
  revert s. induction l as [|t l IH]; intros s; [by rewrite app_nil_r|].
  by rewrite joined_cons, IH.
Qed.

Lemma render_backends l :
  render (jobject (imap (fun i t => (backend_name i, totals_json t)) l))
  = chars_of ("{" +:+ concat_strings (imap backend_to_json l) +:+ "}").
Proof.
  unfold jobject. cbn [render]. fold (members_text ((fun m => (chars_of m.1, m.2)) <$> imap (fun i t => (backend_name i, totals_json t)) l)).
  rewrite (backends_joined _ _ 0) by (intros i; by rewrite Nat.add_0_r).
  rewrite !chars_of_app. cbn [chars_of app]. do 2 f_equal.
  destruct l as [|t l]; [done|]. rewrite !imap_cons, joined_concat.
  cbn [concat_strings foldr]. fold (concat_strings (imap (backend_to_json ∘ S) l)).
  rewrite chars_of_app, chars_of_backend. cbn [Nat.eqb app]. f_equal.
  replace (imap (backend_to_json ∘ S) l) with (imap (fun i => backend_to_json (i + 1)) l)
    by (apply imap_ext; intros; unfold compose; f_equal; lia).
  rewrite concat_tail. do 2 f_equal. apply imap_ext. intros. unfold compose. f_equal. lia.
Qed.

Lemma member_text_app k u v : member_text (k, u ++ v) = member_text (k, u) ++ v.
Proof. unfold member_text. simpl. by rewrite <- !app_assoc. Qed.

Lemma render_summary s : render (summary_json s) = chars_of (summary_to_json s).
Proof.
  unfold summary_to_json. rewrite !chars_of_app, !chars_of_member, <- render_counters.
  change (chars_of "}}") with (["}"]%char ++ ["}"]%char). unfold summary_json.
  pose proof (render_backends (by_backend s)) as Hb. rewrite !chars_of_app in Hb.
  set (backends := jobject (imap _ _)) in *. clearbody backends. set (counters := counters_json _).
  unfold jobject, jint, jtext. cbn [fmap list_fmap joined render fst snd].
  rewrite Hb, chars_of_quoted. rewrite !member_text_app. rewrite <- !app_assoc. reflexivity.
Qed.

(** ** Numbers are numbers *)

Definition numeric (s : string) : Prop := Forall (fun c => number_char c = true) (chars_of s).
Definition numeral (s : string) : Prop :=
  numeric s /\ match chars_of s with c :: _ => number_start c = true | [] => False end.

Lemma numeric_app s t : numeric s -> numeric t -> numeric (s +:+ t).
Proof. intros. unfold numeric. rewrite chars_of_app. by apply Forall_app. Qed.

Lemma numeral_app s t : numeral s -> numeric t -> numeral (s +:+ t).
Proof.
  intros [Hs Hst] Ht. split; [by apply numeric_app|]. rewrite chars_of_app. by destruct (chars_of s).
Qed.

Lemma minus_numeral s : numeric s -> numeral ("-" +:+ s).
Proof. intros Hs. by split; [apply (numeric_app "-"); [repeat constructor|]|]. Qed.

Lemma digit_number c : is_digit c = true -> number_char c = true /\ number_start c = true.
Proof. intros Hc. unfold number_char, number_start. by rewrite Hc. Qed.

Lemma numeral_pretty (z : Z) : numeral (pretty z).
Proof.
  assert (forall n : Z, 0 <= n -> numeral (pretty n)) as Hpos.
  { intros n Hn. destruct (pretty_digits n Hn) as (Hd & _ & Hne). unfold numeral, numeric.
    destruct (chars_of (pretty n)) as [|c l]; [done|]. split.
    - apply (Forall_impl _ _ _ Hd). intros d. apply digit_number.
    - apply Forall_cons in Hd as [Hc _]. by apply digit_number. }
  destruct z as [|p|p]; [by apply Hpos|by apply Hpos|].
  change (pretty (Zneg p)) with ("-" +:+ pretty (Zpos p)). apply minus_numeral. apply (Hpos (Zpos p)). lia.
Qed.

Lemma numeric_zeros k : numeric (zeros k).
Proof. unfold numeric. rewrite zeros_digits. by apply Forall_replicate. Qed.

Lemma numeral_decimals d q : numeral (decimals d q).
Proof.
  unfold decimals. destruct (d =? 0)%nat; [apply numeral_pretty|]. apply numeral_app; [apply numeral_pretty|].
  apply (numeric_app "."); [by repeat constructor|]. apply numeric_app; [apply numeric_zeros|apply numeral_pretty].
Qed.

Lemma numeral_without_zeros d q : numeral (without_zeros d q).
Proof.
  revert q. induction d as [|d IH]; intros q; cbn [without_zeros]; [apply numeral_pretty|].
  destruct (q mod 10 =? 0); [apply IH|apply numeral_decimals].
Qed.

Lemma numeral_general_positive num den : numeral (general_positive num den).
Proof.
  unfold general_positive. destruct (six_digits num den) as [q x]. destruct (_ && _); [apply numeral_without_zeros|].
  apply numeral_app; [apply numeral_without_zeros|]. apply (numeric_app "e"); [by repeat constructor|].
  apply numeric_app; [destruct (x <? 0); by repeat constructor|].
  apply numeric_app; [destruct (_ <? 10); by repeat constructor|apply numeral_pretty].
Qed.

Lemma numeral_general x : isfinite x = true -> numeral (general x).
Proof.
  destruct x as [s|s| |s m e]; try done; intros _; destruct s; simpl.
  - apply minus_numeral. by repeat constructor.
  - split; [by repeat constructor|done].
  - apply minus_numeral. destruct (0 <=? e); apply numeral_general_positive.
  - destruct (0 <=? e); apply numeral_general_positive.
Qed.

(** A duration of 64 bits, a count of 64 bits. *)
Definition is_duration (z : Z) : Prop := - 2 ^ 63 <= z < 2 ^ 63.

Lemma seconds_within ns : is_duration ns -> within_exponents (-139) 323 (seconds_of ns).
Proof.
  intros Hns. unfold is_duration in Hns. unfold seconds_of.
  assert (within_exponents (-23) (-23) (double_of 1000000000)) as Hg by (vm_compute; by split).
  pose proof (fdiv_within _ _ _ _ _ _ (double_of_within ns ltac:(lia)) Hg eq_refl ltac:(lia) ltac:(lia)) as Hw.
  done.
Qed.

Lemma rate_over_finite bytes ns : is_duration ns -> is_size bytes -> isfinite (rate_over bytes ns) = true.
Proof.
  intros Hb [Hlo Hhi]. unfold rate_over. destruct (fltb (double_of 0) (seconds_of ns)) eqn:Hpos; [|done].
  assert (Z.abs bytes < 2 ^ 99) as Hz by lia.
  eapply within_finite, (fdiv_within _ _ _ _ _ _ (double_of_within _ Hz) (seconds_within _ Hb) Hpos); lia.
Qed.

Lemma busy_rate_finite s : is_duration (busy s) -> is_size (Summary.bytes_transferred s) ->
  isfinite (busy_bytes_per_sec s) = true.
Proof. intros. by apply rate_over_finite. Qed.

Lemma bytes_per_sec_finite o : is_duration (duration o) -> is_size (Observation.bytes_transferred o) ->
  isfinite (bytes_per_sec o) = true.
Proof. intros. by apply rate_over_finite. Qed.

Lemma busy_fraction_finite s : is_duration (busy s) -> is_duration (Summary.wall s) ->
  isfinite (busy_fraction s) = true.
Proof.
  intros Hb Hw. unfold is_duration in *. unfold busy_fraction. destruct (Summary.wall s =? 0) eqn:Hz; [done|].
  assert (0 < Summary.wall s) as Hpos by (apply Z.eqb_neq in Hz; unfold Summary.wall in *; case_match; lia).
  eapply within_finite, (fdiv_within (-52) 150 (-52) 150);
    [apply double_of_within; lia|apply double_of_within; lia| |lia|lia].
  destruct (double_of_spec (Summary.wall s)) as (m & e & -> & _); [lia|done].
Qed.

Lemma wf_int z : well_formed (jint z).
Proof. apply numeral_pretty. Qed.

Lemma wf_object ms :
  Forall (fun m : string * json => forallb not_quote (chars_of m.1) = true /\ well_formed m.2) ms -> well_formed (jobject ms).
Proof.
  intros Hms. unfold jobject. induction Hms as [|[k v] ms [Hk Hv] _ IH]; [done|].
  rewrite fmap_cons. cbn. split_and!; [|done|exact IH].
  apply Forall_forall. intros c Hc%list_elem_of_In. by apply (proj1 (forallb_forall _ _) Hk).
Qed.

Lemma wf_kind k : well_formed (jtext (kind_text k)).
Proof. unfold jtext, kind_text. repeat case_match; by repeat constructor. Qed.

Lemma backend_name_plain i : forallb not_quote (chars_of (backend_name i)) = true.
Proof. by do 6 (destruct i as [|i]; [done|]). Qed.

Lemma wf_summary s :
  isfinite (busy_bytes_per_sec s) = true -> isfinite (busy_fraction s) = true -> well_formed (summary_json s).
Proof.
  intros Hr Hf. pose proof wf_int as Hint. pose proof (wf_kind (sum_kind s)) as Hkind.
  apply wf_object. repeat (apply Forall_cons; split; [split; [done|]|]); try apply Hint; try done; cbn [snd].
  - apply (numeral_general _ Hr).
  - apply (numeral_general _ Hf).
  - apply wf_object. by repeat (apply Forall_cons; split; [split; [done|apply Hint]|]).
  - apply wf_object. apply Forall_forall. intros m Hm%elem_of_lookup_imap.
    destruct Hm as (i & t & -> & _). split; [apply backend_name_plain|].
    apply wf_object. by repeat (apply Forall_cons; split; [split; [done|apply Hint]|]).
Qed.

(** The integers of the JSON, each under its name. *)
Definition counters_integers (c : Counters) : list (string * Z) :=
  [("remote_size_probes", remote_size_probes c); ("remote_size_probing_ns", remote_size_probing c);
   ("http_connections", http_connections c); ("http_dns_ns", http_dns c); ("http_tcp_ns", http_tcp c);
   ("http_tls_ns", http_tls c); ("http_retries", http_retries c); ("http_retry_backoff_ns", http_retry_backoff c)].

Definition totals_integers (t : BackendTotals) : list (string * Z) :=
  [("num_ops", bt_num_ops t); ("bytes_transferred", bt_bytes_transferred t);
   ("total_duration_ns", bt_total_duration t); ("num_errors", bt_num_errors t)].

Definition summary_integers (s : Summary) : list (string * Z) :=
  [("start_unix_ns", to_wall_clock (anchor s) (sum_start s)); ("end_unix_ns", to_wall_clock (anchor s) (sum_end s));
   ("wall_ns", Summary.wall s); ("num_ops", num_ops s); ("num_reads", num_reads s); ("num_writes", num_writes s);
   ("bytes_requested", bytes_requested s); ("bytes_transferred", Summary.bytes_transferred s);
   ("bytes_read", bytes_read s); ("bytes_written", bytes_written s); ("num_errors", num_errors s);
   ("busy_ns", busy s); ("total_duration_ns", total_duration s); ("mean_duration_ns", mean_duration s)].

Definition reads (j : json) (path : list string) (l : list (string * Z)) : Prop :=
  Forall (fun m => (get_path (path ++ [m.1]) j ≫= as_integer) = Some m.2) l.

(** C39. The JSON of every summary is well formed, whatever is in it: a reader
    gets an object of it in which the kind and each total, time and count is
    found under its name, exactly, those of the counters and of each backend in
    objects of their own; the two doubles never print as infinity or as
    not-a-number, which JSON does not have. *)
Theorem summary_json_reads_back (s : Summary) :
  is_duration (busy s) -> is_duration (Summary.wall s) -> is_size (Summary.bytes_transferred s) ->
  length (by_backend s) = num_io_backends ->
  exists j, read_json (chars_of (summary_to_json s)) = Some j /\
    (get_path ["kind"] j ≫= as_string) = Some (chars_of (kind_text (sum_kind s))) /\
    reads j [] (summary_integers s) /\
    reads j ["counters"] (counters_integers (sum_counters s)) /\
    (forall i t, by_backend s !! i = Some t -> reads j ["by_backend"; backend_name i] (totals_integers t)).
Proof.
  intros Hb Hw Ht Hl. exists (summary_json s). rewrite <- render_summary, read_json_render
    by (apply wf_summary; [by apply busy_rate_finite|by apply busy_fraction_finite]).
  split_and!; [done|done| | |].
  - repeat (apply Forall_cons; split; [apply scan_pretty|]). constructor.
  - repeat (apply Forall_cons; split; [apply scan_pretty|]). constructor.
  - intros i t Hi. destruct (by_backend s) as [|t0 [|t1 [|t2 [|t3 [|t4 [|]]]]]] eqn:He; try done.
    do 5 (destruct i as [|i];
      [injection Hi as <-;
       repeat (apply Forall_cons; split; [unfold get_path; simpl; rewrite He; apply scan_pretty|]); constructor|]).
    done.
Qed.

Definition demo_summary : Summary :=
  mkSummary 1000 3000001000 (mkAnchor 1000 1700000000000000000) 3 2 1 4096 3072 2048 1024 1
    [mkTotals 2 768 2000000 0; mkTotals 1 2304 1000000 1; no_totals; no_totals; no_totals] no_counters
    3000000 1500000000 0 (replicate 7 0).

Lemma summary_json_reads_back_witness :
  exists j, read_json (chars_of (summary_to_json demo_summary)) = Some j /\
    (get_path ["busy_ns"] j ≫= as_integer) = Some 1500000000 /\
    (get_path ["by_backend"; "GDS"; "num_errors"] j ≫= as_integer) = Some 1.
Proof.
  destruct (summary_json_reads_back demo_summary) as (j & Hj & _ & Hi & _ & Hb); [by vm_compute..|done|].
  exists j. split_and!; [done| |].
  - apply (proj1 (Forall_forall _ _) Hi ("busy_ns", 1500000000)). by apply (list_elem_of_lookup_2 _ 11%nat).
  - apply (proj1 (Forall_forall _ _) (Hb 1%nat _ eq_refl) ("num_errors", 1)). by apply (list_elem_of_lookup_2 _ 3%nat).
Defined.

Example demo_report :
  summary_report RowsUsed demo_summary
  = concat_strings
      ["KvikIO I/O summary (LOGICAL)" +:+ newline;
       "  wall time            3 s" +:+ newline;
       "  busy time            1.50 s (50.00 % of the wall time)" +:+ newline;
       "  busy bandwidth       2.05 kB/s" +:+ newline;
       "  operations           3 (2 read, 1 write)" +:+ newline;
       "  mean duration        1 ms" +:+ newline;
       "  bytes                3 KiB of 4 KiB requested (2 KiB read, 1 KiB written)" +:+ newline;
       "  errors               1" +:+ newline;
       "  backend POSIX        768 B in 2 ops, 2 ms, 384 kB/s" +:+ newline;
       "  backend GDS          2.25 KiB in 1 ops, 1 ms, 2.30 MB/s, 1 failed" +:+ newline].
Proof. by vm_compute. Qed.

(** Nothing is said of counters that are all zero, unless all rows are asked for
    or the span did remote I/O. *)
Example silent_counters : counters_report RowsUsed no_counters = "" /\ used demo_summary 3 = false.
Proof. done. Qed.
