(* ===== verification/SizeProbe.v ===== *)
(** * Asking a remote endpoint for a file size

    The [get_file_size] of the endpoints again ([src/remote_handle.cpp],
    [src/hdfs.cpp]), this time with the retry loop of [CurlHandle::perform]
    ([src/shim/libcurl.cpp]) and the callbacks and counters it drives, instead
    of the one exchange [Endpoint] gives a request.  The theorem is that the
    retries do not show. *)

From stdpp Require Import base list strings.
From Stdlib Require Import ZArith Lia Ascii.
From S2P Require Import Prelude HttpRetry Regex Url Endpoint Summary.

#[local] Open Scope Z_scope.

(** What happens in one attempt: its end, what the server sent meanwhile, the
    connection information of the handle after it. *)
Record exchange := mkExchange {
  ex_end : attempt_end;
  ex_response : response;
  ex_connections : option Z;
  ex_namelookup : option Z;
  ex_connect : option Z;
  ex_appconnect : option Z }.

Definition count_http_connection_of (x : exchange) (c : Counters) : Counters :=
  match http_connection_of (ex_connections x) (ex_namelookup x) (ex_connect x) (ex_appconnect x) with
  | Some (connections, dns, tcp, tls) => count_http_connection connections dns tcp tls c
  | None => c
  end.

(** ** The loop with its callbacks *)

(** [tr_end]: returned or thrown, once it is over. *)
Record transferring (A : Type) := mkTransferring {
  tr_attempt : Z;
  tr_slept : list Z;
  tr_data : A;
  tr_counters : Counters;
  tr_end : option (exn + unit) }.
Arguments mkTransferring {_}.
Arguments tr_attempt {_}.
Arguments tr_slept {_}.
Arguments tr_data {_}.
Arguments tr_counters {_}.
Arguments tr_end {_}.

Section transfer.
Context {A : Type} (curl_easy_strerror : CURLcode -> string) (p : HttpRetryPolicy).
(** What the write and header callbacks make of a response, what [on_retry]
    does, and the attempts. *)
Context (receive : A -> response -> result A) (on_retry : A -> A) (wire : Z -> exchange).

Definition transfer_body (s : transferring A) : result (transferring A) :=
  let x := wire (tr_attempt s) in
  match receive (tr_data s) (ex_response x) with
  | Err e => mret (mkTransferring (tr_attempt s) (tr_slept s) (tr_data s) (tr_counters s) (Some (inl e)))
  | NoFuel => NoFuel
  | Ok data =>
      let counters := count_http_connection_of x (tr_counters s) in
      let curl_code := end_code (ex_end x) in
      let http_code := if decide (curl_code = CURLE_OK) then 0 else end_http (ex_end x) in
      outcome ← evaluate curl_easy_strerror p curl_code http_code (tr_attempt s) (end_error (ex_end x))
                  "curl_easy_perform() error";
      mret match decision outcome with
           | SUCCESS => mkTransferring (tr_attempt s) (tr_slept s) data counters (Some (inr tt))
           | RETRY =>
               mkTransferring (tr_attempt s +% 1) (tr_slept s ++ [delay_ms outcome]) (on_retry data)
                 (count_http_retry (delay_ms outcome * 1000000) counters) None
           | FATAL | EXHAUSTED =>
               mkTransferring (tr_attempt s) (tr_slept s) data counters
                 (Some (inl (RuntimeError (outcome_message outcome))))
           end
  end.

Definition going (s : transferring A) : bool := match tr_end s with None => true | Some _ => false end.

Definition transfer_from (data : A) (c : Counters) : result (transferring A) :=
  while_loop (Z.to_nat (max_attempts p)) going transfer_body (mkTransferring 1 [] data c None).

(** The scope of a [ScopedTimer]. *)
Definition timed_perform (elapsed : Z) (data : A) (c : Counters) : result (transferring A) :=
  s ← transfer_from data c;
  mret (mkTransferring (tr_attempt s) (tr_slept s) (tr_data s)
          (count_remote_size_probe elapsed (tr_counters s)) (tr_end s)).
End transfer.

(** ** The probes *)

Section probe.
Context `{CurlUrl} (curl_easy_strerror : CURLcode -> string) (p : HttpRetryPolicy).
(** The attempts of a request, and how long it takes. *)
Context (wire : list setting -> Z -> exchange) (elapsed : list setting -> Z).

(** What follows [perform]: [k], given the data and the last response, unless
    it threw. *)
Definition finish_probe {A} (s : transferring A) (last : response) (k : A -> response -> result Z)
    : result ((exn + Z) * Counters) :=
  match tr_end s with
  | Some (inl e) => mret (inl e, tr_counters s)
  | _ => match k (tr_data s) last with
         | Ok n => mret (inr n, tr_counters s)
         | Err e => mret (inl e, tr_counters s)
         | NoFuel => NoFuel
         end
  end.

Definition request_size {A} (opts : list setting) (receive : A -> response -> result A) (on_retry : A -> A)
    (data : A) (k : A -> response -> result Z) (c : Counters) : result ((exn + Z) * Counters) :=
  s ← timed_perform curl_easy_strerror p receive on_retry (wire opts) (elapsed opts) data c;
  finish_probe s (ex_response (wire opts (tr_attempt s))) k.

Definition probe_using_head (e : RemoteEndpoint) (c : Counters) : result ((exn + Z) * Counters) :=
  match setopt e with
  | Ok opts =>
      request_size (opts ++ [OPT_NOBODY; OPT_FOLLOWLOCATION]) (fun _ _ => mret tt) id tt
        (fun _ => head_content_length e) c
  | Err e => mret (inl e, c)
  | NoFuel => NoFuel
  end.

Definition probe_presigned (url : string) : Counters -> result ((exn + Z) * Counters) :=
  request_size [OPT_URL url; OPT_RANGE "0-0"] (fun n r => foldM callback_header n (header_lines r)) id 0
    (fun n _ => mret (wrap64 n)).

Definition probe_webhdfs (url : string) (username : option string) : Counters -> result ((exn + Z) * Counters) :=
  request_size [OPT_URL (webhdfs_query url username "op=GETFILESTATUS"); OPT_FOLLOWLOCATION]
    (fun text r => mret (text ++ body r)) (fun _ => []) []
    (fun text r => webhdfs_file_length (http_status r) text).

Definition probe_file_size (e : RemoteEndpoint) : Counters -> result ((exn + Z) * Counters) :=
  match e with
  | S3EndpointWithPresignedUrl url => probe_presigned url
  | WebHdfsEndpoint url username => probe_webhdfs url username
  | HttpEndpoint _ | S3Endpoint _ _ _ _ | S3PublicEndpoint _ => probe_using_head e
  end.

(** ** The specification: one exchange, the last *)

Definition last_exchange (opts : list setting) : result response :=
  s ← perform curl_easy_strerror (fun n => ex_end (wire opts n)) p;
  mret (ex_response (wire opts (attempt s))).
End probe.

(** ** The loop and the last exchange *)

Section facts.
Context {A : Type} (curl_easy_strerror : CURLcode -> string) (p : HttpRetryPolicy).
Context (receive : A -> response -> result A) (on_retry : A -> A) (wire : Z -> exchange) (data : A).

(** A failed attempt leaves nothing behind. *)
Definition leaves_nothing : Prop := forall n, end_code (ex_end (wire n)) <> CURLE_OK ->
  exists d, receive data (ex_response (wire n)) = Ok d /\ on_retry d = data.

Definition terminates : Prop := forall d r, receive d r <> NoFuel.

(** The loop ended as [perform] did, and if that returned, with what the last
    response makes of the initial data. *)
Definition ended_as (r : result performing) (s : transferring A) : Prop :=
  match r with
  | Ok ps =>
      tr_attempt s = attempt ps /\ tr_slept s = slept ps /\
      match receive data (ex_response (wire (attempt ps))) with
      | Ok d => tr_end s = Some (inr tt) /\ tr_data s = d
      | Err e => tr_end s = Some (inl e)
      | NoFuel => False
      end
  | Err e => tr_end s = Some (inl e)
  | NoFuel => False
  end.

Definition ended_loop (r : result performing) (m : result (transferring A)) : Prop :=
  match r, m with
  | NoFuel, _ => True
  | _, Ok s => ended_as r s
  | _, _ => False
  end.

Let attempts (n : Z) : attempt_end := ex_end (wire n).

Lemma evaluate_total code http a text prefix :
  0 < a -> exists o, evaluate curl_easy_strerror p code http a text prefix = Ok o /\
    (decision o = SUCCESS <-> code = CURLE_OK) /\
    (code <> CURLE_OK -> is_retryable p code http = true -> decision o <> RETRY -> max_attempts p <= a).
Proof.
  intros Ha. unfold evaluate. replace (a >? 0) with true by lia. simpl.
  repeat case_match; eexists; (split; [reflexivity|]); (split; [naive_solver|]); intros ? Hr ?; try done;
    bool_to_prop; first [lia|congruence].
Qed.

(** The loop stops at attempt [n]: the first ones failed in a way worth
    retrying, and this one does not or is the last one allowed. *)
Definition stops_at (n : Z) : Prop :=
  1 <= n <= max_attempts p /\ all_retried attempts p n /\
  (retryable_end p (attempts n) = true -> n = max_attempts p).

(** One turn of both loops. *)
Lemma turn a l c :
  0 < a -> leaves_nothing -> terminates ->
  let x := wire a in
  (end_code (ex_end x) = CURLE_OK /\
   perform_body curl_easy_strerror attempts p (mkPerforming a l false) = Ok (mkPerforming a l true) /\
   exists s, transfer_body curl_easy_strerror p receive on_retry wire (mkTransferring a l data c None) = Ok s /\
     ended_as (Ok (mkPerforming a l true)) s) \/
  (exists delay c',
   perform_body curl_easy_strerror attempts p (mkPerforming a l false) = Ok (mkPerforming (a +% 1) (l ++ [delay]) false) /\
   transfer_body curl_easy_strerror p receive on_retry wire (mkTransferring a l data c None)
     = Ok (mkTransferring (a +% 1) (l ++ [delay]) data c' None)) \/
  (exists e s,
   perform_body curl_easy_strerror attempts p (mkPerforming a l false) = Err e /\
   transfer_body curl_easy_strerror p receive on_retry wire (mkTransferring a l data c None) = Ok s /\
   tr_attempt s = a /\ tr_slept s = l /\ tr_end s = Some (inl e) /\
   (retryable_end p (attempts a) = true -> max_attempts p <= a)).
Proof.
  intros Ha Hl Ht x. unfold perform_body, transfer_body, attempts. cbn [attempt slept tr_attempt tr_slept tr_data tr_counters].
  fold x. set (code := end_code (ex_end x)).
  destruct (evaluate_total code (if decide (code = CURLE_OK) then 0 else end_http (ex_end x)) a
              (end_error (ex_end x)) "curl_easy_perform() error" Ha) as (o & -> & Ho & Hlast).
  cbn [mbind result_bind]. destruct (decide (code = CURLE_OK)) as [Hc|Hc].
  - left. rewrite (proj2 Ho Hc). split; [done|]. split; [done|].
    unfold ended_as. cbn [attempt]. fold x. pose proof (Ht data (ex_response x)).
    destruct (receive data (ex_response x)) as [d|e|]; [| |done]; eexists; (split; [reflexivity|]); done.
  - right. destruct (Hl a Hc) as (d & Hd & Hr). fold x in Hd. rewrite Hd.
    assert (decision o <> SUCCESS) by tauto.
    assert (Hr' : decision o <> RETRY -> retryable_end p (ex_end x) = true -> max_attempts p <= a).
    { intros Hd' Hre. unfold retryable_end in Hre. apply andb_true_iff in Hre as [_ Hre]. by apply Hlast. }
    clear Hlast. destruct (decision o); [done| |right|right].
    + left. eexists _, _. split; [reflexivity|]. cbn. by rewrite Hr.
    + eexists _, _. split; [reflexivity|]. split; [reflexivity|]. split_and!; try done. by apply Hr'.
    + eexists _, _. split; [reflexivity|]. split; [reflexivity|]. split_and!; try done. by apply Hr'.
Qed.

Lemma loop_ends_as fuel a l c :
  0 < a -> a + Z.of_nat fuel < SIZE_MOD -> leaves_nothing -> terminates ->
  ended_loop (while_loop fuel (fun s => negb (finished s)) (perform_body curl_easy_strerror attempts p) (mkPerforming a l false))
    (while_loop fuel going (transfer_body curl_easy_strerror p receive on_retry wire) (mkTransferring a l data c None)).
Proof.
  revert a l c. induction fuel as [|fuel IH]; intros a l c Ha Hf Hl Ht; [done|].
  cbn [while_loop going negb finished tr_end].
  destruct (turn a l c Ha Hl Ht) as [(_ & -> & s & -> & Hs)|[(delay & c' & -> & ->)|(e & s & -> & -> & _ & _ & He & _)]];
    cbn [mbind result_bind].
  - assert (going s = false) as Hg.
    { unfold ended_as, going in *. destruct Hs as (_ & _ & Hs). destruct (receive _ _); [|by rewrite Hs|done].
      destruct Hs as [-> _]. done. }
    destruct fuel; simpl; rewrite Hg; exact Hs.
  - rewrite wrap64_small by lia. apply IH; try done; lia.
  - destruct fuel; simpl; unfold going; rewrite He; done.
Qed.

Lemma ended_as_ends r s : ended_as r s -> tr_end s <> None.
Proof.
  unfold ended_as. destruct r as [ps|e|]; [|congruence|done]. intros (_ & _ & H).
  destruct (receive _ _); [destruct H as [-> _]|rewrite H|]; done.
Qed.

(** Where the loop is after some rounds, and where it stopped. *)
Definition transferring_inv (s : transferring A) : Prop :=
  performing_inv attempts p (mkPerforming (tr_attempt s) (tr_slept s) false) /\
  match tr_end s with None => tr_data s = data | Some _ => stops_at (tr_attempt s) end.

Lemma transfer_body_inv s s' :
  max_attempts p < SIZE_MOD - 1 -> leaves_nothing -> terminates -> transferring_inv s -> going s = true ->
  transfer_body curl_easy_strerror p receive on_retry wire s = Ok s' -> transferring_inv s'.
Proof.
  intros Hmax Hl Ht [Hp Hend] Hg Hs. destruct s as [a l d c [x|]]; [done|]. simpl in Hend, Hp. subst d. clear Hg.
  pose proof (perform_body_spec curl_easy_strerror attempts p (mkPerforming a l false) ltac:(lia) Hp eq_refl) as Hb.
  pose proof Hp as ([Ha Ha'] & Hall & Hsl & _). simpl in Ha, Ha', Hall, Hsl.
  destruct (turn a l c ltac:(lia) Hl Ht) as [(Hc & _ & s & Hs1 & Hs2)|[(delay & c' & Hb1 & Hs1)|(e & s & _ & Hs1 & E1 & E2 & E3 & E4)]];
    rewrite Hs1 in Hs; injection Hs as <-.
  - destruct Hs2 as (E1 & E2 & E3). simpl in *. unfold transferring_inv. rewrite E1, E2. split; [done|].
    assert (stops_at a).
    { split_and!; try done. unfold retryable_end. intros Hre. rewrite bool_decide_eq_true_2 in Hre; done. }
    destruct (receive _ _); [destruct E3 as [-> _]|rewrite E3|]; done.
  - rewrite Hb1 in Hb. by destruct Hb as [Hb _].
  - unfold transferring_inv. rewrite E1, E2, E3. split; [done|]. split_and!; try done. intros Hre. specialize (E4 Hre). lia.
Qed.

Lemma transfer_stops c s :
  0 < max_attempts p < SIZE_MOD - 1 -> leaves_nothing -> terminates ->
  transfer_from curl_easy_strerror p receive on_retry wire data c = Ok s -> tr_end s <> None ->
  stops_at (tr_attempt s) /\ tr_slept s = delays p (Z.to_nat (tr_attempt s - 1)).
Proof.
  intros Hm Hl Ht Hs He. apply (while_preserves transferring_inv) in Hs as [(_ & _ & Hsl & _) Hend].
  - destruct (tr_end s); done.
  - intros s0 s1 Hi Hg. apply transfer_body_inv; try done; lia.
  - split; [|done]. split_and!; simpl; try lia; try done. intros i Hi. lia.
Qed.

(** What the loop has counted. *)
Definition retries_counted (c : Counters) (s : transferring A) : Prop :=
  remote_size_probes (tr_counters s) = remote_size_probes c /\
  remote_size_probing (tr_counters s) = remote_size_probing c /\
  http_retries (tr_counters s) = http_retries c +% Z.of_nat (length (tr_slept s)) /\
  http_retry_backoff (tr_counters s) = http_retry_backoff c + 1000000 * sumZ (tr_slept s).

Lemma count_connection_keeps x c :
  let c' := count_http_connection_of x c in
  remote_size_probes c' = remote_size_probes c /\ remote_size_probing c' = remote_size_probing c /\
  http_retries c' = http_retries c /\ http_retry_backoff c' = http_retry_backoff c.
Proof. cbv zeta. unfold count_http_connection_of. by repeat case_match. Qed.

Lemma transfer_counts c s :
  is_size (http_retries c) ->
  transfer_from curl_easy_strerror p receive on_retry wire data c = Ok s -> retries_counted c s.
Proof.
  intros Hc. apply (while_preserves (retries_counted c)).
  - intros s0 s1 (H1 & H2 & H3 & H4) _. unfold transfer_body.
    pose proof (count_connection_keeps (wire (tr_attempt s0)) (tr_counters s0)) as (K1 & K2 & K3 & K4).
    destruct (receive _ _) as [d|e|]; [|intros [= <-]; unfold retries_counted; by simpl|done].
    destruct (evaluate _ _ _ _ _ _ _) as [o| |]; cbn [mbind result_bind]; try done.
    intros [= <-]. destruct (decision o); unfold retries_counted; simpl; rewrite ?K1, ?K2, ?K3, ?K4; try done.
    split_and!; try done.
    + rewrite H3, length_app. simpl. wrap_eq.
    + rewrite H4, sumZ_app. simpl. lia.
  - unfold retries_counted. simpl. split_and!; try done; [|lia]. rewrite Z.add_0_r. by rewrite wrap64_small.
Qed.

(** The whole of it: ended as [perform] did, and counted. *)
Lemma timed_perform_spec elapsed c :
  0 < max_attempts p < SIZE_MOD - 1 -> is_size (http_retries c) -> leaves_nothing -> terminates ->
  exists s, timed_perform curl_easy_strerror p receive on_retry wire elapsed data c = Ok s /\
    ended_as (perform curl_easy_strerror attempts p) s /\
    remote_size_probes (tr_counters s) = remote_size_probes c +% 1 /\
    remote_size_probing (tr_counters s) = remote_size_probing c + elapsed /\
    exists n, stops_at n /\
      http_retries (tr_counters s) = http_retries c +% (n - 1) /\
      http_retry_backoff (tr_counters s) = http_retry_backoff c + 1000000 * sumZ (delays p (Z.to_nat (n - 1))).
Proof.
  intros Hm Hc Hl Ht.
  pose proof (loop_ends_as (Z.to_nat (max_attempts p)) 1 [] c) as Hloop.
  fold (perform curl_easy_strerror attempts p) in Hloop.
  fold (transfer_from curl_easy_strerror p receive on_retry wire data c) in Hloop.
  pose proof (perform_spec curl_easy_strerror attempts p) as Hp. unfold timed_perform.
  destruct (transfer_from _ _ _ _ _ _ _) as [s|e|] eqn:Hs.
  - assert (Hend : ended_as (perform curl_easy_strerror attempts p) s)
      by (destruct (perform _ _ _); apply Hloop || (exfalso; apply Hp); try done; lia).
    destruct (transfer_stops c s Hm Hl Ht Hs (ended_as_ends _ _ Hend)) as [Hstop Hsl].
    apply transfer_counts in Hs as (H1 & H2 & H3 & H4); [|done]. eexists. split; [reflexivity|]. simpl.
    rewrite H1, H2. split_and!; try done. exists (tr_attempt s). pose proof Hstop as ([? ?] & _).
    rewrite H3, H4, Hsl. unfold delays at 1. rewrite length_fmap, length_seq, Z2Nat.id by lia. done.
  - exfalso. destruct (perform _ _ _); apply Hloop || apply Hp; try done; lia.
  - exfalso. destruct (perform _ _ _); apply Hloop || apply Hp; try done; lia.
Qed.
End facts.

Definition to_result {A} (r : exn + A) : result A := match r with inr a => Ok a | inl e => Err e end.

Section refinement.
Context `{CurlUrl} (curl_easy_strerror : CURLcode -> string) (p : HttpRetryPolicy).
Context (wire : list setting -> Z -> exchange) (elapsed : list setting -> Z).
Hypothesis attempts_bounded : 0 < max_attempts p < SIZE_MOD - 1.

(** One probe and its time, a retry and its backoff for every attempt but the
    one the loop stops at. *)
Definition probe_counted (opts : list setting) (c c' : Counters) : Prop :=
  remote_size_probes c' = remote_size_probes c +% 1 /\
  remote_size_probing c' = remote_size_probing c + elapsed opts /\
  exists n, stops_at p (wire opts) n /\
    http_retries c' = http_retries c +% (n - 1) /\
    http_retry_backoff c' = http_retry_backoff c + 1000000 * sumZ (delays p (Z.to_nat (n - 1))).

Lemma request_refines {A} opts (receive : A -> response -> result A) on_retry data k c :
  is_size (http_retries c) -> leaves_nothing receive on_retry (wire opts) data -> terminates receive ->
  (forall d r, k d r <> NoFuel) ->
  exists r c', request_size curl_easy_strerror p wire elapsed opts receive on_retry data k c = Ok (r, c') /\
    to_result r = (resp ← last_exchange curl_easy_strerror p wire opts; d ← receive data resp; k d resp) /\
    probe_counted opts c c'.
Proof.
  intros Hc Hl Ht Hk. unfold request_size, last_exchange.
  destruct (timed_perform_spec curl_easy_strerror p receive on_retry (wire opts) data (elapsed opts) c
              attempts_bounded Hc Hl Ht) as (s & -> & Hend & Hcount).
  cbn [mbind result_bind]. unfold finish_probe.
  destruct (perform _ _ _) as [ps|e|]; [| |done]; unfold ended_as in Hend; cbn [mbind result_bind].
  - destruct Hend as (Ha & _ & Hd). rewrite Ha. cbn [mbind result_bind mret result_ret].
    destruct (receive data _) as [d|e|]; [destruct Hd as [-> Hd]|rewrite Hd|done]; cbn [mbind result_bind].
    + rewrite Hd. pose proof (Hk d (ex_response (wire opts (attempt ps)))).
      destruct (k d _); [| |done]; eexists _, _; (split; [reflexivity|]); done.
    + eexists _, _; (split; [reflexivity|]); done.
  - rewrite Hend. by eexists _, _; (split; [reflexivity|]).
Qed.

(** The options of the size request. *)
Definition probe_options (e : RemoteEndpoint) : result (list setting) :=
  match e with
  | S3EndpointWithPresignedUrl url => mret [OPT_URL url; OPT_RANGE "0-0"]
  | WebHdfsEndpoint url username =>
      mret [OPT_URL (webhdfs_query url username "op=GETFILESTATUS"); OPT_FOLLOWLOCATION]
  | HttpEndpoint _ | S3Endpoint _ _ _ _ | S3PublicEndpoint _ =>
      opts ← setopt e; mret (opts ++ [OPT_NOBODY; OPT_FOLLOWLOCATION])
  end.

(** The failed attempts of a presigned endpoint send no [Content-Range]: its
    size is not reset before a retry. *)
Definition no_stale_range (e : RemoteEndpoint) : Prop :=
  match e with
  | S3EndpointWithPresignedUrl url =>
      forall n, end_code (ex_end (wire [OPT_URL url; OPT_RANGE "0-0"] n)) <> CURLE_OK ->
        Forall (fun l => leftmost content_range_at l = None)
          (header_lines (ex_response (wire [OPT_URL url; OPT_RANGE "0-0"] n)))
  | _ => True
  end.

Lemma callback_header_terminates n lines : foldM callback_header n lines <> NoFuel.
Proof. apply foldM_fuel. intros m l. unfold callback_header. by repeat case_match. Qed.

Lemma file_length_terminates status text : webhdfs_file_length status text <> NoFuel.
Proof.
  unfold webhdfs_file_length, expect. destruct (status =? 200); simpl; [|done].
  destruct (leftmost _ _); [|done]. unfold stoull, expect. by destruct (_ <? _).
Qed.

Lemma setopt_terminates e : setopt e <> NoFuel.
Proof.
  assert (He : forall url, encode_special_chars_in_path url <> NoFuel).
  { intros url. unfold encode_special_chars_in_path. pose proof (parse_terminates url 0 0).
    destruct (parse url 0 0); simpl; try done. by destruct (path _). }
  destruct e as [|url ? ? ?|url| |]; simpl; try done; unfold s3_setopt, s3_public_setopt;
    specialize (He url); by destruct (encode_special_chars_in_path url).
Qed.

(** C21. Asking an endpoint for the size of its file through the retry loop, the
    callbacks of the endpoint being called in every attempt, always ends with
    what the exchange of the last attempt alone gives, the same size or the same
    exception; for a presigned endpoint, if its failed attempts sent no
    [Content-Range].  When the request can be built it counts, whether it
    returns or throws, one probe with its time, and a retry with its backoff for
    every attempt but the one the loop stops at, the first that is not to be
    retried or the last one allowed; otherwise it counts nothing. *)
Theorem probe_refines (e : RemoteEndpoint) (c : Counters) :
  is_size (http_retries c) -> no_stale_range e ->
  exists r c', probe_file_size curl_easy_strerror p wire elapsed e c = Ok (r, c') /\
    to_result r = get_file_size (last_exchange curl_easy_strerror p wire) e /\
    match probe_options e with Ok opts => probe_counted opts c c' | _ => c' = c end.
Proof.
  intros Hc Hstale.
  assert (Hhead : get_file_size (last_exchange curl_easy_strerror p wire) e
                    = get_file_size_using_head_impl (last_exchange curl_easy_strerror p wire) e ->
    probe_options e = (opts ← setopt e; mret (opts ++ [OPT_NOBODY; OPT_FOLLOWLOCATION])) ->
    exists r c', probe_using_head curl_easy_strerror p wire elapsed e c = Ok (r, c') /\
      to_result r = get_file_size (last_exchange curl_easy_strerror p wire) e /\
      match probe_options e with Ok opts => probe_counted opts c c' | _ => c' = c end).
  { intros -> ->. unfold probe_using_head, get_file_size_using_head_impl. pose proof (setopt_terminates e).
    destruct (setopt e) as [opts|x|]; [|by eexists _, _|done]. cbn [mbind result_bind mret result_ret].
    destruct (request_refines (opts ++ [OPT_NOBODY; OPT_FOLLOWLOCATION]) (fun _ _ => mret tt) id tt
                (fun _ => head_content_length e) c) as (r & c' & -> & Hr & Hcount); try done; [by exists tt| |by exists r, c'].
    intros _ r. unfold head_content_length, expect. by destruct (_ >=? _). }
  destruct e as [| | |url|url name]; try (apply Hhead; done); clear Hhead; simpl.
  - apply (request_refines _ (fun n r => foldM callback_header n (header_lines r)) id 0); try done.
    + intros n Hn. exists 0. split; [|done]. apply header_lines_skip. by apply Hstale.
    + intros n r. apply callback_header_terminates.
  - destruct (request_refines [OPT_URL (webhdfs_query url name "op=GETFILESTATUS"); OPT_FOLLOWLOCATION]
                (fun text r => mret (text ++ body r)) (fun _ => []) []
                (fun text r => webhdfs_file_length (http_status r) text) c) as (r & c' & Hq & Hr & Hcount); try done.
    + intros n _. by eexists.
    + intros text r. apply file_length_terminates.
    + by exists r, c'.
Qed.
End refinement.

(** ** A flaky server

    The first attempt breaks off in the middle of the answer. *)

Definition length_json (n : string) : list ascii :=
  chars_of "{" ++ [ascii_of_nat 34] ++ chars_of "length" ++ [ascii_of_nat 34] ++ chars_of ":" ++ chars_of n ++ chars_of "}".

Definition broken_off (r : response) : exchange := mkExchange (mkEnd CURLE_RECV_ERROR 0 "") r (Some 1) (Some 100) (Some 300) (Some 300).
Definition arrived (r : response) : exchange := mkExchange (mkEnd CURLE_OK 0 "") r (Some 0) None None None.

Definition flaky_webhdfs (_ : list setting) (n : Z) : exchange :=
  if n =? 1 then broken_off (mkResponse 0 [] (take 12 (length_json "9999")) 200)
  else arrived (mkResponse 0 [] (length_json "4096") 200).

Definition range_lines (total : string) : list (list ascii) :=
  [content_range_line (chars_of " bytes 0-0") (chars_of total) [ascii_of_nat 13; ascii_of_nat 10]].

Definition flaky_presigned (stale : bool) (_ : list setting) (n : Z) : exchange :=
  if n =? 1 then broken_off (mkResponse 0 (if stale then range_lines "9999" else []) [] 206)
  else arrived (mkResponse 0 (if stale then [] else range_lines "4096") [] 206).

Definition texts_of (code : CURLcode) : string := "broken".

Example webhdfs_probe :
  probe_file_size (H := demo_curl) texts_of default_policy flaky_webhdfs (fun _ => 7000) (WebHdfsEndpoint "u" None) no_counters
  = Ok (inr 4096, mkCounters 1 7000 1 100000 200000 0 1 500000000).
Proof. vm_compute. reflexivity. Qed.

(** The size of a presigned object may come from an attempt that failed. *)
Example stale_content_range :
  (probe_file_size (H := demo_curl) texts_of default_policy (flaky_presigned true) (fun _ => 7000)
     (S3EndpointWithPresignedUrl "u") no_counters = Ok (inr 9999, mkCounters 1 7000 1 100000 200000 0 1 500000000)) /\
  get_file_size (H := demo_curl) (last_exchange texts_of default_policy (flaky_presigned true)) (S3EndpointWithPresignedUrl "u")
  = Ok 0.
Proof. vm_compute. done. Qed.

Lemma probe_refines_witness :
  exists c', probe_file_size (H := demo_curl) texts_of default_policy (flaky_presigned false) (fun _ => 7000)
     (S3EndpointWithPresignedUrl "u") no_counters = Ok (inr 4096, c') /\
  http_retries c' = 1 /\ http_retry_backoff c' = 500000000.
Proof.
  destruct (probe_refines (H := demo_curl) texts_of default_policy (flaky_presigned false) (fun _ => 7000)
              ltac:(done) (S3EndpointWithPresignedUrl "u") no_counters ltac:(done)) as (r & c' & Hp & Hr & Hc).
  - intros n. simpl. unfold flaky_presigned. destruct (n =? 1); [constructor|done].
  - exists c'. destruct Hc as (_ & _ & n & ([Hn _] & Hall & Hlast) & H1 & H2). rewrite Hp, H1, H2.
    assert (n = 2) as ->.
    { destruct (decide (n = 1)) as [->|]; [by specialize (Hlast eq_refl)|].
      destruct (decide (n = 2)) as [|]; [done|]. specialize (Hall 2 ltac:(lia)). vm_compute in Hall. done. }
    destruct r as [e|n]; vm_compute in Hr; [done|]. injection Hr as ->. by repeat split.
Defined.
