(* ===== verification/Serial.v ===== *)
(** * The serialised form of a summary

    [Summary::serialize] and [Summary::deserialize] of
    [src/statistics/summary.cpp]: a header of four little-endian words and the
    object representation of the [Summary], whose members are 64-bit words in
    the byte order of the machine, an [endian] argument here.  Bytes are
    integers below 256. *)

From stdpp Require Import base list strings pretty.
From Stdlib Require Import ZArith Lia.
From S2P Require Import Prelude Observation Summary.

#[local] Open Scope Z_scope.

(** ** The format *)

Inductive endian := LittleEndian | BigEndian.

#[global] Instance endian_eq_dec : EqDecision endian.
Proof. solve_decision. Defined.

(** The bytes of a word, least significant first; in the machine's order. *)
Fixpoint le_bytes (n : nat) (w : Z) : list Z :=
  match n with O => [] | S n => w mod 256 :: le_bytes n (w / 256) end.

Fixpoint le_value (l : list Z) : Z :=
  match l with [] => 0 | b :: l => b + 256 * le_value l end.

Definition in_order (e : endian) (l : list Z) : list Z :=
  match e with LittleEndian => l | BigEndian => reverse l end.

Definition object_word (e : endian) (w : Z) : list Z := in_order e (le_bytes 8 (wrap64 w)).

Definition to_signed (w : Z) : Z := if w <? 9223372036854775808 then w else w - SIZE_MOD.

Definition totals_words (t : BackendTotals) : list Z :=
  [bt_num_ops t; bt_bytes_transferred t; bt_total_duration t; bt_num_errors t].

(** The members in the order they are declared, but for the last eight bytes. *)
Definition words_of (s : Summary) : list Z :=
  [sum_start s; sum_end s; steady (anchor s); Observation.wall (anchor s); num_ops s; num_reads s;
   num_writes s; bytes_requested s; bytes_transferred s; bytes_read s; bytes_written s; num_errors s]
  ++ (by_backend s ≫= totals_words)
  ++ (let c := sum_counters s in
      [remote_size_probes c; remote_size_probing c; http_connections c; http_dns c; http_tcp c;
       http_tls c; http_retries c; http_retry_backoff c])
  ++ [total_duration s; busy s].

Definition of_words (ws : list Z) (kind : Z) (rest : list Z) : Summary :=
  let w i := nth i ws 0 in
  let d i := to_signed (w i) in
  mkSummary (d 0%nat) (d 1%nat) (mkAnchor (d 2%nat) (d 3%nat)) (w 4%nat) (w 5%nat) (w 6%nat)
    (w 7%nat) (w 8%nat) (w 9%nat) (w 10%nat) (w 11%nat)
    ((fun k => mkTotals (w (12 + 4 * k)%nat) (w (13 + 4 * k)%nat) (d (14 + 4 * k)%nat)
                 (w (15 + 4 * k)%nat)) <$> seq 0 num_io_backends)
    (mkCounters (w 32%nat) (d 33%nat) (w 34%nat) (d 35%nat) (d 36%nat) (d 37%nat) (w 38%nat)
       (d 39%nat)) (d 40%nat) (d 41%nat) kind rest.

Definition serial_magic : list Z := [75; 86; 83; 77].
Definition serial_version : Z := 3.
Definition serial_byte_order : Z := 16909060.
Definition serial_byte_order_offset : nat := 12.
Definition serial_header_size : nat := 16.
Definition sizeof_summary : nat := 344.
Definition serialized_size : nat := serial_header_size + sizeof_summary.

Definition put_u32 (value : Z) : list Z :=
  (fun i => Z.land (Z.shiftr value (i * 8)) 255) <$> seqZ 0 4.

Definition get_u32 (in_ : list Z) (at_ : nat) : Z :=
  foldl (fun value i => Z.lor value (Z.shiftl (nth (at_ + i) in_ 0) (Z.of_nat i * 8))) 0 (seq 0 4).

(** The object representation of a [Summary]. *)
Definition object_bytes (e : endian) (s : Summary) : list Z :=
  (words_of s ≫= object_word e) ++ [sum_kind s] ++ reserved s.

Definition serialize (e : endian) (s : Summary) : list Z :=
  serial_magic ++ put_u32 serial_version ++ put_u32 (Z.of_nat sizeof_summary)
  ++ in_order e (le_bytes 4 serial_byte_order) ++ object_bytes e s.

(** The object of those bytes. *)
Definition object_of (e : endian) (bytes : list Z) : Summary :=
  of_words ((fun i => le_value (in_order e (take 8 (drop (8 * i) bytes)))) <$> seq 0 42)
    (nth 336 bytes 0) (drop 337 bytes).

Definition deserialize (e : endian) (bytes : list Z) : result Summary :=
  _ ← expect (length bytes =? serialized_size)%nat
        (InvalidArgument "not a serialized kvikio::statistics::Summary: wrong length");
  _ ← expect (bool_decide (take 4 bytes = serial_magic))
        (InvalidArgument "not a serialized kvikio::statistics::Summary: wrong magic");
  let version := get_u32 bytes 4 in
  let size := get_u32 bytes 8 in
  _ ← expect ((version =? serial_version) && (size =? Z.of_nat sizeof_summary))
        (InvalidArgument ("serialized kvikio::statistics::Summary from a different build of KvikIO, version "
          +:+ pretty version +:+ " of " +:+ pretty size +:+ " bytes against version " +:+
          pretty serial_version +:+ " of " +:+ pretty (Z.of_nat sizeof_summary)));
  let byte_order := le_value (in_order e (take 4 (drop serial_byte_order_offset bytes))) in
  _ ← expect (byte_order =? serial_byte_order)
        (InvalidArgument "serialized kvikio::statistics::Summary written on a machine of a different byte order, which this format does not translate");
  mret (object_of e (drop serial_header_size bytes)).

(** *** Bytes and words *)

Definition is_byte (b : Z) : Prop := 0 <= b < 256.

Lemma le_bytes_length n w : length (le_bytes n w) = n.
Proof. revert w. induction n as [|n IH]; intros w; [done|]. simpl. by rewrite IH. Qed.

Lemma le_bytes_bytes n w : Forall is_byte (le_bytes n w).
Proof.
  revert w. induction n as [|n IH]; intros w; [done|]. constructor; [|apply IH].
  apply Z.mod_pos_bound. lia.
Qed.

Lemma le_value_bytes n w : 0 <= w < 256 ^ Z.of_nat n -> le_value (le_bytes n w) = w.
Proof.
  revert w. induction n as [|n IH]; intros w Hw; simpl; [simpl in Hw; lia|].
  rewrite Nat2Z.inj_succ, Z.pow_succ_r in Hw by lia. pose proof (Z.div_mod w 256 ltac:(lia)).
  rewrite IH; [lia|]. split; [apply Z.div_pos; lia|apply Z.div_lt_upper_bound; lia].
Qed.

Lemma le_bytes_value l : Forall is_byte l -> le_bytes (length l) (le_value l) = l.
Proof.
  induction 1 as [|b l Hb _ IH]; [done|]. cbn [length le_bytes le_value].
  unfold is_byte in Hb. rewrite (Z.mul_comm 256), Z.mod_add, Z.div_add by lia.
  rewrite Z.mod_small, Z.div_small by lia. by rewrite Z.add_0_l, IH.
Qed.

Lemma le_value_range l : Forall is_byte l -> 0 <= le_value l < 256 ^ Z.of_nat (length l).
Proof.
  induction 1 as [|b l Hb _ IH]; [done|]. cbn [length le_value]. unfold is_byte in Hb.
  rewrite Nat2Z.inj_succ, Z.pow_succ_r by lia. lia.
Qed.

Lemma in_order_length e l : length (in_order e l) = length l.
Proof. destruct e; simpl; [done|apply length_reverse]. Qed.

Lemma in_order_twice e l : in_order e (in_order e l) = l.
Proof. destruct e; simpl; [done|apply reverse_involutive]. Qed.

Lemma in_order_bytes e l : Forall is_byte l -> Forall is_byte (in_order e l).
Proof. destruct e; simpl; [done|]. by rewrite Forall_reverse. Qed.

Lemma object_word_length e w : length (object_word e w) = 8%nat.
Proof. unfold object_word. by rewrite in_order_length, le_bytes_length. Qed.

Lemma put_u32_bytes v : 0 <= v < 4294967296 -> put_u32 v = le_bytes 4 v.
Proof.
  intros Hv. unfold put_u32.
  assert (Hb : forall k, Z.land (Z.shiftr v k) 255 = Z.shiftr v k mod 256)
    by (intros k; apply (Z.land_ones _ 8); lia).
  change (seqZ 0 4) with [0; 1; 2; 3]. csimpl. rewrite !Hb, !Z.shiftr_div_pow2 by lia.
  rewrite !Z.div_div by lia. rewrite Z.div_1_r. done.
Qed.

Lemma lor_shift (a b k : Z) :
  0 <= a < 2 ^ k -> 0 <= b -> 0 <= k -> Z.lor a (Z.shiftl b k) = a + b * 2 ^ k.
Proof.
  intros Ha Hb Hk. rewrite <- Z.shiftl_mul_pow2 by done.
  assert (Hland : Z.land a (Z.shiftl b k) = 0); [|by rewrite <- Z.add_lor_land, Hland, Z.add_0_r].
  apply Z.bits_inj'. intros n Hn. rewrite Z.land_spec, Z.shiftl_spec, Z.bits_0 by done.
  destruct (Z.lt_ge_cases n k) as [Hlt|Hge].
  - rewrite (Z.testbit_neg_r b) by lia. apply andb_false_r.
  - rewrite <- (Z.mod_small a (2 ^ k)) by done. by rewrite Z.mod_pow2_bits_high by lia.
Qed.

Lemma get_u32_value l at_ b0 b1 b2 b3 :
  take 4 (drop at_ l) = [b0; b1; b2; b3] -> Forall is_byte [b0; b1; b2; b3] ->
  get_u32 l at_ = le_value [b0; b1; b2; b3].
Proof.
  intros Hl Hb.
  assert (Hn : forall i : nat, (i < 4)%nat -> nth (at_ + i) l 0 = nth i [b0; b1; b2; b3] 0).
  { intros i Hi. rewrite <- Hl. rewrite !nth_lookup, lookup_take_lt, lookup_drop by done. done. }
  unfold get_u32. cbn [seq foldl]. rewrite !Hn by lia. cbn [nth].
  repeat (apply Forall_cons in Hb as [? Hb]). unfold is_byte in *.
  change (Z.of_nat 0 * 8) with 0. change (Z.of_nat 1 * 8) with 8. change (Z.of_nat 2 * 8) with 16.
  change (Z.of_nat 3 * 8) with 24. rewrite Z.lor_0_l, Z.shiftl_0_r.
  rewrite (lor_shift b0 b1 8), (lor_shift _ b2 16), (lor_shift _ b3 24) by lia.
  cbn [le_value]. lia.
Qed.

(** ** Chunks of eight bytes *)

Lemma chunk_lookup (e : endian) (ws : list Z) (rest : list Z) (i : nat) (w : Z) :
  ws !! i = Some w ->
  take 8 (drop (8 * i) ((ws ≫= object_word e) ++ rest)) = object_word e w.
Proof.
  revert i. induction ws as [|x ws IH]; intros [|i] Hi; try done.
  - injection Hi as ->. cbn [mbind list_bind]. rewrite Nat.mul_0_r, drop_0, <- app_assoc.
    by rewrite take_app_le, take_ge by (rewrite object_word_length; lia).
  - cbn [mbind list_bind]. rewrite <- app_assoc.
    rewrite drop_app_ge by (rewrite object_word_length; lia). rewrite object_word_length.
    replace (8 * S i - 8)%nat with (8 * i)%nat by lia. by apply IH.
Qed.

Lemma chunks_length e ws : length (ws ≫= object_word e) = (8 * length ws)%nat.
Proof.
  induction ws as [|x ws IH]; [done|]. cbn [mbind list_bind length].
  rewrite length_app, object_word_length. change (8 + length (ws ≫= object_word e) = 8 * S (length ws))%nat.
  lia.
Qed.

Lemma object_word_value e w : le_value (in_order e (object_word e w)) = wrap64 w.
Proof.
  unfold object_word. rewrite in_order_twice. apply le_value_bytes. apply wrap64_range.
Qed.

Lemma object_word_of_bytes e l :
  length l = 8%nat -> Forall is_byte l -> object_word e (le_value (in_order e l)) = l.
Proof.
  intros Hl Hb. unfold object_word.
  assert (Hb' : Forall is_byte (in_order e l)) by by apply in_order_bytes.
  pose proof (le_value_range _ Hb') as Hr. rewrite in_order_length, Hl in Hr.
  rewrite wrap64_small by exact Hr.
  pose proof (le_bytes_value _ Hb') as Hv. rewrite in_order_length, Hl in Hv.
  by rewrite Hv, in_order_twice.
Qed.

(** The words an object is read as, and the object written from them. *)
Lemma words_of_chunks e ws rest :
  (fun i => le_value (in_order e (take 8 (drop (8 * i) ((ws ≫= object_word e) ++ rest)))))
    <$> seq 0 (length ws) = wrap64 <$> ws.
Proof.
  apply list_eq. intros i. rewrite !list_lookup_fmap.
  destruct (ws !! i) as [w|] eqn:Hi.
  - rewrite lookup_seq_lt by by eapply lookup_lt_Some. simpl. f_equal.
    by rewrite (chunk_lookup _ _ _ _ _ Hi), object_word_value.
  - by rewrite lookup_seq_ge by by apply lookup_ge_None.
Qed.

Lemma chunks_of_words e n bytes :
  Forall is_byte bytes -> (8 * n <= length bytes)%nat ->
  ((fun i => le_value (in_order e (take 8 (drop (8 * i) bytes)))) <$> seq 0 n)
    ≫= object_word e = take (8 * n) bytes.
Proof.
  intros Hb. induction n as [|n IH]; intros Hn; [done|].
  rewrite seq_S, fmap_app, bind_app. rewrite IH by lia. csimpl. rewrite app_nil_r.
  rewrite object_word_of_bytes; [|rewrite length_take, length_drop; lia|by apply Forall_take, Forall_drop].
  rewrite take_take_drop. f_equal. lia.
Qed.

(** ** Round trips *)

Definition is_int64 (x : Z) : Prop := -9223372036854775808 <= x < 9223372036854775808.

Lemma to_signed_wrap x : is_int64 x -> to_signed (wrap64 x) = x.
Proof.
  unfold is_int64, to_signed. intros Hx. destruct (Z.lt_ge_cases x 0).
  - rewrite wrap64_under by lia. case_bool; lia.
  - rewrite wrap64_small by lia. case_bool; lia.
Qed.

Lemma wrap_to_signed w : is_size w -> wrap64 (to_signed w) = w.
Proof.
  unfold is_size, to_signed. intros Hw. case_bool; [by apply wrap64_small|].
  rewrite wrap64_under by lia. lia.
Qed.

(** The values the members' types can hold. *)
Record totals_fit (t : BackendTotals) : Prop := mkTotalsFit {
  tf_num_ops : is_size (bt_num_ops t);
  tf_bytes : is_size (bt_bytes_transferred t);
  tf_duration : is_int64 (bt_total_duration t);
  tf_errors : is_size (bt_num_errors t) }.

Definition signed_members (s : Summary) : list Z :=
  let c := sum_counters s in
  [sum_start s; sum_end s; steady (anchor s); Observation.wall (anchor s); remote_size_probing c;
   http_dns c; http_tcp c; http_tls c; http_retry_backoff c; total_duration s; busy s].

Definition unsigned_members (s : Summary) : list Z :=
  let c := sum_counters s in
  [num_ops s; num_reads s; num_writes s; bytes_requested s; bytes_transferred s; bytes_read s;
   bytes_written s; num_errors s; remote_size_probes c; http_connections c; http_retries c].

Record summary_fits (s : Summary) : Prop := mkFits {
  sf_signed : Forall is_int64 (signed_members s);
  sf_unsigned : Forall is_size (unsigned_members s);
  sf_backends : length (by_backend s) = num_io_backends;
  sf_totals : Forall totals_fit (by_backend s);
  sf_kind : is_byte (sum_kind s);
  sf_reserved : length (reserved s) = 7%nat /\ Forall is_byte (reserved s) }.

Ltac split_forall :=
  repeat match goal with
  | H : Forall _ (_ :: _) |- _ => apply Forall_cons in H as [? H]
  | H : Forall _ [] |- _ => clear H
  end.

Lemma five_backends {A} (l : list A) :
  length l = num_io_backends -> exists a b c d e, l = [a; b; c; d; e].
Proof.
  destruct l as [|a [|b [|c [|d [|e [|f l]]]]]]; try done. intros _. by exists a, b, c, d, e.
Qed.

Lemma words_of_length s : length (by_backend s) = num_io_backends -> length (words_of s) = 42%nat.
Proof. intros (a & b & c & d & e & H)%five_backends. unfold words_of. by rewrite H. Qed.

Lemma of_words_of s :
  summary_fits s -> of_words (wrap64 <$> words_of s) (sum_kind s) (reserved s) = s.
Proof.
  destruct s as [? ? [? ?] ? ? ? ? ? ? ? ? bs [? ? ? ? ? ? ? ?] ? ? ? ?].
  intros [Hs Hu Hl Ht _ _]. unfold signed_members, unsigned_members in *. simpl in Hs, Hu, Hl, Ht.
  apply five_backends in Hl as (a & b & c & d & e & ->).
  split_forall. destruct a, b, c, d, e.
  repeat match goal with H : totals_fit _ |- _ => destruct H; simpl in * end.
  unfold of_words, words_of. csimpl.
  rewrite ?to_signed_wrap, ?wrap64_small by done. reflexivity.
Qed.

Lemma words_of_of_words ws kind rest :
  length ws = 42%nat -> Forall is_size ws -> wrap64 <$> words_of (of_words ws kind rest) = ws.
Proof.
  intros Hl Hw. do 43 (destruct ws as [|? ws]; try discriminate Hl). split_forall.
  unfold words_of, of_words. csimpl. by rewrite ?wrap_to_signed, ?wrap64_small by done.
Qed.

Lemma object_word_wrap e w : object_word e (wrap64 w) = object_word e w.
Proof. unfold object_word. by rewrite (wrap64_small (wrap64 w)) by apply wrap64_range. Qed.

Lemma words_wrap e ws : (wrap64 <$> ws) ≫= object_word e = ws ≫= object_word e.
Proof.
  induction ws as [|w ws IH]; [done|]. csimpl. by rewrite object_word_wrap, IH.
Qed.

Lemma object_of_object_bytes e s : summary_fits s -> object_of e (object_bytes e s) = s.
Proof.
  intros Hs. pose proof (words_of_length s (sf_backends s Hs)) as Hl.
  pose proof (chunks_length e (words_of s)) as Hc. rewrite Hl in Hc.
  unfold object_of, object_bytes. rewrite <- Hl at 1. rewrite words_of_chunks.
  rewrite nth_lookup, lookup_app_r, drop_app_ge by (rewrite Hc; lia). rewrite Hc.
  by apply of_words_of.
Qed.

Lemma object_bytes_object_of e bytes :
  length bytes = sizeof_summary -> Forall is_byte bytes ->
  object_bytes e (object_of e bytes) = bytes.
Proof.
  intros Hl Hb. unfold object_bytes, object_of.
  set (ws := (fun i => le_value _) <$> _).
  assert (Hws : length ws = 42%nat) by (unfold ws; by rewrite length_fmap, length_seq).
  assert (Hsize : Forall is_size ws).
  { unfold ws. apply Forall_fmap, Forall_forall. intros i Hi. simpl. apply elem_of_seq in Hi.
    assert (Hch : Forall is_byte (in_order e (take 8 (drop (8 * i) bytes))))
      by by apply in_order_bytes, Forall_take, Forall_drop.
    pose proof (le_value_range _ Hch) as Hr. rewrite in_order_length, length_take, length_drop, Hl in Hr.
    rewrite Nat.min_l in Hr by (unfold sizeof_summary; lia). exact Hr. }
  rewrite <- words_wrap, words_of_of_words by done.
  unfold ws. rewrite chunks_of_words by (try done; rewrite Hl; unfold sizeof_summary; lia).
  change (sum_kind (of_words _ ?k _)) with k. change (reserved (of_words _ _ ?r)) with r.
  rewrite <- (take_drop (8 * 42) bytes) at 4. f_equal.
  destruct (lookup_lt_is_Some_2 bytes 336) as [b Hb']; [rewrite Hl; unfold sizeof_summary; lia|].
  rewrite nth_lookup, Hb'. change (8 * 42)%nat with 336%nat. by rewrite (drop_S _ _ _ Hb').
Qed.

(** The header of a serialised summary. *)
Definition header (e : endian) : list Z :=
  serial_magic ++ put_u32 serial_version ++ put_u32 (Z.of_nat sizeof_summary)
  ++ in_order e (le_bytes 4 serial_byte_order).

Lemma serialize_header e s : serialize e s = header e ++ object_bytes e s.
Proof. unfold serialize, header. by rewrite <- !app_assoc. Qed.

Lemma header_length e : length (header e) = serial_header_size.
Proof. by destruct e. Qed.

Lemma object_bytes_length e s :
  length (by_backend s) = num_io_backends -> length (reserved s) = 7%nat ->
  length (object_bytes e s) = sizeof_summary.
Proof.
  intros Hb Hr. unfold object_bytes.
  rewrite !length_app, chunks_length, words_of_length, Hr by done. done.
Qed.

(** What [deserialize] checks of the header, once the length is right. *)
Definition byte_order_error : exn :=
  InvalidArgument "serialized kvikio::statistics::Summary written on a machine of a different byte order, which this format does not translate".

Lemma deserialize_header e e' body :
  length body = sizeof_summary ->
  deserialize e' (header e ++ body) =
  if decide (e = e') then Ok (object_of e' body) else Err byte_order_error.
Proof.
  intros Hl. unfold deserialize. rewrite length_app, header_length, Hl.
  rewrite (drop_app_length' (header e)) by by rewrite header_length.
  destruct e, e'; reflexivity.
Qed.

(** A field of the header, read back from its value. *)
Lemma field_of_u32 bytes at_ v :
  Forall is_byte bytes -> (at_ + 4 <= length bytes)%nat ->
  get_u32 bytes at_ = v -> take 4 (drop at_ bytes) = le_bytes 4 v.
Proof.
  intros Hb Hl. remember (take 4 (drop at_ bytes)) as f eqn:Hf.
  assert (Hfb : Forall is_byte f) by (subst; by apply Forall_take, Forall_drop).
  assert (Hfl : length f = 4%nat) by (subst; rewrite length_take, length_drop; lia).
  destruct f as [|b0 [|b1 [|b2 [|b3 [|]]]]]; try done.
  rewrite (get_u32_value _ _ _ _ _ _ (eq_sym Hf) Hfb). intros <-. symmetry.
  exact (le_bytes_value _ Hfb).
Qed.

Lemma deserialize_checks e bytes s :
  Forall is_byte bytes -> deserialize e bytes = Ok s ->
  exists body, bytes = header e ++ body /\ length body = sizeof_summary /\ s = object_of e body.
Proof.
  intros Hb. unfold deserialize.
  destruct (length bytes =? serialized_size)%nat eqn:Hl; [|done]. apply Nat.eqb_eq in Hl.
  destruct (bool_decide (take 4 bytes = serial_magic)) eqn:Hm; [|done]. apply bool_decide_eq_true in Hm.
  cbn [expect mbind result_bind].
  destruct (_ && _)%bool eqn:Hv; [|done]. apply andb_true_iff in Hv as [Hv Hz].
  apply Z.eqb_eq in Hv, Hz. cbn [expect mbind result_bind].
  destruct (_ =? serial_byte_order) eqn:Ho; [|done]. apply Z.eqb_eq in Ho.
  intros [= <-]. exists (drop serial_header_size bytes).
  unfold serialized_size, serial_header_size, sizeof_summary in *.
  split; [|by rewrite length_drop, Hl].
  apply field_of_u32 in Hv, Hz; [|done|lia|done|lia].
  assert (Horder : take 4 (drop serial_byte_order_offset bytes) = in_order e (le_bytes 4 serial_byte_order)).
  { rewrite <- (in_order_twice e (take 4 _)). f_equal. rewrite <- Ho.
    rewrite <- (le_bytes_value (in_order e _)) at 1
      by by apply in_order_bytes, Forall_take, Forall_drop.
    by rewrite in_order_length, length_take, length_drop, Hl. }
  rewrite <- (take_drop 16 bytes) at 1. f_equal. unfold header.
  rewrite <- Hm, !put_u32_bytes by done. change (Z.of_nat sizeof_summary) with (Z.of_nat 344).
  rewrite <- Hv, <- Hz, <- Horder. unfold serial_byte_order_offset.
  by rewrite app_assoc, take_take_drop, app_assoc, !take_take_drop.
Qed.

(** C38. A summary read back from its serialised form is the summary that was
    written, member by member, whatever the byte order of the machine; the
    bytes a reader accepts are exactly those the summary it returns is written
    as; and a machine of the other byte order refuses them. *)
Theorem summary_serialize_roundtrip (e : endian) (s : Summary) :
  (summary_fits s -> deserialize e (serialize e s) = Ok s) /\
  (forall bytes, Forall is_byte bytes -> deserialize e bytes = Ok s -> serialize e s = bytes) /\
  (forall e', summary_fits s -> e' <> e -> deserialize e' (serialize e s) = Err byte_order_error).
Proof.
  assert (Hlen : summary_fits s -> length (object_bytes e s) = sizeof_summary)
    by (intros Hs; apply object_bytes_length; by destruct Hs as [? ? ? ? ? []]).
  split; [|split].
  - intros Hs. rewrite serialize_header, deserialize_header by auto. rewrite decide_True by done.
    by rewrite object_of_object_bytes.
  - intros bytes Hb (body & -> & Hl & ->)%deserialize_checks; [|done].
    apply Forall_app in Hb as [_ Hb]. by rewrite serialize_header, object_bytes_object_of.
  - intros e' Hs He. rewrite serialize_header, deserialize_header by auto.
    by rewrite decide_False.
Qed.

Definition sample_summary : Summary :=
  mkSummary 100 5000 (mkAnchor 100 (-7)) 2 2 0 200 160 160 0 1
    [mkTotals 1 100 40 0; mkTotals 1 60 60 1; no_totals; no_totals; no_totals]
    (mkCounters 1 20 3 4 5 6 7 8) 100 70 0 (replicate 7 0).

Lemma sample_summary_fits : summary_fits sample_summary.
Proof.
  constructor; try done; try (split; done); simpl;
    repeat (constructor; try (unfold is_int64, is_size, is_byte; simpl; lia)).
Qed.

Example summary_serialize_roundtrip_witness :
  take 20 (serialize LittleEndian sample_summary)
    = [75; 86; 83; 77; 3; 0; 0; 0; 88; 1; 0; 0; 4; 3; 2; 1; 100; 0; 0; 0] /\
  deserialize LittleEndian (serialize LittleEndian sample_summary) = Ok sample_summary /\
  deserialize BigEndian (serialize LittleEndian sample_summary) = Err byte_order_error.
Proof.
  split; [vm_compute; reflexivity|].
  split; [apply (proj1 (summary_serialize_roundtrip LittleEndian sample_summary) sample_summary_fits)|].
  exact (proj2 (proj2 (summary_serialize_roundtrip LittleEndian sample_summary)) BigEndian
           sample_summary_fits ltac:(discriminate)).
Defined.
