(* ===== verification/Nic.v ===== *)
(** * The network bandwidth plugin

    [nsys_plugins/nic/]: the command line of the plugin, the choice of the
    interfaces, the reading of their counters and the sampling loop.  Parameters
    are sysfs (the files and the directory listing), the compilation of a
    regular expression, and the clock.  Writing to the standard error and the
    registration of the counters with NVTX are left out; a sample is what the
    loop hands to NVTX. *)

From stdpp Require Import base list strings pretty sorting.
From Stdlib Require Import ZArith Lia Ascii SpecFloat.
From S2P Require Import Prelude Utils Regex Numerals Doubles.

#[local] Open Scope Z_scope.

(** ** [from_chars] *)

Inductive errc := InvalidText | TooLarge.

(** Digits, and the rest of the text; no white space, no plus sign. *)
Definition from_chars_u64 (s : list ascii) : (errc + Z) * list ascii :=
  match span is_digit s with
  | ([], _) => (inl InvalidText, s)
  | (ds, rest) => (if digits_value ds <? SIZE_MOD then inr (digits_value ds) else inl TooLarge, rest)
  end.

(** A signed number may have a minus sign. *)
Definition from_chars_i64 (s : list ascii) : (errc + Z) * list ascii :=
  let '(sign, t) := match strip_prefix Ascii.eqb ["-"]%char s with Some t => (-1, t) | None => (1, s) end in
  match span is_digit t with
  | ([], _) => (inl InvalidText, s)
  | (ds, rest) =>
      let n := sign * digits_value ds in
      (if (- 2 ^ 63 <=? n) && (n <? 2 ^ 63) then inr n else inl TooLarge, rest)
  end.

(** ** Counters and interfaces *)

Record NicCounters := mkNicCounters { rx_bytes : Z; tx_bytes : Z }.
Record NicRates := mkRates { rx : double; tx : double }.

Definition sysfs_net : string := "/sys/class/net".

Class Sysfs := {
  sys_read : string -> nat -> option (list ascii);   (* open, then one read of at most so many bytes *)
  sys_list : string -> option (list string) }.       (* the names in a directory *)

(** [std::sort] of strings: bytes compared as unsigned. *)
Definition before_name (a b : string) : Prop := String.leb a b = true.
#[global] Instance before_name_dec : RelDecision before_name := fun a b => bool_eq_dec (String.leb a b) true.

Definition sort_names (l : list string) : list string := merge_sort before_name l.

Section sysfs.
Context `{Sysfs}.

Definition read_pseudo_file (path : string) (size : nat) : option (list ascii) :=
  match sys_read path size with
  | Some [] => None
  | r => r
  end.

Definition read_u64_file (path : string) : option Z :=
  content ← read_pseudo_file path 32;
  match (from_chars_u64 content).1 with inr v => Some v | inl _ => None end.

(** Trailing newlines and spaces go. *)
Definition trailing (c : ascii) : bool := Ascii.eqb c (ascii_of_nat 10) || Ascii.eqb c " "%char.

Definition trim_end (s : list ascii) : list ascii := rev (span trailing (rev s)).2.

Definition iface_is_up (name : string) : bool :=
  match read_pseudo_file (sysfs_net +:+ "/" +:+ name +:+ "/operstate") 16 with
  | None => false
  | Some content =>
      let state := String.string_of_list_ascii (trim_end content) in
      String.eqb state "up" || String.eqb state "unknown"
  end.

Definition default_interfaces : list string :=
  match sys_list sysfs_net with
  | None => []
  | Some names =>
      sort_names (filter (fun name => negb (String.eqb name "lo") && iface_is_up name = true) names)
  end.

Definition all_interface_names : list string :=
  match sys_list sysfs_net with None => [] | Some names => sort_names names end.

(** [NicCounterReader]: the paths are made once. *)
Record NicCounterReader := mkReader {
  interfaces : list string;
  rx_paths : list string;
  tx_paths : list string }.

Definition stats_path (name : string) : string := sysfs_net +:+ "/" +:+ name +:+ "/statistics/".

Definition new_reader (names : list string) : NicCounterReader :=
  mkReader names ((fun n => stats_path n +:+ "rx_bytes") <$> names) ((fun n => stats_path n +:+ "tx_bytes") <$> names).

Definition read_counters (rx_path tx_path : string) : option NicCounters :=
  match read_u64_file rx_path, read_u64_file tx_path with
  | Some r, Some t => Some (mkNicCounters r t)
  | _, _ => None
  end.

Definition reader_read (r : NicCounterReader) : list (option NicCounters) :=
  zip_with read_counters (rx_paths r) (tx_paths r).
End sysfs.

(** ** Rates *)

Definition bytes_per_mib : double := fmul (double_of 1024) (double_of 1024).

Definition rate (prev cur : Z) (dt_seconds : double) : double :=
  if prev <=? cur then fdiv (fdiv (double_of (cur - prev)) dt_seconds) bytes_per_mib else double_of 0.

Definition compute_rates (prev cur : NicCounters) (dt_seconds : double) : NicRates :=
  if SFleb dt_seconds (double_of 0) then mkRates (double_of 0) (double_of 0)
  else mkRates (rate (rx_bytes prev) (rx_bytes cur) dt_seconds) (rate (tx_bytes prev) (tx_bytes cur) dt_seconds).

(** ** The command line *)

Record Config (regex_t : Type) := mkConfig {
  interval : Z;                                  (* microseconds *)
  device_filter : option (regex_t * string) }.
Arguments mkConfig {_}.
Arguments interval {_}.
Arguments device_filter {_}.

Definition exit_success : Z := 0.
Definition exit_no_interfaces : Z := 1.
Definition exit_usage_error : Z := 2.

(** The name of an option and the value behind it in the same argument. *)
Definition split_option (arg : string) : option (string * option string) :=
  let s := chars_of arg in
  match s with
  | "-"%char :: "-"%char :: _ =>
      match span (fun c => negb (Ascii.eqb c "="%char)) s with
      | (_, []) => Some (arg, None)
      | (u, _ :: v) => Some (String.string_of_list_ascii u, Some (String.string_of_list_ascii v))
      end
  | "-"%char :: c :: v =>
      Some (String.string_of_list_ascii ["-"%char; c],
            match v with [] => None | _ => Some (String.string_of_list_ascii v) end)
  | _ => None
  end.

Section command_line.
Context {regex_t : Type} (std_regex : string -> option regex_t).
Implicit Types config : Config regex_t.

Definition default_config : Config regex_t := mkConfig 20000 None.

Definition is_name (name : string) (names : list string) : bool := existsb (String.eqb name) names.

(** [inl] is the exit code of a process that ends here. *)
Definition set_interval (value : string) config : Z + Config regex_t :=
  match from_chars_i64 (chars_of value) with
  | (inr parsed, []) => if parsed <=? 0 then inl exit_usage_error else inr (mkConfig parsed (device_filter config))
  | _ => inl exit_usage_error
  end.

Definition set_device_filter (value : string) config : Z + Config regex_t :=
  match std_regex value with
  | Some r => inr (mkConfig (interval config) (Some (r, value)))
  | None => inl exit_usage_error
  end.

Fixpoint parse_args_from (args : list string) config : Z + Config regex_t :=
  match args with
  | [] => inr config
  | arg :: rest =>
      match split_option arg with
      | None => inl exit_usage_error
      | Some (name, inline_value) =>
          if is_name name ["-h"; "--help"] then inl exit_success
          else
            let set := if is_name name ["-i"; "--interval"] then Some set_interval
                       else if is_name name ["-d"; "--device"] then Some set_device_filter else None in
            match set with
            | None => inl exit_usage_error
            | Some set =>
                match inline_value, rest with
                | Some v, _ => match set v config with inl e => inl e | inr c => parse_args_from rest c end
                | None, v :: rest => match set v config with inl e => inl e | inr c => parse_args_from rest c end
                | None, [] => inl exit_usage_error
                end
            end
      end
  end.

(** [argv[0]] is the program. *)
Definition parse_args (argv : list string) : Z + Config regex_t := parse_args_from (List.tl argv) default_config.
End command_line.

(** ** Sampling *)

(** [interfaces().size()] samples and their total, or nothing for the interfaces
    that could not be read twice. *)
Definition rates_between (prev cur : option NicCounters) (dt : double) : NicRates :=
  match prev, cur with
  | Some p, Some c => compute_rates p c dt
  | _, _ => mkRates (double_of 0) (double_of 0)
  end.

Definition add_rates (total rates : NicRates) : NicRates := mkRates (fadd (rx total) (rx rates)) (fadd (tx total) (tx rates)).

Definition no_rates : NicRates := mkRates (double_of 0) (double_of 0).

Definition samples (prev cur : list (option NicCounters)) (dt : double) : list NicRates :=
  zip_with (fun p c => rates_between p c dt) prev cur.

(** One turn of the loop: the samples of the interfaces in order and the total;
    times are in nanoseconds. *)
Record collector := mkCollector {
  prev_counters : list (option NicCounters);
  prev_time : Z;
  next_deadline : Z }.

Definition tick (interval_us now : Z) (cur_counters : list (option NicCounters)) (s : collector)
    : list NicRates * NicRates * collector :=
  let dt := fdiv (double_of (now - prev_time s)) (double_of 1000000000) in
  let rates := samples (prev_counters s) cur_counters dt in
  (rates, foldl add_rates no_rates rates,
   mkCollector cur_counters now (next_deadline s + interval_us * 1000)).

(** The turns until the stop flag is seen: each gets the time it wakes at and
    what the files say then. *)
Definition run_collector (interval_us : Z) (turns : list (Z * list (option NicCounters))) (s : collector)
    : list (list NicRates * NicRates) :=
  (foldl (fun '(out, s) '(now, cur) =>
     let '(rates, total, s) := tick interval_us now cur s in (out ++ [(rates, total)], s)) ([], s) turns).1.

Section main.
Context `{Sysfs} {regex_t : Type} (std_regex : string -> option regex_t) (match_name : regex_t -> string -> bool).

Definition select_interfaces (config : Config regex_t) : list string :=
  match device_filter config with
  | None => default_interfaces
  | Some (r, _) => filter (fun name => match_name r name = true) all_interface_names
  end.

(** What [main] comes to: an exit code, or the collector that runs. *)
Definition main (argv : list string) : Z + (Z * NicCounterReader) :=
  match parse_args std_regex argv with
  | inl code => inl code
  | inr config =>
      match select_interfaces config with
      | [] => inl exit_no_interfaces
      | names => inr (interval config, new_reader names)
      end
  end.
End main.

(** ** Theorems *)

Lemma string_chars s : String.string_of_list_ascii (chars_of s) = s.
Proof. apply String.string_of_list_ascii_of_string. Qed.

(** *** The command line

    An option as a user writes it, in one of four forms. *)
Inductive form := ShortNext | ShortInline | LongNext | LongInline.

Inductive argument := IntervalIs (us : Z) | DeviceIs (pattern : string).

Definition value_of (a : argument) : string :=
  match a with IntervalIs n => pretty n | DeviceIs p => p end.

Definition short_name (a : argument) : string := match a with IntervalIs _ => "-i" | DeviceIs _ => "-d" end.
Definition long_name (a : argument) : string := match a with IntervalIs _ => "--interval" | DeviceIs _ => "--device" end.

Definition write_argument (f : form) (a : argument) : list string :=
  match f with
  | ShortNext => [short_name a; value_of a]
  | ShortInline => [short_name a +:+ value_of a]
  | LongNext => [long_name a; value_of a]
  | LongInline => [long_name a +:+ "=" +:+ value_of a]
  end.

Definition apply_argument {regex_t} (std_regex : string -> option regex_t) (c : Config regex_t) (a : argument)
    : Config regex_t :=
  match a with
  | IntervalIs n => mkConfig n (device_filter c)
  | DeviceIs p => mkConfig (interval c) (match std_regex p with Some r => Some (r, p) | None => device_filter c end)
  end.

(** The forms that say what they mean: an interval is positive and fits, a
    pattern compiles, and the short inline form is not empty. *)
Definition writable {regex_t} (std_regex : string -> option regex_t) (f : form) (a : argument) : Prop :=
  match a with
  | IntervalIs n => 0 < n < 2 ^ 63
  | DeviceIs p => std_regex p <> None /\ (f = ShortInline -> p <> "")
  end.

Lemma from_chars_pretty n : 0 < n < 2 ^ 63 -> from_chars_i64 (chars_of (pretty n)) = (inr n, []).
Proof.
  intros Hn. destruct (pretty_digits n ltac:(lia)) as (Hd & Hv & Hne). unfold from_chars_i64.
  destruct (chars_of (pretty n)) as [|c l] eqn:He; [done|]. apply Forall_cons in Hd as Hcd. destruct Hcd as [Hc _].
  assert (strip_prefix Ascii.eqb ["-"]%char (c :: l) = None) as ->
    by (by destruct c as [[] [] [] [] [] [] [] []]).
  pose proof (span_unique is_digit (c :: l) [] Hd I) as Hs. rewrite app_nil_r in Hs. rewrite Hs, Hv, Z.mul_1_l.
  rewrite (proj2 (Z.leb_le _ _)), (proj2 (Z.ltb_lt _ _)) by lia. done.
Qed.

Section parsing.
Context {regex_t : Type} (std_regex : string -> option regex_t).

Definition option_setter (a : argument) : string -> Config regex_t -> Z + Config regex_t :=
  match a with IntervalIs _ => set_interval | DeviceIs _ => set_device_filter std_regex end.

Lemma set_value f a c : writable std_regex f a -> option_setter a (value_of a) c = inr (apply_argument std_regex c a).
Proof.
  destruct a as [n|p]; simpl.
  - intros Hn. unfold set_interval. rewrite from_chars_pretty by done. by rewrite (proj2 (Z.leb_gt _ _)) by lia.
  - intros [Hp _]. unfold set_device_filter. by destruct (std_regex p).
Qed.

(** What the parser does with an option it knows. *)
Lemma parse_step arg name inline rest c a :
  split_option arg = Some (name, inline) -> name = short_name a \/ name = long_name a ->
  parse_args_from std_regex (arg :: rest) c
  = match inline, rest with
    | Some v, _ => match option_setter a v c with inl e => inl e | inr c => parse_args_from std_regex rest c end
    | None, v :: rest => match option_setter a v c with inl e => inl e | inr c => parse_args_from std_regex rest c end
    | None, [] => inl exit_usage_error
    end.
Proof. intros Hs Hn. cbn [parse_args_from]. rewrite Hs. by destruct a, Hn as [-> | ->]. Qed.

Lemma split_written f a : writable std_regex f a ->
  exists arg rest, write_argument f a = arg :: rest /\
    match f with
    | ShortNext => split_option arg = Some (short_name a, None) /\ rest = [value_of a]
    | LongNext => split_option arg = Some (long_name a, None) /\ rest = [value_of a]
    | ShortInline => split_option arg = Some (short_name a, Some (value_of a)) /\ rest = []
    | LongInline => split_option arg = Some (long_name a, Some (value_of a)) /\ rest = []
    end.
Proof.
  intros Hw. destruct f; eexists _, _; split; try done; (split; [|done]).
  - by destruct a.
  - assert (value_of a <> "") as Hne.
    { destruct a as [n|p]; [|by apply Hw]. destruct (pretty_digits n) as (_ & _ & Hne); [simpl in Hw; lia|].
      intros Hz. simpl in Hz. by rewrite Hz in Hne. }
    destruct (value_of a) as [|v w] eqn:Hv; [done|].
    destruct a; unfold split_option; simpl; repeat f_equal; apply string_chars.
  - by destruct a.
  - destruct a; unfold split_option; simpl; repeat f_equal; apply string_chars.
Qed.

Lemma parse_written f a rest c : writable std_regex f a ->
  parse_args_from std_regex (write_argument f a ++ rest) c
  = parse_args_from std_regex rest (apply_argument std_regex c a).
Proof.
  intros Hw. pose proof (set_value f a c Hw) as Hset.
  destruct (split_written f a Hw) as (arg & own & -> & Hs). rewrite <- app_comm_cons.
  destruct f, Hs as [Hs ->]; rewrite (parse_step _ _ _ _ _ a Hs) by auto; cbn [app]; by rewrite Hset.
Qed.

(** What both setters keep, the parser keeps. *)
Lemma parse_invariant (P : Config regex_t -> Prop) args c c' :
  (forall v c c', P c -> set_interval v c = inr c' -> P c') ->
  (forall v c c', P c -> set_device_filter std_regex v c = inr c' -> P c') ->
  P c -> parse_args_from std_regex args c = inr c' -> P c'.
Proof.
  intros Hi Hd. remember (length args) as n eqn:Hn. revert args c Hn.
  induction (lt_wf n) as [n _ IH]; intros args c -> Hc. destruct args as [|arg rest]; [by intros [= <-]|].
  cbn [parse_args_from]. destruct (split_option arg) as [[name inline]|]; [|done].
  destruct (is_name name _); [done|].
  assert (forall set : string -> Config regex_t -> Z + Config regex_t,
    (forall v c c', P c -> set v c = inr c' -> P c') ->
    match inline, rest with
    | Some v, _ => match set v c with inl e => inl e | inr c => parse_args_from std_regex rest c end
    | None, v :: rest => match set v c with inl e => inl e | inr c => parse_args_from std_regex rest c end
    | None, [] => inl exit_usage_error
    end = inr c' -> P c') as Hset.
  { intros set Hs. destruct inline as [v|]; [|destruct rest as [|v rest]; [done|]].
    all: destruct (set v c) as [e|c1] eqn:He; [done|]; apply (Hs _ _ _ Hc) in He;
      (eapply IH; [|reflexivity|exact He]); simpl; lia. }
  destruct (is_name name ["-i"; _]); [by apply Hset|]. destruct (is_name name _); [by apply Hset|done].
Qed.

(** A command line written from options, each in any of the four forms of
    the usage text, is parsed to what the options say, the last one of a kind
    winning; and whatever the arguments are, a parsed interval is positive. *)
Theorem command_line_roundtrip (prog : string) (options : list (form * argument)) (argv : list string)
    (config : Config regex_t) :
  Forall (fun o => writable std_regex o.1 o.2) options ->
  parse_args std_regex (prog :: concat ((fun o => write_argument o.1 o.2) <$> options))
  = inr (foldl (apply_argument std_regex) default_config (snd <$> options)) /\
  (parse_args std_regex argv = inr config -> 0 < interval config < 2 ^ 63).
Proof.
  intros Hall. split.
  - unfold parse_args. cbn [List.tl]. generalize (@default_config regex_t). induction Hall as [|[f a] l Hw _ IH]; intros c; [done|].
    rewrite fmap_cons. cbn [concat fst snd]. rewrite parse_written by done. rewrite fmap_cons. apply IH.
  - apply (parse_invariant (fun c => 0 < interval c < 2 ^ 63)); [| |simpl; lia].
    + intros v c c' _. unfold set_interval. destruct (from_chars_i64 (chars_of v)) as [[e|n] [|]] eqn:Hf; try done.
      destruct (Z.leb_spec n 0); [done|]. intros [= <-]. simpl. split; [done|].
      unfold from_chars_i64 in Hf. repeat case_match; simplify_eq; bool_to_prop; lia.
    + intros v c c' Hc. unfold set_device_filter. destruct (std_regex v); [|done]. by intros [= <-].
Qed.
End parsing.

(** *** Interfaces *)

Section selection.
Context `{Sysfs}.

Lemma sort_names_elem x l : x ∈ sort_names l <-> x ∈ l.
Proof. unfold sort_names. by rewrite merge_sort_Permutation. Qed.

(** An interface is monitored by default exactly when it is listed, is not the
    loopback and its state is up or unknown. *)
Lemma default_interfaces_spec name :
  name ∈ default_interfaces <->
  exists names, sys_list sysfs_net = Some names /\ name ∈ names /\ name <> "lo" /\ iface_is_up name = true.
Proof.
  unfold default_interfaces. destruct (sys_list sysfs_net) as [names|].
  - rewrite sort_names_elem, list_elem_of_filter, andb_true_iff, negb_true_iff, String.eqb_neq. naive_solver.
  - split; [by intros ?%not_elem_of_nil|by intros (? & ? & _)].
Qed.

End selection.

(** ** Examples *)

Definition any_regex (p : string) : option string := if String.eqb p "[" then None else Some p.

Lemma command_line_roundtrip_witness :
  parse_args any_regex
    ["plugin"; "-d"; "eth0"; "-i20000"; "--interval=500"; "--device"; "eth.*"]
  = inr (mkConfig 500 (Some ("eth.*", "eth.*"))) /\
  0 < interval (mkConfig 500 (Some ("eth.*", "eth.*"))) < 2 ^ 63.
Proof.
  pose proof (command_line_roundtrip any_regex "plugin"
    [(ShortNext, DeviceIs "eth0"); (ShortInline, IntervalIs 20000); (LongInline, IntervalIs 500);
     (LongNext, DeviceIs "eth.*")]
    ["plugin"; "-d"; "eth0"; "-i20000"; "--interval=500"; "--device"; "eth.*"]
    (mkConfig 500 (Some ("eth.*", "eth.*")))) as Ht.
  destruct Ht as [Hp Hi]; [|split; [exact Hp|by apply Hi]].
  repeat constructor; simpl; done.
Defined.

(** Help wins over what stands behind it; usage errors end the process with
    two. *)
Example exits :
  parse_args any_regex ["plugin"; "-h"; "nonsense"] = inl exit_success /\
  parse_args any_regex ["plugin"; "-i"] = inl exit_usage_error /\
  parse_args any_regex ["plugin"; "-i"; "0"] = inl exit_usage_error /\
  parse_args any_regex ["plugin"; "--interval=12x"] = inl exit_usage_error /\
  parse_args any_regex ["plugin"; "--interval=9223372036854775808"] = inl exit_usage_error /\
  parse_args any_regex ["plugin"; "-d"; "["] = inl exit_usage_error /\
  parse_args any_regex ["plugin"; "eth0"] = inl exit_usage_error.
Proof. by vm_compute. Qed.

(** The tests of the plugin. *)
Example converts_deltas :
  let r := compute_rates (mkNicCounters 0 0) (mkNicCounters 2097152 6291456) (double_of 2) in
  SFeqb (rx r) (double_of 1) = true /\ SFeqb (tx r) (double_of 3) = true.
Proof. by vm_compute. Qed.

Example guards_wrap :
  compute_rates (mkNicCounters 1000 1000) (mkNicCounters 10 10) (double_of 1) = no_rates /\
  compute_rates (mkNicCounters 10 10) (mkNicCounters 1000 1000) (double_of 0) = no_rates.
Proof. by vm_compute. Qed.

Definition demo_file (path : string) (size : nat) : option (list ascii) :=
  let content :=
    if String.eqb path "/sys/class/net/eth0/operstate" then Some (chars_of "up" ++ [ascii_of_nat 10])
    else if String.eqb path "/sys/class/net/lo/operstate" then Some (chars_of "unknown" ++ [ascii_of_nat 10])
    else if String.eqb path "/sys/class/net/eth1/operstate" then Some (chars_of "lowerlayerdown" ++ [ascii_of_nat 10])
    else if String.eqb path "/sys/class/net/br0/operstate" then Some (chars_of "unknown" ++ [ascii_of_nat 10])
    else if String.eqb path "/sys/class/net/eth0/statistics/rx_bytes" then Some (chars_of "18446744073709551615" ++ [ascii_of_nat 10])
    else if String.eqb path "/sys/class/net/eth0/statistics/tx_bytes" then Some (chars_of "0" ++ [ascii_of_nat 10])
    else None in
  take size <$> content.

#[local] Instance demo_sysfs : Sysfs :=
  { sys_read := demo_file; sys_list := fun _ => Some ["lo"; "eth1"; "eth0"; "br0"] }.

Example demo_main :
  main any_regex (fun r n => String.eqb r n) ["plugin"] = inr (20000, new_reader ["br0"; "eth0"]) /\
  main any_regex (fun r n => String.eqb r n) ["plugin"; "-dlo"] = inr (20000, new_reader ["lo"]) /\
  main any_regex (fun r n => String.eqb r n) ["plugin"; "-deth"] = inl exit_no_interfaces /\
  reader_read (new_reader ["eth0"; "br0"]) = [Some (mkNicCounters 18446744073709551615 0); None].
Proof. by vm_compute. Qed.

(** The first turn differences against the reading before the loop; a missing
    reading samples as zero. *)
Example demo_turns :
  run_collector 20000 [(1000000000, [Some (mkNicCounters 2097152 1048576); None])]
    (mkCollector [Some (mkNicCounters 0 0); None] 0 0)
  = [([mkRates (fdiv (double_of 2097152) bytes_per_mib) (fdiv (double_of 1048576) bytes_per_mib); no_rates],
      mkRates (double_of 2) (double_of 1))].
Proof. by vm_compute. Qed.

(** The longest intervals that are accepted do not fit the clock, which counts
    nanoseconds in 64 bits: the deadline overflows. *)
Example interval_overflows_the_clock :
  exists c, parse_args any_regex ["plugin"; "-i9223372036854775807"] = inr c /\
    2 ^ 63 <= next_deadline (tick (interval c) 0 [] (mkCollector [] 0 0)).2.
Proof. eexists. split; [by vm_compute|]. by vm_compute. Qed.
