(* ===== verification/Logger.v ===== *)
(** * The logger

    [src/logger.cpp]: the level and the sink the environment asks for, and the
    one logger made of them.  What a level lets through is the logging
    library's business. *)

From stdpp Require Import base list strings.
From Stdlib Require Import ZArith Lia Ascii.
From S2P Require Import Prelude Utils.

#[local] Open Scope Z_scope.

Inductive level_enum := trace | debug | info | warn | error | critical | off.

#[global] Instance level_enum_eq_dec : EqDecision level_enum.
Proof. solve_decision. Defined.

Definition level_names : list (string * level_enum) :=
  [("trace", trace); ("debug", debug); ("info", info); ("warn", warn); ("error", error); ("critical", critical); ("off", off)].

Fixpoint level_named (val : string) (names : list (string * level_enum)) : level_enum :=
  match names with
  | (name, level) :: names => if decide (val = name) then level else level_named val names
  | [] => off
  end.

Definition get_level_from_env (env : option string) : level_enum :=
  match env with
  | None => off
  | Some env => level_named (String.string_of_list_ascii (tolower <$> String.list_ascii_of_string env)) level_names
  end.

Inductive sink := null_sink_mt | stderr_sink_mt | basic_file_sink_mt (path : string) (truncate : bool).

(** [open_file] fails with a text or not at all; the second component is what
    the function writes to the standard error. *)
Definition make_sink (level : level_enum) (log_file : option string) (open_file : string -> option string)
    : sink * list string :=
  if decide (level = off) then (null_sink_mt, [])
  else
    match log_file with
    | None => (stderr_sink_mt, [])
    | Some path =>
        match open_file path with
        | None => (basic_file_sink_mt path true, [])
        | Some what =>
            (stderr_sink_mt, ["KvikIO warning: Cannot open log file " +:+ path +:+ ": " +:+ what
                              +:+ ". Logging to the standard error instead"])
        end
    end.

Record logger := mkLogger {
  logger_name : string;
  logger_sinks : list sink;
  logger_pattern : string;
  logger_level : level_enum }.

(** The function static: made by the first call, from the environment of that
    moment. *)
Definition default_logger (env : string -> option string) (open_file : string -> option string)
    (made : option logger) : logger * list string * option logger :=
  match made with
  | Some l => (l, [], Some l)
  | None =>
      let level := get_level_from_env (env "KVIKIO_LOG_LEVEL") in
      let '(s, warnings) := make_sink level (env "KVIKIO_LOG_FILE") open_file in
      let l := mkLogger "kvikio" [s] "[%6t][%H:%M:%S:%f][%-6l] %v" level in
      (l, warnings, Some l)
  end.

(** ** Properties *)

(** Letters may have either case. *)
Lemma level_ignores_case s s' :
  tolower <$> String.list_ascii_of_string s = tolower <$> String.list_ascii_of_string s' ->
  get_level_from_env (Some s) = get_level_from_env (Some s').
Proof. simpl. by intros ->. Qed.

(** The logger does not change once it is there. *)
Lemma logger_configured_once env open_file env' open_file' made :
  let '(l, _, made') := default_logger env open_file made in
  default_logger env' open_file' made' = (l, [], made').
Proof. unfold default_logger. destruct made; [done|]. by destruct (make_sink _ _ _). Qed.

(** Its level and sinks: silent with a null sink; a file, overwritten, only if
    it could be opened; the standard error otherwise, with a warning if a file
    was asked for. *)
Theorem logger_follows_environment env open_file :
  let '(l, warnings, _) := default_logger env open_file None in
  logger_level l = get_level_from_env (env "KVIKIO_LOG_LEVEL") /\
  exists s, logger_sinks l = [s] /\
  (s = null_sink_mt <-> logger_level l = off) /\
  (forall path truncate, s = basic_file_sink_mt path truncate <->
     truncate = true /\ logger_level l <> off /\ env "KVIKIO_LOG_FILE" = Some path /\ open_file path = None) /\
  (warnings <> [] <-> logger_level l <> off /\ exists path, env "KVIKIO_LOG_FILE" = Some path /\ is_Some (open_file path)).
Proof.
  unfold default_logger, make_sink. set (level := get_level_from_env _).
  destruct (decide (level = off)) as [Ho|Ho]; simpl.
  - split; [done|]. eexists. split; [done|]. naive_solver.
  - destruct (env "KVIKIO_LOG_FILE") as [path|] eqn:He; [|split; [done|]; eexists; split; [done|]; naive_solver].
    destruct (open_file path) as [what|] eqn:Hf; simpl; (split; [done|]); eexists; (split; [done|]); split_and!; try naive_solver.
    split; [done|]. intros (_ & p & [= <-] & x & Hx). congruence.
Qed.

Example levels : get_level_from_env <$> [Some "TRACE"; Some "Warn"; Some "off"; Some "verbose"; Some ""; None]
  = [trace; warn; off; off; off; off].
Proof. reflexivity. Qed.

Example file_that_cannot_be_opened :
  make_sink info (Some "/x") (fun _ => Some "denied") =
  (stderr_sink_mt, ["KvikIO warning: Cannot open log file /x: denied. Logging to the standard error instead"]).
Proof. reflexivity. Qed.
