(* ===== verification/PoolStart.v ===== *)
(** * Starting the pool of reactors

    [MultiReactorPool::instance], the constructors of the pool and of its
    reactors ([src/detail/multi_poll_reactor.cpp]): each reactor opens a multi
    handle, sizes its connection cache and starts its I/O thread, any of which
    may fail.  What a failure leaves behind depends on which reactor it was. *)

From stdpp Require Import base list numbers strings.
From Stdlib Require Import ZArith Lia.
From S2P Require Import Prelude RequestLimiter HttpRetry Reactor CurlShare.
From S2P Require BounceBufferCache.

#[local] Open Scope Z_scope.

(** libcurl and the threads: [curl_multi_init] given the multi handles there
    are, 0 for a failure; the code of [CURLMOPT_MAXCONNECTS] and its text; what
    the constructor of [std::thread] throws given the threads that run. *)
Class MultiApi := {
  curl_multi_init : list Z -> Z;
  curl_multi_setopt_maxconnects : Z -> Z -> Z;
  curl_multi_strerror : Z -> string;
  thread_fails : list Z -> option exn }.

(** The process, as far as the pool is concerned.  [terminated] is after
    [std::terminate]: the process has ended, and what follows is void. *)
Record process := mkProcess {
  multi_handles : list Z;
  cache_sizes : list (Z * Z);      (* the sizes that were set, per handle *)
  io_threads : list Z;             (* the handles whose I/O thread was started *)
  the_pool : option pool;          (* the [inst] of [instance] *)
  instantiated : bool;             (* [_pool_instantiated] *)
  terminated : bool }.

Definition set_handles (l : list Z) (s : process) : process :=
  mkProcess l (cache_sizes s) (io_threads s) (the_pool s) (instantiated s) (terminated s).
Definition set_cache_sizes (l : list (Z * Z)) (s : process) : process :=
  mkProcess (multi_handles s) l (io_threads s) (the_pool s) (instantiated s) (terminated s).
Definition set_io_threads (l : list Z) (s : process) : process :=
  mkProcess (multi_handles s) (cache_sizes s) l (the_pool s) (instantiated s) (terminated s).

Section start.
Context `{ShareApi} `{MultiApi}.

(** [curl_multi_init()] *)
Definition init_multi : st process Z := fun s =>
  let m := curl_multi_init (multi_handles s) in
  (inr m, if m =? 0 then s else set_handles (multi_handles s ++ [m]) s).

(** [MultiPollReactor::set_connection_cache_size] *)
Definition set_connection_cache_size (m : Z) (max_concurrent_requests : option Z) : st process unit :=
  match connection_cache_size max_concurrent_requests with
  | None => mret tt
  | Some cache_size =>
      let mc := curl_multi_setopt_maxconnects m cache_size in
      _ ← require (mc =? 0) (RuntimeError ("curl_multi_setopt(CURLMOPT_MAXCONNECTS): " +:+ curl_multi_strerror mc));
      modify (fun s => set_cache_sizes (cache_sizes s ++ [(m, cache_size)]) s)
  end.

(** [_io_thread = std::thread(...)] *)
Definition start_io_thread (m : Z) : st process unit := fun s =>
  match thread_fails (io_threads s) with
  | Some e => (inl e, s)
  | None => (inr tt, set_io_threads (io_threads s ++ [m]) s)
  end.

(** [MultiPollReactor::MultiPollReactor]; the multi handle is a plain pointer,
    which an exception does not close. *)
Definition new_reactor (has_pool : bool) (max_concurrent_requests : option Z) : st process (Z * reactor) :=
  _ ← require has_pool (InvalidArgument "MultiPollReactor requires a non-null pool");
  _ ← libcurl_instance;
  m ← init_multi;
  _ ← require (negb (m =? 0)) (RuntimeError "curl_multi_init() failed");
  _ ← set_connection_cache_size m max_concurrent_requests;
  _ ← start_io_thread m;
  mret (m, mkReactor [] [] None 0 max_concurrent_requests false false).

(** [~MultiPollReactor] destroys the thread, which nobody has joined: with a
    running thread that is [std::terminate]. *)
Definition destroy_reactor (x : Z * reactor) (s : process) : process :=
  if decide (x.1 ∈ io_threads s)
  then mkProcess (multi_handles s) (cache_sizes s) (io_threads s) (the_pool s) (instantiated s) true
  else s.

(** The loop of [MultiReactorPool::MultiReactorPool]: an exception destroys the
    vector of the reactors built so far. *)
Fixpoint build_reactors (max_total n : Z) (l : list Z) (built : list (Z * reactor)) : st process (list (Z * reactor)) :=
  match l with
  | [] => mret built
  | i :: l => fun s =>
      match new_reactor true (slice max_total n i) s with
      | (inr x, s) => build_reactors max_total n l (built ++ [x]) s
      | (inl e, s) => (inl e, foldr destroy_reactor s built)
      end
  end.

(** [MultiReactorPool::MultiReactorPool] *)
Definition construct_pool (max_total n : Z) : st process pool :=
  _ ← libcurl_instance;
  _ ← require (n >? 0) (InvalidArgument "remote_io_num_reactors must be a positive integer");
  built ← build_reactors max_total n (seqZ 0 n) [];
  _ ← modify (fun s => mkProcess (multi_handles s) (cache_sizes s) (io_threads s) (the_pool s) true (terminated s));
  mret (mkPool [] 0 None false (built.*2) [] []).

(** [MultiReactorPool::instance]: a constructor that throws leaves the static
    uninitialised, for the next call to try again. *)
Definition pool_instance (max_total n : Z) : st process pool := fun s =>
  match the_pool s with
  | Some p => (inr p, s)
  | None =>
      (p ← construct_pool max_total n;
       _ ← modify (fun s => mkProcess (multi_handles s) (cache_sizes s) (io_threads s) (Some p) (instantiated s) (terminated s));
       mret p) s
  end.

(** ** What has been built *)

(** The sizes [built] reactors have set. *)
Definition sizes_of (built : list (Z * reactor)) : list (Z * Z) :=
  omap (fun x => pair x.1 <$> connection_cache_size (max_requests x.2)) built.

Record built_on (s0 s : process) (built : list (Z * reactor)) : Prop := mkBuiltOn {
  bo_handles : multi_handles s = multi_handles s0 ++ built.*1;
  bo_sizes : cache_sizes s = cache_sizes s0 ++ sizes_of built;
  bo_threads : io_threads s = io_threads s0 ++ built.*1;
  bo_pool : the_pool s = the_pool s0;
  bo_instantiated : instantiated s = instantiated s0;
  bo_terminated : terminated s = terminated s0 }.

(** A failed step may leave a handle open, and its cache sized, but no thread. *)
Record failed_on (s0 s : process) (built : list (Z * reactor)) : Prop := mkFailedOn {
  fo_handles : multi_handles s0 ++ built.*1 `prefix_of` multi_handles s;
  fo_threads : io_threads s = io_threads s0 ++ built.*1;
  fo_pool : the_pool s = the_pool s0;
  fo_instantiated : instantiated s = instantiated s0;
  fo_terminated : terminated s = terminated s0 }.

Lemma built_failed s0 s built : built_on s0 s built -> failed_on s0 s built.
Proof. intros []. constructor; try done. by exists []; rewrite app_nil_r. Qed.

Lemma require_ends (b : bool) e (s : process) (Q : unit -> process -> Prop) E :
  (b = true -> Q tt s) -> (b = false -> E e s) -> ends (require b e) s Q E.
Proof. destruct b; unfold ends; simpl; auto. Qed.

Lemma libcurl_instance_ends (s : process) Q E :
  Q tt s -> (forall e, E e s) -> ends libcurl_instance s Q E.
Proof. intros HQ HE. unfold libcurl_instance. apply ends_bind, require_ends; intros _; [|done]. by apply require_ends. Qed.

Lemma new_reactor_spec s0 s built max :
  built_on s0 s built ->
  ends (new_reactor true max) s
    (fun x s' => x.2 = mkReactor [] [] None 0 max false false /\ built_on s0 s' (built ++ [x]))
    (fun _ s' => failed_on s0 s' built).
Proof.
  intros Hb. unfold new_reactor. apply ends_bind, require_ends; [intros _|done].
  apply ends_bind, libcurl_instance_ends; [|intros _; by apply built_failed].
  apply ends_bind. unfold init_multi. unfold ends at 1. set (m := curl_multi_init _).
  apply ends_bind, require_ends; [|intros ->%negb_false_iff; by apply built_failed].
  intros ->%negb_true_iff. set (s1 := set_handles _ s).
  assert (Hf1 : failed_on s0 s1 built).
  { destruct Hb as [Hh]. constructor; try done. simpl. rewrite Hh. by exists [m]. }
  apply ends_bind.
  apply (ends_mono _ _ (fun _ s2 => failed_on s0 s2 built /\ multi_handles s2 = multi_handles s0 ++ built.*1 ++ [m] /\
    cache_sizes s2 = cache_sizes s ++ sizes_of [(m, mkReactor [] [] None 0 max false false)])
    _ (fun _ s2 => failed_on s0 s2 built)); [| |done].
  - unfold set_connection_cache_size. simpl sizes_of. destruct (connection_cache_size max) as [c|]; simpl.
    + apply ends_bind, require_ends; [|done]. intros _. split; [by destruct Hf1|]. split; [|done].
      simpl. by rewrite (bo_handles _ _ _ Hb), app_assoc.
    + split; [done|]. simpl. by rewrite (bo_handles _ _ _ Hb), app_assoc, app_nil_r.
  - intros [] s2 (Hf & Hh & Hc). apply ends_bind. unfold start_io_thread, ends.
    destruct (thread_fails _); [done|]. simpl. split; [done|]. destruct Hf as [_ Ht Hp Hi Hd].
    constructor; simpl; try done; rewrite ?fmap_app; simpl; rewrite ?Ht, ?Hh, ?app_assoc; try done.
    rewrite Hc, (bo_sizes _ _ _ Hb), <-app_assoc. unfold sizes_of. by rewrite omap_app.
Qed.

(** The start fails after [built] reactors: the first one leaves no thread, a
    later one ends the process. *)
Record start_failed (s0 s : process) (built : list (Z * reactor)) : Prop := mkStartFailed {
  sf_threads : io_threads s = io_threads s0 ++ built.*1;
  sf_pool : the_pool s = the_pool s0;
  sf_instantiated : instantiated s = instantiated s0;
  sf_terminated : terminated s = terminated s0 || bool_decide (built <> []) }.

Lemma destroy_reactors_spec s built :
  Forall (fun x => x.1 ∈ io_threads s) built ->
  foldr destroy_reactor s built
    = mkProcess (multi_handles s) (cache_sizes s) (io_threads s) (the_pool s) (instantiated s)
        (terminated s || bool_decide (built <> [])).
Proof.
  induction 1 as [|x l Hx _ IH]; simpl; [destruct s; simpl; by rewrite orb_false_r|].
  rewrite IH. unfold destroy_reactor. simpl. rewrite decide_True by done. by rewrite orb_true_r.
Qed.

Lemma unwound s0 s built : failed_on s0 s built -> start_failed s0 (foldr destroy_reactor s built) built.
Proof.
  intros [_ Ht Hp Hi Hd]. rewrite destroy_reactors_spec; [constructor; simpl; congruence|].
  rewrite Ht. apply Forall_forall. intros x Hx. apply elem_of_app. right. by apply list_elem_of_fmap_2.
Qed.

Definition fresh_reactors (max_total n : Z) (l : list Z) : list reactor :=
  (fun i => mkReactor [] [] None 0 (slice max_total n i) false false) <$> l.

Lemma build_reactors_spec max_total n s0 l built s :
  built_on s0 s built ->
  ends (build_reactors max_total n l built) s
    (fun all s' => built_on s0 s' all /\ all.*2 = built.*2 ++ fresh_reactors max_total n l)
    (fun _ s' => exists left, (length left < length built + length l)%nat /\ start_failed s0 s' left).
Proof.
  revert built s. induction l as [|i l IH]; intros built s Hb; simpl.
  { split; [done|]. by rewrite app_nil_r. }
  pose proof (new_reactor_spec s0 s built (slice max_total n i) Hb) as Hn. unfold ends in Hn |- *.
  destruct (new_reactor _ _ s) as [[e|x] s1].
  - exists built. split; [lia|]. by apply unwound.
  - destruct Hn as [Hx Hb1]. specialize (IH _ _ Hb1). unfold ends in IH.
    destruct (build_reactors _ _ _ _ s1) as [[e|all] s2].
    + destruct IH as (left & Hl & Hf). exists left. split; [|done]. rewrite length_app in Hl. simpl in Hl. lia.
    + destruct IH as [Hb2 Hall]. split; [done|]. rewrite Hall, fmap_app, <-app_assoc. simpl. by rewrite Hx.
Qed.

Lemma not_started s : start_failed s s [].
Proof. constructor; simpl; rewrite ?app_nil_r, ?orb_false_r; done. Qed.

Lemma construct_pool_spec max_total n s :
  ends (construct_pool max_total n) s
    (fun p s' => exists all, built_on s (mkProcess (multi_handles s') (cache_sizes s') (io_threads s') (the_pool s')
         (instantiated s) (terminated s')) all /\
       0 < n /\ instantiated s' = true /\ all.*2 = fresh_reactors max_total n (seqZ 0 n) /\
       p = mkPool [] 0 None false all.*2 [] [])
    (fun _ s' => exists left, (left <> [] -> Z.of_nat (length left) < n) /\ start_failed s s' left).
Proof.
  assert (Hnone : exists left : list (Z * reactor), (left <> [] -> Z.of_nat (length left) < n) /\ start_failed s s left).
  { exists []. split; [done|apply not_started]. }
  unfold construct_pool. apply ends_bind, libcurl_instance_ends; [|done].
  apply ends_bind, require_ends; [intros Hn|done]. bool_to_prop. apply ends_bind.
  eapply ends_mono; [apply (build_reactors_spec max_total n s (seqZ 0 n) [] s)| |].
  - constructor; simpl; by rewrite ?app_nil_r.
  - intros all s1 [Hb Hall]. exists all. destruct Hb. split_and!; [by constructor|done|done|done|done].
  - intros e s1 (left & Hl & Hf). exists left. split; [|done]. intros _. rewrite length_seqZ in Hl. simpl in Hl. lia.
Qed.

(** C28. Starting the pool.  The first call of [instance] either returns the
    pool of [new_reactor_pool], with a multi handle, a running I/O thread and,
    under a budget, a connection cache of its size for each reactor; or it
    throws and leaves the pool as it was, for a later call to start.  A failure
    of the first reactor leaves no thread behind; a failure of a later one ends
    the process, because unwinding destroys the running threads of the others. *)
Theorem pool_start_outcome (max_total n : Z) (s : process) :
  the_pool s = None -> terminated s = false ->
  ends (pool_instance max_total n) s
    (fun p s' =>
       new_reactor_pool max_total n = Ok p /\ the_pool s' = Some p /\ instantiated s' = true /\ terminated s' = false /\
       exists ms, length ms = Z.to_nat n /\ multi_handles s' = multi_handles s ++ ms /\ io_threads s' = io_threads s ++ ms /\
         cache_sizes s' = cache_sizes s ++ sizes_of (zip ms (reactors p)))
    (fun _ s' =>
       the_pool s' = None /\ instantiated s' = instantiated s /\
       exists ms, io_threads s' = io_threads s ++ ms /\ (ms <> [] -> Z.of_nat (length ms) < n) /\
         terminated s' = bool_decide (ms <> [])).
Proof.
  intros Hp Ht. pose proof (construct_pool_spec max_total n s) as Hc.
  unfold pool_instance, ends, mbind, st_bind in Hc |- *. rewrite Hp.
  destruct (construct_pool max_total n s) as [[e|p] s1].
  - destruct Hc as (left & Hl & [H1 H2 H3 H4]). split_and!; [congruence|done|]. exists left.*1. split_and!; [done| |].
    + rewrite length_fmap. intros Hne. apply Hl. by intros ->.
    + rewrite H4, Ht. simpl. by destruct left.
  - destruct Hc as (all & [B1 B2 B3 B4 B5 B6] & Hn & Hi & Hall & ->). simpl in *. split_and!; try done; [|congruence|].
    + unfold new_reactor_pool, expect. rewrite (proj2 (Z.gtb_lt n 0)) by done. by rewrite Hall.
    + exists all.*1. split_and!; [|done|done|].
      * rewrite length_fmap, <-(length_fmap snd), Hall. unfold fresh_reactors. by rewrite length_fmap, length_seqZ.
      * by rewrite B2, zip_fst_snd.
Qed.
End start.

(** ** Three reactors under a budget of five requests *)

(** Multi handles 1, 2, 3, ...; only so many of them, and so many threads. *)
Definition some_multis (handles threads : nat) : MultiApi := {|
  curl_multi_init l := if decide (length l < handles)%nat then Z.of_nat (length l) + 1 else 0;
  curl_multi_setopt_maxconnects _ _ := 0;
  curl_multi_strerror _ := "text";
  thread_fails l := if decide (length l < threads)%nat then None else Some (GenericSystemError "thread") |}.

Definition idle_process : process := mkProcess [] [] [] None false false.

Definition three_reactors : pool := mkPool [] 0 None false (fresh_reactors 5 3 [0; 1; 2]) [] [].
Definition started_process : process :=
  mkProcess [1; 2; 3] [(1, 8); (2, 8); (3, 4)] [1; 2; 3] (Some three_reactors) true false.

Lemma start_three :
  pool_instance (H := numbering_shares) (H0 := some_multis 9 9) 5 3 idle_process = (inr three_reactors, started_process).
Proof. vm_compute. reflexivity. Qed.

Lemma pool_start_outcome_witness :
  new_reactor_pool 5 3 = Ok three_reactors /\
  exists ms, length ms = 3%nat /\ io_threads started_process = [] ++ ms /\
    cache_sizes started_process = [] ++ sizes_of (zip ms (reactors three_reactors)).
Proof.
  destruct (ends_inv _ _ _ _ _ _ start_three
    (pool_start_outcome (H := numbering_shares) (H0 := some_multis 9 9) 5 3 idle_process eq_refl eq_refl))
    as (Hp & _ & _ & _ & ms & Hl & _ & Ht & Hc).
  split; [exact Hp|]. by exists ms.
Defined.

(** The first reactor gets no handle: nothing is left, and a later call can
    start. *)
Lemma first_reactor_fails :
  pool_instance (H := numbering_shares) (H0 := some_multis 0 9) 5 3 idle_process
  = (inl (RuntimeError "curl_multi_init() failed"), idle_process).
Proof. vm_compute. reflexivity. Qed.

(** The second one gets none: the exception never reaches the caller. *)
Lemma second_reactor_terminates :
  (pool_instance (H := numbering_shares) (H0 := some_multis 1 9) 5 3 idle_process).2
  = mkProcess [1] [(1, 8)] [1] None false true.
Proof. vm_compute. reflexivity. Qed.

(** The first thread does not start: its multi handle stays open. *)
Lemma failed_thread_leaks_handle :
  (pool_instance (H := numbering_shares) (H0 := some_multis 9 0) 5 3 idle_process)
  = (inl (GenericSystemError "thread"), mkProcess [1] [(1, 8)] [] None false false).
Proof. vm_compute. reflexivity. Qed.

(** ** Slots and bounce buffers

    The buffers of a reactor number twice its slots, or two fewer when the
    reactor has one of the slots that the even division leaves over. *)
Lemma buffer_cap_of_slots max_total n i :
  0 < max_total < 2 ^ 62 -> 0 < n -> 0 <= i < n ->
  exists s c, slice max_total n i = Some s /\ BounceBufferCache.instance_cap max_total n = Some c /\
    2 * s - 2 <= c <= 2 * s /\ (i >= max_total mod n -> c = 2 * s).
Proof.
  intros Hm Hn Hi. unfold slice, BounceBufferCache.instance_cap.
  pose proof (Z.div_pos max_total n ltac:(lia) Hn).
  pose proof (Z.div_le_upper_bound max_total n max_total Hn ltac:(nia)).
  rewrite (proj2 (Z.eqb_neq max_total 0)) by lia. do 2 eexists. do 2 (split; [reflexivity|]).
  case_match; bool_to_prop; rewrite !wrap64_small by lia; lia.
Qed.

(** So a reactor with three slots may run out of buffers with two requests in flight. *)
Example cap_below_twice_the_slots :
  slice 5 2 0 = Some 3 /\ BounceBufferCache.instance_cap 5 2 = Some 4.
Proof. by vm_compute. Qed.
