(* ===== verification/Jni.v ===== *)
(** * The native half of the Java binding

    [java/src/main/native/src/CuFileJni.cpp]: the driver and file objects behind
    the [long] that a Java object holds, and the native methods that make, use
    and delete them.  What is kept is the descriptors of the process, the files
    registered with cuFile, and the objects on the heap by address. *)

From stdpp Require Import base list gmap sets strings.
From Stdlib Require Import ZArith Lia.
From S2P Require Import Prelude Cuda.

#[local] Open Scope Z_scope.

(** ** Objects *)

Record cufile_file := mkFile {
  file_descriptor_ : Z;
  cufile_handle_ : Z }.

Inductive open_flag := O_RDONLY | O_WRONLY | O_CREAT | O_DIRECT.

(** A descriptor of the process: its path, flags and mode bits. *)
Record descriptor := mkDescriptor {
  d_path : string;
  d_flags : list open_flag;
  d_mode : Z }.

(** A call of [cuFileRead] or [cuFileWrite] with the arguments it gets. *)
Record io_call := mkIoCall {
  io_write : bool;
  io_handle : Z;
  io_buffer : Z;
  io_size : Z;
  io_file_offset : Z;
  io_buffer_offset : Z }.

(** The process.  [pending] is the Java exception that was thrown, [escaped] a
    C++ exception that left a native method, [undefined] that an object that is
    not there was used, [pinned] the strings got from the JVM and not released. *)
Record native := mkNative {
  descriptors : gmap Z descriptor;
  registrations : gmap Z Z;
  files : gmap Z cufile_file;
  drivers : gset Z;
  driver_uses : Z;
  calls : list io_call;
  pinned : list string;
  pending : option string;
  escaped : option exn;
  undefined : bool }.

Definition set_system (ds : gmap Z descriptor) (rs : gmap Z Z) (w : native) : native :=
  mkNative ds rs (files w) (drivers w) (driver_uses w) (calls w) (pinned w) (pending w) (escaped w) (undefined w).
Definition set_files (fs : gmap Z cufile_file) (w : native) : native :=
  mkNative (descriptors w) (registrations w) fs (drivers w) (driver_uses w) (calls w) (pinned w) (pending w) (escaped w) (undefined w).
Definition set_drivers (ds : gset Z) (n : Z) (w : native) : native :=
  mkNative (descriptors w) (registrations w) (files w) ds n (calls w) (pinned w) (pending w) (escaped w) (undefined w).
Definition set_calls (l : list io_call) (w : native) : native :=
  mkNative (descriptors w) (registrations w) (files w) (drivers w) (driver_uses w) l (pinned w) (pending w) (escaped w) (undefined w).
Definition set_jvm (ps : list string) (p : option string) (w : native) : native :=
  mkNative (descriptors w) (registrations w) (files w) (drivers w) (driver_uses w) (calls w) ps p (escaped w) (undefined w).
Definition set_outcome (e : option exn) (u : bool) (w : native) : native :=
  mkNative (descriptors w) (registrations w) (files w) (drivers w) (driver_uses w) (calls w) (pinned w) (pending w) e u.

(** ** Error texts

    The macros of [cufile.h] and [cuGetErrorName]: a code and a name. *)
Class JniTexts := {
  IS_CUFILE_ERR : Z -> bool;
  CUFILE_ERRSTR : Z -> string;
  IS_CUDA_ERR : CUfileError_t -> bool;
  cuGetErrorName : Z -> Z * string }.

Section native.
Context `{ErrorTexts} `{JniTexts}.

Definition GetCuErrorString (cu_result : Z) : string :=
  let '(e, description) := cuGetErrorName cu_result in
  if e =? CUDA_SUCCESS then description else "unknown cuda error".

(** [cuFileGetErrorString(int)] *)
Definition code_text (error_code : Z) : string :=
  if IS_CUFILE_ERR error_code then CUFILE_ERRSTR error_code else strerror_text error_code.

(** [cuFileGetErrorString(CUfileError_t)] *)
Definition status_text (status : CUfileError_t) : string :=
  let error := code_text (err status) in
  if IS_CUDA_ERR status then error +:+ "." +:+ GetCuErrorString (cu_err status) else error.

(** ** [cufile_file] and [cufile_driver] *)

(** What the system answers to the calls that make a file: [open], with
    [errno]; [cuFileHandleRegister], with the handle; [new]. *)
Record creation := mkCreation {
  c_open : Z;
  c_errno : Z;
  c_register : CUfileError_t;
  c_handle : Z;
  c_address : Z }.

Definition close (fd : Z) (w : native) : native := set_system (delete fd (descriptors w)) (registrations w) w.

(** [cufile_file::cufile_file] *)
Definition new_cufile_file (file_descriptor : Z) (a : creation) : st native cufile_file :=
  let status := c_register a in
  if negb (err status =? CU_FILE_SUCCESS) then
    _ ← modify (close file_descriptor);
    throw (LogicError ("Failed to register cuFile handle: " +:+ status_text status))
  else
    _ ← modify (fun w => set_system (descriptors w) (<[c_handle a := file_descriptor]> (registrations w)) w);
    mret (mkFile file_descriptor (c_handle a)).

(** [open] *)
Definition open_file (d : descriptor) (a : creation) : st native Z :=
  _ ← modify (fun w => if c_open a <? 0 then w else set_system (<[c_open a := d]> (descriptors w)) (registrations w) w);
  mret (c_open a).

(** [std::make_unique<cufile_file>], the result as an address. *)
Definition make_unique_file (file_descriptor : Z) (a : creation) : st native Z :=
  f ← new_cufile_file file_descriptor a;
  _ ← modify (fun w => set_files (<[c_address a := f]> (files w)) w);
  mret (c_address a).

Definition make_reader (path : string) (a : creation) : st native Z :=
  file_descriptor ← open_file (mkDescriptor path [O_RDONLY; O_DIRECT] 0) a;
  _ ← require (negb (file_descriptor <? 0)) (LogicError ("Failed to open file to read: " +:+ code_text (c_errno a)));
  make_unique_file file_descriptor a.

(** The mode is [S_IRUSR | S_IWUSR]. *)
Definition make_writer (path : string) (a : creation) : st native Z :=
  file_descriptor ← open_file (mkDescriptor path [O_CREAT; O_WRONLY; O_DIRECT] 384) a;
  _ ← require (negb (file_descriptor <? 0)) (LogicError ("Failed to open file to write: " +:+ code_text (c_errno a)));
  make_unique_file file_descriptor a.

(** [cufile_file::~cufile_file] *)
Definition destroy_cufile_file (f : cufile_file) (w : native) : native :=
  close (file_descriptor_ f) (set_system (descriptors w) (delete (cufile_handle_ f) (registrations w)) w).

(** The answer of [cuFileRead] or [cuFileWrite], with [errno]. *)
Record io_answer := mkIoAnswer { io_status : Z; io_errno : Z }.

(** [cufile_file::read] and [cufile_file::write].  The argument of the text is
    an [int]. *)
Definition transfer_error (what : string) (a : io_answer) : exn :=
  LogicError (what +:+ code_text (if IS_CUFILE_ERR (io_status a) then to_int32 (io_status a) else io_errno a)).

Definition file_read (f : cufile_file) (buffer size file_offset device_offset : Z) (a : io_answer) : st native unit :=
  _ ← modify (fun w => set_calls (calls w ++ [mkIoCall false (cufile_handle_ f) buffer size file_offset device_offset]) w);
  require (negb (io_status a <? 0)) (transfer_error "Failed to read file into buffer: " a).

Definition file_write (f : cufile_file) (buffer size file_offset buffer_offset : Z) (a : io_answer) : st native unit :=
  _ ← modify (fun w => set_calls (calls w ++ [mkIoCall true (cufile_handle_ f) buffer size file_offset buffer_offset]) w);
  require (negb (io_status a <? 0)) (transfer_error "Failed to write file from buffer: " a).

(** [cufile_driver::cufile_driver] *)
Definition new_cufile_driver (status : CUfileError_t) : st native unit :=
  _ ← require (err status =? CU_FILE_SUCCESS) (LogicError ("Failed to initialize cuFile driver: " +:+ status_text status));
  modify (fun w => set_drivers (drivers w) (driver_uses w + 1) w).

(** [cufile_driver::~cufile_driver] *)
Definition destroy_cufile_driver (w : native) : native := set_drivers (drivers w) (driver_uses w - 1) w.

(** ** The native methods

    [jlong] and [size_t] have 64 bits. *)

Definition what (e : exn) : string :=
  match e with
  | CUfileException msg | InvalidArgument msg | RuntimeError msg | OutOfRange msg
  | OverflowError msg | LengthError msg | LogicError msg | GenericSystemError msg => msg
  end.

(** [FindClass] leaves an exception of its own when there is no such class. *)
Definition CuFileDriver_create (status : CUfileError_t) (address : Z) (has_throwable : bool) : st native Z :=
  r ← attempt (_ ← new_cufile_driver status;
               modify (fun w => set_drivers ({[address]} ∪ drivers w) (driver_uses w) w));
  match r with
  | inr _ => mret address
  | inl e =>
      w ← get_st;
      if pending w then mret 0
      else
        _ ← modify (set_jvm (pinned w) (Some (if (has_throwable : bool) then what e else "java/lang/Throwable")));
        mret 0
  end.

(** [delete] of a pointer: nothing for null, undefined for what is not there. *)
Definition CuFileDriver_destroy (pointer : Z) : st native unit :=
  if pointer =? 0 then mret tt
  else modify (fun w =>
    if decide (pointer ∈ drivers w)
    then destroy_cufile_driver (set_drivers (drivers w ∖ {[pointer]}) (driver_uses w) w)
    else set_outcome (escaped w) true w).

Definition CuFileHandle_destroy (pointer : Z) : st native unit :=
  if pointer =? 0 then mret tt
  else modify (fun w =>
    match files w !! pointer with
    | Some f => set_files (delete pointer (files w)) (destroy_cufile_file f w)
    | None => set_outcome (escaped w) true w
    end).

(** [GetStringUTFChars] *)
Definition get_string (path : string) : st native string :=
  _ ← modify (fun w => set_jvm (pinned w ++ [path]) (pending w) w);
  mret path.

Definition CuFileReadHandle_create (path : string) (a : creation) : st native Z :=
  path ← get_string path;
  make_reader path a.

Definition CuFileWriteHandle_create (path : string) (a : creation) : st native Z :=
  path ← get_string path;
  make_writer path a.

Definition on_file (pointer : Z) (f : cufile_file -> st native unit) : st native unit := fun w =>
  match files w !! pointer with
  | Some x => f x w
  | None => (inr tt, set_outcome (escaped w) true w)
  end.

Definition CuFileReadHandle_readFile (file_pointer device_pointer size file_offset device_offset : Z)
    (a : io_answer) : st native unit :=
  on_file file_pointer (fun f => file_read f device_pointer (wrap64 size) (wrap64 file_offset) (wrap64 device_offset) a).

Definition CuFileWriteHandle_writeFile (file_pointer device_pointer size file_offset buffer_offset : Z)
    (a : io_answer) : st native unit :=
  on_file file_pointer (fun f => file_write f device_pointer (wrap64 size) (wrap64 file_offset) (wrap64 buffer_offset) a).

(** ** The process

    Calls of the native methods, Java code catching what was thrown, and the
    rest of the process opening and closing descriptors of its own. *)
Inductive jni_op :=
  | DriverCreate (status : CUfileError_t) (address : Z) (has_throwable : bool)
  | DriverDestroy (pointer : Z)
  | ReaderCreate (path : string) (a : creation)
  | WriterCreate (path : string) (a : creation)
  | HandleDestroy (pointer : Z)
  | ReadFile (pointer buffer size file_offset device_offset : Z) (a : io_answer)
  | WriteFile (pointer buffer size file_offset buffer_offset : Z) (a : io_answer)
  | JavaCatches
  | OtherOpens (fd : Z) (d : descriptor)
  | OtherCloses (fd : Z).

(** A method without a handler of its own lets C++ exceptions out. *)
Definition lets_out {A} (m : st native A) (w : native) : native :=
  match m w with
  | (inr _, w) => w
  | (inl e, w) => set_outcome (Some e) (undefined w) w
  end.

Definition jni_step (w : native) (o : jni_op) : native :=
  match o with
  | DriverCreate status address t => lets_out (CuFileDriver_create status address t) w
  | DriverDestroy p => lets_out (CuFileDriver_destroy p) w
  | ReaderCreate path a => lets_out (CuFileReadHandle_create path a) w
  | WriterCreate path a => lets_out (CuFileWriteHandle_create path a) w
  | HandleDestroy p => lets_out (CuFileHandle_destroy p) w
  | ReadFile p b n fo d a => lets_out (CuFileReadHandle_readFile p b n fo d a) w
  | WriteFile p b n fo d a => lets_out (CuFileWriteHandle_writeFile p b n fo d a) w
  | JavaCatches => set_jvm (pinned w) None w
  | OtherOpens fd d => set_system (<[fd := d]> (descriptors w)) (registrations w) w
  | OtherCloses fd => close fd w
  end.

Definition run_jni (ops : list jni_op) (w : native) : native := foldl jni_step w ops.

Definition start_native (others : gmap Z descriptor) : native :=
  mkNative others ∅ ∅ ∅ 0 [] [] None None false.
End native.

(** ** Descriptors, registrations and objects

    [theirs] are the descriptors that the rest of the process has open. *)
Record owned (theirs : gset Z) (w : native) : Prop := mkOwned {
  ow_file p f : files w !! p = Some f ->
    file_descriptor_ f ∈ dom (descriptors w) /\ file_descriptor_ f ∉ theirs /\
    registrations w !! cufile_handle_ f = Some (file_descriptor_ f);
  ow_apart p q f g : files w !! p = Some f -> files w !! q = Some g ->
    file_descriptor_ f = file_descriptor_ g \/ cufile_handle_ f = cufile_handle_ g -> p = q;
  ow_descriptors d : d ∈ dom (descriptors w) <->
    d ∈ theirs \/ exists p f, files w !! p = Some f /\ file_descriptor_ f = d;
  ow_registrations h d : registrations w !! h = Some d ->
    exists p f, files w !! p = Some f /\ cufile_handle_ f = h /\ file_descriptor_ f = d;
  ow_drivers : driver_uses w = Z.of_nat (size (drivers w)) }.

(** The system gives out what is not in use; the Java code calls no native
    method while an exception is pending, and uses and deletes objects that are
    there; the rest of the process closes descriptors of its own. *)
Definition creation_ok (w : native) (a : creation) : Prop :=
  (0 <= c_open a -> c_open a ∉ dom (descriptors w)) /\
  c_handle a ∉ dom (registrations w) /\ c_address a ∉ dom (files w).

Definition not_ours (w : native) (fd : Z) : Prop := forall p f, files w !! p = Some f -> file_descriptor_ f <> fd.

Definition op_careful (w : native) (o : jni_op) : Prop :=
  escaped w = None /\
  match o with
  | DriverCreate _ address _ => pending w = None /\ address ∉ drivers w
  | DriverDestroy p => pending w = None /\ (p = 0 \/ p ∈ drivers w)
  | ReaderCreate _ a | WriterCreate _ a => pending w = None /\ creation_ok w a
  | HandleDestroy p => pending w = None /\ (p = 0 \/ p ∈ dom (files w))
  | ReadFile p _ _ _ _ _ | WriteFile p _ _ _ _ _ => pending w = None /\ p ∈ dom (files w)
  | JavaCatches => True
  | OtherOpens fd _ => fd ∉ dom (descriptors w)
  | OtherCloses fd => not_ours w fd
  end.

Definition op_theirs (s : gset Z) (o : jni_op) : gset Z :=
  match o with
  | OtherOpens fd _ => {[fd]} ∪ s
  | OtherCloses fd => s ∖ {[fd]}
  | _ => s
  end.

Section invariant.
Context `{ErrorTexts} `{JniTexts}.

Fixpoint careful (ops : list jni_op) (w : native) : Prop :=
  match ops with
  | [] => True
  | o :: ops => op_careful w o /\ careful ops (jni_step w o)
  end.

Lemma owned_jvm ts w ps p : owned ts w -> owned ts (set_jvm ps p w).
Proof. by intros []; constructor. Qed.

Lemma owned_outcome ts w e u : owned ts w -> owned ts (set_outcome e u w).
Proof. by intros []; constructor. Qed.

Lemma owned_calls ts w l : owned ts w -> owned ts (set_calls l w).
Proof. by intros []; constructor. Qed.

(** Closing a descriptor that is neither theirs nor an object's. *)
Lemma owned_reopen ts w fd d :
  fd ∉ dom (descriptors w) -> owned ts w ->
  owned ts (close fd (set_system (<[fd := d]> (descriptors w)) (registrations w) w)).
Proof.
  intros Hfd []. unfold close. simpl. rewrite delete_insert_id; [by constructor|]. by apply not_elem_of_dom.
Qed.

(** A file that was made. *)
Lemma owned_made ts w d a :
  c_open a ∉ dom (descriptors w) -> c_handle a ∉ dom (registrations w) -> c_address a ∉ dom (files w) -> owned ts w ->
  owned ts (set_files (<[c_address a := mkFile (c_open a) (c_handle a)]> (files w))
    (set_system (<[c_open a := d]> (descriptors w)) (<[c_handle a := c_open a]> (registrations w)) w)).
Proof.
  intros Hfd Hh Hp [A1 A2 A3 A4 A5]. apply not_elem_of_dom in Hp, Hh.
  assert (Hd : forall p f, files w !! p = Some f -> file_descriptor_ f <> c_open a /\ cufile_handle_ f <> c_handle a).
  { intros p f Hf. destruct (A1 p f Hf) as (Hin & _ & Hr). split; [by intros Heq; rewrite Heq in Hin|congruence]. }
  constructor; simpl; [| | | |done].
  - intros p f [[<- <-]|[Hne Hf]]%lookup_insert_Some; simpl.
    + rewrite lookup_insert_eq. split_and!; [set_solver| |done]. intros Ht. apply Hfd, A3. by left.
    + destruct (Hd p f Hf), (A1 p f Hf) as (? & ? & ?). rewrite lookup_insert_ne by congruence. set_solver.
  - intros p q f g [[<- <-]|[Hne Hf]]%lookup_insert_Some [[<- <-]|[Hne' Hg]]%lookup_insert_Some; simpl; intros Heq.
    + done.
    + destruct (Hd q g Hg). naive_solver.
    + destruct (Hd p f Hf). naive_solver.
    + by eapply A2.
  - intros x. rewrite dom_insert, elem_of_union, elem_of_singleton, A3. split.
    + intros [->|[Ht|(p & f & Hf & <-)]]; [right; exists (c_address a); eexists; by rewrite lookup_insert_eq|by left|].
      right. exists p, f. rewrite lookup_insert_ne; [done|congruence].
    + intros [Ht|(p & f & [[<- <-]|[Hne Hf]]%lookup_insert_Some & <-)]; [by right; left|by left|].
      right. right. by exists p, f.
  - intros h x [[<- <-]|[Hne Hr]]%lookup_insert_Some; [exists (c_address a); eexists; by rewrite lookup_insert_eq|].
    destruct (A4 h x Hr) as (p & f & Hf & Hx). exists p, f. rewrite lookup_insert_ne; [done|congruence].
Qed.

(** A file that is destroyed. *)
Lemma owned_destroyed ts w p f :
  files w !! p = Some f -> owned ts w -> owned ts (set_files (delete p (files w)) (destroy_cufile_file f w)).
Proof.
  intros Hp [A1 A2 A3 A4 A5].
  assert (Hd : forall q g, q <> p -> files w !! q = Some g ->
    file_descriptor_ g <> file_descriptor_ f /\ cufile_handle_ g <> cufile_handle_ f).
  { intros q g Hne Hg. split; intros Heq; apply Hne; eapply A2; eauto. }
  constructor; simpl; [| | | |done].
  - intros q g [Hne Hg]%lookup_delete_Some. destruct (Hd q g) as [Hx Hy], (A1 q g Hg) as (? & ? & ?); [done..|].
    rewrite lookup_delete_ne by congruence. set_solver.
  - intros q r g h [_ Hg]%lookup_delete_Some [_ Hh]%lookup_delete_Some. by apply A2.
  - intros x. rewrite dom_delete, elem_of_difference, elem_of_singleton, A3. split.
    + intros [[Ht|(q & g & Hg & <-)] Hne]; [by left|]. right. exists q, g.
      rewrite lookup_delete_ne; [done|]. intros <-. congruence.
    + intros [Ht|(q & g & [Hne Hg]%lookup_delete_Some & <-)].
      * split; [by left|]. intros ->. by destruct (A1 p f Hp) as (_ & ? & _).
      * split; [right; by exists q, g|]. by apply Hd with q.
  - intros h x [Hne Hr]%lookup_delete_Some. destruct (A4 h x Hr) as (q & g & Hg & <- & <-).
    exists q, g. rewrite lookup_delete_ne; [done|]. intros <-. congruence.
Qed.

(** [m] keeps the invariant, whether it returns or throws, and uses
    nothing that is not there. *)
Definition keeps {A} (ts : gset Z) (m : st native A) (w : native) : Prop :=
  let good := fun w' => owned ts w' /\ undefined w' = undefined w in
  ends m w (fun _ => good) (fun _ => good).

Lemma keeps_out {A} ts (m : st native A) w :
  keeps ts m w -> owned ts (lets_out m w) /\ undefined (lets_out m w) = undefined w.
Proof.
  unfold keeps, lets_out, ends. destruct (m w) as [[e|a] w']; [|done].
  intros [Ho Hu]. split; [by apply owned_outcome|done].
Qed.

Lemma make_unique_keeps ts w d a :
  c_open a ∉ dom (descriptors w) -> creation_ok w a -> owned ts w ->
  let w1 := set_system (<[c_open a := d]> (descriptors w)) (registrations w) w in
  ends (make_unique_file (c_open a) a) w1 (fun _ w' => owned ts w' /\ undefined w' = undefined w)
    (fun _ w' => owned ts w' /\ undefined w' = undefined w).
Proof.
  intros Hfd (_ & Hh & Hp) Ho. unfold make_unique_file, new_cufile_file. apply ends_bind.
  destruct (negb _); apply ends_bind; unfold ends at 1; simpl.
  - split; [exact (owned_reopen ts w (c_open a) d Hfd Ho)|done].
  - apply ends_bind. unfold ends. simpl. split; [exact (owned_made ts w d a Hfd Hh Hp Ho)|done].
Qed.

(** [make_reader] and [make_writer]. *)
Lemma make_file_keeps ts w d a (e : exn) :
  creation_ok w a -> owned ts w ->
  keeps ts (fd ← open_file d a; _ ← require (negb (fd <? 0)) e; make_unique_file fd a) w.
Proof.
  intros Ha Ho. unfold keeps, open_file. apply ends_bind, ends_bind. unfold ends at 1, modify, ends at 1. simpl.
  apply ends_bind. destruct (c_open a <? 0) eqn:Hn; bool_to_prop; unfold ends at 1; simpl; [done|].
  apply make_unique_keeps; [|done..]. by apply Ha.
Qed.

Lemma get_string_keeps {A} ts path (m : string -> st native A) w :
  keeps ts (m path) (set_jvm (pinned w ++ [path]) (pending w) w) -> keeps ts (path ← get_string path; m path) w.
Proof. by intros Hm. Qed.

Lemma driver_create_keeps ts status address t w :
  address ∉ drivers w -> owned ts w -> keeps ts (CuFileDriver_create status address t) w.
Proof.
  intros Ha Ho. unfold keeps, CuFileDriver_create, new_cufile_driver. apply ends_bind, ends_attempt, ends_bind, ends_bind.
  unfold require. destruct (_ =? _); unfold ends at 1; simpl.
  - unfold ends. simpl. split; [|done]. destruct Ho as [A1 A2 A3 A4 A5]. constructor; try done. simpl.
    rewrite size_union by set_solver. rewrite size_singleton. lia.
  - apply ends_bind. unfold ends at 1, get_st. destruct (pending w); unfold ends; simpl; [done|].
    split; [by apply owned_jvm|done].
Qed.

Lemma driver_destroy_keeps ts p w :
  p = 0 \/ p ∈ drivers w -> owned ts w -> keeps ts (CuFileDriver_destroy p) w.
Proof.
  intros Hp Ho. unfold keeps, CuFileDriver_destroy. destruct (p =? 0) eqn:Hz; [done|]. bool_to_prop.
  destruct Hp as [?|Hp]; [done|]. unfold ends, modify. rewrite decide_True by done. split; [|done].
  destruct Ho as [A1 A2 A3 A4 A5]. constructor; try done. simpl.
  assert (drivers w ≡ {[p]} ∪ (drivers w ∖ {[p]})) as Hd by (by apply union_difference_singleton).
  rewrite Hd, size_union in A5 by set_solver. rewrite size_singleton in A5. lia.
Qed.

Lemma handle_destroy_keeps ts p w :
  p = 0 \/ p ∈ dom (files w) -> owned ts w -> keeps ts (CuFileHandle_destroy p) w.
Proof.
  intros Hp Ho. unfold keeps, CuFileHandle_destroy. destruct (p =? 0) eqn:Hz; [done|]. bool_to_prop.
  destruct Hp as [?|[f Hf]%elem_of_dom]; [done|]. unfold ends, modify. rewrite Hf.
  split; [by apply owned_destroyed|done].
Qed.

Lemma on_file_keeps ts p (m : cufile_file -> st native unit) w :
  p ∈ dom (files w) -> (forall f, keeps ts (m f) w) -> keeps ts (on_file p m) w.
Proof. intros [f Hf]%elem_of_dom Hm. specialize (Hm f). unfold keeps, on_file, ends in *. by rewrite Hf. Qed.

Lemma io_keeps ts c (b : bool) e w :
  owned ts w -> keeps ts (_ ← modify (fun w => set_calls (calls w ++ [c]) w); require b e) w.
Proof.
  intros Ho. unfold keeps. apply ends_bind. unfold ends at 1. simpl.
  destruct b; unfold ends; simpl; (split; [by apply owned_calls|done]).
Qed.

Lemma jni_step_keeps ts w o :
  op_careful w o -> owned ts w -> owned (op_theirs ts o) (jni_step w o) /\ undefined (jni_step w o) = undefined w.
Proof.
  intros [_ Hc] Ho. destruct o as [status address t|p|path a|path a|p|p b n fo d a|p b n fo d a| |fd d|fd]; simpl in *.
  - destruct Hc as [_ Hc]. by apply keeps_out, driver_create_keeps.
  - destruct Hc as [_ Hc]. by apply keeps_out, driver_destroy_keeps.
  - destruct Hc as [_ Hc]. apply keeps_out. unfold CuFileReadHandle_create. apply get_string_keeps.
    by apply (make_file_keeps ts (set_jvm _ _ w)), owned_jvm.
  - destruct Hc as [_ Hc]. apply keeps_out. unfold CuFileWriteHandle_create. apply get_string_keeps.
    by apply (make_file_keeps ts (set_jvm _ _ w)), owned_jvm.
  - destruct Hc as [_ Hc]. by apply keeps_out, handle_destroy_keeps.
  - apply keeps_out, on_file_keeps; [apply Hc|intros f]. by apply io_keeps.
  - apply keeps_out, on_file_keeps; [apply Hc|intros f]. by apply io_keeps.
  - split; [by apply owned_jvm|done].
  - split; [|done]. destruct Ho as [A1 A2 A3 A4 A5]. constructor; try done.
    + intros p f Hf. destruct (A1 p f Hf) as (? & ? & ?). simpl. split_and!; [set_solver| |done]. set_solver.
    + intros x. simpl. rewrite dom_insert. set_solver.
  - split; [|done]. destruct Ho as [A1 A2 A3 A4 A5]. constructor; try done.
    + intros p f Hf. destruct (A1 p f Hf) as (? & ? & ?). specialize (Hc p f Hf). simpl. split_and!; [set_solver| |done]. set_solver.
    + intros x. simpl. rewrite dom_delete, elem_of_difference, A3, elem_of_difference, elem_of_singleton.
      split; [naive_solver|]. intros [[? ?]|(p & f & Hf & <-)]; [naive_solver|]. split; [naive_solver|]. by apply (Hc p f).
Qed.

Lemma run_jni_keeps ops ts w :
  careful ops w -> owned ts w ->
  owned (foldl op_theirs ts ops) (run_jni ops w) /\ undefined (run_jni ops w) = undefined w.
Proof.
  revert ts w. induction ops as [|o ops IH]; intros ts w; [done|]. simpl. intros [Ho Hops] Hw.
  destruct (jni_step_keeps ts w o Ho Hw) as [Hs <-]. by apply IH.
Qed.

Lemma start_owned others : owned (dom others) (start_native others).
Proof. constructor; simpl; try done. intros d. split; [by left|]. by intros [?|(p & f & Hf & _)]. Qed.

(** ** Failures *)

(** A call of which the system refuses a part. *)
Definition turned_down (o : jni_op) : bool :=
  match o with
  | ReaderCreate _ a | WriterCreate _ a => (c_open a <? 0) || negb (err (c_register a) =? CU_FILE_SUCCESS)
  | ReadFile _ _ _ _ _ a | WriteFile _ _ _ _ _ a => io_status a <? 0
  | _ => false
  end.

Lemma lets_out_escaped {A} (m : st native A) w (b : bool) :
  escaped w = None ->
  ends m w (fun _ w' => b = false /\ escaped w' = None) (fun _ _ => b = true) ->
  is_Some (escaped (lets_out m w)) <-> b = true.
Proof.
  intros _ Hm. unfold lets_out, ends in *. destruct (m w) as [[e|a] w'].
  - subst b. split; [done|]. by eexists.
  - destruct Hm as [-> ->]. split; [by intros [? ?]|done].
Qed.

Lemma make_file_refused d a (e : exn) w :
  escaped w = None ->
  ends (fd ← open_file d a; _ ← require (negb (fd <? 0)) e; make_unique_file fd a) w
    (fun _ w' => (c_open a <? 0) || negb (err (c_register a) =? CU_FILE_SUCCESS) = false /\ escaped w' = None)
    (fun _ _ => (c_open a <? 0) || negb (err (c_register a) =? CU_FILE_SUCCESS) = true).
Proof.
  intros Hw. unfold open_file, make_unique_file, new_cufile_file. apply ends_bind, ends_bind. unfold ends at 1, modify, ends at 1. simpl.
  apply ends_bind. destruct (c_open a <? 0) eqn:Hn; unfold ends at 1; simpl; [done|].
  apply ends_bind. destruct (negb _); apply ends_bind; unfold ends at 1; simpl; [done|].
  apply ends_bind. by unfold ends.
Qed.

Lemma io_refused p e c (n : Z) w :
  p ∈ dom (files w) -> escaped w = None ->
  ends (on_file p (fun x => _ ← modify (fun w => set_calls (calls w ++ [c x]) w); require (negb (n <? 0)) e)) w
    (fun _ w' => (n <? 0) = false /\ escaped w' = None) (fun _ _ => (n <? 0) = true).
Proof.
  intros [x Hx]%elem_of_dom Hw. unfold ends, on_file. rewrite Hx. unfold mbind, st_bind. simpl. unfold require.
  by destruct (n <? 0).
Qed.

Lemma jni_step_escapes w o : op_careful w o -> is_Some (escaped (jni_step w o)) <-> turned_down o = true.
Proof.
  intros [Hw Hc]. assert (Hno : is_Some (escaped w) <-> false = true) by (rewrite Hw; split; [by intros [? ?]|done]).
  destruct o as [status address t|p|path a|path a|p|p b n fo d a|p b n fo d a| |fd d|fd]; simpl in *; try done.
  - apply lets_out_escaped; [done|]. unfold CuFileDriver_create, new_cufile_driver.
    apply ends_bind, ends_attempt, ends_bind, ends_bind. unfold require.
    destruct (_ =? _); unfold ends at 1; simpl; [by unfold ends|]. apply ends_bind. unfold ends at 1, get_st.
    destruct (pending w); by unfold ends.
  - apply lets_out_escaped; [done|]. unfold CuFileDriver_destroy. destruct (p =? 0); [done|].
    unfold ends, modify. by case_decide.
  - by apply lets_out_escaped, (make_file_refused _ a _ (set_jvm _ _ w)).
  - by apply lets_out_escaped, (make_file_refused _ a _ (set_jvm _ _ w)).
  - apply lets_out_escaped; [done|]. unfold CuFileHandle_destroy. destruct (p =? 0); [done|].
    unfold ends, modify. by destruct (files w !! p).
  - destruct Hc as [_ Hc]. apply lets_out_escaped; [done|].
    by apply (io_refused p (transfer_error _ a) (fun f => mkIoCall false (cufile_handle_ f) b _ _ _)).
  - destruct Hc as [_ Hc]. apply lets_out_escaped; [done|].
    by apply (io_refused p (transfer_error _ a) (fun f => mkIoCall true (cufile_handle_ f) b _ _ _)).
Qed.

Lemma run_jni_escapes ops w :
  careful ops w -> escaped w = None -> is_Some (escaped (run_jni ops w)) <-> existsb turned_down ops = true.
Proof.
  revert w. induction ops as [|o ops IH]; intros w.
  { intros _ Hw. simpl. rewrite Hw. split; [by intros [? ?]|done]. }
  simpl. intros [Ho Hops] Hw. pose proof (jni_step_escapes w o Ho) as Hs. destruct ops as [|o' ops'].
  - simpl. rewrite orb_false_r. exact Hs.
  - destruct (turned_down o) eqn:Hr; simpl; [|apply IH; [done|]].
    + destruct Hops as [[He _] _]. rewrite He in Hs. by destruct (proj2 Hs eq_refl).
    + destruct (escaped (jni_step w o)) as [e|]; [|done]. by discriminate (proj1 Hs (ex_intro _ e eq_refl)).
Qed.

(** Whatever the answers, an object that is deleted twice is used after it is
    gone. *)
Lemma second_destroy_undefined p w :
  p <> 0 -> files w !! p = None -> undefined (jni_step w (HandleDestroy p)) = true.
Proof.
  intros Hp Hf. simpl. unfold lets_out, CuFileHandle_destroy. rewrite (proj2 (Z.eqb_neq p 0)) by done.
  unfold modify. by rewrite Hf.
Qed.

(** C40. The native objects of the Java binding.  Whatever the system answers,
    as long as the Java code deletes each object at most once and uses none
    that is deleted: every [cufile_file] has a descriptor and a registered
    handle of its own, no other descriptor or registration is left behind, also
    by a call that failed half way, and none of the descriptors the rest of the
    process has is closed; the driver has been opened as often as there are
    driver objects.  A C++ exception leaves a native method exactly when the
    system refused a part of making or using a file. *)
Theorem native_files_owned (ops : list jni_op) (others : gmap Z descriptor) :
  careful ops (start_native others) ->
  let w := run_jni ops (start_native others) in
  undefined w = false /\ owned (foldl op_theirs (dom others) ops) w /\
  (is_Some (escaped w) <-> existsb turned_down ops = true).
Proof.
  intros Hops. destruct (run_jni_keeps ops (dom others) (start_native others) Hops (start_owned others)).
  split_and!; [done|done|]. by apply run_jni_escapes.
Qed.
End invariant.

(** ** A reader and a writer, and a file that cannot be registered *)

#[local] Instance demo_errors : ErrorTexts :=
  {| GetErrorName _ := None; GetErrorString _ := None; cufileop_status_error _ := ""; strerror_text _ := "" |}.
#[local] Instance demo_jni : JniTexts :=
  {| IS_CUFILE_ERR e := 5000 <? Z.abs e; CUFILE_ERRSTR _ := "unregistered"; IS_CUDA_ERR s := err s =? 5020;
     cuGetErrorName _ := (0, "name") |}.

Definition demo_ops : list jni_op :=
  [DriverCreate (mkCUfileError 5011 0) 1 true; JavaCatches; DriverCreate (mkCUfileError 0 0) 1 true;
   ReaderCreate "/r" (mkCreation 8 0 (mkCUfileError 0 0) 70 4096);
   WriterCreate "/w" (mkCreation 9 0 (mkCUfileError 0 0) 71 8192);
   ReadFile 4096 1000 10 0 0 (mkIoAnswer 10 0); OtherOpens 10 (mkDescriptor "/o" [] 0); HandleDestroy 4096;
   WriterCreate "/v" (mkCreation 8 0 (mkCUfileError 5027 0) 70 4096)].

Example demo_escapes :
  escaped (run_jni demo_ops (start_native ∅)) = Some (LogicError "Failed to register cuFile handle: unregistered").
Proof. reflexivity. Qed.

Lemma native_files_owned_witness :
  files (run_jni demo_ops (start_native ∅)) = {[8192 := mkFile 9 71]} /\
  owned {[10]} (run_jni demo_ops (start_native ∅)).
Proof.
  split; [reflexivity|]. replace {[10]} with (foldl op_theirs (dom (∅ : gmap Z descriptor)) demo_ops) by reflexivity.
  apply (native_files_owned demo_ops ∅). unfold demo_ops. simpl. unfold op_careful, creation_ok. split_and!; try done.
  all: vm_compute; try (by intros ?%not_elem_of_empty); try (by left); naive_solver.
Defined.
